(* ===== verification/_CoqProject ===== *)
-Q . S2P
Prelude.v
Types.v
Text.v
Logging.v
Codec.v
Service.v
Engine.v
StorageSpec.v
Raft.v
RaftSafety.v
Consensus.v
ConsensusSafety.v
RaftStorage.v
Keyspace.v
Snapshot.v
Cluster.v
ClusterSpec.v
Region.v
RegionRestart.v
Pd.v
PdSpec.v
PdSafety.v
PdCatalog.v
Multi.v
MultiSpec.v
MultiRegion.v
MultiRestart.v
Gateway.v
GatewaySpec.v
PdService.v
RaftWire.v
Distributed.v
Tcp.v
Threads.v
ThreadsSpec.v
PdThreads.v
DistributedSpec.v
NodeRestart.v
Replication.v
ReplicaLife.v
ReplicaGroup.v
ReplicaSafety.v
StoreNode.v
StoreService.v
RpcGateway.v
GatewayService.v
KvSession.v
RpcSession.v
Cli.v
Config.v
StatusJson.v
Dashboard.v
Processes.v
Group.v
Liveness.v
GroupSession.v
Recovery.v
Stack.v
GroupStart.v
