(* ===== verification/Prelude.v ===== *)
(** * RStone: a verification library

    RStone is a distributed key-value store in C++17: keys are grouped in
    regions (half-open ranges of byte strings), every region is replicated over
    several stores by Raft, a placement driver (PD) knows regions, stores and
    peers, and a gateway routes requests. This library models the program's own
    logic, file by file under src/, and proves what makes each part correct.

    ** How the program is put together

    - The engine (src/storage/file_kv_engine.cpp) is a map in memory with an
      append-only text log; Raft state, log entries and user data of a store
      share one engine, told apart by key prefix.
    - A Raft node (src/raft/raft_node.cpp) is a state machine without I/O; its
      owner calls its handlers and writes hard state and log entries through
      src/raft/raft_storage.cpp.
    - A single-region cluster (src/store/single_region_cluster.cpp) owns the
      stores of a region and calls them one after the other: elections,
      replication, commit, membership. A multi-region cluster
      (src/store/multi_region_cluster.cpp) owns one such cluster per region,
      routes by key and splits regions by moving data.
    - The placement driver (src/pd/) allocates ids, keeps the region table with
      a start-key index, and writes all of it to a catalog file after every
      operation. Its RPC face is src/pd/pd_service.cpp, over field maps
      (src/rpc/rpc_codec.cpp, src/common/serialization.cpp).
    - The in-process gateway (src/gateway/gateway_server.cpp, route_cache.cpp)
      asks the driver for a route and hands the request to the clusters; the
      client (src/client/rstone_client.cpp) holds a gateway.
    - In the distributed mode every store is a process. A region's replica
      (src/store/distributed_region_node.cpp) drives elections and replication by
      RPC calls to the other stores; a store process hosts one replica per region
      (distributed_store_node.cpp). Every store, of whichever mode, is reached
      through the handlers of src/store/store_service.cpp.
    - The RPC gateway (src/gateway/rpc_gateway_client.cpp, behind
      gateway_service.cpp) caches routes, sends requests to stores and retries
      once when a store calls the route stale. RPC messages travel as frames over
      TCP (src/rpc/tcp_rpc.cpp).
    - The programs: the server (src/main.cpp) starts one of the three processes
      from a configuration file (src/common/config.cpp), the command line client
      (src/tools/rstone_cli.cpp) sends one request, and the dashboard
      (src/dashboard/) serves the cluster's status as JSON over HTTP.

    ** Effects

    A function that returns a Status is a computation [M Status S A] (here
    [IO S A]): it maps a state to a [result] and the state left behind. [Err] is
    a returned error; [Fault] is an exception nobody catches or an access the
    language leaves undefined; both keep the changes made before. The disk is a
    component of the state ([Engine.Disk]): the text of every file and the list
    of outcomes the next I/O calls will have, so that a theorem may quantify
    over failing disks; [disk_ok] says no call fails. A write that fails may have
    written a part of its text, and the stream may notice the error when the code
    asks it or only when it closes, where nobody looks ([Engine.IoFault]). There is
    no empty path: [create_directories] of one fails or throws. Objects owned by other
    objects are fields of a record, and a call on one is [zoom], [at_store],
    [on_cluster] and the like, which run it on the field and put it back.
    A process that calls others has the rest of the world, the network, as one
    more component of its state, which only calls change.
    64-bit unsigned numbers are [N] with [u64] written where the code may wrap.

    ** Files and what they show

    - Prelude: results, the state monad and its automation ([run], [run_call]),
      [u64], ordered iteration of maps ([kvs]), filters of sorted lists.
      Logging: logging.h, the lines the processes print.
      Keyspace: the keys of users and of the Raft state in one engine.
    - Types: status and error codes, stores, regions, peers, epochs
      (src/common/types.h, status.h, error_code.h) and region.cpp; ranges and
      their division by a split key.
    - Text: the text the program reads and writes: whitespace words, lines,
      decimal numbers ([stoull], [stoi]), hex.
    - Codec: field maps, RPC envelopes, handler tables and dispatch
      (src/rpc/), store and region records (src/common/serialization.cpp).
    - Engine: file_kv_engine.cpp, the [KvEngine] interface of kv_engine.h as a
      class with its laws ([KvEngineLaws]) and its instance, and kv_command.cpp.
    - StorageSpec: the engine is a map, survives restarts and applies commands;
      codecs are inverted by their decoders; a batch on a failing disk, of whose
      records one may be torn.
    - Raft: raft_node.cpp, with the log invariant [node_wf] and the effect of
      each handler. RaftSafety: election safety from recorded votes, the vote
      rule, log matching, preservation of committed entries; and what a heartbeat
      or a gapped request can do wrong. Consensus: a group of nodes on a network that delays,
      reorders, repeats and loses messages, as events with their guards ([happen],
      [can_happen]), and its invariant over the logs the leaders had ([net_ok]).
      ConsensusSafety: a committed entry is the same everywhere for ever, every
      later leader has it, every node keeps its invariant and reads within its log
      whatever was sent, and each entry is applied once.
    - RaftStorage: raft_storage.cpp against the engine interface; state and log
      round trips. Snapshot: snapshot.cpp; restore, and termination of reading.
    - Cluster: single_region_cluster.cpp. ClusterSpec: the agreement invariant
      [in_sync] and what every operation does to it. Region: the abstract
      region (a map and a set of members) and the proof that the cluster
      implements it. RegionRestart: what the engines of a region's stores hold
      is what the stores have in memory, whatever it served, so a process that
      stops and starts again on the directory goes on.
    - Multi: multi_region_cluster.cpp. MultiSpec: regions that partition the
      key space serve one map, shard by shard, writes of each region used only
      through the contract of Region. MultiRegion: the theorems, the region catalog,
      batches. MultiRestart: the same with stops and starts in the history, the
      region table read back from the catalog.
    - Pd: metadata_store.cpp, pd_server.cpp, scheduler.cpp. PdSpec: ranges,
      index, peers and stores ([meta_ok]) preserved by each operation whatever
      the disk does. PdSafety: the invariant over histories, routing, splits,
      operators. PdCatalog: restart from the catalog.
    - PdService: pd_service.cpp; calls over RPC are the calls. PdThreads: the
      driver behind its port, every connection a thread; its threads take turns, the
      answers of the handlers that ask twice are put together from two points of the
      order, and a route asked for so is a route whatever happens in between.
    - Gateway: route_cache.cpp, gateway_server.cpp, rstone_client.cpp.
      GatewaySpec: a client session over any driver, regions and cache reads
      as one map.
    - Service: what RPC services share, and the class [Transport], the one thing
      a process needs of the network: a call to an endpoint ends in a response.
    - RaftWire: the field encoders and decoders of Raft messages, and their
      round trips. Tcp: tcp_rpc.cpp over sockets that move any part of what is
      asked; frames are bounded and read back, and a call over a
      connection that loses nothing is the handler, which justifies [Transport].
    - Threads: the accept loop, the detached threads of the connections and [Stop]
      as turns of a process, and handlers as programs of critical sections ([Act]);
      the same for both servers. ThreadsSpec: what the threads guarantee whatever the
      interleaving, [Stop], and a thread that runs alone.
    - Distributed: distributed_region_node.cpp. DistributedSpec: the calls a
      request makes are bounded. NodeRestart: what a replica has on disk after any
      messages, and that a process started on its directory is in that state.
      Replication: the class [ReplicaContract] of what the other stores keep and
      answer, and against it: an acknowledged write is on a majority. ReplicaLife:
      a replica against any network, as it is messaged, written to, told to hand
      over and restarted: node, engine and disk agree, it takes only Raft's steps,
      and it votes once a term. ReplicaGroup: the class [GroupNetwork], a network
      that belongs to a group of Consensus; against it everything a replica does
      is a sequence of events of the group. ReplicaSafety: so the writes it
      acknowledges stay; and a network that keeps the contract. Group: a
      group of processes that keeps the contract. Liveness: in such a group writes
      succeed while a majority answers; a follower with a longer log breaks its
      leader. GroupSession: requests of the gateway at the leader's process.
      Recovery: processes that stop and start again while clients go on; what
      they read is one map ([cluster_recovers]).
    - StoreNode: distributed_store_node.cpp. StoreService: store_service.cpp over
      its four back ends.
    - RpcGateway: rpc_gateway_client.cpp. GatewayService: gateway_service.cpp.
      KvSession: the classes [PdClient], a client of the driver, and [KvStore],
      what a store side promises the gateway; against them a session through the
      gateway reads as one map, whatever routes it has cached. RpcSession: the
      store that simulates all regions keeps [KvStore]; GroupSession: so does a
      group of store processes.
    - Config: config.cpp; outlines load as their settings. StatusJson:
      status_json.cpp; the page is the JSON document of the status exactly when no
      control character is in it. Dashboard: dashboard_server.cpp, its threads
      sharing the gateway's client section by section; every request is answered and
      nothing changes.
    - Cli: rstone_cli.cpp, and what its invocations print against a gateway.
      Processes: main.cpp. Stack: the three processes started on empty
      directories serve one map to the command line client. GroupStart: so do the
      processes of the distributed mode, each of which waits for the others.

    ** Bounds and fuel

    Loops over containers are structural. [Raft.take_committed] runs on the
    distance between commit and apply index, its exact number of rounds;
    [Snapshot.read_records] runs on the length of the text, enough because each
    round consumes a character ([snapshot_reading_ends]). The transfer loops
    ([Tcp.write_all], [Tcp.read_all], [Dashboard.http_write_all]) run on the
    number of bytes, enough because every round moves one or fails. The attempts
    of [Distributed.replicate] (8), [Processes.register_attempts] (100) and
    [Processes.await_regions] (200) are the code's own bounds. The JSON reader, a
    specification, runs on the length of its text, which
    [status_json_reads_back] shows to be enough. Theorems about counters
    assume they stay below 2^64 for the operations considered; theorems about
    allocation assume the id allocators do. Batches hold at most
    [Engine.max_mutations] mutations, the limit of the vector the decoder
    reserves.

    ** Conditions

    The theorems that say one map is read are about keys the program does not use
    itself and writes of keys that are not empty ([session_ok], [group_op],
    [op_ok], [keys_ok]); no layer refuses the others, and lemmas show what goes wrong
    with them ([empty_key_put_stores_value_as_key], [empty_delete_blocks_restart],
    [add_peer_drops_reserved_keys]). Histories of the driver are those in which ids
    do not run out and a bootstrap names each store once ([pd_permitted],
    [bootstrap_twice_on_a_store]). Data directories have names. Runs of a group are
    those of [can_happen], which [replica_joins_group] shows a replica keeps to.

    ** Not modelled

    Threads: the engine, the placement driver and the RPC server guard each
    operation with a mutex, so their operations are atomic steps, in the order of
    the list or history a theorem quantifies over, or interleaved by the turns of
    Threads (PdThreads); Raft nodes, clusters, gateways and the services in front of
    them take no lock and are modelled for one caller at a time, although the TCP
    server runs every connection in a thread of its own: two of their operations at
    a time are a data race, to which the language gives no meaning. The dashboard's
    threads race for the gateway's client in the same way; in Dashboard every access
    to one of its fields is a step, the steps come one after the other, and a call
    through it is one step of the world that answers it. File descriptors are not numbers in
    Threads, so that one is reused while the accept loop still holds it is not
    modelled. Sleeping and waiting, which change nothing of the process's own
    state; the clock is part of the state where it is shown, and gives the times
    of the lines in [Logging.std_err].
    What the kernel does (sockets, ports, transfers) is a parameter of Tcp and
    Processes. A file is read in one step. A process of a group stops between two requests, or dies of one
    and is gone; what it has written is on its disk, as the engine closes its log
    after every record, and a machine that loses power is not modelled. In Consensus
    and ReplicaGroup a replica that calls the others serves nobody until its request
    ends, while the others go on; messages of a leader carry a slice of its log that
    reaches its commit position, as distributed_region_node.cpp builds them, and not
    the heartbeats single_region_cluster.cpp makes from a follower's own position,
    which are safe in its lockstep only ([heartbeat_commits_unmatched]). *)

From Stdlib Require Export Lia.
From stdpp Require Export base gmap strings sorting pretty numbers list.

From Stdlib Require Ascii.
Export (notations) Stdlib.Strings.Ascii.

Abbreviation ascii := Ascii.ascii.

(** * Generic vocabulary *)

(** ** Outcomes of C++ functions

    [Ok a] is a normal return (a [Status::Ok()] together with the output
    parameters), [Err st] is a return of a non-ok [Status], and [Fault f] is
    a thrown exception nobody catches or an access the language leaves
    undefined. *)
Inductive fault :=
  | ExnInvalidArgument   (* std::invalid_argument: std::stoull without digits *)
  | ExnOutOfRange        (* std::out_of_range: stoull overflow, map::at *)
  | ExnLengthError       (* std::length_error: vector::reserve *)
  | ExnFilesystem        (* std::filesystem::filesystem_error *)
  | Undefined.           (* out-of-bounds element, null pointer *)

Inductive result (E A : Type) :=
  | Ok (a : A)
  | Err (e : E)
  | Fault (f : fault).
Arguments Ok {E A} a.
Arguments Err {E A} e.
Arguments Fault {E A} f.

#[export] Instance fault_eq_dec : EqDecision fault.
Proof. solve_decision. Defined.
#[export] Instance result_eq_dec `{EqDecision E, EqDecision A} :
  EqDecision (result E A).
Proof. solve_decision. Defined.

#[export] Instance result_ret {E} : MRet (result E) := λ A a, Ok a.
#[export] Instance result_bind {E} : MBind (result E) := λ A B f m,
  match m with Ok a => f a | Err e => Err e | Fault x => Fault x end.
#[export] Instance result_fmap {E} : FMap (result E) := λ A B f m,
  match m with Ok a => Ok (f a) | Err e => Err e | Fault x => Fault x end.

(** ** Stateful computations: an outcome and the state left behind, the
    state surviving errors and exceptions as the code's members do. *)
Definition M (E S A : Type) : Type := S → result E A * S.

#[export] Instance M_ret {E S} : MRet (M E S) := λ A a s, (Ok a, s).
#[export] Instance M_bind {E S} : MBind (M E S) := λ A B f m s,
  match m s with
  | (Ok a, s') => f a s'
  | (Err e, s') => (Err e, s')
  | (Fault x, s') => (Fault x, s')
  end.

Section state.
Context {E S : Type}.

Definition get : M E S S := λ s, (Ok s, s).
Definition gets {A} (f : S → A) : M E S A := λ s, (Ok (f s), s).
Definition put (s : S) : M E S unit := λ _, (Ok tt, s).
Definition modify (f : S → S) : M E S unit := λ s, (Ok tt, f s).
Definition fail {A} (e : E) : M E S A := λ s, (Err e, s).
Definition throw {A} (f : fault) : M E S A := λ s, (Fault f, s).
Definition lift {A} (r : result E A) : M E S A := λ s, (r, s).

(** [(void)f();]: the status is dropped, exceptions still propagate. *)
Definition ignore {A} (m : M E S A) : M E S unit := λ s,
  match m s with
  | (Fault x, s') => (Fault x, s')
  | (_, s') => (Ok tt, s')
  end.

(** The status of a call as a value, for code that inspects it. *)
Definition status_of {A} (m : M E S A) : M E S (A + E) := λ s,
  match m s with
  | (Ok a, s') => (Ok (inl a), s')
  | (Err e, s') => (Ok (inr e), s')
  | (Fault x, s') => (Fault x, s')
  end.
End state.

(** Run a computation on a part of the state (a member object). *)
Definition zoom {E S T A} (proj : S → T) (upd : T → S → S) (m : M E T A) :
    M E S A := λ s,
  let '(r, t) := m (proj s) in (r, upd t s).

(** A range-for over a vector of objects mutated in place, [d] being state
    outside the vector and [a] the loop's locals.  An early return leaves
    the elements after the current one untouched. *)
Fixpoint traverse {E D S A} (f : A → M E (D * S) A) (ss : list S) (a : A)
    (d : D) : result E A * (D * list S) :=
  match ss with
  | [] => (Ok a, (d, []))
  | s :: rest =>
      match f a (d, s) with
      | (Ok a', (d', s')) =>
          let '(r, (d'', rest')) := traverse f rest a' d' in
          (r, (d'', s' :: rest'))
      | (Err e, (d', s')) => (Err e, (d', s' :: rest))
      | (Fault x, (d', s')) => (Fault x, (d', s' :: rest))
      end
  end.

(** ** Running computations *)
Section run.
Context {E S A B : Type}.
Implicit Types (f : A → M E S B) (s : S).

Lemma bind_ok (m : M E S A) f s a s' : m s = (Ok a, s') → (m ≫= f) s = f a s'.
Proof. intros H. unfold mbind, M_bind. by rewrite H. Qed.

Lemma bind_err (m : M E S A) f s e s' : m s = (Err e, s') → (m ≫= f) s = (Err e, s').
Proof. intros H. unfold mbind, M_bind. by rewrite H. Qed.

Lemma bind_fault (m : M E S A) f s x s' :
  m s = (Fault x, s') → (m ≫= f) s = (Fault x, s').
Proof. intros H. unfold mbind, M_bind. by rewrite H. Qed.

Lemma bind_Ok_inv (m : M E S A) f s b s' :
  (m ≫= f) s = (Ok b, s') → ∃ a s1, m s = (Ok a, s1) ∧ f a s1 = (Ok b, s').
Proof.
  unfold mbind, M_bind. destruct (m s) as [[a|e|x] s1]; [|done..]. eauto.
Qed.

Lemma ret_bind (a : A) f s : ((mret a : M E S A) ≫= f) s = f a s.
Proof. done. Qed.
Lemma gets_bind (g : S → A) f s : (gets g ≫= f) s = f (g s) s.
Proof. done. Qed.
Lemma lift_ok_bind (a : A) f s : (lift (Ok a) ≫= f) s = f a s.
Proof. done. Qed.
Lemma lift_err_bind (e : E) f s : (lift (Err e) ≫= f) s = (Err e, s).
Proof. done. Qed.
Lemma fail_bind (e : E) f s : (fail e ≫= f) s = (Err e, s).
Proof. done. Qed.
Lemma throw_bind (x : fault) f s : (throw x ≫= f) s = (Fault x, s).
Proof. done. Qed.
Lemma ret_run (a : A) s : (mret a : M E S A) s = (Ok a, s).
Proof. done. Qed.
End run.

Lemma modify_bind {E S B} (g : S → S) (f : unit → M E S B) s :
  (modify g ≫= f) s = f tt (g s).
Proof. done. Qed.
Lemma get_bind {E S B} (f : S → M E S B) s : (get ≫= f) s = f s s.
Proof. done. Qed.

Section outcomes.
Context {E S A : Type}.
Implicit Types (m : M E S A) (s : S).

Lemma ignore_ok m s a s' : m s = (Ok a, s') → ignore m s = (Ok tt, s').
Proof. intros Hm. unfold ignore. by rewrite Hm. Qed.
Lemma status_of_ok m s a s' : m s = (Ok a, s') → status_of m s = (Ok (inl a), s').
Proof. intros Hm. unfold status_of. by rewrite Hm. Qed.
Lemma status_of_err m s e s' : m s = (Err e, s') → status_of m s = (Ok (inr e), s').
Proof. intros Hm. unfold status_of. by rewrite Hm. Qed.
End outcomes.

Create Rewrite HintDb run.
#[export] Hint Rewrite @ret_bind @gets_bind @lift_ok_bind @lift_err_bind @fail_bind
  @throw_bind @modify_bind @get_bind : run.

(** Execute the leading primitive steps. *)
Ltac run := repeat (autorewrite with run; cbv beta iota).

(** Execute a call whose outcome [tac] establishes. *)
Ltac run_call tac :=
  first [erewrite bind_ok; [|solve [tac]] | erewrite bind_err; [|solve [tac]]
        | erewrite bind_fault; [|solve [tac]]]; cbv beta iota.

(** ** 64-bit unsigned arithmetic *)
Definition two64 : N := 18446744073709551616.
Definition u64 (n : N) : N := n `mod` two64.
(** [a - b] on unsigned operands. *)
Definition u64_sub (a b : N) : N := u64 (a + (two64 - b `mod` two64)).

Lemma u64_small n : (n < two64)%N → u64 n = n.
Proof. apply N.mod_small. Qed.

Lemma u64_lt n : (u64 n < two64)%N.
Proof. by apply N.mod_lt. Qed.

Lemma u64_sub_le a b : (b ≤ a)%N → (a < two64)%N → u64_sub a b = (a - b)%N.
Proof.
  intros. unfold u64_sub, u64. rewrite (N.mod_small b) by lia.
  replace (a + (two64 - b))%N with (a - b + 1 * two64)%N by lia.
  rewrite N.Div0.mod_add. apply N.mod_small. lia.
Qed.

Definition two63 : Z := 9223372036854775808.
Definition two31 : Z := 2147483648.

(** ** Ordered iteration over [std::map] *)
Class KeyOrder (K : Type) := {
  key_le : relation K;
  key_le_dec :: RelDecision key_le;
  key_le_po :: PartialOrder key_le;
  key_le_total :: Total key_le;
}.

#[export] Instance string_order : KeyOrder string := {| key_le := String.le |}.
#[export] Instance N_order : KeyOrder N := {| key_le := N.le |}.

Definition entry_le {K A} `{KeyOrder K} (x y : K * A) : Prop := key_le x.1 y.1.

#[export] Instance entry_le_dec {K A} `{KeyOrder K} : RelDecision (@entry_le K A _).
Proof. intros x y. unfold entry_le. apply _. Defined.

Section ordered.
Context {K : Type} `{Countable K} `{!KeyOrder K} {A : Type}.
Implicit Types (m : gmap K A) (l : list (K * A)).

(** The elements of a [std::map] in iteration order. *)
Definition kvs m : list (K * A) := merge_sort entry_le (map_to_list m).

#[local] Instance entry_le_total : Total (@entry_le K A _).
Proof. intros x y. apply (total key_le). Qed.
#[local] Instance entry_le_trans : Transitive (@entry_le K A _).
Proof. intros x y z. unfold entry_le. apply (transitivity (R := key_le)). Qed.

Lemma kvs_perm m : kvs m ≡ₚ map_to_list m.
Proof. apply merge_sort_Permutation. Qed.

Lemma kvs_sorted m : StronglySorted entry_le (kvs m).
Proof. apply StronglySorted_merge_sort; apply _. Qed.

Lemma kvs_nodup m : NoDup (kvs m).*1.
Proof. rewrite kvs_perm. apply NoDup_fst_map_to_list. Qed.

Lemma kvs_to_map m : list_to_map (kvs m) = m.
Proof.
  rewrite <-(list_to_map_to_list m) at 2.
  apply list_to_map_proper; [apply kvs_nodup | apply kvs_perm].
Qed.

Lemma elem_of_kvs m k x : (k, x) ∈ kvs m ↔ m !! k = Some x.
Proof. by rewrite kvs_perm, elem_of_map_to_list. Qed.

Lemma kvs_length m : length (kvs m) = size m.
Proof. rewrite kvs_perm. apply length_map_to_list. Qed.

(** A list sorted by key, without duplicate keys, is the iteration order of
    its map. *)
Lemma kvs_unique m l :
  StronglySorted entry_le l → NoDup l.*1 → list_to_map l = m → kvs m = l.
Proof.
  intros Hs Hnd <-. apply (StronglySorted_unique_strong entry_le).
  - intros [k1 x1] [k2 x2] H1 H2 Hle1 Hle2. unfold entry_le in *. simpl in *.
    assert (k1 = k2) as -> by (by apply (anti_symm key_le)).
    apply elem_of_kvs in H1. f_equal.
    apply (elem_of_list_to_map (M := gmap K)) in H2; [|done]. congruence.
  - apply kvs_sorted.
  - done.
  - by rewrite kvs_perm, map_to_list_to_map.
Qed.

Lemma kvs_empty : kvs ∅ = [].
Proof. unfold kvs. by rewrite map_to_list_empty. Qed.
End ordered.

(** [it = lower_bound(k); while (it != end && P(it))]: skip, then take. *)
Fixpoint drop_while {A} (p : A → bool) (l : list A) : list A :=
  match l with
  | [] => []
  | x :: l' => if p x then drop_while p l' else l
  end.

Fixpoint take_while {A} (p : A → bool) (l : list A) : list A :=
  match l with
  | [] => []
  | x :: l' => if p x then x :: take_while p l' else []
  end.

Lemma list_filter_iff_all {A} (P : A → Prop) `{∀ x, Decision (P x)} (l : list A) :
  (∀ x, x ∈ l → P x) → filter P l = l.
Proof.
  induction l as [|x l IH]; intros HP; [done|]. rewrite filter_cons.
  rewrite decide_True by apply HP, list_elem_of_here. f_equal. apply IH.
  intros y Hy. by apply HP, list_elem_of_further.
Qed.

Lemma list_filter_none {A} (P : A → Prop) `{∀ x, Decision (P x)} (l : list A) :
  (∀ x, x ∈ l → ¬ P x) → filter P l = [].
Proof.
  induction l as [|x l IH]; intros HP; [done|]. rewrite filter_cons.
  rewrite decide_False by apply HP, list_elem_of_here. apply IH.
  intros y Hy. by apply HP, list_elem_of_further.
Qed.

Lemma list_filter_ext {A} (P Q : A → Prop) `{∀ x, Decision (P x), ∀ x, Decision (Q x)} (l : list A) :
  (∀ x, x ∈ l → P x ↔ Q x) → filter P l = filter Q l.
Proof.
  induction l as [|x l IH]; intros HPQ; [done|]. rewrite !filter_cons.
  rewrite IH by (intros y Hy; by apply HPQ, list_elem_of_further).
  specialize (HPQ x (list_elem_of_here _ _)). by repeat case_decide; try naive_solver.
Qed.

Lemma list_filter_and {A} (P Q : A → Prop) `{∀ x, Decision (P x), ∀ x, Decision (Q x)} (l : list A) :
  filter P (filter Q l) = filter (λ x, P x ∧ Q x) l.
Proof.
  induction l as [|x l IH]; [done|]. rewrite !(filter_cons _ x).
  destruct (decide (Q x)) as [HQ | HQ].
  - rewrite filter_cons, IH. by repeat case_decide; try naive_solver.
  - rewrite IH. case_decide; [naive_solver | done].
Qed.

Lemma StronglySorted_impl {A} (R Q : relation A) (l : list A) :
  (∀ x y, R x y → Q x y) → StronglySorted R l → StronglySorted Q l.
Proof.
  intros HRQ. induction 1 as [|x l Hs IH Hall]; constructor; [done|].
  eapply list.Forall_impl; [exact Hall | naive_solver].
Qed.

Lemma StronglySorted_filter {A} (R : relation A) (P : A → Prop)
    `{∀ x, Decision (P x)} (l : list A) :
  StronglySorted R l → StronglySorted R (filter P l).
Proof.
  induction 1 as [|x l Hs IH Hall]; [constructor|]. rewrite filter_cons.
  case_decide; [|done]. constructor; [done|]. rewrite list.Forall_forall in *.
  intros y [_ Hy]%list_elem_of_filter. by apply Hall.
Qed.

Section while_sorted.
Context {A : Type} (R : relation A).

Lemma drop_while_filter (p : A → bool) (l : list A) :
  StronglySorted R l → (∀ x y, R x y → p y = true → p x = true) →
  drop_while p l = filter (λ x, p x = false) l.
Proof.
  intros Hs Hp. induction Hs as [|x l Hs IH Hall]; [done|]. simpl.
  destruct (p x) eqn:Hx; rewrite filter_cons, Hx.
  - by rewrite decide_False, IH.
  - rewrite decide_True by done. f_equal. symmetry. apply list_filter_iff_all.
    intros y Hy. destruct (p y) eqn:Hpy; [|done].
    rewrite list.Forall_forall in Hall. specialize (Hp x y (Hall y Hy) Hpy). congruence.
Qed.

Lemma take_while_filter (p : A → bool) (l : list A) :
  StronglySorted R l →
  (∀ x y, x ∈ l → R x y → p y = true → p x = true) →
  take_while p l = filter (λ x, p x = true) l.
Proof.
  intros Hs. induction Hs as [|x l Hs IH Hall]; intros Hp; [done|]. simpl.
  destruct (p x) eqn:Hx; rewrite filter_cons, Hx.
  - rewrite decide_True by done. f_equal. apply IH. intros a b Ha.
    apply Hp. by apply list_elem_of_further.
  - rewrite decide_False by done. symmetry. apply list_filter_none.
    intros y Hy Hpy. rewrite list.Forall_forall in Hall.
    rewrite (Hp x y (list_elem_of_here _ _) (Hall y Hy) Hpy) in Hx. done.
Qed.
End while_sorted.
