(* ===== verification/Types.v ===== *)
(** The data model shared by every part of RStone: error codes and statuses
    (include/rstone/common/error_code.h, status.h), the records of
    include/rstone/common/types.h, and the region predicates of
    src/region/region.cpp with the facts about key ranges that the metadata
    server, the route cache and the region clusters use. *)

From S2P Require Import Prelude.

(** * Error codes and statuses *)

Inductive ErrorCode :=
  | kOk | kInvalidArgument | kKeyNotFound | kCasFailed | kNotLeader
  | kRegionNotFound | kStaleEpoch | kEpochNotMatch | kStoreNotFound
  | kPdUnavailable | kRaftNotReady | kTermOutdated | kLogConflict
  | kSnapshotRequired | kRpcTimeout | kRpcError | kStorageError
  | kConfigChangeInProgress | kIoError | kInternal.

#[export] Instance ErrorCode_eq_dec : EqDecision ErrorCode.
Proof. solve_decision. Defined.

Definition ErrorCodeName (code : ErrorCode) : string :=
  match code with
  | kOk => "OK"
  | kInvalidArgument => "INVALID_ARGUMENT"
  | kKeyNotFound => "KEY_NOT_FOUND"
  | kCasFailed => "CAS_FAILED"
  | kNotLeader => "NOT_LEADER"
  | kRegionNotFound => "REGION_NOT_FOUND"
  | kStaleEpoch => "STALE_EPOCH"
  | kEpochNotMatch => "EPOCH_NOT_MATCH"
  | kStoreNotFound => "STORE_NOT_FOUND"
  | kPdUnavailable => "PD_UNAVAILABLE"
  | kRaftNotReady => "RAFT_NOT_READY"
  | kTermOutdated => "TERM_OUTDATED"
  | kLogConflict => "LOG_CONFLICT"
  | kSnapshotRequired => "SNAPSHOT_REQUIRED"
  | kRpcTimeout => "RPC_TIMEOUT"
  | kRpcError => "RPC_ERROR"
  | kStorageError => "STORAGE_ERROR"
  | kConfigChangeInProgress => "CONFIG_CHANGE_IN_PROGRESS"
  | kIoError => "IO_ERROR"
  | kInternal => "INTERNAL"
  end.

Record Status := mkStatus { code_ : ErrorCode; message_ : string }.

#[export] Instance Status_eq_dec : EqDecision Status.
Proof. solve_decision. Defined.

Definition Status_Ok : Status := mkStatus kOk "".
Definition InvalidArgument (message : string) : Status :=
  mkStatus kInvalidArgument message.
Definition KeyNotFound (message : string) : Status :=
  mkStatus kKeyNotFound message.
Definition IoError (message : string) : Status := mkStatus kIoError message.
Definition Internal (message : string) : Status := mkStatus kInternal message.

Definition Status_ok (st : Status) : bool := bool_decide (code_ st = kOk).

Definition Status_ToString (st : Status) : string :=
  if Status_ok st then ErrorCodeName (code_ st)
  else ErrorCodeName (code_ st) +:+ ": " +:+ message_ st.

(** [Status]-returning functions: [Ok] is [Status::Ok()]. *)
Abbreviation res := (result Status).
Abbreviation IO := (M Status).

(** * Records of types.h *)

Inductive Role := kPd | kGateway | kStore | kUnknown.
Inductive PeerRole := kVoter | kLearner.
Inductive Consistency := kLinearizable | kEventual.

#[export] Instance Role_eq_dec : EqDecision Role.
Proof. solve_decision. Defined.
#[export] Instance PeerRole_eq_dec : EqDecision PeerRole.
Proof. solve_decision. Defined.
#[export] Instance Consistency_eq_dec : EqDecision Consistency.
Proof. solve_decision. Defined.

Record Endpoint := mkEndpoint { host : string; port : Z }.

Definition default_endpoint : Endpoint := mkEndpoint "127.0.0.1" 0.
Definition Endpoint_ToString (e : Endpoint) : string :=
  host e +:+ ":" +:+ pretty (port e).

Record StoreInfo := mkStore {
  store_id : N;
  raft_endpoint : Endpoint;
  client_endpoint : Endpoint;
  store_state : string;
  labels : gmap string string;
  last_heartbeat_ms : Z;
}.

Definition default_store : StoreInfo :=
  mkStore 0 default_endpoint default_endpoint "Up" ∅ 0.

Record RegionEpoch := mkEpoch { conf_ver : N; version : N }.

Record Peer := mkPeer {
  peer_id : N;
  peer_store_id : N;
  peer_role : PeerRole;
}.

Record RegionInfo := mkRegion {
  region_id : N;
  start_key : string;
  end_key : string;
  epoch : RegionEpoch;
  peers : list Peer;
  leader_peer_id : N;
}.

Definition default_region : RegionInfo := mkRegion 0 "" "" (mkEpoch 1 1) [] 0.

#[export] Instance Endpoint_eq_dec : EqDecision Endpoint.
Proof. solve_decision. Defined.
#[export] Instance StoreInfo_eq_dec : EqDecision StoreInfo.
Proof. solve_decision. Defined.
#[export] Instance RegionEpoch_eq_dec : EqDecision RegionEpoch.
Proof. solve_decision. Defined.
#[export] Instance Peer_eq_dec : EqDecision Peer.
Proof. solve_decision. Defined.
#[export] Instance RegionInfo_eq_dec : EqDecision RegionInfo.
Proof. solve_decision. Defined.

(** * region.cpp *)

Definition ContainsKey (region : RegionInfo) (key : string) : bool :=
  let after_start :=
    bool_decide (start_key region = "") || String.leb (start_key region) key in
  let before_end :=
    bool_decide (end_key region = "") || String.ltb key (end_key region) in
  after_start && before_end.

Definition EpochEqual (lhs rhs : RegionEpoch) : bool :=
  (conf_ver lhs =? conf_ver rhs)%N && (version lhs =? version rhs)%N.

Definition EpochStale (request current : RegionEpoch) : bool :=
  (conf_ver request <? conf_ver current)%N
  || (version request <? version current)%N.

Definition FindPeer (region : RegionInfo) (id : N) : option Peer :=
  List.find (λ peer, (peer_id peer =? id)%N) (peers region).

Definition FindPeerByStore (region : RegionInfo) (sid : N) : option Peer :=
  List.find (λ peer, (peer_store_id peer =? sid)%N) (peers region).

(** ** Byte-string order *)

Lemma ltb_leb a b : String.ltb a b = negb (String.leb b a).
Proof.
  unfold String.ltb, String.leb. rewrite (String.compare_antisym b a).
  by destruct (a ?= b)%string.
Qed.

Lemma leb_refl a : String.leb a a = true.
Proof. apply Is_true_true. apply (reflexivity (R := String.le)). Qed.

Lemma leb_trans a b c :
  String.leb a b = true → String.leb b c = true → String.leb a c = true.
Proof.
  rewrite <-!Is_true_true. apply (transitivity (R := String.le)).
Qed.

Lemma leb_false_total a b : String.leb a b = false → String.leb b a = true.
Proof. destruct (String.leb_total a b); congruence. Qed.

Lemma leb_empty s : String.leb "" s = true.
Proof. by destruct s. Qed.

Lemma leb_antisym a b : String.leb a b = true → String.leb b a = true → a = b.
Proof. apply String.leb_antisym. Qed.

(** ** Key ranges *)

Definition in_range (start_key end_key key : string) : Prop :=
  String.leb start_key key = true ∧
  (end_key = "" ∨ String.leb end_key key = false).

Lemma ContainsKey_spec r key :
  ContainsKey r key = true ↔ in_range (start_key r) (end_key r) key.
Proof.
  unfold ContainsKey, in_range.
  rewrite ltb_leb, andb_true_iff, !orb_true_iff, !bool_decide_eq_true, negb_true_iff.
  split; [|naive_solver].
  intros [[-> | ?] ?]; [|done]. split; [apply leb_empty | done].
Qed.

(** The guard of both split handlers. *)
Definition split_key_ok (r : RegionInfo) (split_key : string) : bool :=
  negb (negb (ContainsKey r split_key) || bool_decide (split_key = start_key r)
        || (negb (bool_decide (end_key r = ""))
            && bool_decide (split_key = end_key r))).

Lemma split_key_ok_spec r k :
  split_key_ok r k = true ↔ ContainsKey r k = true ∧ k ≠ start_key r.
Proof.
  unfold split_key_ok. rewrite negb_true_iff, !orb_false_iff, negb_false_iff,
    bool_decide_eq_false, andb_false_iff, negb_false_iff, bool_decide_eq_true,
    bool_decide_eq_false.
  split; [naive_solver|]. intros [Hc ?]. split; [done|].
  apply ContainsKey_spec in Hc as [? [? | Hlt]]; [by left|]. right. intros ->.
  by rewrite leb_refl in Hlt.
Qed.

(** Cutting a range at an interior key splits it into two disjoint halves. *)
Lemma split_range r k key :
  split_key_ok r k = true →
  in_range (start_key r) (end_key r) key ↔
  in_range (start_key r) k key ∨ in_range k (end_key r) key.
Proof.
  rewrite split_key_ok_spec, ContainsKey_spec. unfold in_range.
  intros [[Hs He] Hne]. split.
  - intros [H1 H2]. destruct (String.leb k key) eqn:Hk; [|naive_solver].
    right. done.
  - intros [[H1 [-> | H2]] | [H1 H2]].
    + by rewrite (leb_antisym (start_key r) "" Hs (leb_empty _)) in Hne.
    + split; [done|]. destruct He as [? | He]; [by left|]. right.
      destruct (String.leb (end_key r) key) eqn:E; [|done].
      by rewrite (leb_trans (end_key r) key k) in He
        by (done || by apply leb_false_total).
    + split; [by eapply leb_trans | done].
Qed.

Lemma split_disjoint r k key :
  split_key_ok r k = true →
  in_range (start_key r) k key → in_range k (end_key r) key → False.
Proof.
  rewrite split_key_ok_spec, ContainsKey_spec. unfold in_range.
  intros [[Hs He] Hne] [_ [-> | H1]] [H2 _]; [|congruence].
  by rewrite (leb_antisym (start_key r) "" Hs (leb_empty _)) in Hne.
Qed.

(** ** Peers *)

Lemma find_Some_spec {A} (p : A → bool) l x :
  List.find p l = Some x → x ∈ l ∧ p x = true.
Proof. intros H. apply List.find_some in H. by rewrite list_elem_of_In. Qed.

Lemma FindPeer_Some r id p : FindPeer r id = Some p → p ∈ peers r ∧ peer_id p = id.
Proof. intros [? ?%N.eqb_eq]%find_Some_spec. done. Qed.

Lemma FindPeer_None r id : FindPeer r id = None ↔ id ∉ peer_id <$> peers r.
Proof.
  unfold FindPeer. rewrite list_elem_of_fmap. split.
  - intros H (p & -> & Hp). eapply List.find_none in H; [|by apply list_elem_of_In].
    by rewrite N.eqb_refl in H.
  - intros H. destruct (List.find _ _) eqn:E; [|done].
    apply FindPeer_Some in E as [? <-]. naive_solver.
Qed.

Lemma FindPeerByStore_Some r sid p :
  FindPeerByStore r sid = Some p → p ∈ peers r ∧ peer_store_id p = sid.
Proof. intros [? ?%N.eqb_eq]%find_Some_spec. done. Qed.

Lemma FindPeerByStore_None r sid :
  FindPeerByStore r sid = None ↔ sid ∉ peer_store_id <$> peers r.
Proof.
  unfold FindPeerByStore. rewrite list_elem_of_fmap. split.
  - intros H (p & -> & Hp). eapply List.find_none in H; [|by apply list_elem_of_In].
    by rewrite N.eqb_refl in H.
  - intros H. destruct (List.find _ _) eqn:E; [|done].
    apply FindPeerByStore_Some in E as [? <-]. naive_solver.
Qed.

(** ** Order and prefixes *)

Lemma leb_cons a b s t :
  String.leb (String a s) (String b t) =
  match Ascii.compare a b with Lt => true | Eq => String.leb s t | Gt => false end.
Proof. unfold String.leb. simpl. by destruct (Ascii.compare a b). Qed.

Lemma prefix_cons a p s :
  String.prefix (String a p) s = true ↔ ∃ r, s = String a r ∧ String.prefix p r = true.
Proof.
  destruct s as [|b r]; simpl; [naive_solver|].
  destruct (Ascii.ascii_dec a b) as [-> | Hne]; [naive_solver|].
  split; [done|]. intros (r' & [= -> _] & _). done.
Qed.

Lemma ascii_compare_refl a : Ascii.compare a a = Eq.
Proof. apply N.compare_refl. Qed.

Lemma prefix_leb p k : String.prefix p k = true → String.leb p k = true.
Proof.
  revert k. induction p as [|a p IH]; intros k Hk; [apply leb_empty|].
  apply prefix_cons in Hk as (r & -> & Hr). rewrite leb_cons, ascii_compare_refl. auto.
Qed.

(** Keys with a common prefix are consecutive. *)
Lemma prefix_between p k k' :
  String.leb p k = true → String.leb k k' = true →
  String.prefix p k' = true → String.prefix p k = true.
Proof.
  revert k k'. induction p as [|a p IH]; intros k k' Hpk Hkk' Hk'; [by destruct k|].
  apply prefix_cons in Hk' as (r' & -> & Hr').
  destruct k as [|b r]; [done|]. rewrite leb_cons in Hpk, Hkk'.
  destruct (Ascii.compare a b) eqn:Hab; [|..|done].
  - apply Ascii.compare_eq_iff in Hab as ->. rewrite ascii_compare_refl in Hkk'.
    apply prefix_cons. exists r. split; [done|]. by eapply IH.
  - rewrite Ascii.compare_antisym, Hab in Hkk'. done.
Qed.
