(* ===== verification/Text.v ===== *)
(** The text primitives of the C++ standard library the source relies on
    ([std::to_string], [std::stoull], [std::stoi], word and number extraction
    from an [istringstream], [std::getline]) and the hexadecimal codec of
    src/storage/file_kv_engine.cpp every on-disk and on-wire format uses. *)

From S2P Require Import Prelude Types.

(** * Character classes *)

Definition is_digit (c : ascii) : bool :=
  (48 <=? Ascii.N_of_ascii c)%N && (Ascii.N_of_ascii c <=? 57)%N.
Definition digit_val (c : ascii) : N := (Ascii.N_of_ascii c - 48)%N.

Definition nl : ascii := Ascii.ascii_of_nat 10.
Definition newline : string := String nl "".
Definition double_quote : ascii := Ascii.ascii_of_nat 34.

Fixpoint str_all (p : ascii → bool) (s : string) : bool :=
  match s with
  | "" => true
  | String c r => p c && str_all p r
  end.

Definition no_space (s : string) : bool := str_all (λ c, negb (Ascii.is_space c)) s.

(** A non-empty run of characters without white space: what [>>] delivers. *)
Definition is_word (s : string) : bool := negb (bool_decide (s = "")) && no_space s.

(** The longest prefix of characters satisfying [p], and the rest. *)
Fixpoint span (p : ascii → bool) (s : string) : string * string :=
  match s with
  | "" => ("", "")
  | String c r => if p c then let '(a, b) := span p r in (String c a, b) else ("", s)
  end.

Definition skip_ws (s : string) : string := (span Ascii.is_space s).2.

(** [s.find(c)]: the text before and after the first [c]. *)
Fixpoint split_at (c : ascii) (s : string) : option (string * string) :=
  match s with
  | "" => None
  | String a r =>
      if decide (a = c) then Some ("", r)
      else match split_at c r with
           | Some (x, y) => Some (String a x, y)
           | None => None
           end
  end.

(** The lines successive [std::getline] calls deliver. *)
Fixpoint getlines (s : string) : list string :=
  match s with
  | "" => []
  | String a r =>
      if decide (a = nl) then "" :: getlines r
      else match getlines r with
           | [] => [String a ""]
           | l :: ls => String a l :: ls
           end
  end.

(** [key.rfind(prefix, 0) == 0]. *)
Definition starts_with (prefix key : string) : bool := String.prefix prefix key.

(** * Decimal numbers *)

Fixpoint dec_value (acc : N) (s : string) : N :=
  match s with
  | "" => acc
  | String c r => dec_value (10 * acc + digit_val c) r
  end.

(** Sign and digits as strtoull reads them: [None] when there is no digit. *)
Definition scan_number (s : string) : option (bool * N * string) :=
  let '(neg, body) :=
    match s with
    | String "-"%char r => (true, r)
    | String "+"%char r => (false, r)
    | _ => (false, s)
    end in
  let '(ds, r) := span is_digit body in
  if decide (ds = "") then None else Some (neg, dec_value 0 ds, r).

Definition stoull {E} (s : string) : result E N :=
  match scan_number (skip_ws s) with
  | None => Fault ExnInvalidArgument
  | Some (neg, v, _) =>
      if (v <? two64)%N then Ok (if neg then u64_sub 0 v else v)
      else Fault ExnOutOfRange
  end.

Definition signed (neg : bool) (v : N) : Z := if neg then (- Z.of_N v)%Z else Z.of_N v.

Definition sto_signed {E} (bound : Z) (s : string) : result E Z :=
  match scan_number (skip_ws s) with
  | None => Fault ExnInvalidArgument
  | Some (neg, v, _) =>
      let z := signed neg v in
      if (- bound <=? z)%Z && (z <? bound)%Z then Ok z else Fault ExnOutOfRange
  end.
Definition stoi {E} : string → result E Z := sto_signed two31.
Definition stoll {E} : string → result E Z := sto_signed two63.

(** [static_cast<std::int64_t>] of an unsigned value. *)
Definition to_int64 (n : N) : Z :=
  if (Z.of_N n <? two63)%Z then Z.of_N n else (Z.of_N n - Z.of_N two64)%Z.

Definition to_string (n : N) : string := pretty n.
Definition to_string_Z (z : Z) : string := pretty z.

(** * Input string streams: remaining text and the failbit, which is sticky *)

Record istream := mkStream { rest : string; failbit : bool }.

Definition istringstream (s : string) : istream := mkStream s false.

(** [input >> word] into a fresh string. *)
Definition get_word (i : istream) : string * istream :=
  if failbit i then ("", i) else
  match skip_ws (rest i) with
  | "" => ("", mkStream "" true)
  | s => let '(w, r) := span (λ c, negb (Ascii.is_space c)) s in (w, mkStream r false)
  end.

(** [input >> ch], [ch] holding NUL before. *)
Definition get_char (i : istream) : ascii * istream :=
  if failbit i then (Ascii.zero, i) else
  match skip_ws (rest i) with
  | "" => (Ascii.zero, mkStream "" true)
  | String c r => (c, mkStream r false)
  end.

(** [input >> n] into a zero-initialised 64-bit unsigned. *)
Definition get_u64 (i : istream) : N * istream :=
  if failbit i then (0%N, i) else
  match scan_number (skip_ws (rest i)) with
  | None => (0%N, mkStream "" true)
  | Some (neg, v, r) =>
      if (v <? two64)%N then (if neg then u64_sub 0 v else v, mkStream r false)
      else ((two64 - 1)%N, mkStream r true)
  end.

(** [input >> n] into a zero-initialised [int]. *)
Definition get_int (i : istream) : Z * istream :=
  if failbit i then (0%Z, i) else
  match scan_number (skip_ws (rest i)) with
  | None => (0%Z, mkStream "" true)
  | Some (neg, v, r) =>
      let z := signed neg v in
      if (z <? - two31)%Z then ((- two31)%Z, mkStream r true)
      else if (z <? two31)%Z then (z, mkStream r false)
      else ((two31 - 1)%Z, mkStream r true)
  end.

(** * Hexadecimal codec (file_kv_engine.cpp) *)

Definition HexValue (ch : ascii) : Z :=
  let c := Z.of_N (Ascii.N_of_ascii ch) in
  if ((48 <=? c) && (c <=? 57))%Z then (c - 48)%Z
  else if ((97 <=? c) && (c <=? 102))%Z then (c - 97 + 10)%Z
  else if ((65 <=? c) && (c <=? 70))%Z then (c - 65 + 10)%Z
  else (-1)%Z.

Definition hex_digit (n : N) : ascii :=
  Ascii.ascii_of_N (if (n <? 10)%N then 48 + n else 97 + (n - 10))%N.

Fixpoint HexEncode (input : string) : string :=
  match input with
  | "" => ""
  | String ch r =>
      let c := Ascii.N_of_ascii ch in
      String (hex_digit (c / 16)) (String (hex_digit (c mod 16)) (HexEncode r))
  end.

(** The loop over character pairs; reading one past the end yields NUL. *)
Fixpoint hex_pairs (input : string) : res string :=
  match input with
  | "" => Ok ""
  | String a (String b r) =>
      let hi := HexValue a in
      let lo := HexValue b in
      if (hi <? 0)%Z || (lo <? 0)%Z then
        Err (InvalidArgument "hex input contains invalid character")
      else
        decoded ← hex_pairs r;
        Ok (String (Ascii.ascii_of_N (Z.to_N (Z.lor (Z.shiftl hi 4) lo))) decoded)
  | String _ "" => Err (InvalidArgument "hex input contains invalid character")
  end.

Definition HexDecode (input : string) : res string :=
  if decide (String.length input mod 2 = 0) then hex_pairs input
  else Err (InvalidArgument "hex input has odd length").

(** * Facts about strings *)

Lemma sapp_nil_l (s : string) : "" +:+ s = s.
Proof. done. Qed.
Lemma sapp_cons c (s t : string) : String c s +:+ t = String c (s +:+ t).
Proof. done. Qed.
Lemma sapp_nil_r (s : string) : s +:+ "" = s.
Proof. induction s; [done|]. rewrite sapp_cons. by f_equal. Qed.
Lemma sapp_assoc (s t u : string) : (s +:+ t) +:+ u = s +:+ (t +:+ u).
Proof. induction s; [done|]. rewrite !sapp_cons. by f_equal. Qed.

Create HintDb str.
Create Rewrite HintDb str.
#[export] Hint Rewrite sapp_nil_l sapp_cons sapp_nil_r sapp_assoc : str.

(** Normalise concatenations to the right, literals as [String] cells. *)
Ltac snorm := autorewrite with str.

Lemma slength_app s t :
  String.length (s +:+ t) = String.length s + String.length t.
Proof. induction s; [done|]. rewrite sapp_cons. simpl. by rewrite IHs. Qed.

Lemma str_all_app p s t : str_all p (s +:+ t) = str_all p s && str_all p t.
Proof.
  induction s as [|c s IH]; [done|]. rewrite sapp_cons. simpl.
  by rewrite IH, andb_assoc.
Qed.

Lemma str_all_mono (p q : ascii → bool) s :
  (∀ c, p c = true → q c = true) → str_all p s = true → str_all q s = true.
Proof.
  intros Hpq. induction s as [|c s IH]; [done|]. simpl.
  rewrite !andb_true_iff. naive_solver.
Qed.

(** The text after a token: empty, or a character outside the class. *)
Definition ends_class (p : ascii → bool) (r : string) : Prop :=
  match r with "" => True | String c _ => p c = false end.

Lemma span_all p s r :
  str_all p s = true → ends_class p r → span p (s +:+ r) = (s, r).
Proof.
  intros Hs Hr. induction s as [|c s IH].
  - rewrite sapp_nil_l. destruct r as [|c r]; [done|]. simpl in *. by rewrite Hr.
  - rewrite sapp_cons. simpl in *. apply andb_true_iff in Hs as [-> Hs].
    by rewrite IH.
Qed.

Lemma split_at_app c s r :
  str_all (λ a, negb (bool_decide (a = c))) s = true →
  split_at c (s +:+ String c r) = Some (s, r).
Proof.
  induction s as [|a s IH]; intros Hs.
  - rewrite sapp_nil_l. simpl. by rewrite decide_True.
  - rewrite sapp_cons. simpl in *. apply andb_true_iff in Hs as [Ha Hs].
    rewrite negb_true_iff, bool_decide_eq_false in Ha.
    rewrite decide_False by done. by rewrite IH.
Qed.

Definition no_newline (s : string) : bool :=
  str_all (λ a, negb (bool_decide (a = nl))) s.

Lemma getlines_cons l r :
  no_newline l = true → getlines (l +:+ String nl r) = l :: getlines r.
Proof.
  unfold no_newline. induction l as [|a l IH]; intros Hl.
  - done.
  - rewrite sapp_cons. simpl in *. apply andb_true_iff in Hl as [Ha Hl].
    rewrite negb_true_iff, bool_decide_eq_false in Ha.
    rewrite decide_False by done. by rewrite IH.
Qed.

(** ** Words *)

Lemma is_word_spec w : is_word w = true ↔ w ≠ "" ∧ no_space w = true.
Proof.
  unfold is_word. by rewrite andb_true_iff, negb_true_iff, bool_decide_eq_false.
Qed.

Lemma skip_ws_space r : skip_ws (String " " r) = skip_ws r.
Proof. unfold skip_ws. simpl. by destruct (span Ascii.is_space r). Qed.

Lemma skip_ws_nl r : skip_ws (String nl r) = skip_ws r.
Proof. unfold skip_ws. simpl. by destruct (span Ascii.is_space r). Qed.

Lemma skip_ws_head c r :
  Ascii.is_space c = false → skip_ws (String c r) = String c r.
Proof. intros Hc. unfold skip_ws. simpl. by rewrite Hc. Qed.

Lemma skip_ws_word w r : is_word w = true → skip_ws (w +:+ r) = w +:+ r.
Proof.
  intros [Hne Hw]%is_word_spec. destruct w as [|c w]; [done|].
  rewrite sapp_cons. apply skip_ws_head. unfold no_space in Hw. simpl in Hw.
  by apply andb_true_iff in Hw as [?%negb_true_iff _].
Qed.

Lemma skip_ws_word_end w : is_word w = true → skip_ws w = w.
Proof. intros Hw. rewrite <-(sapp_nil_r w) at 1. by rewrite skip_ws_word, sapp_nil_r. Qed.

(** [>>] delivers exactly the next word. *)
Lemma get_word_next s w r :
  skip_ws s = w +:+ r → is_word w = true →
  ends_class (λ c, negb (Ascii.is_space c)) r →
  get_word (mkStream s false) = (w, mkStream r false).
Proof.
  intros Hs Hw Hr. unfold get_word. cbn [rest failbit]. rewrite Hs.
  apply is_word_spec in Hw as [Hne Hw].
  pose proof (span_all _ w r Hw Hr) as Hspan.
  destruct w as [|c w]; [done|]. rewrite sapp_cons in *.
  cbv beta iota. by rewrite Hspan.
Qed.

Lemma get_word_eof s b : skip_ws s = "" → (get_word (mkStream s b)).1 = "".
Proof. intros Hs. unfold get_word. simpl. destruct b; [done|]. by rewrite Hs. Qed.

Lemma ends_space r : ends_class (λ c, negb (Ascii.is_space c)) (String " " r).
Proof. done. Qed.
Lemma ends_nl r : ends_class (λ c, negb (Ascii.is_space c)) (String nl r).
Proof. done. Qed.
Lemma ends_nil p : ends_class p "".
Proof. done. Qed.
#[export] Hint Resolve ends_space ends_nl ends_nil : str.

(** ** Decimal numbers *)

Lemma dec_value_app acc s t : dec_value acc (s +:+ t) = dec_value (dec_value acc s) t.
Proof.
  revert acc. induction s as [|c s IH]; intros acc; [done|].
  rewrite sapp_cons. simpl. apply IH.
Qed.

Lemma N_lt_10_cases (P : N → Prop) :
  P 0%N → P 1%N → P 2%N → P 3%N → P 4%N → P 5%N → P 6%N → P 7%N → P 8%N → P 9%N →
  ∀ d, (d < 10)%N → P d.
Proof.
  intros ?????????? d Hd.
  assert (d = 0 ∨ d = 1 ∨ d = 2 ∨ d = 3 ∨ d = 4 ∨ d = 5 ∨ d = 6 ∨ d = 7 ∨ d = 8
    ∨ d = 9)%N as H10 by lia.
  by repeat destruct H10 as [-> | H10]; subst.
Qed.

Lemma pretty_char_spec d :
  (d < 10)%N →
  is_digit (pretty_N_char d) = true ∧ digit_val (pretty_N_char d) = d.
Proof. revert d. by apply N_lt_10_cases. Qed.

Lemma pretty_go_spec n s :
  (0 < n)%N →
  ∃ ds, pretty_N_go n s = ds +:+ s ∧ str_all is_digit ds = true ∧ ds ≠ "" ∧
        dec_value 0 ds = n ∧ (10 ^ N.of_nat (String.length ds - 1) <= n)%N.
Proof.
  revert s. induction (N.lt_wf_0 n) as [n _ IH]. intros s Hn.
  rewrite pretty_N_go_step by done.
  destruct (pretty_char_spec (n mod 10)) as [Hd Hv]; [by apply N.mod_lt|].
  destruct (decide (n / 10 = 0)%N) as [Hz | Hnz].
  - exists (String (pretty_N_char (n mod 10)) ""). rewrite Hz, pretty_N_go_0.
    split; [done|]. split; [simpl; by rewrite Hd|]. split; [done|].
    simpl. rewrite Hv. apply N.div_small_iff in Hz; [|done]. rewrite N.mod_small by done.
    lia.
  - destruct (IH (n / 10)%N) with (s := String (pretty_N_char (n mod 10)) s)
      as (ds & -> & Hds & Hne & Hval & Hlen);
      [by apply N.div_lt | by apply N.neq_0_lt_0 |].
    exists (ds +:+ String (pretty_N_char (n mod 10)) "").
    rewrite sapp_assoc, sapp_cons, sapp_nil_l, str_all_app, Hds, dec_value_app, Hval.
    simpl. rewrite Hd, Hv. split_and!; [done | done | by destruct ds | |].
    { symmetry. by apply N.div_mod. }
    rewrite slength_app. destruct ds as [|c ds]; [done|]. cbn [String.length] in *.
    replace (S (String.length ds) + 1 - 1) with (S (String.length ds)) by lia.
    rewrite Nat.sub_succ, Nat.sub_0_r in Hlen. rewrite Nat2N.inj_succ, N.pow_succ_r'.
    pose proof (N.Div0.mul_div_le n 10). lia.
Qed.

Lemma to_string_spec n :
  str_all is_digit (to_string n) = true ∧ to_string n ≠ "" ∧
  dec_value 0 (to_string n) = n.
Proof.
  unfold to_string, pretty, pretty_N. destruct (decide (n = 0)%N) as [-> | Hn]; [done|].
  destruct (pretty_go_spec n "") as (ds & -> & ?&?&?&?); [lia|]. by rewrite sapp_nil_r.
Qed.

Lemma to_string_length n k :
  (n < 10 ^ N.of_nat k)%N → 0 < k → String.length (to_string n) ≤ k.
Proof.
  intros Hn Hk. unfold to_string, pretty, pretty_N.
  destruct (decide (n = 0)%N) as [-> | Hn0]; [simpl; lia|].
  destruct (pretty_go_spec n "") as (ds & -> & _ & _ & _ & Hlen); [lia|].
  rewrite sapp_nil_r. destruct (decide (String.length ds ≤ k)) as [|Hgt]; [done|].
  assert (10 ^ N.of_nat k <= 10 ^ N.of_nat (String.length ds - 1))%N
    by (apply N.pow_le_mono_r; lia). lia.
Qed.

Lemma to_string_inj a b : to_string a = to_string b → a = b.
Proof. apply (inj (pretty (A := N))). Qed.

Lemma digit_not_sign c : is_digit c = true → c ≠ "-"%char ∧ c ≠ "+"%char.
Proof. by split; intros ->. Qed.

Lemma digit_not_space c : is_digit c = true → Ascii.is_space c = false.
Proof. by destruct c as [[] [] [] [] [] [] [] []]. Qed.

Lemma to_string_word n : is_word (to_string n) = true.
Proof.
  destruct (to_string_spec n) as (Hd & Hne & _). apply is_word_spec. split; [done|].
  eapply str_all_mono, Hd. intros c Hc. simpl. by rewrite digit_not_space.
Qed.

(** Digits, whatever their leading zeros, scan back to their value. *)
Lemma scan_digits ds r :
  str_all is_digit ds = true → ds ≠ "" → ends_class is_digit r →
  scan_number (ds +:+ r) = Some (false, dec_value 0 ds, r).
Proof.
  intros Hd Hne Hr. unfold scan_number.
  pose proof (span_all _ ds r Hd Hr) as Hspan.
  destruct ds as [|c ds]; [done|]. simpl in Hd. apply andb_true_iff in Hd as [Hc _].
  rewrite sapp_cons in *.
  assert (∀ A (f : bool * string → A),
    f (match String c (ds +:+ r) with
       | String "-"%char q => (true, q)
       | String "+"%char q => (false, q)
       | _ => (false, String c (ds +:+ r)) end) = f (false, String c (ds +:+ r))) as Hsign.
  { intros A f. clear Hspan. by destruct c as [[] [] [] [] [] [] [] []]. }
  rewrite (Hsign _ (λ '(neg, body), let '(ds, r) := span is_digit body in
    if decide (ds = "") then None else Some (neg, dec_value 0 ds, r))).
  by rewrite Hspan.
Qed.

Lemma scan_to_string n r :
  ends_class is_digit r → scan_number (to_string n +:+ r) = Some (false, n, r).
Proof.
  destruct (to_string_spec n) as (Hd & Hne & Hv). intros Hr.
  by rewrite scan_digits, Hv.
Qed.

Lemma skip_ws_digits ds :
  str_all is_digit ds = true → ds ≠ "" → skip_ws ds = ds.
Proof.
  intros Hd Hne. destruct ds as [|c ds]; [done|]. simpl in Hd.
  apply andb_true_iff in Hd as [Hc _]. by apply skip_ws_head, digit_not_space.
Qed.

(** [std::stoull] inverts [std::to_string]. *)
Lemma stoull_digits {E} ds :
  str_all is_digit ds = true → ds ≠ "" → (dec_value 0 ds < two64)%N →
  stoull (E := E) ds = Ok (dec_value 0 ds).
Proof.
  intros Hd Hne Hlt. unfold stoull. rewrite skip_ws_digits by done.
  rewrite <-(sapp_nil_r ds) at 1. rewrite scan_digits by done.
  by apply N.ltb_lt in Hlt as ->.
Qed.

Lemma stoull_to_string {E} n :
  (n < two64)%N → stoull (E := E) (to_string n) = Ok n.
Proof.
  destruct (to_string_spec n) as (Hd & Hne & Hv). intros Hn.
  by rewrite stoull_digits, Hv by (done || congruence).
Qed.

Lemma get_u64_next s n r :
  skip_ws s = to_string n +:+ r → (n < two64)%N → ends_class is_digit r →
  get_u64 (mkStream s false) = (n, mkStream r false).
Proof.
  intros Hs Hn Hr. unfold get_u64. cbn [rest failbit].
  rewrite Hs, scan_to_string by done. by apply N.ltb_lt in Hn as ->.
Qed.

Lemma get_int_next s n r :
  skip_ws s = to_string n +:+ r → (Z.of_N n < two31)%Z → ends_class is_digit r →
  get_int (mkStream s false) = (Z.of_N n, mkStream r false).
Proof.
  intros Hs Hn Hr. unfold get_int. cbn [rest failbit].
  rewrite Hs, scan_to_string by done. simpl.
  destruct (Z.ltb_spec (Z.of_N n) (- two31)); [unfold two31 in *; lia|].
  by apply Z.ltb_lt in Hn as ->.
Qed.

Lemma to_string_Z_nonneg n : to_string_Z (Z.of_N n) = to_string n.
Proof. unfold to_string_Z, to_string, pretty, pretty_Z. by destruct n. Qed.

Lemma to_string_Z_neg p : to_string_Z (Zneg p) = String "-" (to_string (Npos p)).
Proof. done. Qed.

Lemma scan_minus ds r :
  str_all is_digit ds = true → ds ≠ "" → ends_class is_digit r →
  scan_number (String "-" (ds +:+ r)) = Some (true, dec_value 0 ds, r).
Proof.
  intros Hd Hne Hr. unfold scan_number. rewrite span_all by done.
  by rewrite decide_False.
Qed.

(** [std::stoi]/[std::stoll] invert [std::to_string] on their range. *)
Lemma sto_signed_to_string {E} bound z :
  (- bound <= z < bound)%Z → sto_signed (E := E) bound (to_string_Z z) = Ok z.
Proof.
  intros Hz. unfold sto_signed.
  assert (scan_number (skip_ws (to_string_Z z)) = Some ((z <? 0)%Z, Z.abs_N z, "")) as ->.
  { destruct (Z.ltb_spec z 0) as [Hneg | Hpos].
    - destruct z as [|p|p]; [lia | lia |]. rewrite to_string_Z_neg.
      destruct (to_string_spec (Npos p)) as (Hd & Hne & Hv).
      rewrite skip_ws_head by done. rewrite <-(sapp_nil_r (to_string _)).
      by rewrite scan_minus, Hv.
    - rewrite <-(Z2N.id z) by done. rewrite to_string_Z_nonneg.
      destruct (to_string_spec (Z.to_N z)) as (Hd & Hne & Hv).
      rewrite skip_ws_digits by done. rewrite <-(sapp_nil_r (to_string _)).
      rewrite scan_to_string by done. do 3 f_equal. lia. }
  simpl. assert (signed (z <? 0)%Z (Z.abs_N z) = z) as ->.
  { unfold signed. destruct (Z.ltb_spec z 0); lia. }
  destruct (Z.leb_spec (- bound) z); [|lia]. by destruct (Z.ltb_spec z bound); [|lia].
Qed.

(** A negative [int64] survives [to_string], [stoull] and the cast back. *)
Lemma stoull_int64 {E} z :
  (- two63 <= z < two63)%Z →
  ∃ n, stoull (E := E) (to_string_Z z) = Ok n ∧ to_int64 n = z.
Proof.
  intros Hz. unfold two63 in Hz. destruct (decide (0 <= z)%Z) as [Hpos | Hneg].
  - exists (Z.to_N z). rewrite <-(Z2N.id z) at 1 by done.
    rewrite to_string_Z_nonneg, stoull_to_string by (unfold two64; lia).
    split; [done|]. unfold to_int64. rewrite Z2N.id by done.
    unfold two63. by destruct (Z.ltb_spec z 9223372036854775808); [|lia].
  - destruct z as [|p|p]; [lia | lia |]. rewrite to_string_Z_neg.
    destruct (to_string_spec (Npos p)) as (Hd & Hne & Hv).
    exists (two64 - Npos p)%N. unfold stoull. rewrite skip_ws_head by done.
    rewrite <-(sapp_nil_r (to_string _)), scan_minus, Hv by done.
    destruct (N.ltb_spec (Npos p) two64); [|unfold two64 in *; lia]. split.
    + f_equal. unfold u64_sub, u64. rewrite (N.mod_small (Npos p)) by done.
      apply N.mod_small. unfold two64 in *. lia.
    + unfold to_int64, two63, two64 in *.
      destruct (Z.ltb_spec (Z.of_N (18446744073709551616 - N.pos p))
        9223372036854775808); lia.
Qed.

(** ** Hexadecimal *)

Definition is_hex (c : ascii) : bool :=
  is_digit c || ((97 <=? Ascii.N_of_ascii c)%N && (Ascii.N_of_ascii c <=? 102)%N).

(** Decided by enumeration of the 256 characters. *)
Ltac all_chars c := destruct c as [[] [] [] [] [] [] [] []].

Lemma hex_char_roundtrip c :
  let n := Ascii.N_of_ascii c in
  let hi := HexValue (hex_digit (n / 16)) in
  let lo := HexValue (hex_digit (n mod 16)) in
  is_hex (hex_digit (n / 16)) = true ∧ is_hex (hex_digit (n mod 16)) = true ∧
  (hi <? 0)%Z || (lo <? 0)%Z = false ∧
  Ascii.ascii_of_N (Z.to_N (Z.lor (Z.shiftl hi 4) lo)) = c.
Proof. by all_chars c. Qed.

Lemma HexEncode_hex s : str_all is_hex (HexEncode s) = true.
Proof.
  induction s as [|c s IH]; [done|]. cbn [HexEncode str_all].
  destruct (hex_char_roundtrip c) as (-> & -> & _). by rewrite IH.
Qed.

Lemma HexEncode_length s : String.length (HexEncode s) = 2 * String.length s.
Proof. induction s as [|c s IH]; [done|]. simpl. rewrite IH. lia. Qed.

Lemma hex_pairs_encode s : hex_pairs (HexEncode s) = Ok s.
Proof.
  induction s as [|c s IH]; [done|]. cbn [HexEncode hex_pairs].
  destruct (hex_char_roundtrip c) as (_ & _ & -> & Hc). rewrite IH.
  cbv beta iota delta [mbind result_bind]. by rewrite Hc.
Qed.

Lemma HexDecode_encode s : HexDecode (HexEncode s) = Ok s.
Proof.
  unfold HexDecode. rewrite HexEncode_length, decide_True; [apply hex_pairs_encode|].
  rewrite Nat.mul_comm. apply Nat.Div0.mod_mul.
Qed.

Lemma hex_not_space c : is_hex c = true → Ascii.is_space c = false.
Proof. by all_chars c. Qed.

Lemma HexEncode_no_space s : no_space (HexEncode s) = true.
Proof.
  eapply str_all_mono, HexEncode_hex. intros c Hc. simpl. by rewrite hex_not_space.
Qed.

Lemma HexEncode_not c s :
  is_hex c = false → str_all (λ a, negb (bool_decide (a = c))) (HexEncode s) = true.
Proof.
  intros Hc. eapply str_all_mono, HexEncode_hex. intros a Ha. simpl.
  rewrite negb_true_iff, bool_decide_eq_false. congruence.
Qed.

Lemma HexEncode_empty s : HexEncode s = "" ↔ s = "".
Proof. by destruct s. Qed.

Lemma HexEncode_word s : s ≠ "" → is_word (HexEncode s) = true.
Proof.
  intros Hs. apply is_word_spec. rewrite HexEncode_empty.
  split; [done | apply HexEncode_no_space].
Qed.

#[export] Hint Rewrite HexDecode_encode : str.
#[export] Hint Resolve HexEncode_word to_string_word : str.

Lemma HexEncode_inj s t : HexEncode s = HexEncode t → s = t.
Proof.
  intros H. pose proof (HexDecode_encode s) as Hs. rewrite H, HexDecode_encode in Hs.
  congruence.
Qed.

(** A hex word is never the "-" that stands for the empty value. *)
Lemma HexEncode_not_dash s : HexEncode s ≠ "-".
Proof.
  destruct s as [|c s]; [done|]. intros H. pose proof (HexEncode_length (String c s)) as Hl.
  rewrite H in Hl. simpl in Hl. lia.
Qed.

(** The value column of the log and of the batch command: "-" if empty. *)
Definition value_word (value : string) : string :=
  if decide (value = "") then "-" else HexEncode value.

Lemma value_word_word v : is_word (value_word v) = true.
Proof. unfold value_word. case_decide; [done|]. by apply HexEncode_word. Qed.
#[export] Hint Resolve value_word_word : str.

Lemma value_word_no_newline v : no_newline (value_word v) = true.
Proof. unfold value_word. case_decide; [done|]. by apply HexEncode_not. Qed.

(** Reading the column back. *)
Definition read_value_word (w : string) : res string :=
  if decide (w = "-") then Ok "" else HexDecode w.

Lemma read_value_word_spec v : read_value_word (value_word v) = Ok v.
Proof.
  unfold read_value_word, value_word. destruct (decide (v = "")) as [-> | Hv]; [done|].
  rewrite decide_False by apply HexEncode_not_dash. apply HexDecode_encode.
Qed.

(** ** Reading the columns of a record *)

Abbreviation word_end := (ends_class (λ c, negb (Ascii.is_space c))).

Lemma get_word_first w r :
  is_word w = true → word_end r →
  get_word (istringstream (w +:+ r)) = (w, mkStream r false).
Proof. intros Hw Hr. apply get_word_next; [by apply skip_ws_word | done..]. Qed.

Lemma get_word_sp w r :
  is_word w = true → word_end r →
  get_word (mkStream (String " " (w +:+ r)) false) = (w, mkStream r false).
Proof.
  intros Hw Hr. apply get_word_next; [|done..]. rewrite skip_ws_space.
  by apply skip_ws_word.
Qed.

Lemma get_word_sp_end w :
  is_word w = true → get_word (mkStream (String " " w) false) = (w, mkStream "" false).
Proof. intros Hw. rewrite <-(sapp_nil_r w) at 1. by apply get_word_sp. Qed.

Lemma get_word_failed s : get_word (mkStream s true) = ("", mkStream s true).
Proof. done. Qed.

Lemma get_word_sp_eof : get_word (mkStream " " false) = ("", mkStream "" true).
Proof. done. Qed.

Lemma get_word_nil : get_word (mkStream "" false) = ("", mkStream "" true).
Proof. done. Qed.

Lemma digit_end r : word_end r → ends_class is_digit r.
Proof.
  destruct r as [|c r]; [done|]. simpl. rewrite negb_false_iff.
  intros Hc. destruct (is_digit c) eqn:E; [|done]. apply digit_not_space in E. congruence.
Qed.

Lemma get_u64_first n r :
  (n < two64)%N → word_end r →
  get_u64 (istringstream (to_string n +:+ r)) = (n, mkStream r false).
Proof.
  intros Hn Hr. apply get_u64_next; [|done|by apply digit_end].
  apply skip_ws_word, to_string_word.
Qed.

Lemma get_u64_sp n r :
  (n < two64)%N → word_end r →
  get_u64 (mkStream (String " " (to_string n +:+ r)) false) = (n, mkStream r false).
Proof.
  intros Hn Hr. apply get_u64_next; [|done|by apply digit_end].
  rewrite skip_ws_space. apply skip_ws_word, to_string_word.
Qed.

Lemma get_int_sp n r :
  (Z.of_N n < two31)%Z → word_end r →
  get_int (mkStream (String " " (to_string n +:+ r)) false) = (Z.of_N n, mkStream r false).
Proof.
  intros Hn Hr. apply get_int_next; [|done|by apply digit_end].
  rewrite skip_ws_space. apply skip_ws_word, to_string_word.
Qed.
