(* ===== verification/Logging.v ===== *)
(** Logging, include/rstone/common/logging.h: the time stamp, the line of a
    message, and what a run of lines leaves on [std::cerr]. *)

From S2P Require Import Prelude Text.

(** * Lines *)

(** What [localtime_r] makes of a reading of the clock, a [std::tm]: the year
    counts from 1900 and the month from 0. *)
Record LocalTime := mkTime {
  tm_year : N;
  tm_mon : N;
  tm_mday : N;
  tm_hour : N;
  tm_min : N;
  tm_sec : N;
}.

(** A number as [strftime] pads it, to two places. *)
Definition two_places (n : N) : string :=
  if decide (n < 10)%N then "0" +:+ to_string n else to_string n.

(** [std::put_time(&tm, "%Y-%m-%d %H:%M:%S")]. *)
Definition NowTimestamp (tm : LocalTime) : string :=
  to_string (tm_year tm + 1900) +:+ "-" +:+ two_places (tm_mon tm + 1) +:+ "-" +:+
  two_places (tm_mday tm) +:+ " " +:+ two_places (tm_hour tm) +:+ ":" +:+
  two_places (tm_min tm) +:+ ":" +:+ two_places (tm_sec tm).

Definition LogLine (now : LocalTime) (level message : string) : string :=
  NowTimestamp now +:+ " [" +:+ level +:+ "] " +:+ message +:+ newline.

(** A line a process prints: a log line of one of the three macros, or text of
    its own. *)
Inductive Line :=
  | Logged (level message : string)
  | Plain (text : string).

(** What the lines print, each log line at the next reading of the clock. *)
Fixpoint std_err (clock : list LocalTime) (lines : list Line) : string :=
  match lines, clock with
  | Logged level message :: lines, now :: clock =>
      LogLine now level message +:+ std_err clock lines
  | Plain text :: lines, clock => text +:+ std_err clock lines
  | _, _ => ""
  end.

(** * A line tells its time, its level and its message *)

(** The ranges of a [std::tm]; a minute may have a leap second. *)
Definition time_ok (tm : LocalTime) : Prop :=
  (tm_mon tm ≤ 11 ∧ tm_mday tm ≤ 31 ∧ tm_hour tm ≤ 23 ∧ tm_min tm ≤ 59 ∧ tm_sec tm ≤ 60)%N.

(** The levels of the three macros. *)
Definition levels : list string := ["INFO"; "WARN"; "ERROR"].

Lemma sapp_inj_length (a a' b b' : string) :
  String.length a = String.length a' → a +:+ b = a' +:+ b' → a = a' ∧ b = b'.
Proof.
  revert a'. induction a as [|c a IH]; intros [|c' a'] Hl He; try discriminate; [done|].
  cbn in Hl, He. simplify_eq. by destruct (IH a') as [-> ->].
Qed.

Lemma two_places_value n : dec_value 0 (two_places n) = n.
Proof.
  unfold two_places. destruct (to_string_spec n) as (_ & _ & Hv). by case_decide.
Qed.

Lemma two_places_length n : (n < 100)%N → String.length (two_places n) = 2.
Proof.
  intros Hn. unfold two_places, to_string.
  assert (Forall (λ k, String.length (two_places (N.of_nat k)) = 2) (seq 0 100)) as Hall
    by (repeat constructor).
  rewrite Forall_forall in Hall. specialize (Hall (N.to_nat n)).
  rewrite N2Nat.id in Hall. apply Hall. apply elem_of_seq. lia.
Qed.

(** Two texts that begin with a number of two places. *)
Lemma two_places_inj a b r r' :
  (a < 100)%N → (b < 100)%N → two_places a +:+ r = two_places b +:+ r' → a = b ∧ r = r'.
Proof.
  intros Ha Hb He. apply sapp_inj_length in He as [He ->]; [|by rewrite !two_places_length].
  split; [|done]. by rewrite <- (two_places_value a), He, two_places_value.
Qed.

Lemma levels_inj l l' r r' :
  l ∈ levels → l' ∈ levels → l +:+ "] " +:+ r = l' +:+ "] " +:+ r' → l = l' ∧ r = r'.
Proof.
  intros Hl Hl'. unfold levels in Hl, Hl'.
  repeat (apply elem_of_cons in Hl as [->|Hl]); try (by apply elem_of_nil in Hl);
    repeat (apply elem_of_cons in Hl' as [->|Hl']); try (by apply elem_of_nil in Hl');
    intros He; cbn in He; by simplify_eq.
Qed.

Lemma newline_inj (a b : string) : a +:+ newline = b +:+ newline → a = b.
Proof.
  revert b. induction a as [|c a IH]; intros [|c' b] He; cbn in He; simplify_eq; try done.
  - destruct b; discriminate.
  - destruct a; discriminate.
  - by rewrite (IH b).
Qed.

(** A log line can be read back: two equal lines were printed at the same second,
    at the same level, for the same message. *)
Lemma LogLine_tells t t' l l' m m' :
  time_ok t → time_ok t' → l ∈ levels → l' ∈ levels →
  LogLine t l m = LogLine t' l' m' → t = t' ∧ l = l' ∧ m = m'.
Proof.
  unfold time_ok, LogLine, NowTimestamp. intros Ht Ht' Hl Hl' He.
  rewrite !sapp_assoc in He.
  assert (∀ n r, scan_number (to_string n +:+ "-" +:+ r) = Some (false, n, "-" +:+ r)) as Hscan
    by (intros; by apply scan_to_string).
  pose proof (f_equal scan_number He) as Hy. rewrite !Hscan in Hy. clear Hscan He.
  destruct t as [y mo d h mi se], t' as [y' mo' d' h' mi' se']; cbn in *.
  injection Hy as Hy He.
  apply two_places_inj in He as [Hmo He]; [|lia..]. injection He as He.
  apply two_places_inj in He as [Hd He]; [|lia..]. injection He as He.
  apply two_places_inj in He as [Hh He]; [|lia..]. injection He as He.
  apply two_places_inj in He as [Hmi He]; [|lia..]. injection He as He.
  apply two_places_inj in He as [Hse He]; [|lia..]. injection He as He.
  apply levels_inj in He as [-> He]; [|done..]. apply newline_inj in He as ->.
  repeat split; f_equal; lia.
Qed.
