(* ===== verification/Codec.v ===== *)
(** Wire formats: the field-map codec and the request/response envelopes of
    src/rpc/rpc_codec.cpp, the store and region records of
    src/common/serialization.cpp, and the in-process dispatcher of
    src/rpc/in_process_rpc.cpp. *)

From S2P Require Import Prelude Types Text.

Abbreviation FieldMap := (gmap string string).

(** * Field maps *)

Definition concat_map {A} (f : A → string) (l : list A) : string :=
  foldr (λ x acc, f x +:+ acc) "" l.

Definition encode_field (kv : string * string) : string :=
  HexEncode kv.1 +:+ String "="%char (HexEncode kv.2) +:+ newline.

Definition EncodeFields (fields : FieldMap) : string :=
  concat_map encode_field (kvs fields).

Fixpoint decode_lines (lines : list string) (fields : FieldMap) : res FieldMap :=
  match lines with
  | [] => Ok fields
  | line :: rest =>
      if decide (line = "") then decode_lines rest fields
      else match split_at "="%char line with
           | None => Err (InvalidArgument "encoded field is missing '='")
           | Some (key_hex, value_hex) =>
               key ← HexDecode key_hex;
               value ← HexDecode value_hex;
               decode_lines rest (<[key := value]> fields)
           end
  end.

Definition DecodeFields (encoded : string) : res FieldMap :=
  decode_lines (getlines encoded) ∅.

Definition GetFieldOr (fields : FieldMap) (key fallback : string) : string :=
  default fallback (fields !! key).

Definition GetIntFieldOr (fields : FieldMap) (key : string) (fallback : Z) : Z :=
  match fields !! key with
  | None => fallback
  | Some v => match stoi (E := Status) v with Ok z => z | _ => fallback end
  end.

(** Successive assignments [fields[k] = v]. *)
Definition put_all (fields : FieldMap) (l : list (string * string)) : FieldMap :=
  foldl (λ m kv, <[kv.1 := kv.2]> m) fields l.

(** * RPC messages *)

Record RpcRequest := mkRequest {
  rq_request_id : string;
  rq_method : string;
  rq_source : string;
  rq_target : string;
  rq_deadline_ms : Z;
  rq_payload : string;
  rq_metadata : FieldMap;
}.

Record RpcResponse := mkResponse {
  rs_request_id : string;
  rs_ok : bool;
  rs_error_code : string;
  rs_error_message : string;
  rs_payload : string;
  rs_metadata : FieldMap;
}.

#[export] Instance RpcRequest_eq_dec : EqDecision RpcRequest.
Proof. solve_decision. Defined.
#[export] Instance RpcResponse_eq_dec : EqDecision RpcResponse.
Proof. solve_decision. Defined.

Definition MakeRpcOk (request : RpcRequest) (payload : string) : RpcResponse :=
  mkResponse (rq_request_id request) true "" "" payload ∅.

Definition MakeRpcError (request : RpcRequest) (error_code error_message : string) :
    RpcResponse :=
  mkResponse (rq_request_id request) false error_code error_message "" ∅.

Definition StatusToRpcError (request : RpcRequest) (st : Status) : RpcResponse :=
  MakeRpcError request (ErrorCodeName (code_ st)) (message_ st).

(** Keys that travel as metadata: non-empty, not starting with '_'. *)
Definition metadata_key (key : string) : bool :=
  match key with
  | "" => false
  | String c _ => negb (bool_decide (c = "_"%char))
  end.

Definition decode_metadata (fields : FieldMap) : FieldMap :=
  filter (λ kv, metadata_key kv.1 = true) fields.

Definition EncodeRpcRequest (request : RpcRequest) : string :=
  EncodeFields (put_all (rq_metadata request)
    [ ("_request_id", rq_request_id request);
      ("_method", rq_method request);
      ("_source", rq_source request);
      ("_target", rq_target request);
      ("_deadline_ms", to_string_Z (rq_deadline_ms request));
      ("_payload", rq_payload request) ]).

Definition DecodeRpcRequest (encoded : string) : res RpcRequest :=
  fields ← DecodeFields encoded;
  Ok (mkRequest
        (GetFieldOr fields "_request_id" "")
        (GetFieldOr fields "_method" "")
        (GetFieldOr fields "_source" "")
        (GetFieldOr fields "_target" "")
        (GetIntFieldOr fields "_deadline_ms" 3000)
        (GetFieldOr fields "_payload" "")
        (decode_metadata fields)).

Definition EncodeRpcResponse (response : RpcResponse) : string :=
  EncodeFields (put_all (rs_metadata response)
    [ ("_request_id", rs_request_id response);
      ("_ok", if rs_ok response then "1" else "0");
      ("_error_code", rs_error_code response);
      ("_error_message", rs_error_message response);
      ("_payload", rs_payload response) ]).

Definition DecodeRpcResponse (encoded : string) : res RpcResponse :=
  fields ← DecodeFields encoded;
  Ok (mkResponse
        (GetFieldOr fields "_request_id" "")
        (bool_decide (GetFieldOr fields "_ok" "0" = "1"))
        (GetFieldOr fields "_error_code" "")
        (GetFieldOr fields "_error_message" "")
        (GetFieldOr fields "_payload" "")
        (decode_metadata fields)).

(** * The in-process dispatcher

    A handler is a method of a service object whose state is [S]; the
    dispatcher threads that state through. *)

Definition RpcHandler (S : Type) : Type := RpcRequest → IO S RpcResponse.

Record RpcServer (S : Type) := mkServer { handlers_ : gmap string (RpcHandler S) }.
Arguments mkServer {S} _.
Arguments handlers_ {S} _.

(** [handler = None] is the empty [std::function]. *)
Definition RegisterHandler {S} (method : string) (handler : option (RpcHandler S))
    (server : RpcServer S) : res (RpcServer S) :=
  if decide (method = "") then Err (InvalidArgument "rpc method must not be empty")
  else match handler with
       | None => Err (InvalidArgument "rpc handler must not be empty")
       | Some h => Ok (mkServer (<[method := h]> (handlers_ server)))
       end.

Definition Handle {S} (server : RpcServer S) : RpcHandler S := λ request,
  match handlers_ server !! rq_method request with
  | None => mret (MakeRpcError request (ErrorCodeName kRpcError)
                    ("method not found: " +:+ rq_method request))
  | Some handler => handler request
  end.

(** [InProcessRpcClient::Call]: [None] is a null server pointer. *)
Definition InProcess_Call {S} (server : option (RpcServer S)) : RpcHandler S := λ request,
  match server with
  | None => mret (MakeRpcError request (ErrorCodeName kRpcError)
                    "rpc server is not connected")
  | Some srv => Handle srv request
  end.

(** The shape every service handler has: each early return of a non-ok status
    becomes [StatusToRpcError], the normal exit [MakeRpcOk]. *)
Definition respond {S} (request : RpcRequest) (body : IO S string) : IO S RpcResponse :=
  λ s, match body s with
       | (Ok payload, s') => (Ok (MakeRpcOk request payload), s')
       | (Err st, s') => (Ok (StatusToRpcError request st), s')
       | (Fault f, s') => (Fault f, s')
       end.

(** Register a table of handlers, stopping at the first failure. *)
Fixpoint register_all {S} (table : list (string * RpcHandler S)) (server : RpcServer S) :
    res (RpcServer S) :=
  match table with
  | [] => Ok server
  | (method, handler) :: rest =>
      server' ← RegisterHandler method (Some handler) server;
      register_all rest server'
  end.

(** * Records on the wire (serialization.cpp) *)

Definition Key (prefix name : string) : string :=
  if decide (prefix = "") then name else prefix +:+ "." +:+ name.

Definition GetOr (fields : FieldMap) (key fallback : string) : string :=
  match fields !! key with None => fallback | Some v => v end.

Definition GetUint64Or (fields : FieldMap) (key : string) (fallback : N) : N :=
  match fields !! key with
  | None => fallback
  | Some v => match stoull (E := Status) v with Ok n => n | _ => fallback end
  end.

Definition GetIntOr (fields : FieldMap) (key : string) (fallback : Z) : Z :=
  match fields !! key with
  | None => fallback
  | Some v => match stoi (E := Status) v with Ok z => z | _ => fallback end
  end.

Definition PeerRoleName (role : PeerRole) : string :=
  match role with kVoter => "Voter" | kLearner => "Learner" end.

Definition ParsePeerRole (value : string) : PeerRole :=
  if decide (value = "Learner") then kLearner else kVoter.

Definition prefixed (prefix : string) (l : list (string * string)) :
    list (string * string) :=
  (λ kv, (Key prefix kv.1, kv.2)) <$> l.

Definition store_fields (store : StoreInfo) : list (string * string) :=
  [ ("store_id", to_string (store_id store));
    ("raft_host", host (raft_endpoint store));
    ("raft_port", to_string_Z (port (raft_endpoint store)));
    ("client_host", host (client_endpoint store));
    ("client_port", to_string_Z (port (client_endpoint store)));
    ("state", store_state store);
    ("last_heartbeat_ms", to_string_Z (last_heartbeat_ms store)) ].

Definition PutStoreFields (fields : FieldMap) (store : StoreInfo) (prefix : string) :
    FieldMap := put_all fields (prefixed prefix (store_fields store)).

Definition GetStoreFields (fields : FieldMap) (prefix : string) : StoreInfo :=
  mkStore
    (GetUint64Or fields (Key prefix "store_id") 0)
    (mkEndpoint (GetOr fields (Key prefix "raft_host") "127.0.0.1")
                (GetIntOr fields (Key prefix "raft_port") 0))
    (mkEndpoint (GetOr fields (Key prefix "client_host") "127.0.0.1")
                (GetIntOr fields (Key prefix "client_port") 0))
    (GetOr fields (Key prefix "state") "Up")
    ∅
    (to_int64 (GetUint64Or fields (Key prefix "last_heartbeat_ms") 0)).

Definition peer_prefix (i : N) : string := "peer" +:+ to_string i.

Definition peer_fields (i : N) (peer : Peer) : list (string * string) :=
  prefixed (peer_prefix i)
    [ ("peer_id", to_string (peer_id peer));
      ("store_id", to_string (peer_store_id peer));
      ("role", PeerRoleName (peer_role peer)) ].

Fixpoint peers_fields (i : N) (ps : list Peer) : list (string * string) :=
  match ps with
  | [] => []
  | p :: rest => peer_fields i p ++ peers_fields (i + 1) rest
  end.

Definition region_fields (region : RegionInfo) : list (string * string) :=
  [ ("region_id", to_string (region_id region));
    ("start_key", start_key region);
    ("end_key", end_key region);
    ("conf_ver", to_string (conf_ver (epoch region)));
    ("version", to_string (version (epoch region)));
    ("leader_peer_id", to_string (leader_peer_id region));
    ("peer_count", to_string (N.of_nat (length (peers region)))) ]
  ++ peers_fields 0 (peers region).

Definition PutRegionFields (fields : FieldMap) (region : RegionInfo) (prefix : string) :
    FieldMap := put_all fields (prefixed prefix (region_fields region)).

Definition get_peer (fields : FieldMap) (prefix : string) (i : N) : Peer :=
  let pp := Key prefix (peer_prefix i) in
  mkPeer (GetUint64Or fields (Key pp "peer_id") 0)
         (GetUint64Or fields (Key pp "store_id") 0)
         (ParsePeerRole (GetOr fields (Key pp "role") "Voter")).

(** [for (i = 0; i < n; ++i)] over record indices. *)
Definition indices (n : N) : list N := N.of_nat <$> seq 0 (N.to_nat n).

Definition GetRegionFields (fields : FieldMap) (prefix : string) : RegionInfo :=
  let peer_count := GetUint64Or fields (Key prefix "peer_count") 0 in
  mkRegion
    (GetUint64Or fields (Key prefix "region_id") 0)
    (GetOr fields (Key prefix "start_key") "")
    (GetOr fields (Key prefix "end_key") "")
    (mkEpoch (GetUint64Or fields (Key prefix "conf_ver") 1)
             (GetUint64Or fields (Key prefix "version") 1))
    (get_peer fields prefix <$> indices peer_count)
    (GetUint64Or fields (Key prefix "leader_peer_id") 0).

(** [std::stoull(fields["key"])]: a missing key reads as the empty string. *)
Definition field (fields : FieldMap) (key : string) : string :=
  default "" (fields !! key).
Definition field_u64 {E} (fields : FieldMap) (key : string) : result E N :=
  stoull (field fields key).

(** * Facts *)

(** ** The field-map codec *)

Lemma list_to_map_foldl (m : FieldMap) (l : list (string * string)) :
  NoDup l.*1 → foldl (λ m kv, <[kv.1 := kv.2]> m) m l = list_to_map l ∪ m.
Proof.
  revert m. induction l as [|[k v] l IH]; intros m Hnd; simpl.
  - by rewrite (left_id_L ∅ (∪)).
  - apply list.NoDup_cons in Hnd as [Hk Hnd]. rewrite IH by done.
    rewrite <-insert_union_l, insert_union_r; [done|].
    by apply not_elem_of_list_to_map_1.
Qed.

Lemma encode_field_line k v :
  no_newline (HexEncode k +:+ String "="%char (HexEncode v)) = true.
Proof.
  unfold no_newline. rewrite str_all_app. apply andb_true_iff.
  by split; [|simpl]; apply HexEncode_not.
Qed.

Lemma encode_field_app k v r :
  encode_field (k, v) +:+ r =
  (HexEncode k +:+ String "="%char (HexEncode v)) +:+ String nl r.
Proof. unfold encode_field, newline. simpl. by snorm. Qed.

Lemma concat_map_cons {A} (f : A → string) x l :
  concat_map f (x :: l) = f x +:+ concat_map f l.
Proof. done. Qed.

Lemma decode_lines_encode l m :
  decode_lines (getlines (concat_map encode_field l)) m =
  Ok (foldl (λ m kv, <[kv.1 := kv.2]> m) m l).
Proof.
  revert m. induction l as [|[k v] l IH]; intros m; [done|].
  rewrite concat_map_cons, encode_field_app. cbn [foldl fst snd].
  rewrite getlines_cons by apply encode_field_line. cbn [decode_lines].
  rewrite decide_False by by destruct k.
  rewrite split_at_app by by apply HexEncode_not.
  rewrite !HexDecode_encode. cbv beta iota delta [mbind result_bind]. apply IH.
Qed.

Lemma DecodeFields_encode fields : DecodeFields (EncodeFields fields) = Ok fields.
Proof.
  unfold DecodeFields, EncodeFields. rewrite decode_lines_encode.
  rewrite list_to_map_foldl by apply kvs_nodup.
  by rewrite kvs_to_map, (right_id_L ∅ (∪)).
Qed.

(** ** Assignments *)

Lemma put_all_nil m : put_all m [] = m.
Proof. done. Qed.

Lemma put_all_app m l1 l2 : put_all m (l1 ++ l2) = put_all (put_all m l1) l2.
Proof. apply foldl_app. Qed.

Lemma put_all_notin m l k : k ∉ l.*1 → put_all m l !! k = m !! k.
Proof.
  revert m. induction l as [|[k' v] l IH]; intros m Hk; [done|].
  simpl in *. apply not_elem_of_cons in Hk as [Hne Hk].
  unfold put_all in *. simpl. rewrite IH by done. by apply lookup_insert_ne.
Qed.

Lemma put_all_in m l k v : NoDup l.*1 → (k, v) ∈ l → put_all m l !! k = Some v.
Proof.
  revert m. induction l as [|[k' v'] l IH]; intros m Hnd Hin; [by apply elem_of_nil in Hin|].
  simpl in *. apply list.NoDup_cons in Hnd as [Hk Hnd].
  change (put_all (<[k' := v']> m) l !! k = Some v).
  apply elem_of_cons in Hin as [[= -> ->] | Hin]; [|by apply IH].
  rewrite put_all_notin by done. apply lookup_insert_eq.
Qed.

(** ** Envelopes *)

Definition metadata_ok (md : FieldMap) : Prop :=
  ∀ k, is_Some (md !! k) → metadata_key k = true.

Lemma decode_metadata_put_all md l :
  metadata_ok md → Forall (λ kv, metadata_key kv.1 = false) l →
  decode_metadata (put_all md l) = md.
Proof.
  intros Hmd Hl. apply map_eq. intros k. unfold decode_metadata.
  apply option_eq. intros v. rewrite map_lookup_filter_Some. simpl. split.
  - intros [Hk Hm]. rewrite put_all_notin in Hk; [done|].
    intros ([? ?] & -> & Hin)%list_elem_of_fmap.
    rewrite list.Forall_forall in Hl. specialize (Hl _ Hin). simpl in *. congruence.
  - intros Hk. split; [|by apply Hmd].
    rewrite put_all_notin; [done|]. intros ([? ?] & -> & Hin)%list_elem_of_fmap.
    rewrite list.Forall_forall in Hl. specialize (Hl _ Hin). simpl in *.
    rewrite Hmd in Hl; [done|]. by eexists.
Qed.

(** Distinctness of literal keys. *)
Ltac solve_nodup := refine (bool_decide_eq_true_1 _ _); vm_compute; reflexivity.

(** Look a literal key up in a literal list of assignments. *)
Ltac lookup_put_all :=
  match goal with
  | |- context [put_all ?m ?l !! ?k] =>
      erewrite (put_all_in m l k);
      [ | solve_nodup
        | repeat (first [apply list_elem_of_here | apply list_elem_of_further]) ]
  end.

Lemma rpc_request_roundtrip r :
  metadata_ok (rq_metadata r) → (- two31 <= rq_deadline_ms r < two31)%Z →
  DecodeRpcRequest (EncodeRpcRequest r) = Ok r.
Proof.
  intros Hmd Hd. unfold DecodeRpcRequest, EncodeRpcRequest.
  rewrite DecodeFields_encode. cbv beta iota delta [mbind result_bind].
  unfold GetFieldOr, GetIntFieldOr. repeat lookup_put_all.
  rewrite decode_metadata_put_all by (done || by repeat constructor).
  unfold stoi. rewrite sto_signed_to_string by done. by destruct r.
Qed.

Lemma rpc_response_roundtrip r :
  metadata_ok (rs_metadata r) → DecodeRpcResponse (EncodeRpcResponse r) = Ok r.
Proof.
  intros Hmd. unfold DecodeRpcResponse, EncodeRpcResponse.
  rewrite DecodeFields_encode. cbv beta iota delta [mbind result_bind].
  unfold GetFieldOr. repeat lookup_put_all.
  rewrite decode_metadata_put_all by (done || by repeat constructor).
  destruct r as [? [] ? ? ? ?]; done.
Qed.

(** ** Prefixed keys *)

Lemma Key_prefix p n : p ≠ "" → Key p n = p +:+ "." +:+ n.
Proof. intros Hp. unfold Key. by rewrite decide_False. Qed.

Lemma Key_inj p n m : Key p n = Key p m → n = m.
Proof.
  unfold Key. destruct (decide (p = "")); [done|]. intros H%(inj (String.app p)).
  by apply (inj (String.app ".")) in H.
Qed.

(** [name ++ to_string i] prefixes tell their index apart. *)
Definition indexed (name : string) (i : N) : string := name +:+ to_string i.

Lemma indexed_not_empty name i : indexed name i ≠ "".
Proof.
  unfold indexed. destruct (to_string_spec i) as (_ & Hne & _).
  by destruct name; [rewrite sapp_nil_l | rewrite sapp_cons].
Qed.

Lemma to_string_dot_inj i j n m :
  to_string i +:+ "." +:+ n = to_string j +:+ "." +:+ m → i = j ∧ n = m.
Proof.
  intros H. destruct (to_string_spec i) as (Hi & _), (to_string_spec j) as (Hj & _).
  pose proof (span_all is_digit _ ("." +:+ n) Hi eq_refl) as Hsi.
  pose proof (span_all is_digit _ ("." +:+ m) Hj eq_refl) as Hsj.
  rewrite H, Hsj in Hsi. injection Hsi as Hs Hr. split; [by apply to_string_inj|].
  done.
Qed.

Lemma Key_indexed_inj name i j n m :
  Key (indexed name i) n = Key (indexed name j) m → i = j ∧ n = m.
Proof.
  rewrite !Key_prefix by apply indexed_not_empty. unfold indexed. rewrite !sapp_assoc.
  intros H%(inj (String.app name)). by apply to_string_dot_inj.
Qed.

Lemma prefixed_fst p l : (prefixed p l).*1 = Key p <$> l.*1.
Proof. unfold prefixed. rewrite <-!list_fmap_compose. done. Qed.

Lemma prefixed_nodup p l : NoDup l.*1 → NoDup (prefixed p l).*1.
Proof.
  intros Hl. rewrite prefixed_fst. apply NoDup_fmap_2_strong; [|done].
  intros x y _ _. apply Key_inj.
Qed.

(** [fields] holds the record [l] under [prefix]. *)
Definition agrees (fields : FieldMap) (prefix : string) (l : list (string * string)) : Prop :=
  ∀ n v, (n, v) ∈ l → fields !! Key prefix n = Some v.

Lemma agrees_put_all fields p l :
  NoDup l.*1 → agrees (put_all fields (prefixed p l)) p l.
Proof.
  intros Hl n v Hin. apply put_all_in; [by apply prefixed_nodup|].
  unfold prefixed. apply list_elem_of_fmap. by exists (n, v).
Qed.

Lemma agrees_ext f g p l :
  (∀ n, n ∈ l.*1 → g !! Key p n = f !! Key p n) → agrees f p l → agrees g p l.
Proof.
  intros Hfg Hf n v Hin. rewrite Hfg; [by apply Hf|].
  apply list_elem_of_fmap. by exists (n, v).
Qed.

(** ** Store records *)

Definition store_ok (s : StoreInfo) : Prop :=
  (store_id s < two64)%N ∧
  (- two31 <= port (raft_endpoint s) < two31)%Z ∧
  (- two31 <= port (client_endpoint s) < two31)%Z ∧
  (- two63 <= last_heartbeat_ms s < two63)%Z.

(** What a store record keeps on the wire: everything but the labels. *)
Definition wire_store (s : StoreInfo) : StoreInfo :=
  mkStore (store_id s) (raft_endpoint s) (client_endpoint s) (store_state s) ∅
          (last_heartbeat_ms s).

Lemma store_fields_nodup s : NoDup (store_fields s).*1.
Proof. simpl. solve_nodup. Qed.

Lemma GetUint64Or_some f k n d :
  f !! k = Some (to_string n) → (n < two64)%N → GetUint64Or f k d = n.
Proof. intros Hk Hn. unfold GetUint64Or. by rewrite Hk, stoull_to_string. Qed.

Lemma GetIntOr_some f k z d :
  f !! k = Some (to_string_Z z) → (- two31 <= z < two31)%Z → GetIntOr f k d = z.
Proof.
  intros Hk Hz. unfold GetIntOr, stoi. by rewrite Hk, sto_signed_to_string.
Qed.

Lemma GetOr_some f k v d : f !! k = Some v → GetOr f k d = v.
Proof. intros Hk. unfold GetOr. by rewrite Hk. Qed.

(** The record [H] speaks of contains the literal entry asked for. *)
Ltac record_field H :=
  apply H; unfold store_fields, region_fields, peer_fields, prefixed;
  cbn [app fmap list_fmap fst snd]; repeat (first [apply list_elem_of_here | apply list_elem_of_further]).

Lemma GetStoreFields_agrees f p s :
  agrees f p (store_fields s) → store_ok s → GetStoreFields f p = wire_store s.
Proof.
  intros Hf (Hid & Hr & Hc & Hhb). unfold GetStoreFields, wire_store.
  rewrite (GetUint64Or_some f _ (store_id s)) by (done || record_field Hf).
  rewrite (GetOr_some f _ (host (raft_endpoint s))) by record_field Hf.
  rewrite (GetOr_some f _ (host (client_endpoint s))) by record_field Hf.
  rewrite (GetOr_some f _ (store_state s)) by record_field Hf.
  rewrite (GetIntOr_some f _ (port (raft_endpoint s))) by (done || record_field Hf).
  rewrite (GetIntOr_some f _ (port (client_endpoint s))) by (done || record_field Hf).
  assert (f !! Key p "last_heartbeat_ms" = Some (to_string_Z (last_heartbeat_ms s)))
    as Hl by record_field Hf.
  destruct (stoull_int64 (E := Status) _ Hhb) as (n & Hn & Hto).
  unfold GetUint64Or. rewrite Hl, Hn, Hto. by destruct s as [? [] [] ? ? ?].
Qed.

(** ** Region records *)

Definition peer_ok (p : Peer) : Prop :=
  (peer_id p < two64)%N ∧ (peer_store_id p < two64)%N.

Definition region_ok (r : RegionInfo) : Prop :=
  (region_id r < two64)%N ∧ (conf_ver (epoch r) < two64)%N ∧
  (version (epoch r) < two64)%N ∧ (leader_peer_id r < two64)%N ∧
  (N.of_nat (length (peers r)) < two64)%N ∧ Forall peer_ok (peers r).

Lemma peer_prefix_indexed i : peer_prefix i = indexed "peer" i.
Proof. done. Qed.

Lemma peers_fields_fst n i ps :
  n ∈ (peers_fields i ps).*1 →
  ∃ j x, (i <= j)%N ∧ n = Key (indexed "peer" j) x.
Proof.
  revert i. induction ps as [|p ps IH]; intros i Hn; [by apply elem_of_nil in Hn|].
  simpl in Hn. rewrite !elem_of_cons in Hn.
  destruct Hn as [-> | [-> | [-> | Hn]]]; [by eexists i, _ .. |].
  apply IH in Hn as (j & x & Hj & ->). exists j, x. split; [lia | done].
Qed.

Lemma peers_fields_nodup i ps : NoDup (peers_fields i ps).*1.
Proof.
  revert i. induction ps as [|p ps IH]; intros i; [apply NoDup_nil_2|].
  cbn [peers_fields]. rewrite fmap_app. apply list.NoDup_app. split_and!.
  - unfold peer_fields. apply prefixed_nodup. simpl. solve_nodup.
  - intros n Hn (j & x & Hj & ->)%peers_fields_fst.
    unfold peer_fields in Hn. rewrite prefixed_fst, list_elem_of_fmap in Hn.
    destruct Hn as (m & Hm & _). apply Key_indexed_inj in Hm as [-> _]. lia.
  - apply IH.
Qed.

Lemma region_fields_nodup r : NoDup (region_fields r).*1.
Proof.
  unfold region_fields. rewrite fmap_app. apply list.NoDup_app. split_and!.
  - simpl. solve_nodup.
  - intros n Hn (j & x & _ & ->)%peers_fields_fst.
    rewrite Key_prefix in Hn by apply indexed_not_empty. unfold indexed in Hn.
    rewrite !sapp_cons in Hn. simpl in Hn.
    destruct (to_string_spec j) as (Hd & Hne & _).
    destruct (to_string j) as [|c s] eqn:Hs; [done|].
    repeat (apply elem_of_cons in Hn as [Heq | Hn]; [try discriminate Heq|]).
    + injection Heq as -> _. done.
    + by apply elem_of_nil in Hn.
  - apply peers_fields_nodup.
Qed.

Lemma ParsePeerRole_name role : ParsePeerRole (PeerRoleName role) = role.
Proof. by destruct role. Qed.

Lemma Key_peer p i x :
  Key (Key p (peer_prefix i)) x = Key p (Key (peer_prefix i) x).
Proof.
  rewrite peer_prefix_indexed. pose proof (indexed_not_empty "peer" i) as Hi.
  unfold Key. rewrite !(decide_False _ _ Hi).
  destruct (decide (p = "")) as [-> | Hp]; [by rewrite decide_False|].
  rewrite decide_False by by destruct p. by snorm.
Qed.

Lemma get_peer_agrees f p i q :
  agrees f p (peer_fields i q) → peer_ok q → get_peer f p i = q.
Proof.
  intros Hf [H1 H2]. unfold get_peer. rewrite !Key_peer.
  rewrite (GetUint64Or_some f _ (peer_id q)) by (done || record_field Hf).
  rewrite (GetUint64Or_some f _ (peer_store_id q)) by (done || record_field Hf).
  rewrite (GetOr_some f _ (PeerRoleName (peer_role q))) by record_field Hf.
  rewrite ParsePeerRole_name. by destruct q.
Qed.

Lemma get_peers_agrees f p i ps :
  agrees f p (peers_fields (N.of_nat i) ps) → Forall peer_ok ps →
  get_peer f p <$> (N.of_nat <$> seq i (length ps)) = ps.
Proof.
  revert i. induction ps as [|q ps IH]; intros i Hf Hps; [done|].
  apply list.Forall_cons in Hps as [Hq Hps]. cbn [length seq fmap list_fmap]. f_equal.
  - apply get_peer_agrees; [|done]. intros n v Hin. apply Hf. cbn [peers_fields].
    apply elem_of_app. by left.
  - apply IH; [|done]. intros n v Hin. apply Hf. cbn [peers_fields]. apply elem_of_app. right.
    by replace (N.of_nat i + 1)%N with (N.of_nat (S i)) by lia.
Qed.

Lemma GetRegionFields_agrees f p r :
  agrees f p (region_fields r) → region_ok r → GetRegionFields f p = r.
Proof.
  intros Hf (Hid & Hcv & Hv & Hl & Hn & Hps). unfold GetRegionFields.
  rewrite (GetUint64Or_some f _ (region_id r)) by (done || record_field Hf).
  rewrite (GetOr_some f _ (start_key r)) by record_field Hf.
  rewrite (GetOr_some f _ (end_key r)) by record_field Hf.
  rewrite (GetUint64Or_some f _ (conf_ver (epoch r))) by (done || record_field Hf).
  rewrite (GetUint64Or_some f _ (version (epoch r))) by (done || record_field Hf).
  rewrite (GetUint64Or_some f _ (N.of_nat (length (peers r))))
    by (done || record_field Hf).
  rewrite (GetUint64Or_some f _ (leader_peer_id r)) by (done || record_field Hf).
  unfold indices. rewrite Nat2N.id, get_peers_agrees with (i := 0%nat); [|..|done].
  - by destruct r as [? ? ? [] ? ?].
  - intros n v Hin. apply Hf. unfold region_fields. apply elem_of_app. by right.
Qed.

(** ** Catalogs: vectors of records written under indexed prefixes *)

(** [for (i = 0; i < v.size(); ++i) Put(&fields, v[i], name + to_string(i))]. *)
Fixpoint put_indexed {A} (putf : FieldMap → A → string → FieldMap) (name : string)
    (i : N) (l : list A) (fields : FieldMap) : FieldMap :=
  match l with
  | [] => fields
  | x :: rest => put_indexed putf name (i + 1) rest (putf fields x (indexed name i))
  end.

Section indexed.
Context {A : Type} (putf : FieldMap → A → string → FieldMap)
  (recf : A → list (string * string)) (name : string).
Hypothesis putf_eq : ∀ f x p, putf f x p = put_all f (prefixed p (recf x)).
Hypothesis recf_nodup : ∀ x, NoDup (recf x).*1.

(** Keys outside every indexed prefix from [i] on are left alone. *)
Lemma put_indexed_notin i l f k :
  (∀ j n, (i <= j)%N → k ≠ Key (indexed name j) n) →
  put_indexed putf name i l f !! k = f !! k.
Proof.
  revert i f. induction l as [|x l IH]; intros i f Hk; [done|].
  cbn [put_indexed]. rewrite IH by (intros; apply Hk; lia).
  rewrite putf_eq. apply put_all_notin. rewrite prefixed_fst.
  intros (n & -> & _)%list_elem_of_fmap. by eapply Hk.
Qed.

Lemma put_indexed_agrees i l f j x :
  l !! j = Some x →
  agrees (put_indexed putf name i l f) (indexed name (i + N.of_nat j)) (recf x).
Proof.
  revert i f j. induction l as [|y l IH]; intros i f j Hj; [done|].
  destruct j as [|j].
  - injection Hj as ->. rewrite N.add_0_r. cbn [put_indexed].
    apply (agrees_ext (put_all f (prefixed (indexed name i) (recf x)))).
    + intros n _. rewrite put_indexed_notin; [by rewrite putf_eq|].
      intros j' n' Hle [Heq _]%Key_indexed_inj. lia.
    + by apply agrees_put_all.
  - cbn [put_indexed].
    replace (i + N.of_nat (S j))%N with (i + 1 + N.of_nat j)%N by lia.
    by apply IH.
Qed.
End indexed.

Lemma plain_not_indexed name k j n :
  str_all (λ c, negb (Ascii.eqb c ".")) k = true → k ≠ Key (indexed name j) n.
Proof.
  intros Hk ->. rewrite Key_prefix in Hk by apply indexed_not_empty.
  rewrite !str_all_app in Hk. simpl in Hk. by rewrite andb_false_r in Hk.
Qed.

#[export] Instance store_ok_dec s : Decision (store_ok s).
Proof. unfold store_ok. apply _. Defined.
#[export] Instance peer_ok_dec p : Decision (peer_ok p).
Proof. unfold peer_ok. apply _. Defined.
#[export] Instance region_ok_dec r : Decision (region_ok r).
Proof. unfold region_ok. apply _. Defined.
