(* ===== verification/Service.v ===== *)
(** What the RPC services share: reading the payload, the outcome of a handler
    as a response, the dispatch of a method, and what a client of another
    process needs of the network. *)

From S2P Require Import Prelude Types Text Codec.

Definition payload_fields {S} (request : RpcRequest) : IO S FieldMap :=
  lift (DecodeFields (rq_payload request)).

(** [TcpRpcClient(host, port).Call(request)]: a call always ends in a response,
    failures of the connection being responses that are not ok; [Net]
    is the state of everything outside the process. *)
Class Transport (Net : Type) :=
  tcp_call : Endpoint → RpcRequest → Net → RpcResponse * Net.

(** * Outcomes *)

Lemma payload_run {S} request fields (s : S) :
  rq_payload request = EncodeFields fields →
  payload_fields request s = (Ok fields, s).
Proof. intros Hp. unfold payload_fields, lift. by rewrite Hp, DecodeFields_encode. Qed.

Lemma respond_run {S} request (body : IO S string) payload s s' :
  body s = (Ok payload, s') → respond request body s = (Ok (MakeRpcOk request payload), s').
Proof. intros Hb. unfold respond. by rewrite Hb. Qed.

Lemma respond_err {S} request (body : IO S string) st s s' :
  body s = (Err st, s') → respond request body s = (Ok (StatusToRpcError request st), s').
Proof. intros Hb. unfold respond. by rewrite Hb. Qed.

(** The response to a call with outcome [q]. *)
Definition answers (request : RpcRequest) (q : res unit) (r : res RpcResponse) : Prop :=
  match q with
  | Ok _ => ∃ payload, r = Ok (MakeRpcOk request payload)
  | Err st => r = Ok (StatusToRpcError request st)
  | Fault f => r = Fault f
  end.

Lemma respond_answers {S A} request (f : IO S A) (payload : A → string) (body : IO S string) w :
  body w = (x ← f; mret (payload x)) w →
  answers request ((x ← f; mret tt) w).1 (respond request body w).1 ∧
  ((x ← f; mret tt) w).2 = (respond request body w).2.
Proof.
  intros Hbody. unfold respond. rewrite Hbody. unfold mbind, M_bind.
  destruct (f w) as [[a|st|x] w']; cbn; (split; [|done]); [by eexists | done | done].
Qed.

Lemma respond_answers_unit {S} request (f : IO S unit) (body : IO S string) w :
  body w = (_ ← f; mret "") w →
  answers request (f w).1 (respond request body w).1 ∧ (f w).2 = (respond request body w).2.
Proof.
  intros Hbody. unfold respond. rewrite Hbody. unfold mbind, M_bind.
  destruct (f w) as [[a|st|x] w']; cbn; (split; [|done]); [by eexists | done | done].
Qed.

Lemma field_u64_some {E} fields key n :
  fields !! key = Some (to_string n) → (n < two64)%N → field_u64 (E := E) fields key = Ok n.
Proof. intros Hk Hn. unfold field_u64, field. rewrite Hk. by apply stoull_to_string. Qed.

Lemma field_some fields key v : fields !! key = Some v → field fields key = v.
Proof. intros Hk. unfold field. by rewrite Hk. Qed.

(** * Dispatch *)

Lemma Handle_some {S} (server : RpcServer S) request handler :
  handlers_ server !! rq_method request = Some handler → Handle server request = handler request.
Proof. intros Hh. unfold Handle. by rewrite Hh. Qed.

Lemma handle_run {S} (server : RpcServer S) request w method handler :
  rq_method request = method → handlers_ server !! method = Some handler →
  Handle server request w = handler request w.
Proof. intros <- Hh. by rewrite (Handle_some _ _ _ Hh). Qed.

(** Look a literal key up in literal assignments. *)
Ltac wire_field :=
  apply put_all_in; [solve_nodup
                    | repeat (first [apply list_elem_of_here | apply list_elem_of_further])].

(** The dispatch of a method, and the leading reads of its handler. *)
Ltac dispatch Hm h :=
  rewrite (handle_run _ _ _ _ h Hm) by reflexivity; unfold h.
