(* ===== verification/Engine.v ===== *)
(** The storage layer: the key-value engine interface of
    include/rstone/storage/kv_engine.h, its file-backed implementation
    src/storage/file_kv_engine.cpp over an explicit disk, and the command
    language of src/storage/kv_command.cpp that travels in the Raft log. *)

From S2P Require Import Prelude Types Text.

Abbreviation DataMap := (gmap string string).

(** * Mutations *)

Inductive KvMutationType := kPut | kDelete.

#[export] Instance KvMutationType_eq_dec : EqDecision KvMutationType.
Proof. solve_decision. Defined.

Record KvMutation := mkMutation {
  mut_type : KvMutationType;
  mut_key : string;
  mut_value : string;
}.

#[export] Instance KvMutation_eq_dec : EqDecision KvMutation.
Proof. solve_decision. Defined.

Definition apply_mutation (data : DataMap) (m : KvMutation) : DataMap :=
  match mut_type m with
  | kPut => <[mut_key m := mut_value m]> data
  | kDelete => delete (mut_key m) data
  end.

Definition apply_batch (data : DataMap) (ms : list KvMutation) : DataMap :=
  foldl apply_mutation data ms.

Definition kv_mutation (kv : string * string) : KvMutation := mkMutation kPut kv.1 kv.2.

(** * The engine interface

    [KvEngine] is the abstract class: [S] is the state a call may touch.  Its
    laws say what every client relies on, for a state in which no I/O error
    is pending: a batch is applied in order, a lookup and a scan read the
    current contents, scans in key order. *)
Class KvEngine (S : Type) := {
  kv_Put : string → string → IO S unit;
  kv_Delete : string → IO S unit;
  kv_Get : string → IO S string;
  kv_WriteBatch : list KvMutation → IO S unit;
  kv_ScanPrefix : string → IO S (list (string * string));
  kv_ScanRange : string → string → IO S (list (string * string));
}.

Definition key_not_found (key : string) : Status :=
  KeyNotFound ("key not found: " +:+ key).

(** The entries of a map, in order, whose key satisfies [p]. *)
Definition entries (p : string → bool) (data : DataMap) : list (string * string) :=
  filter (λ kv, p kv.1 = true) (kvs data).

Definition in_rangeb (start_key end_key key : string) : bool :=
  String.leb start_key key && (bool_decide (end_key = "") || String.ltb key end_key).

Class KvEngineLaws (S : Type) `{KvEngine S} := {
  kv_data : S → DataMap;
  kv_ready : S → Prop;
  kv_WriteBatch_ok : ∀ s ms, kv_ready s →
    ∃ s', kv_WriteBatch ms s = (Ok tt, s') ∧ kv_ready s' ∧
          kv_data s' = apply_batch (kv_data s) ms;
  kv_Put_batch : ∀ k v, kv_Put k v = kv_WriteBatch [mkMutation kPut k v];
  kv_Delete_batch : ∀ k, kv_Delete k = kv_WriteBatch [mkMutation kDelete k ""];
  kv_Get_spec : ∀ s k,
    kv_Get k s = (match kv_data s !! k with
                  | Some v => Ok v
                  | None => Err (key_not_found k)
                  end, s);
  kv_ScanPrefix_spec : ∀ s p,
    kv_ScanPrefix p s = (Ok (entries (starts_with p) (kv_data s)), s);
  kv_ScanRange_spec : ∀ s a b,
    kv_ScanRange a b s = (Ok (entries (in_rangeb a b) (kv_data s)), s);
}.

(** * The disk

    What is wrong with an I/O call that fails: the system's message, how many
    bytes of a write have reached the file all the same, and whether the stream
    knows of it when the code looks (what is still in its buffer is written by
    the destructor, whose failure nobody sees). *)
Record IoFault := mkFault { fault_msg : string; kept : nat; noticed : bool }.

(** Files by path, and the outcomes of the coming I/O calls; an exhausted list
    means that every further call succeeds. *)
Record Disk := mkDisk { files : gmap string string; io_faults : list (option IoFault) }.

Definition set_files (f : gmap string string → gmap string string) (d : Disk) : Disk :=
  mkDisk (f (files d)) (io_faults d).

Section disk.
Context {S : Type}.
Abbreviation W := (Disk * S)%type.

Definition io : IO W (option IoFault) := λ '(d, s),
  match io_faults d with
  | [] => (Ok None, (d, s))
  | o :: rest => (Ok o, (mkDisk (files d) rest, s))
  end.

(** An I/O call whose failure the code turns into a status. *)
Definition io_or (err : string → Status) : IO W unit :=
  o ← io; match o with None => mret () | Some f => fail (err (fault_msg f)) end.

(** An I/O call that throws [filesystem_error]. *)
Definition io_throwing : IO W unit :=
  o ← io; match o with None => mret () | Some _ => throw ExnFilesystem end.

Definition modify_files (f : gmap string string → gmap string string) : IO W unit :=
  modify (λ '(d, s), (set_files f d, s)).

Definition read_file (path : string) : IO W (option string) :=
  gets (λ '(d, _), files d !! path).

(** [std::filesystem::create_directories]: there is no empty path to create. *)
Definition create_directories (path : string) (err : string → Status) : IO W unit :=
  if decide (path = "") then fail (err "Invalid argument") else io_or err.
Definition create_directories_throwing (path : string) : IO W unit :=
  if decide (path = "") then throw ExnFilesystem else io_throwing.

(** What a write that fails has written. *)
Definition torn (f : IoFault) (text : string) : string := String.substring 0 (kept f) text.

(** [output << text]: what the disk does to the text, and the error the stream
    then shows. *)
Definition write_text (write : string → gmap string string → gmap string string) (text : string) :
    IO W (option string) :=
  o ← io;
  match o with
  | None => _ ← modify_files (write text); mret None
  | Some f =>
      _ ← modify_files (write (torn f text));
      mret (if noticed f then Some (fault_msg f) else None)
  end.

(** The stream is looked at after the write. *)
Definition write_or (err : string → Status)
    (write : string → gmap string string → gmap string string) (text : string) : IO W unit :=
  o ← write_text write text;
  match o with None => mret () | Some msg => fail (err msg) end.

(** It is not. *)
Definition write_unchecked (write : string → gmap string string → gmap string string)
    (text : string) : IO W unit :=
  _ ← write_text write text; mret ().
End disk.

(** A stream opened without [std::ios::app] starts from an empty file. *)
Definition overwrite (path text : string) (fs : gmap string string) : gmap string string :=
  <[path := text]> fs.

Definition append_to (path text : string) (fs : gmap string string) : gmap string string :=
  <[path := default "" (fs !! path) +:+ text]> fs.

(** [std::filesystem::path(a) / b] for a relative [b]. *)
Fixpoint ends_with_slash (s : string) : bool :=
  match s with
  | "" => false
  | String c "" => bool_decide (c = "/"%char)
  | String _ r => ends_with_slash r
  end.
Definition path_join (a b : string) : string :=
  if decide (a = "") then b
  else if ends_with_slash a then a +:+ b else a +:+ "/" +:+ b.

(** * FileKvEngine *)

Record FileKvEngine := mkEngine {
  directory_ : string;
  log_path_ : string;
  data_ : DataMap;
}.

Definition new_engine : FileKvEngine := mkEngine "" "" ∅.

Abbreviation EngineW := (Disk * FileKvEngine)%type.

Definition mutation_line (m : KvMutation) : string :=
  String (match mut_type m with kPut => "P"%char | kDelete => "D"%char end)
    (" " +:+ HexEncode (mut_key m) +:+ " " +:+ value_word (mut_value m) +:+ newline).

Definition AppendMutation (m : KvMutation) : IO EngineW unit :=
  path ← gets (λ w, log_path_ w.2);
  _ ← io_or (λ _, IoError ("failed to append kv log: " +:+ path));
  write_or (λ _, IoError ("failed to write kv log: " +:+ path)) (append_to path) (mutation_line m).

Fixpoint append_all (ms : list KvMutation) : IO EngineW unit :=
  match ms with
  | [] => mret ()
  | m :: rest => _ ← AppendMutation m; append_all rest
  end.

Definition set_data (f : DataMap → DataMap) (e : FileKvEngine) : FileKvEngine :=
  mkEngine (directory_ e) (log_path_ e) (f (data_ e)).

Definition modify_data (f : DataMap → DataMap) : IO EngineW unit :=
  modify (λ '(d, e), (d, set_data f e)).

Definition WriteBatch (mutations : list KvMutation) : IO EngineW unit :=
  _ ← append_all mutations;
  modify_data (λ data, apply_batch data mutations).

Definition Put (key value : string) : IO EngineW unit :=
  WriteBatch [mkMutation kPut key value].

Definition Delete (key : string) : IO EngineW unit :=
  WriteBatch [mkMutation kDelete key ""].

Definition Get (key : string) : IO EngineW string :=
  data ← gets (λ w, data_ w.2);
  match data !! key with
  | None => fail (key_not_found key)
  | Some v => mret v
  end.

Definition ScanPrefix (prefix : string) : IO EngineW (list (string * string)) :=
  gets (λ w,
    take_while (λ kv, starts_with prefix kv.1)
      (drop_while (λ kv, String.ltb kv.1 prefix) (kvs (data_ w.2)))).

Definition ScanRange (start_key end_key : string) :
    IO EngineW (list (string * string)) :=
  gets (λ w,
    take_while (λ kv, bool_decide (end_key = "") || String.ltb kv.1 end_key)
      (if decide (start_key = "") then kvs (data_ w.2)
       else drop_while (λ kv, String.ltb kv.1 start_key) (kvs (data_ w.2)))).

(** One line of the log: [Err] leaves the contents as they are. *)
Definition replay_line (line : string) (data : DataMap) : res DataMap :=
  let '(op, record) := get_char (istringstream line) in
  let '(key_hex, record) := get_word record in
  let '(value_hex0, record) := get_word record in
  let value_hex :=
    if failbit record && bool_decide (value_hex0 = "") then "-" else value_hex0 in
  key ← HexDecode key_hex;
  value ← read_value_word value_hex;
  if decide (op = "P"%char) then Ok (<[key := value]> data)
  else if decide (op = "D"%char) then Ok (delete key data)
  else Err (InvalidArgument "invalid kv log operation").

Fixpoint replay_lines (lines : list string) (data : DataMap) : res unit * DataMap :=
  match lines with
  | [] => (Ok tt, data)
  | line :: rest =>
      if decide (line = "") then replay_lines rest data
      else match replay_line line data with
           | Ok data' => replay_lines rest data'
           | Err st => (Err st, data)
           | Fault f => (Fault f, data)
           end
  end.

Definition replay_text (text : string) : IO EngineW unit := λ '(d, e),
  let '(r, data) := replay_lines (getlines text) ∅ in (r, (d, set_data (λ _, data) e)).

Definition Replay : IO EngineW unit :=
  path ← gets (λ w, log_path_ w.2);
  _ ← modify_data (λ _, ∅);
  _ ← io_or (λ _, IoError ("failed to replay kv log: " +:+ path));
  text ← read_file path;
  match text with
  | None => fail (IoError ("failed to replay kv log: " +:+ path))
  | Some t => replay_text t
  end.

Definition Open (path : string) : IO EngineW unit :=
  let log_path := path_join path "kv.log" in
  _ ← modify (λ '(d, e), (d, mkEngine path log_path (data_ e)));
  _ ← create_directories path (λ msg, IoError ("failed to create data directory: " +:+ msg));
  _ ← io_or (λ _, IoError ("failed to open kv log: " +:+ log_path));
  _ ← modify_files (append_to log_path "");
  Replay.

#[export] Instance FileKvEngine_ops : KvEngine EngineW := {|
  kv_Put := Put;
  kv_Delete := Delete;
  kv_Get := Get;
  kv_WriteBatch := WriteBatch;
  kv_ScanPrefix := ScanPrefix;
  kv_ScanRange := ScanRange;
|}.

(** * Commands *)

Definition EncodePutCommand (key value : string) : string :=
  "PUT " +:+ HexEncode key +:+ " " +:+ HexEncode value.

Definition EncodeDeleteCommand (key : string) : string :=
  "DELETE " +:+ HexEncode key.

Definition mutation_words (m : KvMutation) : string :=
  " " +:+ match mut_type m with kPut => "P" | kDelete => "D" end
  +:+ " " +:+ HexEncode (mut_key m) +:+ " " +:+ value_word (mut_value m).

Definition EncodeBatchCommand (mutations : list KvMutation) : string :=
  "BATCH " +:+ to_string (N.of_nat (length mutations))
  +:+ foldr (λ m acc, mutation_words m +:+ acc) "" mutations.

(** [std::vector<KvMutation>::max_size()], 72-byte elements. *)
Definition max_mutations : N := 128102389400760775.

Fixpoint read_mutations (count : nat) (input : istream) : res (list KvMutation) :=
  match count with
  | O => Ok []
  | S n =>
      let '(mutation_type, input) := get_word input in
      let '(key_hex, input) := get_word input in
      let '(value_hex, input) := get_word input in
      key ← HexDecode key_hex;
      value ← read_value_word value_hex;
      rest ← read_mutations n input;
      Ok (mkMutation (if decide (mutation_type = "P") then kPut else kDelete) key value
          :: rest)
  end.

Section commands.
Context {S : Type} `{KvEngine S}.

Definition ApplyKvCommand (command : string) : IO S unit :=
  let '(op, input) := get_word (istringstream command) in
  if decide (op = "PUT") then
    let '(key_hex, input) := get_word input in
    let '(value_hex, _) := get_word input in
    key ← lift (HexDecode key_hex);
    value ← lift (HexDecode value_hex);
    kv_Put key value
  else if decide (op = "DELETE") then
    let '(key_hex, _) := get_word input in
    key ← lift (HexDecode key_hex);
    kv_Delete key
  else if decide (op = "BATCH") then
    let '(count, input) := get_u64 input in
    if (max_mutations <? count)%N then throw ExnLengthError
    else
      mutations ← lift (read_mutations (N.to_nat count) input);
      kv_WriteBatch mutations
  else fail (InvalidArgument ("unknown kv command: " +:+ op)).
End commands.

Lemma path_join_filled a b : b ≠ "" → path_join a b ≠ "".
Proof. intros Hb. unfold path_join. by destruct a; repeat case_match. Qed.

(** * Facts about scans *)

Lemma kvs_sorted_R (data : DataMap) :
  StronglySorted (λ x y : string * string, String.leb x.1 y.1 = true) (kvs data).
Proof.
  eapply StronglySorted_impl, kvs_sorted. intros x y Hxy. by apply Is_true_true.
Qed.

Lemma entries_nodup p (data : DataMap) : NoDup (entries p data).*1.
Proof.
  apply NoDup_fmap_2_strong; [|apply list.NoDup_filter, (NoDup_fmap_1 fst), kvs_nodup].
  intros [k1 v1] [k2 v2] [_ H1]%list_elem_of_filter [_ H2]%list_elem_of_filter Hk.
  simpl in Hk. subst k2. apply elem_of_kvs in H1, H2. congruence.
Qed.

Lemma elem_of_entries p (data : DataMap) k v :
  (k, v) ∈ entries p data ↔ p k = true ∧ data !! k = Some v.
Proof. unfold entries. by rewrite list_elem_of_filter, elem_of_kvs. Qed.

Lemma entries_kvs p (data : DataMap) :
  entries p data = kvs (filter (λ kv, p kv.1 = true) data).
Proof.
  symmetry. apply kvs_unique; [apply StronglySorted_filter, kvs_sorted | apply entries_nodup|].
  apply map_eq. intros k. apply option_eq. intros v.
  rewrite map_lookup_filter_Some, <-elem_of_list_to_map, elem_of_entries
    by apply entries_nodup. simpl. tauto.
Qed.

Lemma ScanPrefix_entries p w :
  ScanPrefix p w = (Ok (entries (starts_with p) (data_ w.2)), w).
Proof.
  unfold ScanPrefix, gets, entries. do 2 f_equal.
  set (R := λ x y : string * string, String.leb x.1 y.1 = true).
  rewrite (drop_while_filter R) by
    (apply kvs_sorted_R || (intros x y Hxy; rewrite !ltb_leb, !negb_true_iff;
      unfold R in Hxy; destruct (String.leb p x.1) eqn:E; [|done];
      by rewrite (leb_trans p x.1 y.1))).
  rewrite (take_while_filter R).
  - rewrite list_filter_and. apply list_filter_ext. intros x _. split; [naive_solver|].
    intros Hx. split; [done|]. rewrite ltb_leb, negb_false_iff. by apply prefix_leb.
  - apply StronglySorted_filter, kvs_sorted_R.
  - intros x y [Hx _]%list_elem_of_filter Hxy Hy. rewrite ltb_leb, negb_false_iff in Hx.
    by eapply prefix_between.
Qed.

Lemma ScanRange_entries a b w :
  ScanRange a b w = (Ok (entries (in_rangeb a b) (data_ w.2)), w).
Proof.
  unfold ScanRange, gets, entries. do 2 f_equal.
  set (R := λ x y : string * string, String.leb x.1 y.1 = true).
  assert ((if decide (a = "") then kvs (data_ w.2)
           else drop_while (λ kv, String.ltb kv.1 a) (kvs (data_ w.2)))
          = filter (λ kv, String.ltb kv.1 a = false) (kvs (data_ w.2))) as ->.
  { case_decide as Ha.
    - subst a. symmetry. apply list_filter_iff_all. intros x _.
      rewrite ltb_leb. by rewrite leb_empty.
    - apply (drop_while_filter R); [apply kvs_sorted_R|]. intros x y Hxy.
      rewrite !ltb_leb, !negb_true_iff. unfold R in Hxy.
      destruct (String.leb a x.1) eqn:E; [|done]. by rewrite (leb_trans a x.1 y.1). }
  rewrite (take_while_filter R).
  - rewrite list_filter_and. apply list_filter_ext. intros x _.
    unfold in_rangeb. rewrite andb_true_iff, (ltb_leb x.1 a), negb_false_iff.
    naive_solver.
  - apply StronglySorted_filter, kvs_sorted_R.
  - intros x y _ Hxy. rewrite !orb_true_iff, !ltb_leb, !negb_true_iff.
    intros [?|Hb]; [by left|right]. destruct (String.leb b x.1) eqn:E; [|done].
    by rewrite (leb_trans b x.1 y.1) in Hb.
Qed.

(** A sorted list of the entries that satisfy [p] is the scan's result. *)
Lemma entries_unique p (data : DataMap) l :
  StronglySorted entry_le l → NoDup l.*1 →
  (∀ k v, (k, v) ∈ l ↔ p k = true ∧ data !! k = Some v) → entries p data = l.
Proof.
  intros Hs Hnd Hl. rewrite entries_kvs, <-(kvs_unique (list_to_map l) l Hs Hnd eq_refl).
  f_equal. apply map_eq. intros k.
  apply option_eq. intros v. rewrite map_lookup_filter_Some, <-elem_of_list_to_map by done.
  rewrite Hl. simpl. tauto.
Qed.

(** * Facts about writes *)

Lemma apply_puts (data : DataMap) l :
  NoDup l.*1 → apply_batch data (kv_mutation <$> l) = list_to_map l ∪ data.
Proof.
  revert data. induction l as [|[k v] l IH] using rev_ind; intros data Hnd.
  { unfold apply_batch. simpl. by rewrite (left_id_L ∅ (∪)). }
  rewrite fmap_app in Hnd. apply list.NoDup_app in Hnd as (Hnd & Hk & _).
  assert (k ∉ l.*1) as Hkl.
  { intros Hin. by apply (Hk k Hin), list_elem_of_here. }
  unfold apply_batch in *. rewrite fmap_app, foldl_app, IH by done.
  rewrite list_to_map_snoc by done. cbn. by rewrite insert_union_l.
Qed.

(** No I/O error is pending. *)
Definition disk_ok (d : Disk) : Prop := io_faults d = [].

Definition batch_lines (ms : list KvMutation) : string :=
  foldr (λ m acc, mutation_line m +:+ acc) "" ms.

Lemma append_to_append path s t fs :
  append_to path t (append_to path s fs) = append_to path (s +:+ t) fs.
Proof.
  unfold append_to. rewrite lookup_insert_eq, insert_insert_eq. simpl. by rewrite sapp_assoc.
Qed.

Lemma io_or_ok {S} err d (s : S) : disk_ok d → io_or err (d, s) = (Ok tt, (d, s)).
Proof. intros Hd. unfold io_or, io, mbind, M_bind. by rewrite Hd. Qed.

Lemma write_text_ok {S} write text d (s : S) :
  disk_ok d → write_text write text (d, s) = (Ok None, (set_files (write text) d, s)).
Proof. intros Hd. unfold write_text, io, mbind, M_bind. by rewrite Hd. Qed.

Lemma write_or_ok {S} err write text d (s : S) :
  disk_ok d → write_or err write text (d, s) = (Ok tt, (set_files (write text) d, s)).
Proof.
  intros Hd. unfold write_or, mbind, M_bind. by rewrite (write_text_ok write text d s Hd).
Qed.

Lemma write_unchecked_ok {S} write text d (s : S) :
  disk_ok d → write_unchecked write text (d, s) = (Ok tt, (set_files (write text) d, s)).
Proof.
  intros Hd. unfold write_unchecked, mbind, M_bind. by rewrite (write_text_ok write text d s Hd).
Qed.

Lemma overwrite_twice path t t' d :
  set_files (overwrite path t') (set_files (overwrite path t) d) = set_files (overwrite path t') d.
Proof. unfold set_files, overwrite. cbn [files io_faults]. by rewrite insert_insert_eq. Qed.

Lemma create_directories_ok {S} path err d (s : S) :
  path ≠ "" → disk_ok d → create_directories path err (d, s) = (Ok tt, (d, s)).
Proof. intros Hp Hd. unfold create_directories. rewrite decide_False by done. by apply io_or_ok. Qed.

Lemma io_throwing_ok {S} d (s : S) : disk_ok d → io_throwing (d, s) = (Ok tt, (d, s)).
Proof. intros Hd. unfold io_throwing, io, mbind, M_bind. by rewrite Hd. Qed.

Lemma create_directories_throwing_ok {S} path d (s : S) :
  path ≠ "" → disk_ok d → create_directories_throwing path (d, s) = (Ok tt, (d, s)).
Proof.
  intros Hp Hd. unfold create_directories_throwing. rewrite decide_False by done.
  by apply io_throwing_ok.
Qed.

Lemma AppendMutation_ok m d e :
  disk_ok d →
  AppendMutation m (d, e) =
  (Ok tt, (set_files (append_to (log_path_ e) (mutation_line m)) d, e)).
Proof.
  intros Hd. unfold AppendMutation, gets, mbind at 1, M_bind at 1. cbn [snd].
  rewrite (bind_ok _ _ _ _ _ (io_or_ok _ d e Hd)). by rewrite write_or_ok.
Qed.

Lemma disk_ok_set_files f d : disk_ok (set_files f d) ↔ disk_ok d.
Proof. done. Qed.

Lemma set_files_compose f g d : set_files f (set_files g d) = set_files (f ∘ g) d.
Proof. done. Qed.

(** With no pending I/O error: the log grows by the batch, the contents change
    by the batch. *)
Lemma append_all_ok ms d e :
  disk_ok d →
  append_all ms (d, e) =
  (Ok tt, (if decide (ms = []) then d
           else set_files (append_to (log_path_ e) (batch_lines ms)) d, e)).
Proof.
  revert d. induction ms as [|m ms IH]; intros d Hd; [done|].
  cbn [append_all]. unfold mbind at 1, M_bind. rewrite AppendMutation_ok by done.
  rewrite IH by done. rewrite (decide_False (P := m :: ms = [])) by done. do 3 f_equal.
  case_decide as Hms.
  - subst ms. cbn [batch_lines foldr]. by rewrite sapp_nil_r.
  - unfold set_files. cbn [files io_faults]. by rewrite append_to_append.
Qed.

Definition write_disk (e : FileKvEngine) (ms : list KvMutation) (d : Disk) : Disk :=
  if decide (ms = []) then d
  else set_files (append_to (log_path_ e) (batch_lines ms)) d.

Lemma WriteBatch_ok ms d e :
  disk_ok d →
  WriteBatch ms (d, e) =
  (Ok tt, (write_disk e ms d, set_data (λ data, apply_batch data ms) e)).
Proof.
  intros Hd. unfold WriteBatch. unfold mbind, M_bind. by rewrite append_all_ok.
Qed.

Lemma write_disk_ok e ms d : disk_ok (write_disk e ms d) ↔ disk_ok d.
Proof. unfold write_disk. by case_decide. Qed.

Lemma Get_spec k w :
  Get k w = (match data_ w.2 !! k with
             | Some v => Ok v
             | None => Err (key_not_found k)
             end, w).
Proof. unfold Get, gets, mbind, M_bind. by destruct (data_ w.2 !! k). Qed.

#[export] Program Instance FileKvEngine_laws : KvEngineLaws EngineW := {|
  kv_data := λ w, data_ w.2;
  kv_ready := λ w, disk_ok w.1;
|}.
Next Obligation.
  intros [d e] ms Hd. eexists. split; [by apply WriteBatch_ok|].
  split; [by apply write_disk_ok | done].
Qed.
Next Obligation. done. Qed.
Next Obligation. done. Qed.
Next Obligation. intros w k. apply Get_spec. Qed.
Next Obligation. intros w p. apply ScanPrefix_entries. Qed.
Next Obligation. intros w a b. apply ScanRange_entries. Qed.

(** ** I/O errors

    The stream knows of every error that is coming. *)
Definition alert (d : Disk) : Prop :=
  Forall (λ o : option IoFault, match o with Some f => noticed f = true | None => True end)
    (io_faults d).

Lemma append_to_lookup path s text (fs : gmap string string) :
  fs !! path = Some text → append_to path s fs !! path = Some (text +:+ s).
Proof. intros H. unfold append_to. by rewrite lookup_insert_eq, H. Qed.

Lemma io_faults_set_files f d : io_faults (set_files f d) = io_faults d.
Proof. done. Qed.

(** Whatever the disk does, an append leaves the engine alone. *)
Lemma AppendMutation_frame m d e :
  ∃ r d', AppendMutation m (d, e) = (r, (d', e)) ∧ (r = Ok tt ∨ ∃ st, r = Err st).
Proof.
  unfold AppendMutation, gets, io_or, write_or, write_text, io, modify_files, modify, mbind, M_bind.
  destruct d as [fs [|[f1|] [|[[msg n []]|] rest]]]; do 2 eexists; (split; [reflexivity|]); eauto.
Qed.

(** A failed append leaves a part of the line behind, often none of it. *)
Lemma AppendMutation_cases m d e text :
  alert d → files d !! log_path_ e = Some text →
  ∃ r d' n, AppendMutation m (d, e) = (r, (d', e)) ∧
    ((r = Ok tt ∧ alert d' ∧ files d' !! log_path_ e = Some (text +:+ mutation_line m)) ∨
     (∃ st, r = Err st) ∧
     files d' !! log_path_ e = Some (text +:+ String.substring 0 n (mutation_line m))).
Proof.
  unfold alert, AppendMutation, gets, mbind at 1, M_bind at 1. intros Hal Hf. cbn [snd].
  unfold io_or, write_or, write_text, io, modify_files, modify, mbind, M_bind.
  destruct d as [fs [|[f1|] [|[f2|] rest]]]; cbn [io_faults files set_files fst snd] in *;
    try (exists (Ok tt); eexists; exists 0; split; [reflexivity|]; left; split_and!;
         [done | by eauto using list.Forall_nil, Forall_inv_tail | by apply append_to_lookup]).
  - do 2 eexists. exists 0. split; [reflexivity|]. right. split; [by eexists|].
    by rewrite (sapp_nil_r text : text +:+ String.substring 0 0 (mutation_line m) = text).
  - do 2 eexists. exists 0. split; [reflexivity|]. right. split; [by eexists|].
    by rewrite (sapp_nil_r text : text +:+ String.substring 0 0 (mutation_line m) = text).
  - do 2 eexists. exists 0. split; [reflexivity|]. right. split; [by eexists|].
    by rewrite (sapp_nil_r text : text +:+ String.substring 0 0 (mutation_line m) = text).
  - apply Forall_inv_tail, Forall_inv in Hal. simpl. rewrite Hal.
    do 2 eexists. exists (kept f2). split; [reflexivity|]. right. split; [by eexists|].
    by apply append_to_lookup.
Qed.

(** The log after a batch that failed: what it held, the mutations before the
    failure, and a part of the record that failed. *)
Lemma append_all_err ms d e text st d' e' :
  alert d → files d !! log_path_ e = Some text →
  append_all ms (d, e) = (Err st, (d', e')) →
  e' = e ∧ ∃ k m n, ms !! k = Some m ∧
    files d' !! log_path_ e =
      Some (text +:+ batch_lines (take k ms) +:+ String.substring 0 n (mutation_line m)).
Proof.
  revert d text. induction ms as [|m ms IH]; intros d text Hal Hf H; [done|].
  cbn [append_all] in H. unfold mbind, M_bind in H.
  destruct (AppendMutation_cases m d e text Hal Hf)
    as (r & d1 & n & Hm & [(-> & Hal1 & Hf1) | [[st1 ->] Hf1]]); rewrite Hm in H.
  - destruct (IH d1 _ Hal1 Hf1 H) as [-> (k & m' & n' & Hk & Hf')]. split; [done|].
    exists (S k), m', n'. split; [done|]. rewrite Hf'. cbn [take batch_lines foldr].
    by rewrite !sapp_assoc.
  - injection H as -> -> ->. split; [done|]. by exists 0, m, n.
Qed.

Lemma WriteBatch_err ms d e text st d' e' :
  alert d → files d !! log_path_ e = Some text →
  WriteBatch ms (d, e) = (Err st, (d', e')) →
  e' = e ∧ ∃ k m n, ms !! k = Some m ∧
    files d' !! log_path_ e =
      Some (text +:+ batch_lines (take k ms) +:+ String.substring 0 n (mutation_line m)).
Proof.
  intros Hal Hf H. unfold WriteBatch, mbind, M_bind in H.
  destruct (append_all ms (d, e)) as [[[]|st1|f] [d1 e1]] eqn:Hm; [done | | done].
  injection H as -> -> ->. by eapply append_all_err.
Qed.

(** * Durability: replaying the log rebuilds the contents *)

Fixpoint complete (s : string) : bool :=
  match s with
  | "" => true
  | String c "" => bool_decide (c = nl)
  | String _ r => complete r
  end.

Lemma complete_app s t : complete s = true → complete t = true → complete (s +:+ t) = true.
Proof.
  intros Hs Ht. induction s as [|c s IH]; [done|]. rewrite sapp_cons.
  destruct s as [|c' s].
  - rewrite sapp_nil_l. by destruct t.
  - rewrite sapp_cons in *. by apply IH.
Qed.

Lemma complete_line s : complete (s +:+ newline) = true.
Proof.
  induction s as [|c s IH]; [done|]. rewrite sapp_cons. simpl.
  destruct (s +:+ newline) eqn:E; [by destruct s | done].
Qed.

Lemma getlines_app s t :
  complete s = true → getlines (s +:+ t) = getlines s ++ getlines t.
Proof.
  induction s as [|c s IH]; intros Hs; [done|]. rewrite sapp_cons. cbn [getlines].
  destruct s as [|c' s].
  - simpl in Hs. rewrite bool_decide_eq_true in Hs. by rewrite !decide_True.
  - rewrite IH by done. case_decide; [done|].
    destruct (getlines (String c' s)) eqn:E; [|done].
    exfalso. clear -E. simpl in E. case_decide; [done|]. by destruct (getlines s).
Qed.

Lemma replay_lines_app l1 l2 data :
  replay_lines (l1 ++ l2) data =
  match replay_lines l1 data with
  | (Ok _, data') => replay_lines l2 data'
  | r => r
  end.
Proof.
  revert data. induction l1 as [|x l1 IH]; intros data; [done|]. simpl.
  case_decide; [apply IH|]. destruct (replay_line x data); [apply IH | done..].
Qed.

Definition line_body (m : KvMutation) : string :=
  String (match mut_type m with kPut => "P"%char | kDelete => "D"%char end)
    (String " " (HexEncode (mut_key m) +:+ String " " (value_word (mut_value m)))).

Lemma mutation_line_body m : mutation_line m = line_body m +:+ newline.
Proof.
  unfold mutation_line, line_body. by snorm.
Qed.

Lemma line_body_no_newline m : no_newline (line_body m) = true.
Proof.
  unfold no_newline, line_body. simpl. rewrite str_all_app. simpl.
  rewrite value_word_no_newline, HexEncode_not by done. by destruct (mut_type m).
Qed.

Lemma replay_line_body m data :
  mut_key m ≠ "" → replay_line (line_body m) data = Ok (apply_mutation data m).
Proof.
  intros Hk. unfold replay_line, line_body.
  assert (∀ c r, Ascii.is_space c = false →
    get_char (istringstream (String c r)) = (c, mkStream r false)) as Hc.
  { intros c r Hsp. unfold get_char. cbn [istringstream failbit rest].
    by rewrite skip_ws_head. }
  rewrite Hc by by destruct (mut_type m). cbv beta iota.
  rewrite get_word_sp by auto with str. cbv beta iota.
  rewrite get_word_sp_end by auto with str. cbv beta iota. cbn [failbit andb].
  rewrite HexDecode_encode, read_value_word_spec.
  unfold apply_mutation. by destruct (mut_type m).
Qed.

Definition keys_ok (ms : list KvMutation) : Prop := Forall (λ m, mut_key m ≠ "") ms.

Lemma batch_lines_complete ms : complete (batch_lines ms) = true.
Proof.
  induction ms as [|m ms IH]; [done|]. cbn [batch_lines foldr].
  rewrite mutation_line_body. apply complete_app; [apply complete_line | done].
Qed.

Lemma replay_batch ms data :
  keys_ok ms →
  replay_lines (getlines (batch_lines ms)) data = (Ok tt, apply_batch data ms).
Proof.
  intros Hms. revert data. induction Hms as [|m ms Hm Hms IH]; intros data; [done|].
  cbn [batch_lines foldr]. rewrite mutation_line_body.
  unfold newline. rewrite sapp_assoc, sapp_cons, sapp_nil_l.
  rewrite getlines_cons by apply line_body_no_newline. cbn [replay_lines].
  rewrite decide_False by done. rewrite replay_line_body by done. apply IH.
Qed.

(** The log of an open engine is the whole truth about its contents. *)
Definition durable (w : EngineW) : Prop :=
  directory_ w.2 ≠ "" ∧ log_path_ w.2 = path_join (directory_ w.2) "kv.log" ∧
  ∃ text, files w.1 !! log_path_ w.2 = Some text ∧ complete text = true ∧
          replay_lines (getlines text) ∅ = (Ok tt, data_ w.2).

Lemma WriteBatch_durable ms d e w' :
  durable (d, e) → disk_ok d → keys_ok ms →
  WriteBatch ms (d, e) = (Ok tt, w') → durable w'.
Proof.
  intros (Hne & Hp & text & Hf & Hc & Hr) Hd Hms. rewrite WriteBatch_ok by done.
  intros [= <-]. split; [done|]. split; [done|]. unfold write_disk. case_decide as Hnil.
  { subst ms. by exists text. }
  exists (text +:+ batch_lines ms). cbn [fst snd set_files files log_path_ set_data data_].
  split_and!.
  - unfold append_to. rewrite lookup_insert_eq. simpl in Hf. by rewrite Hf.
  - apply complete_app; [done | apply batch_lines_complete].
  - rewrite getlines_app, replay_lines_app, Hr by done. by apply replay_batch.
Qed.

(** Opening reads back whatever the log holds. *)
Lemma Open_run path d e :
  path ≠ "" → disk_ok d →
  Open path (d, e) =
  replay_text (default "" (files d !! path_join path "kv.log"))
    (set_files (append_to (path_join path "kv.log") "") d,
     mkEngine path (path_join path "kv.log") ∅).
Proof.
  intros Hp Hd. unfold Open, Replay, modify_files, modify_data, read_file. run.
  run_call ltac:(by apply create_directories_ok). run_call ltac:(by apply io_or_ok). run.
  run_call ltac:(by apply io_or_ok). run. cbn [set_files files fst snd log_path_ set_data].
  unfold append_to at 1. by rewrite lookup_insert_eq, sapp_nil_r.
Qed.

Lemma Open_path path w w' : Open path w = (Ok tt, w') → path ≠ "".
Proof. intros H ->. by destruct w as [d e]. Qed.

Lemma Open_ok path d e text data :
  path ≠ "" → disk_ok d → default "" (files d !! path_join path "kv.log") = text →
  replay_lines (getlines text) ∅ = (Ok tt, data) →
  Open path (d, e) =
  (Ok tt, (set_files (append_to (path_join path "kv.log") "") d,
           mkEngine path (path_join path "kv.log") data)).
Proof.
  intros Hp Hd Ht Hr. rewrite Open_run, Ht by done. unfold replay_text. by rewrite Hr.
Qed.

Lemma Open_durable path d e w' :
  path ≠ "" → disk_ok d → complete (default "" (files d !! path_join path "kv.log")) = true →
  Open path (d, e) = (Ok tt, w') → durable w'.
Proof.
  intros Hp Hd Hc. rewrite Open_run by done. unfold replay_text.
  destruct (replay_lines _ _) as [r data] eqn:Hr. intros [= -> <-].
  split; [done|]. split; [done|]. eexists. cbn [fst snd set_files files log_path_ set_data data_].
  split; [apply lookup_insert_eq|]. by rewrite sapp_nil_r.
Qed.

(** Restart: a new engine opened on the directory of a durable one holds the
    same contents. *)
Lemma reopen d e :
  durable (d, e) → disk_ok d →
  ∃ d', Open (directory_ e) (d, new_engine) = (Ok tt, (d', e)) ∧ disk_ok d' ∧ durable (d', e).
Proof.
  intros (Hne & Hp & text & Hf & Hc & Hr) Hd. cbn [fst snd] in *.
  assert (default "" (files d !! path_join (directory_ e) "kv.log") = text) as Htext by by rewrite <-Hp, Hf.
  pose proof (Open_ok (directory_ e) d new_engine text (data_ e) Hne Hd Htext Hr) as Hopen.
  assert (mkEngine (directory_ e) (path_join (directory_ e) "kv.log") (data_ e) = e) as He
    by (rewrite <-Hp; by destruct e).
  rewrite He in Hopen. eexists. split; [exact Hopen|]. split; [done|].
  eapply (Open_durable _ d new_engine); [done | done | by rewrite Htext | exact Hopen].
Qed.

(** * Facts about commands *)

Section command_facts.
Context {S : Type} `{KvEngine S}.

Lemma apply_put_command k v :
  k ≠ "" → ApplyKvCommand (EncodePutCommand k v) = kv_Put k v.
Proof.
  intros Hk. unfold ApplyKvCommand, EncodePutCommand.
  replace ("PUT " +:+ HexEncode k +:+ " " +:+ HexEncode v)
    with ("PUT" +:+ String " " (HexEncode k +:+ String " " (HexEncode v)))
    by by snorm.
  rewrite get_word_first by auto with str. cbv beta iota.
  rewrite decide_True by done. rewrite get_word_sp by auto with str. cbv beta iota.
  rewrite HexDecode_encode. destruct (decide (v = "")) as [-> | Hv].
  - done.
  - rewrite get_word_sp_end by auto with str. cbv beta iota. by rewrite HexDecode_encode.
Qed.

(** With an empty key the columns shift: the value is taken for the key. *)
Lemma apply_put_command_empty v :
  ApplyKvCommand (EncodePutCommand "" v) = kv_Put v "".
Proof.
  unfold ApplyKvCommand, EncodePutCommand.
  replace ("PUT " +:+ HexEncode "" +:+ " " +:+ HexEncode v)
    with ("PUT" +:+ String " " (String " " (HexEncode v))) by by snorm.
  rewrite get_word_first by auto with str. cbv beta iota.
  rewrite decide_True by done. destruct (decide (v = "")) as [-> | Hv]; [done|].
  rewrite (get_word_next _ (HexEncode v) "");
    [|by rewrite !skip_ws_space, skip_ws_word_end, sapp_nil_r by auto with str
     |by auto with str | done].
  cbv beta iota. by rewrite HexDecode_encode.
Qed.

Lemma apply_delete_command k :
  ApplyKvCommand (EncodeDeleteCommand k) = kv_Delete k.
Proof.
  unfold ApplyKvCommand, EncodeDeleteCommand.
  replace ("DELETE " +:+ HexEncode k) with ("DELETE" +:+ String " " (HexEncode k))
    by by snorm.
  rewrite get_word_first by auto with str. cbv beta iota.
  rewrite decide_False, decide_True by done.
  destruct (decide (k = "")) as [-> | Hk]; [done|].
  rewrite get_word_sp_end by auto with str. cbv beta iota. by rewrite HexDecode_encode.
Qed.

Lemma read_mutations_words ms :
  keys_ok ms →
  read_mutations (length ms)
    (mkStream (foldr (λ m acc, mutation_words m +:+ acc) "" ms) false) = Ok ms.
Proof.
  induction 1 as [|m ms Hm Hms IH]; [done|]. cbn [length foldr read_mutations].
  set (tail := foldr _ _ _) in *.
  assert (word_end tail) as Htail.
  { subst tail. by destruct ms. }
  replace (mutation_words m +:+ tail) with
    (String " " (match mut_type m with kPut => "P" | kDelete => "D" end
      +:+ String " " (HexEncode (mut_key m)
      +:+ String " " (value_word (mut_value m) +:+ tail))))
    by (unfold mutation_words; destruct (mut_type m); by snorm).
  rewrite get_word_sp by (done || by destruct (mut_type m)). cbv beta iota.
  rewrite get_word_sp by auto with str. cbv beta iota.
  rewrite get_word_sp by auto with str. cbv beta iota.
  rewrite HexDecode_encode, read_value_word_spec, IH.
  destruct m as [[] k v]; done.
Qed.

Lemma apply_batch_command ms :
  keys_ok ms → (N.of_nat (length ms) <= max_mutations)%N →
  ApplyKvCommand (EncodeBatchCommand ms) = kv_WriteBatch ms.
Proof.
  intros Hms Hlen. unfold ApplyKvCommand, EncodeBatchCommand.
  set (tail := foldr _ _ _).
  assert (word_end tail) as Htail by (subst tail; by destruct ms).
  replace ("BATCH " +:+ to_string (N.of_nat (length ms)) +:+ tail)
    with ("BATCH" +:+ String " " (to_string (N.of_nat (length ms)) +:+ tail))
    by by snorm.
  rewrite get_word_first by auto with str. cbv beta iota.
  rewrite !decide_False, decide_True by done.
  rewrite get_u64_sp by (done || unfold max_mutations, two64 in *; lia). cbv beta iota.
  destruct (N.ltb_spec max_mutations (N.of_nat (length ms))); [lia|].
  rewrite Nat2N.id. unfold tail. by rewrite read_mutations_words.
Qed.
End command_facts.
