(* ===== verification/StorageSpec.v ===== *)
(** What the formats and the storage engine guarantee: encodings that read back,
    an engine that is a map and survives a restart, commands that mean what was
    encoded, and where each of these stops. *)

From S2P Require Import Prelude Types Text Codec Engine.

(** * Encodings *)

(** Field maps round trip. Any map of arbitrary strings, encoded as hex
    lines, decodes to itself; so two different maps never share an encoding. *)
Lemma field_map_roundtrip (fields fields' : FieldMap) :
  DecodeFields (EncodeFields fields) = Ok fields ∧
  (EncodeFields fields = EncodeFields fields' ↔ fields = fields').
Proof.
  split; [apply DecodeFields_encode|]. split; [|by intros ->]. intros H.
  pose proof (DecodeFields_encode fields) as H1. rewrite H, DecodeFields_encode in H1.
  by injection H1.
Qed.

(** RPC envelopes round trip. A request and a response whose metadata keys
    are neither empty nor start with an underscore, the deadline being an
    [int], are decoded to exactly what was sent. *)
Lemma rpc_envelope_roundtrip rq rs :
  metadata_ok (rq_metadata rq) → (- two31 <= rq_deadline_ms rq < two31)%Z →
  metadata_ok (rs_metadata rs) →
  DecodeRpcRequest (EncodeRpcRequest rq) = Ok rq ∧
  DecodeRpcResponse (EncodeRpcResponse rs) = Ok rs.
Proof.
  intros. split; [by apply rpc_request_roundtrip | by apply rpc_response_roundtrip].
Qed.

Definition sample_metadata : FieldMap := <["trace" := "t"]> ∅.

Lemma sample_metadata_ok : metadata_ok sample_metadata.
Proof.
  intros k [v Hk]. unfold sample_metadata in Hk. apply lookup_insert_Some in Hk as [[<- _] | [_ Hk]]; [done|].
  by rewrite lookup_empty in Hk.
Qed.

Lemma rpc_envelope_roundtrip_witness :
  let rq := mkRequest "1" "kv_put" "cli" "gw" (-5) "pay" sample_metadata in
  let rs := mkResponse "1" false "IoError" "disk" "" sample_metadata in
  DecodeRpcRequest (EncodeRpcRequest rq) = Ok rq ∧
  DecodeRpcResponse (EncodeRpcResponse rs) = Ok rs.
Proof.
  apply (rpc_envelope_roundtrip (mkRequest "1" "kv_put" "cli" "gw" (-5) "pay" sample_metadata)
    (mkResponse "1" false "IoError" "disk" "" sample_metadata)).
  - exact sample_metadata_ok.
  - unfold two31. simpl. lia.
  - exact sample_metadata_ok.
Defined.

(** Store and region records round trip. Written under any prefix into any
    field map and read back under that prefix, a region is itself, peers and
    their order included, and a store is itself except for its labels, which no
    record carries. *)
Lemma record_roundtrip f p s r :
  store_ok s → region_ok r →
  GetStoreFields (PutStoreFields f s p) p = wire_store s ∧
  GetRegionFields (PutRegionFields f r p) p = r.
Proof.
  intros Hs Hr. split.
  - apply GetStoreFields_agrees; [|done]. apply agrees_put_all, store_fields_nodup.
  - apply GetRegionFields_agrees; [|done]. apply agrees_put_all, region_fields_nodup.
Qed.

Definition sample_store : StoreInfo :=
  mkStore 4 (mkEndpoint "10.0.0.4" 9100) (mkEndpoint "10.0.0.4" 9200) "Up"
    (<["zone" := "a"]> ∅) (-1).
Definition sample_region : RegionInfo :=
  mkRegion 9 "b" "m" (mkEpoch 3 2) [mkPeer 1 4 kVoter; mkPeer 7 5 kLearner] 7.

Lemma record_roundtrip_witness :
  GetStoreFields (PutStoreFields ∅ sample_store "x") "x" = wire_store sample_store ∧
  GetRegionFields (PutRegionFields ∅ sample_region "x") "x" = sample_region.
Proof.
  apply (record_roundtrip ∅ "x" sample_store sample_region).
  - repeat split; simpl; unfold two31, two63; lia || reflexivity.
  - repeat split; try reflexivity. repeat constructor.
Defined.

(** * The engine *)

(** A store engine that is open on its directory, its log telling the whole of
    its contents, on a disk that raises no error. *)
Definition engine_open (w : EngineW) : Prop := durable w ∧ disk_ok w.1.

(** C34: The engine is a map. On a disk that raises no error every batch is
    applied in order, after which a lookup finds exactly the current contents
    and the scans list exactly the entries of the prefix or of the half-open
    range, in key order, each key once. *)
Theorem engine_is_map ms d e :
  disk_ok d →
  ∃ d' e', WriteBatch ms (d, e) = (Ok tt, (d', e')) ∧ data_ e' = apply_batch (data_ e) ms ∧
  (∀ k, (Get k (d', e')).1 =
     match data_ e' !! k with Some v => Ok v | None => Err (key_not_found k) end) ∧
  (∀ p, ∃ l, (ScanPrefix p (d', e')).1 = Ok l ∧
     (∀ k v, (k, v) ∈ l ↔ starts_with p k = true ∧ data_ e' !! k = Some v) ∧
     StronglySorted entry_le l ∧ NoDup l.*1) ∧
  (∀ a b, ∃ l, (ScanRange a b (d', e')).1 = Ok l ∧
     (∀ k v, (k, v) ∈ l ↔ in_rangeb a b k = true ∧ data_ e' !! k = Some v) ∧
     StronglySorted entry_le l ∧ NoDup l.*1).
Proof.
  intros Hd. do 2 eexists. split; [by apply WriteBatch_ok|]. split; [done|]. split_and!.
  - intros k. by rewrite Get_spec.
  - intros p. eexists. rewrite ScanPrefix_entries. split; [done|]. split_and!;
      [apply elem_of_entries | rewrite entries_kvs; apply kvs_sorted | apply entries_nodup].
  - intros a b. eexists. rewrite ScanRange_entries. split; [done|]. split_and!;
      [apply elem_of_entries | rewrite entries_kvs; apply kvs_sorted | apply entries_nodup].
Qed.

Definition small_engine : FileKvEngine := mkEngine "d" "d/kv.log" (<["a" := "0"]> ∅).
Definition small_batch : list KvMutation := [mkMutation kPut "b" "1"; mkMutation kDelete "a" ""].

Lemma engine_is_map_witness :
  ∃ d' e', WriteBatch small_batch (mkDisk ∅ [], small_engine) = (Ok tt, (d', e')) ∧
    data_ e' = apply_batch (data_ small_engine) small_batch ∧
    (∀ k, (Get k (d', e')).1 =
       match data_ e' !! k with Some v => Ok v | None => Err (key_not_found k) end) ∧
    (∀ p, ∃ l, (ScanPrefix p (d', e')).1 = Ok l ∧
       (∀ k v, (k, v) ∈ l ↔ starts_with p k = true ∧ data_ e' !! k = Some v) ∧
       StronglySorted entry_le l ∧ NoDup l.*1) ∧
    (∀ a b, ∃ l, (ScanRange a b (d', e')).1 = Ok l ∧
       (∀ k v, (k, v) ∈ l ↔ in_rangeb a b k = true ∧ data_ e' !! k = Some v) ∧
       StronglySorted entry_le l ∧ NoDup l.*1).
Proof. apply (engine_is_map small_batch (mkDisk ∅ []) small_engine). reflexivity. Defined.

(** Successive batches. *)
Fixpoint write_batches (batches : list (list KvMutation)) : IO EngineW unit :=
  match batches with
  | [] => mret tt
  | ms :: rest => _ ← WriteBatch ms; write_batches rest
  end.

Lemma write_all_durable batches w w' :
  engine_open w → Forall keys_ok batches →
  write_batches batches w = (Ok tt, w') →
  engine_open w' ∧ data_ w'.2 = foldl apply_batch (data_ w.2) batches ∧
  directory_ w'.2 = directory_ w.2.
Proof.
  revert w. induction batches as [|ms rest IH]; intros [d e] [Hdur Hd] Hks Hrun.
  { injection Hrun as <-. done. }
  apply list.Forall_cons in Hks as [Hk Hks].
  apply bind_Ok_inv in Hrun as ([] & w1 & Hw1 & Hrun).
  assert (engine_open w1) as Hw1o.
  { split; [by eapply WriteBatch_durable|]. rewrite WriteBatch_ok in Hw1 by done.
    injection Hw1 as <-. by apply write_disk_ok. }
  rewrite WriteBatch_ok in Hw1 by done. injection Hw1 as <-.
  destruct (IH _ Hw1o Hks Hrun) as (Hopen & Hdata & Hdir). split_and!; [done|..].
  - by rewrite Hdata.
  - by rewrite Hdir.
Qed.

(** C27: Restart loses nothing that batches of non-empty keys wrote. An engine
    opened on its directory, whose log ends with a whole line, on a disk without
    errors to come, after any series of successful batches without an empty key, is
    reopened by a new process with exactly the contents it had. (The code takes the
    empty key, and the log then no longer opens.) *)
Theorem engine_survives_restart path d0 d e batches w' :
  disk_ok d0 → complete (default "" (files d0 !! path_join path "kv.log")) = true →
  Open path (d0, new_engine) = (Ok tt, (d, e)) → Forall keys_ok batches →
  write_batches batches (d, e) = (Ok tt, w') →
  ∃ d'', Open path (w'.1, new_engine) = (Ok tt, (d'', w'.2)) ∧
    data_ w'.2 = foldl apply_batch (data_ e) batches.
Proof.
  intros Hd0 Hc Hopen Hks Hrun. pose proof (Open_path _ _ _ Hopen) as Hne.
  assert (engine_open (d, e) ∧ directory_ e = path) as [Ho Hdir].
  { split; [split|].
    - by eapply Open_durable.
    - rewrite Open_run in Hopen by done. unfold replay_text in Hopen.
      destruct (replay_lines _ _). by injection Hopen as _ <- _.
    - rewrite Open_run in Hopen by done. unfold replay_text in Hopen.
      destruct (replay_lines _ _). by injection Hopen as _ _ <-. }
  destruct (write_all_durable batches (d, e) w' Ho Hks Hrun) as ([Hdur Hd'] & Hdata & Hdir').
  destruct w' as [d1 e1]. cbn [fst snd] in *.
  destruct (reopen d1 e1 Hdur Hd') as (d'' & Hre & _). exists d''.
  rewrite Hdir', Hdir in Hre. done.
Qed.

Definition restart_batches : list (list KvMutation) :=
  [[mkMutation kPut "a" ""; mkMutation kPut "b" "x y"]; [mkMutation kDelete "a" ""]].
Definition opened_engine : EngineW := (Open "d" (mkDisk ∅ [], new_engine)).2.
Definition written_engine : EngineW := (write_batches restart_batches opened_engine).2.

Lemma engine_survives_restart_witness :
  ∃ d'', Open "d" (written_engine.1, new_engine) = (Ok tt, (d'', written_engine.2)) ∧
    data_ written_engine.2 = foldl apply_batch (data_ opened_engine.2) restart_batches.
Proof.
  apply (engine_survives_restart "d" (mkDisk ∅ []) opened_engine.1 opened_engine.2
    restart_batches written_engine).
  - reflexivity.
  - reflexivity.
  - vm_compute. reflexivity.
  - repeat constructor; discriminate.
  - vm_compute. reflexivity.
Defined.

(** C36: A batch is not atomic on disk. Take an open engine and a batch of
    non-empty keys that fails, on a disk whose errors the stream notices. The
    caller gets the error and memory is unchanged, but the log has grown by the
    mutations before the failure and by a part of the record that failed, none or
    all of it included. A new process replays those mutations and then whatever
    that part reads as: nothing when it is empty, the mutation when it is whole. *)
Theorem failed_batch_is_half_applied ms d e st d' e' :
  durable (d, e) → alert d → keys_ok ms → WriteBatch ms (d, e) = (Err st, (d', e')) →
  e' = e ∧ ∃ k m n text, ms !! k = Some m ∧ files d' !! log_path_ e = Some text ∧
    let part := String.substring 0 n (mutation_line m) in
    let data := apply_batch (data_ e) (take k ms) in
    replay_lines (getlines text) ∅ = replay_lines (getlines part) data ∧
    (part = "" → replay_lines (getlines text) ∅ = (Ok tt, data)) ∧
    (part = mutation_line m → replay_lines (getlines text) ∅ = (Ok tt, apply_mutation data m)).
Proof.
  intros (_ & Hp & text & Hf & Hc & Hr) Hal Hks Hrun.
  destruct (WriteBatch_err ms d e text st d' e' Hal Hf Hrun) as [-> (k & m & n & Hk & Hf')].
  split; [done|]. cbn [fst snd] in *. exists k, m, n. eexists. split; [exact Hk|].
  split; [exact Hf'|]. cbn zeta. set (part := String.substring 0 n (mutation_line m)).
  rewrite getlines_app, replay_lines_app, Hr by done.
  rewrite getlines_app, replay_lines_app, replay_batch
    by (apply batch_lines_complete || by apply list.Forall_take).
  split; [done|]. split; intros ->; [done|].
  replace (mutation_line m) with (batch_lines [m]) by apply sapp_nil_r.
  rewrite replay_batch; [done|]. apply list.Forall_singleton. exact (Forall_lookup_1 _ _ _ _ Hks Hk).
Qed.

(** The second record of two is cut off after a part of its value. *)
Definition no_space (kept : nat) (noticed : bool) : IoFault :=
  mkFault "No space left on device" kept noticed.
Definition two_puts : list KvMutation := [mkMutation kPut "a" "1"; mkMutation kPut "b" "23"].
Definition full_disk (f : IoFault) : EngineW :=
  (mkDisk (files opened_engine.1) [None; None; None; Some f], opened_engine.2).
Definition faulty_engine : EngineW := full_disk (no_space 7 true).
Definition half_written : EngineW := (WriteBatch two_puts faulty_engine).2.

Lemma failed_batch_is_half_applied_witness :
  files half_written.1 !! "d/kv.log" = Some ("P 61 31" +:+ newline +:+ "P 62 32") ∧
  half_written.2 = faulty_engine.2 ∧
  ∃ k m n text, two_puts !! k = Some m ∧ files half_written.1 !! log_path_ faulty_engine.2 = Some text ∧
    let part := String.substring 0 n (mutation_line m) in
    let data := apply_batch (data_ faulty_engine.2) (take k two_puts) in
    replay_lines (getlines text) ∅ = replay_lines (getlines part) data ∧
    (part = "" → replay_lines (getlines text) ∅ = (Ok tt, data)) ∧
    (part = mutation_line m → replay_lines (getlines text) ∅ = (Ok tt, apply_mutation data m)).
Proof.
  split; [vm_compute; reflexivity|].
  apply (failed_batch_is_half_applied two_puts faulty_engine.1 faulty_engine.2
    (IoError ("failed to write kv log: " +:+ "d/kv.log")) half_written.1).
  - split; [discriminate|]. split; [reflexivity|]. exists "". repeat split; vm_compute; reflexivity.
  - repeat constructor.
  - repeat constructor; discriminate.
  - vm_compute. reflexivity.
Defined.

(** Nothing in a record says how long it is: after the failed batch a new
    process reads a value that nobody wrote. *)
Lemma torn_record_is_another_value :
  (Open "d" (half_written.1, new_engine)).1 = Ok tt ∧
  data_ (Open "d" (half_written.1, new_engine)).2.2 !! "b" = Some "2".
Proof. split; vm_compute; reflexivity. Qed.

(** An error that comes when the buffer is written: the batch succeeds, and
    after a restart the key is not there. *)
Lemma unnoticed_error_loses_batch :
  let w := WriteBatch two_puts (full_disk (no_space 0 false)) in
  w.1 = Ok tt ∧ data_ w.2.2 !! "b" = Some "23" ∧
  (Open "d" (w.2.1, new_engine)).1 = Ok tt ∧
  data_ (Open "d" (w.2.1, new_engine)).2.2 !! "b" = None.
Proof. cbn zeta. repeat split; vm_compute; reflexivity. Qed.

(** * Commands *)

(** Commands mean what was encoded. On any engine, applying the encoding of
    a put with a non-empty key, of a delete, or of a batch with non-empty keys
    that fits into a vector, is that very call on the engine, values empty or
    not. *)
Theorem command_roundtrip {S} `{KvEngine S} k v ms :
  (k ≠ "" → ApplyKvCommand (EncodePutCommand k v) = kv_Put (S := S) k v) ∧
  ApplyKvCommand (EncodeDeleteCommand k) = kv_Delete (S := S) k ∧
  (keys_ok ms → (N.of_nat (length ms) <= max_mutations)%N →
   ApplyKvCommand (EncodeBatchCommand ms) = kv_WriteBatch (S := S) ms).
Proof.
  split; [apply apply_put_command|]. split; [apply apply_delete_command|].
  apply apply_batch_command.
Qed.

Lemma command_roundtrip_witness :
  ("k" ≠ "" → ApplyKvCommand (EncodePutCommand "k" "") = kv_Put (S := EngineW) "k" "") ∧
  ApplyKvCommand (EncodeDeleteCommand "k") = kv_Delete (S := EngineW) "k" ∧
  (keys_ok [mkMutation kPut "k" ""] → (N.of_nat 1 <= max_mutations)%N →
   ApplyKvCommand (EncodeBatchCommand [mkMutation kPut "k" ""]) =
   kv_WriteBatch (S := EngineW) [mkMutation kPut "k" ""]).
Proof. exact (command_roundtrip "k" "" [mkMutation kPut "k" ""]). Defined.

(** An empty key shifts the columns of a put: the value is stored as the
    key, with an empty value. *)
Lemma empty_key_put_stores_value_as_key {S} `{KvEngine S} v :
  ApplyKvCommand (EncodePutCommand "" v) = kv_Put (S := S) v "".
Proof. apply apply_put_command_empty. Qed.
