(* ===== verification/Raft.v ===== *)
(** The Raft consensus node of src/raft/raft_node.cpp: its state, the two
    message handlers, proposals, commit and apply bookkeeping and recovery,
    with the invariants of one node and the relation between a follower's log
    and its leader's. *)

From S2P Require Import Prelude Types.

(** * Data *)

Inductive RaftRole := kFollower | kCandidate | kLeader.
Inductive EntryType := kNormal | kConfigChange | kSplit | kNoop.

#[export] Instance RaftRole_eq_dec : EqDecision RaftRole.
Proof. solve_decision. Defined.
#[export] Instance EntryType_eq_dec : EqDecision EntryType.
Proof. solve_decision. Defined.

Definition RaftRoleName (role : RaftRole) : string :=
  match role with
  | kFollower => "Follower"
  | kCandidate => "Candidate"
  | kLeader => "Leader"
  end.

Record LogEntry := mkEntry {
  e_region_id : N;
  e_index : N;
  e_term : N;
  e_type : EntryType;
  e_command : string;
}.

#[export] Instance LogEntry_eq_dec : EqDecision LogEntry.
Proof. solve_decision. Defined.

Record RequestVoteRequest := mkVoteRequest {
  rv_region_id : N;
  rv_term : N;
  rv_candidate_id : N;
  rv_last_log_index : N;
  rv_last_log_term : N;
}.

Record RequestVoteResponse := mkVoteResponse {
  rv_resp_term : N;
  rv_granted : bool;
}.

Record AppendEntriesRequest := mkAppendRequest {
  ae_region_id : N;
  ae_term : N;
  ae_leader_id : N;
  ae_prev_log_index : N;
  ae_prev_log_term : N;
  ae_entries : list LogEntry;
  ae_leader_commit : N;
}.

Record AppendEntriesResponse := mkAppendResponse {
  ae_resp_term : N;
  ae_success : bool;
  ae_match_index : N;
}.

Record RaftNode := mkRaft {
  region_id_ : N;
  self_id_ : N;
  peers_ : list N;
  role_ : RaftRole;
  current_term_ : N;
  voted_for_ : option N;
  commit_index_ : N;
  last_applied_ : N;
  log_ : list LogEntry;
}.

#[export] Instance RaftNode_eq_dec : EqDecision RaftNode.
Proof. solve_decision. Defined.

Definition new_raft (region self : N) (peer_ids : list N) : RaftNode :=
  mkRaft region self peer_ids kFollower 0 None 0 0 [].

Definition with_role (r : RaftRole) (n : RaftNode) : RaftNode :=
  mkRaft (region_id_ n) (self_id_ n) (peers_ n) r (current_term_ n) (voted_for_ n)
    (commit_index_ n) (last_applied_ n) (log_ n).
Definition with_term (t : N) (v : option N) (n : RaftNode) : RaftNode :=
  mkRaft (region_id_ n) (self_id_ n) (peers_ n) (role_ n) t v
    (commit_index_ n) (last_applied_ n) (log_ n).
Definition with_log (c a : N) (l : list LogEntry) (n : RaftNode) : RaftNode :=
  mkRaft (region_id_ n) (self_id_ n) (peers_ n) (role_ n) (current_term_ n)
    (voted_for_ n) c a l.

(** * Operations *)

Definition last_log_index (n : RaftNode) : N :=
  match last (log_ n) with None => 0 | Some e => e_index e end.

Definition last_log_term (n : RaftNode) : N :=
  match last (log_ n) with None => 0 | Some e => e_term e end.

Definition BecomeFollower (term : N) (n : RaftNode) : RaftNode :=
  let n := with_role kFollower n in
  if (current_term_ n <? term)%N then with_term term None n else n.

Definition BecomeCandidate (n : RaftNode) : RaftNode :=
  with_term (u64 (current_term_ n + 1)) (Some (self_id_ n)) (with_role kCandidate n).

Definition BecomeLeader (n : RaftNode) : RaftNode := with_role kLeader n.

Definition IsCandidateLogUpToDate (n : RaftNode) (idx term : N) : bool :=
  let local_last_log_term := last_log_term n in
  if negb (term =? local_last_log_term)%N then (local_last_log_term <? term)%N
  else (last_log_index n <=? idx)%N.

Definition HasLogAt (n : RaftNode) (index term : N) : bool :=
  if (index =? 0)%N then (term =? 0)%N
  else match log_ n !! N.to_nat (index - 1) with
       | None => false
       | Some e => (e_term e =? term)%N
       end.

Definition DeleteFrom (index : N) (n : RaftNode) : RaftNode :=
  if (index =? 0)%N || (N.of_nat (length (log_ n)) + 1 <? index)%N then n
  else with_log
         (if (index <=? commit_index_ n)%N then index - 1 else commit_index_ n)
         (if (index <=? last_applied_ n)%N then index - 1 else last_applied_ n)
         (take (N.to_nat (index - 1)) (log_ n)) n.

Definition push_entry (e : LogEntry) (n : RaftNode) : RaftNode :=
  with_log (commit_index_ n) (last_applied_ n) (log_ n ++ [e]) n.

Definition HandleRequestVote (request : RequestVoteRequest) (n : RaftNode) :
    RequestVoteResponse * RaftNode :=
  if (rv_term request <? current_term_ n)%N then
    (mkVoteResponse (current_term_ n) false, n)
  else
    let n := if (current_term_ n <? rv_term request)%N
             then BecomeFollower (rv_term request) n else n in
    let can_vote := match voted_for_ n with
                    | None => true
                    | Some c => (c =? rv_candidate_id request)%N
                    end in
    let up_to_date :=
      IsCandidateLogUpToDate n (rv_last_log_index request) (rv_last_log_term request) in
    if can_vote && up_to_date then
      (mkVoteResponse (current_term_ n) true,
       with_term (current_term_ n) (Some (rv_candidate_id request)) n)
    else (mkVoteResponse (current_term_ n) false, n).

(** The entry loop; [false] is the early return on a zero index. *)
Fixpoint append_entries (entries : list LogEntry) : IO RaftNode bool :=
  match entries with
  | [] => mret true
  | entry :: rest =>
      if (e_index entry =? 0)%N then mret false
      else
        n ← get;
        if (e_index entry <=? last_log_index n)%N then
          match log_ n !! N.to_nat (e_index entry - 1) with
          | None => throw Undefined
          | Some existing =>
              _ ← (if negb (e_term existing =? e_term entry)%N
                   then modify (λ n, push_entry entry (DeleteFrom (e_index entry) n))
                   else mret ());
              append_entries rest
          end
        else
          _ ← modify (push_entry entry);
          append_entries rest
  end.

Definition follow_commit (leader_commit : N) (n : RaftNode) : RaftNode :=
  if (commit_index_ n <? leader_commit)%N
  then with_log (N.min leader_commit (last_log_index n)) (last_applied_ n) (log_ n) n
  else n.

Definition HandleAppendEntries (request : AppendEntriesRequest) :
    IO RaftNode AppendEntriesResponse :=
  n ← get;
  if (ae_term request <? current_term_ n)%N then
    mret (mkAppendResponse (current_term_ n) false (last_log_index n))
  else
    _ ← modify (λ n,
          if (current_term_ n <? ae_term request)%N || bool_decide (role_ n ≠ kFollower)
          then BecomeFollower (ae_term request) n else n);
    n ← get;
    let term := current_term_ n in
    if negb (HasLogAt n (ae_prev_log_index request) (ae_prev_log_term request)) then
      mret (mkAppendResponse term false (last_log_index n))
    else
      ok ← append_entries (ae_entries request);
      if negb ok then mret (mkAppendResponse term false 0)
      else
        _ ← modify (follow_commit (ae_leader_commit request));
        n ← get;
        mret (mkAppendResponse term true (last_log_index n)).

Definition Propose (type : EntryType) (command : string) : IO RaftNode LogEntry :=
  n ← get;
  if negb (bool_decide (role_ n = kLeader)) then
    fail (mkStatus kNotLeader "proposal must be sent to leader")
  else
    let new_entry := mkEntry (region_id_ n) (u64 (last_log_index n + 1))
                       (current_term_ n) type command in
    _ ← modify (push_entry new_entry);
    mret new_entry.

Definition SetCommitIndex (commit_index : N) (n : RaftNode) : RaftNode :=
  with_log (N.min commit_index (last_log_index n)) (last_applied_ n) (log_ n) n.

(** The while loop, one unit of fuel per iteration. *)
Fixpoint take_committed (fuel : nat) : IO RaftNode (list LogEntry) :=
  match fuel with
  | O => mret []
  | S fuel =>
      n ← get;
      if (last_applied_ n <? commit_index_ n)%N then
        _ ← modify (λ n, with_log (commit_index_ n) (last_applied_ n + 1) (log_ n) n);
        match log_ n !! N.to_nat (last_applied_ n) with
        | None => throw Undefined
        | Some e => rest ← take_committed fuel; mret (e :: rest)
        end
      else mret []
  end.

Definition TakeCommittedEntries : IO RaftNode (list LogEntry) :=
  n ← get; take_committed (N.to_nat (commit_index_ n - last_applied_ n)).

(** The validation loop of [Restore], from position [i]. *)
Fixpoint check_restored (region : N) (i : N) (log : list LogEntry) : res unit :=
  match log with
  | [] => Ok tt
  | e :: rest =>
      if negb (e_region_id e =? region)%N then
        Err (InvalidArgument "restored log belongs to another region")
      else if negb (e_index e =? i + 1)%N then
        Err (InvalidArgument "restored log index is not contiguous")
      else check_restored region (i + 1) rest
  end.

Definition Restore (current_term : N) (voted_for : option N) (commit_index last_applied : N)
    (log : list LogEntry) : IO RaftNode unit :=
  n ← get;
  _ ← lift (check_restored (region_id_ n) 0 log);
  if (N.of_nat (length log) <? commit_index)%N then
    fail (InvalidArgument "restored commit index is past log end")
  else if (commit_index <? last_applied)%N then
    fail (InvalidArgument "restored last_applied is past commit index")
  else
    put (mkRaft (region_id_ n) (self_id_ n) (peers_ n) kFollower current_term voted_for
           commit_index last_applied log).

(** * Logs *)

(** Entry [i] of a log of region [r] that starts at index [base + 1]. *)
Definition log_from (r base : N) (log : list LogEntry) : Prop :=
  ∀ i e, log !! i = Some e → e_region_id e = r ∧ e_index e = (base + N.of_nat i + 1)%N.

Lemma log_from_cons r b e log :
  log_from r b (e :: log) ↔
  e_region_id e = r ∧ e_index e = (b + 1)%N ∧ log_from r (b + 1) log.
Proof.
  split.
  - intros H. destruct (H 0 e eq_refl) as [? ->]. split_and!; [done | lia |].
    intros i x Hi. destruct (H (S i) x Hi) as [? ->]. split; [done | lia].
  - intros (Hr & He & H) [|i] x Hi; simpl in Hi.
    + injection Hi as <-. split; [done | lia].
    + destruct (H i x Hi) as [? ->]. split; [done | lia].
Qed.

Lemma log_from_app r b l1 l2 :
  log_from r b (l1 ++ l2) ↔
  log_from r b l1 ∧ log_from r (b + N.of_nat (length l1)) l2.
Proof.
  revert b. induction l1 as [|e l1 IH]; intros b; simpl.
  - rewrite N.add_0_r. split; [|by intros [_ ?]]. intros H. split; [|done].
    intros i x Hi. done.
  - rewrite !log_from_cons, IH.
    replace (b + N.of_nat (S (length l1)))%N
      with (b + 1 + N.of_nat (length l1))%N by lia. tauto.
Qed.

Lemma log_from_nil r b : log_from r b [].
Proof. by intros i e Hi. Qed.

Lemma log_from_take r b k l : log_from r b l → log_from r b (take k l).
Proof. intros H i e [Hi _]%lookup_take_Some. by apply H. Qed.

Lemma log_from_drop r b k l :
  log_from r b l → log_from r (b + N.of_nat k) (drop k l).
Proof.
  intros H i e Hi. rewrite lookup_drop in Hi. apply H in Hi as [? ->].
  split; [done | lia].
Qed.

(** * The invariant of one node *)

Record wf (n : RaftNode) : Prop := {
  wf_log : log_from (region_id_ n) 0 (log_ n);
  wf_commit : (commit_index_ n <= N.of_nat (length (log_ n)))%N;
  wf_applied : (last_applied_ n <= commit_index_ n)%N;
}.

Lemma wf_last_index n : wf n → last_log_index n = N.of_nat (length (log_ n)).
Proof.
  intros [Hlog _ _]. unfold last_log_index. rewrite last_lookup.
  destruct (log_ n !! pred (length (log_ n))) as [e|] eqn:He.
  - apply lookup_lt_Some in He as Hlt. apply Hlog in He as [_ ->]. lia.
  - apply lookup_ge_None in He. destruct (log_ n); simpl in *; lia.
Qed.

Lemma HasLogAt_spec n p t :
  HasLogAt n p t = true ↔
  (p = 0%N ∧ t = 0%N) ∨
  (p ≠ 0%N ∧ ∃ e, log_ n !! N.to_nat (p - 1) = Some e ∧ e_term e = t).
Proof.
  unfold HasLogAt. destruct (N.eqb_spec p 0) as [-> | Hp].
  - rewrite N.eqb_eq. tauto.
  - destruct (log_ n !! _) as [e|]; [rewrite N.eqb_eq|].
    + split; [eauto|]. intros [[? _] | (_ & e' & [= <-] & ?)]; [lia | done].
    + split; [done|]. intros [[? _] | (_ & e' & [=] & _)]; lia.
Qed.

Lemma HasLogAt_length n p t :
  HasLogAt n p t = true → (p <= N.of_nat (length (log_ n)))%N.
Proof.
  rewrite HasLogAt_spec. intros [[-> _] | (Hp & e & He & _)]; [lia|].
  apply lookup_lt_Some in He. lia.
Qed.

(** ** The entry loop *)

Definition with_entries (l : list LogEntry) (n : RaftNode) : RaftNode :=
  with_log (commit_index_ n) (last_applied_ n) l n.

Lemma append_new es n :
  wf n → log_from (region_id_ n) (N.of_nat (length (log_ n))) es →
  append_entries es n = (Ok true, with_entries (log_ n ++ es) n).
Proof.
  revert n. induction es as [|e es IH]; intros n Hwf Hes.
  - rewrite app_nil_r. by destruct n.
  - apply log_from_cons in Hes as (Hr & Hi & Hes). cbn [append_entries].
    destruct (N.eqb_spec (e_index e) 0); [lia|]. run.
    destruct (N.leb_spec (e_index e) (last_log_index n)) as [Hle | _];
      [rewrite wf_last_index in Hle by done; lia|].
    run. rewrite IH.
    + unfold with_entries, push_entry, with_log. simpl. by rewrite <-app_assoc.
    + destruct Hwf as [Hlog Hc Ha]. split; simpl.
      * apply log_from_app. split; [done|]. apply log_from_cons.
        split_and!; [done | simpl in *; lia | apply log_from_nil].
      * rewrite length_app. lia.
      * done.
    + simpl. rewrite length_app. simpl.
      by replace (N.of_nat (length (log_ n) + 1)) with (N.of_nat (length (log_ n)) + 1)%N
        by lia.
Qed.

(** Terms of [es] agree with the log from position [p] on, as far as [es] goes. *)
Definition terms_match (log : list LogEntry) (p : nat) (es : list LogEntry) : Prop :=
  ∀ j e, es !! j = Some e → ∃ x, log !! (p + j) = Some x ∧ e_term x = e_term e.

(** The log after merging [es] in at position [p]: unchanged when everything
    is there already, else cut at the first missing or conflicting position
    [k] and extended by the rest of [es]. *)
Inductive merged (log : list LogEntry) (p : nat) (es : list LogEntry) :
    N → list LogEntry → Prop :=
  | merged_present :
      terms_match log p es → merged log p es (N.of_nat (length log)) log
  | merged_cut k :
      p ≤ k → k < p + length es → k ≤ length log →
      terms_match log p (take (k - p) es) →
      (∀ x e, log !! k = Some x → es !! (k - p) = Some e → e_term x ≠ e_term e) →
      merged log p es (N.of_nat k) (take k log ++ drop (k - p) es).

(** What cutting the log at [k] does to the commit and apply positions. *)
Definition cut (k : N) (l : list LogEntry) (n : RaftNode) : RaftNode :=
  with_log (N.min (commit_index_ n) k) (N.min (last_applied_ n) k) l n.

Lemma terms_match_cons log p e es x :
  log !! p = Some x → e_term x = e_term e → terms_match log (S p) es →
  terms_match log p (e :: es).
Proof.
  intros Hx Ht H [|j] e' Hj; simpl in Hj.
  - injection Hj as <-. rewrite Nat.add_0_r. eauto.
  - apply H in Hj as (y & Hy & ?). exists y. by rewrite Nat.add_succ_r.
Qed.

Lemma merged_cons log p e es x k l :
  log !! p = Some x → e_term x = e_term e → merged log (S p) es k l →
  merged log p (e :: es) k l.
Proof.
  intros Hx Ht Hm. inversion Hm as [Hall | k' Hpk Hk Hlen Hpre Hconf]; subst.
  - apply merged_present. by eapply terms_match_cons.
  - replace (drop (k' - S p) es) with (drop (k' - p) (e :: es))
      by by replace (k' - p) with (S (k' - S p)) by lia.
    apply merged_cut; simpl; [lia..| |].
    + replace (k' - p) with (S (k' - S p)) by lia. by eapply terms_match_cons.
    + intros y e' Hy. replace (k' - p) with (S (k' - S p)) by lia. by apply Hconf.
Qed.

Lemma merged_here log p e es :
  p ≤ length log → (∀ x, log !! p = Some x → e_term x ≠ e_term e) →
  merged log p (e :: es) (N.of_nat p) (take p log ++ e :: es).
Proof.
  intros Hp Hconf.
  assert (e :: es = drop (p - p) (e :: es)) as Hdrop by by rewrite Nat.sub_diag.
  rewrite Hdrop at 2. apply merged_cut; [lia | simpl; lia | done | |].
  - by rewrite Nat.sub_diag.
  - rewrite Nat.sub_diag. intros x e' Hx [= <-]. by apply Hconf.
Qed.

Lemma wf_cut_all n : wf n → cut (N.of_nat (length (log_ n))) (log_ n) n = n.
Proof.
  intros [_ Hc Ha]. unfold cut, with_log. rewrite !N.min_l by lia. by destruct n.
Qed.

Lemma append_entries_spec es n p :
  wf n → p ≤ length (log_ n) → log_from (region_id_ n) (N.of_nat p) es →
  ∃ k l, merged (log_ n) p es k l ∧ append_entries es n = (Ok true, cut k l n).
Proof.
  revert p. induction es as [|e es IH]; intros p Hwf Hp Hes.
  { do 2 eexists. split; [by apply merged_present|]. by rewrite wf_cut_all. }
  pose proof Hwf as [Hlog Hc Ha].
  destruct (decide (p = length (log_ n))) as [-> | Hne].
  { exists (N.of_nat (length (log_ n))), (log_ n ++ e :: es). split.
    - pose proof (merged_here (log_ n) (length (log_ n)) e es) as Hm.
      rewrite (take_ge (log_ n) (length (log_ n))) in Hm by lia. apply Hm; [lia|].
      intros x Hx%lookup_lt_Some. lia.
    - rewrite append_new by done. unfold with_entries, cut.
      by rewrite !N.min_l by lia. }
  pose proof Hes as (Hr & Hi & Hes')%log_from_cons. cbn [append_entries].
  destruct (N.eqb_spec (e_index e) 0); [lia|]. run.
  rewrite wf_last_index by done.
  destruct (N.leb_spec (e_index e) (N.of_nat (length (log_ n)))); [|lia].
  replace (N.to_nat (e_index e - 1)) with p by lia.
  destruct (lookup_lt_is_Some_2 (log_ n) p) as [x Hx]; [lia|]. rewrite Hx.
  destruct (N.eqb_spec (e_term x) (e_term e)) as [Ht | Ht]; simpl; run.
  - destruct (IH (S p)) as (k & l & Hm & ->); [done | lia | |].
    { by replace (N.of_nat (S p)) with (N.of_nat p + 1)%N by lia. }
    exists k, l. split; [by eapply merged_cons | done].
  - exists (N.of_nat p), (take p (log_ n) ++ e :: es). split.
    + apply merged_here; [lia|]. intros y Hy. congruence.
    + assert (push_entry e (DeleteFrom (e_index e) n) =
              cut (N.of_nat p) (take p (log_ n) ++ [e]) n) as ->.
      { unfold push_entry, DeleteFrom, cut, with_log.
        destruct (N.eqb_spec (e_index e) 0); [lia|].
        destruct (N.ltb_spec (N.of_nat (length (log_ n)) + 1) (e_index e)); [lia|].
        simpl. replace (N.to_nat (e_index e - 1)) with p by lia.
        f_equal;
        [destruct (N.leb_spec (e_index e) (commit_index_ n))
        |destruct (N.leb_spec (e_index e) (last_applied_ n))]; lia. }
      rewrite append_new.
      * unfold with_entries, cut, with_log. simpl. by rewrite <-app_assoc.
      * split; simpl; [|rewrite length_app, length_take; simpl; lia | lia].
        apply log_from_app. split; [by apply log_from_take|].
        rewrite length_take_le by lia. apply log_from_cons.
        split_and!; [done | simpl; lia | apply log_from_nil].
      * simpl. rewrite length_app, length_take_le by lia. simpl.
        by replace (N.of_nat (p + 1)) with (N.of_nat p + 1)%N by lia.
Qed.

(** ** HandleAppendEntries *)

(** The term step both acceptance branches start with. *)
Definition accept_term (term : N) (n : RaftNode) : RaftNode :=
  if (current_term_ n <? term)%N || bool_decide (role_ n ≠ kFollower)
  then BecomeFollower term n else n.

Lemma BecomeFollower_fields t n :
  log_ (BecomeFollower t n) = log_ n ∧ commit_index_ (BecomeFollower t n) = commit_index_ n ∧
  last_applied_ (BecomeFollower t n) = last_applied_ n ∧
  region_id_ (BecomeFollower t n) = region_id_ n ∧
  current_term_ (BecomeFollower t n) = N.max (current_term_ n) t.
Proof.
  unfold BecomeFollower. simpl.
  destruct (N.ltb_spec (current_term_ n) t); simpl; split_and!; try done; lia.
Qed.

Lemma accept_term_fields t n :
  (current_term_ n <= t)%N →
  log_ (accept_term t n) = log_ n ∧ commit_index_ (accept_term t n) = commit_index_ n ∧
  last_applied_ (accept_term t n) = last_applied_ n ∧
  region_id_ (accept_term t n) = region_id_ n ∧ current_term_ (accept_term t n) = t ∧
  role_ (accept_term t n) = kFollower.
Proof.
  intros Ht. unfold accept_term. destruct (BecomeFollower_fields t n) as (?&?&?&?&?).
  destruct (N.ltb_spec (current_term_ n) t); simpl.
  - split_and!; try done; [lia|]. unfold BecomeFollower. simpl. by case_match.
  - case_bool_decide as Hrole; split_and!; try done; try lia.
    unfold BecomeFollower. simpl. by case_match.
Qed.

Lemma wf_same_log n n' :
  log_ n' = log_ n → commit_index_ n' = commit_index_ n →
  last_applied_ n' = last_applied_ n → region_id_ n' = region_id_ n → wf n → wf n'.
Proof. intros H1 H2 H3 H4 [? ? ?]. split; by rewrite ?H1, ?H2, ?H3, ?H4. Qed.

Lemma wf_accept_term t n : (current_term_ n <= t)%N → wf n → wf (accept_term t n).
Proof.
  intros Ht. destruct (accept_term_fields t n Ht) as (?&?&?&?&_). by apply wf_same_log.
Qed.

(** A request as leaders build them: consecutive entries of the region, right
    after the previous index. *)
Definition request_ok (region : N) (r : AppendEntriesRequest) : Prop :=
  log_from region (ae_prev_log_index r) (ae_entries r).

Inductive append_outcome (n : RaftNode) (r : AppendEntriesRequest) :
    AppendEntriesResponse → RaftNode → Prop :=
  | append_stale :
      (ae_term r < current_term_ n)%N →
      append_outcome n r
        (mkAppendResponse (current_term_ n) false (N.of_nat (length (log_ n)))) n
  | append_mismatch :
      (current_term_ n <= ae_term r)%N →
      HasLogAt n (ae_prev_log_index r) (ae_prev_log_term r) = false →
      append_outcome n r
        (mkAppendResponse (ae_term r) false (N.of_nat (length (log_ n))))
        (accept_term (ae_term r) n)
  | append_accepted k l :
      (current_term_ n <= ae_term r)%N →
      HasLogAt n (ae_prev_log_index r) (ae_prev_log_term r) = true →
      merged (log_ n) (N.to_nat (ae_prev_log_index r)) (ae_entries r) k l →
      append_outcome n r
        (mkAppendResponse (ae_term r) true (N.of_nat (length l)))
        (follow_commit (ae_leader_commit r) (cut k l (accept_term (ae_term r) n))).

Lemma merged_length log p es k l :
  merged log p es k l → (k <= N.of_nat (length l))%N ∧
  (p ≤ length log → p + length es ≤ length l).
Proof.
  intros Hm. destruct Hm as [Hall | k Hp Hk Hlen _ _].
  - split; [lia|]. intros Hp. destruct (decide (length es = 0)) as [?|Hn]; [lia|].
    destruct (lookup_lt_is_Some_2 es (length es - 1)) as [e He]; [lia|].
    apply Hall in He as (x & Hx%lookup_lt_Some & _). lia.
  - rewrite length_app, length_take_le, length_drop by done. lia.
Qed.

Lemma merged_log_from r log p es k l :
  log_from r 0 log → log_from r (N.of_nat p) es → merged log p es k l → log_from r 0 l.
Proof.
  intros Hlog Hes Hm. destruct Hm as [|k Hp Hk Hlen _ _]; [done|].
  apply log_from_app. split; [by apply log_from_take|].
  rewrite length_take_le by done.
  replace (0 + N.of_nat k)%N with (N.of_nat p + N.of_nat (k - p))%N by lia.
  by apply log_from_drop.
Qed.

Lemma wf_cut n p es k l :
  wf n → log_from (region_id_ n) (N.of_nat p) es → merged (log_ n) p es k l →
  wf (cut k l n).
Proof.
  intros [Hlog Hc Ha] Hes Hm. destruct (merged_length _ _ _ _ _ Hm) as [Hk _].
  split; simpl; [by eapply merged_log_from | lia | lia].
Qed.

Lemma wf_follow_commit c n : wf n → wf (follow_commit c n).
Proof.
  intros Hwf. pose proof Hwf as [Hlog Hc Ha]. unfold follow_commit.
  destruct (N.ltb_spec (commit_index_ n) c); [|done].
  rewrite wf_last_index by done. split; simpl; [done | lia | lia].
Qed.

Lemma HandleAppendEntries_outcome n r :
  wf n → request_ok (region_id_ n) r →
  ∃ resp n', HandleAppendEntries r n = (Ok resp, n') ∧ append_outcome n r resp n' ∧ wf n'.
Proof.
  intros Hwf Hr. unfold HandleAppendEntries. run.
  destruct (N.ltb_spec (ae_term r) (current_term_ n)) as [Hlt | Hge].
  { do 2 eexists. split; [reflexivity|]. rewrite wf_last_index by done.
    split; [by apply append_stale | done]. }
  run. fold (accept_term (ae_term r) n).
  pose proof (wf_accept_term _ n Hge Hwf) as Hwf1.
  destruct (accept_term_fields (ae_term r) n Hge) as (Hl & Hc & Ha & Hreg & Ht & _).
  rewrite Ht. assert (HasLogAt (accept_term (ae_term r) n) (ae_prev_log_index r)
    (ae_prev_log_term r) = HasLogAt n (ae_prev_log_index r) (ae_prev_log_term r)) as ->.
  { unfold HasLogAt. by rewrite Hl. }
  destruct (HasLogAt n _ _) eqn:Hhas; simpl.
  - destruct (append_entries_spec (ae_entries r) (accept_term (ae_term r) n)
      (N.to_nat (ae_prev_log_index r))) as (k & l & Hm & Hrun); [done | | |].
    { rewrite Hl. apply HasLogAt_length in Hhas. lia. }
    { rewrite Hreg, N2Nat.id. done. }
    run_call ltac:(exact Hrun). simpl. run. rewrite Hl in Hm.
    assert (wf (cut k l (accept_term (ae_term r) n))) as Hwf2.
    { eapply wf_cut; [done| |by rewrite Hl]. by rewrite Hreg, N2Nat.id. }
    do 2 eexists. split; [reflexivity|]. split; [|by apply wf_follow_commit].
    assert (last_log_index (follow_commit (ae_leader_commit r)
      (cut k l (accept_term (ae_term r) n))) = N.of_nat (length l)) as ->.
    { rewrite wf_last_index by by apply wf_follow_commit.
      unfold follow_commit. by case_match. }
    by apply append_accepted.
  - do 2 eexists. split; [reflexivity|].
    rewrite wf_last_index, Hl by done. split; [by apply append_mismatch | done].
Qed.

(** ** Agreement with the leader's log *)

(** Two logs that hold an entry of the same term at a position hold the same
    entries up to that position. *)
Definition log_matching (l1 l2 : list LogEntry) : Prop :=
  ∀ i x y, l1 !! i = Some x → l2 !! i = Some y → e_term x = e_term y →
    take (S i) l1 = take (S i) l2.

Lemma log_matching_prefix l m : log_matching (take m l) l.
Proof.
  intros i x y [_ Hi]%lookup_take_Some Hy _. rewrite take_take. by rewrite Nat.min_l by lia.
Qed.

(** The request carries the leader's entries [p+1 .. p+|es|]. *)
Definition from_leader (L : list LogEntry) (r : AppendEntriesRequest) : Prop :=
  let p := N.to_nat (ae_prev_log_index r) in
  p ≤ length L ∧
  (if (ae_prev_log_index r =? 0)%N then ae_prev_log_term r = 0%N
   else ∃ e, L !! (p - 1) = Some e ∧ e_term e = ae_prev_log_term r) ∧
  ae_entries r = take (length (ae_entries r)) (drop p L).

Lemma slice_lookup (L es : list LogEntry) p j e :
  es = take (length es) (drop p L) → es !! j = Some e → L !! (p + j) = Some e.
Proof.
  intros Hes Hj. rewrite Hes in Hj. apply lookup_take_Some in Hj as [Hj _].
  by rewrite lookup_drop in Hj.
Qed.

Lemma slice_drop (L es : list LogEntry) p j :
  es = take (length es) (drop p L) →
  drop j es = take (length es - j) (drop (p + j) L).
Proof.
  remember (length es) as m eqn:Hm. clear Hm. intros ->.
  by rewrite List.skipn_firstn_comm, drop_drop.
Qed.

Lemma slice_take (L es : list LogEntry) p j :
  es = take (length es) (drop p L) → j ≤ length es → take j es = take j (drop p L).
Proof.
  remember (length es) as m eqn:Hm. clear Hm. intros -> Hj.
  rewrite take_take. by rewrite Nat.min_l by lia.
Qed.

Lemma terms_match_take F L p es :
  log_matching F L → take p F = take p L → es = take (length es) (drop p L) →
  terms_match F p es → take (p + length es) F = take (p + length es) L.
Proof.
  intros HFL Hp Hes Hm. destruct (decide (length es = 0)) as [-> | Hn].
  { by rewrite Nat.add_0_r. }
  destruct (lookup_lt_is_Some_2 es (length es - 1)) as [e He]; [lia|].
  pose proof He as (x & Hx & Ht)%Hm.
  apply (slice_lookup L _ p) in He; [|done]. specialize (HFL _ _ _ Hx He Ht).
  by replace (S (p + (length es - 1))) with (p + length es) in HFL by lia.
Qed.

Lemma prev_matches n L r :
  log_matching (log_ n) L → from_leader L r →
  HasLogAt n (ae_prev_log_index r) (ae_prev_log_term r) = true →
  take (N.to_nat (ae_prev_log_index r)) (log_ n) = take (N.to_nat (ae_prev_log_index r)) L.
Proof.
  intros HFL (Hp & Hprev & _) Hhas%HasLogAt_spec.
  destruct Hhas as [[-> _] | (Hne & x & Hx & Htx)]; [done|].
  destruct (N.eqb_spec (ae_prev_log_index r) 0); [done|].
  destruct Hprev as (e & He & Hte).
  replace (N.to_nat (ae_prev_log_index r - 1)) with (N.to_nat (ae_prev_log_index r) - 1)
    in Hx by lia.
  specialize (HFL _ _ _ Hx He). rewrite Htx, Hte in HFL. specialize (HFL eq_refl).
  by replace (S (N.to_nat (ae_prev_log_index r) - 1))
    with (N.to_nat (ae_prev_log_index r)) in HFL by lia.
Qed.

Lemma merged_agrees F L p es k l :
  log_matching F L → p ≤ length F → take p F = take p L →
  es = take (length es) (drop p L) → merged F p es k l →
  take (p + length es) l = take (p + length es) L ∧ log_matching l L.
Proof.
  intros HFL Hlen Hp Hes Hm. destruct Hm as [Hall | k Hpk Hk HkF Hpre _].
  - split; [by apply terms_match_take | done].
  - assert (take k F = take k L) as Heq.
    { pose proof (terms_match_take F L p (take (k - p) es) HFL Hp) as H.
      rewrite length_take_le in H by lia.
      replace (p + (k - p)) with k in H by lia. apply H; [|done].
      apply slice_take; [done | lia]. }
    assert (take k F ++ drop (k - p) es = take (p + length es) L) as ->.
    { rewrite Heq, (slice_drop L es p (k - p)) by done.
      replace (p + (k - p)) with k by lia.
      replace (p + length es) with (k + (length es - (k - p))) by lia.
      by rewrite take_take_drop. }
    split; [by rewrite take_take, Nat.min_id | apply log_matching_prefix].
Qed.

(** * Applying committed entries *)

Lemma take_committed_spec fuel n :
  wf n → fuel = N.to_nat (commit_index_ n - last_applied_ n) →
  take_committed fuel n =
  (Ok (take fuel (drop (N.to_nat (last_applied_ n)) (log_ n))),
   with_log (commit_index_ n) (commit_index_ n) (log_ n) n).
Proof.
  revert n. induction fuel as [|fuel IH]; intros n Hwf Hfuel; pose proof Hwf as [Hl Hc Ha].
  - simpl. unfold with_log. replace (commit_index_ n) with (last_applied_ n) at 2 by lia.
    by destruct n.
  - cbn [take_committed]. run.
    destruct (N.ltb_spec (last_applied_ n) (commit_index_ n)); [|lia]. run.
    destruct (lookup_lt_is_Some_2 (log_ n) (N.to_nat (last_applied_ n))) as [e He]; [lia|].
    rewrite He. run_call ltac:(apply IH; [split; simpl; [done | done | lia] | simpl; lia]).
    simpl. rewrite (drop_S _ _ _ He). simpl.
    by replace (N.to_nat (last_applied_ n + 1)) with (S (N.to_nat (last_applied_ n))) by lia.
Qed.

Lemma TakeCommittedEntries_spec n :
  wf n →
  TakeCommittedEntries n =
  (Ok (take (N.to_nat (commit_index_ n - last_applied_ n))
         (drop (N.to_nat (last_applied_ n)) (log_ n))),
   with_log (commit_index_ n) (commit_index_ n) (log_ n) n).
Proof. intros Hwf. unfold TakeCommittedEntries. run. by apply take_committed_spec. Qed.

(** * Recovery *)

Lemma check_restored_spec r i log :
  check_restored r i log = Ok tt ↔ log_from r i log.
Proof.
  revert i. induction log as [|e log IH]; intros i; [split; [intros _; apply log_from_nil | done]|].
  rewrite log_from_cons. simpl. destruct (N.eqb_spec (e_region_id e) r); simpl; [|by split; [|intros []]].
  destruct (N.eqb_spec (e_index e) (i + 1)); simpl; [|by split; [|intros (_ & ? & _)]].
  rewrite IH. tauto.
Qed.

Lemma Restore_ok n t v c a log :
  log_from (region_id_ n) 0 log → (c <= N.of_nat (length log))%N → (a <= c)%N →
  Restore t v c a log n =
  (Ok tt, mkRaft (region_id_ n) (self_id_ n) (peers_ n) kFollower t v c a log).
Proof.
  intros Hlog Hc Ha. unfold Restore. run.
  run_call ltac:(unfold lift; by apply check_restored_spec in Hlog as ->).
  destruct (N.ltb_spec (N.of_nat (length log)) c); [lia|].
  by destruct (N.ltb_spec c a); [lia|].
Qed.

Lemma check_restored_cases r i log :
  check_restored r i log = Ok tt ∨ ∃ st, check_restored r i log = Err st.
Proof.
  revert i. induction log as [|e log IH]; intros i; [by left|]. simpl.
  repeat case_match; eauto.
Qed.

Lemma Restore_cases n t v c a log :
  (∃ st, Restore t v c a log n = (Err st, n)) ∨
  ∃ n', Restore t v c a log n = (Ok tt, n') ∧ wf n'.
Proof.
  unfold Restore. run. destruct (check_restored_cases (region_id_ n) 0 log) as [H | [st H]];
    rewrite H; run; [|by left; eexists].
  destruct (N.ltb_spec (N.of_nat (length log)) c); [by left; eexists|].
  destruct (N.ltb_spec c a); [by left; eexists|].
  right. eexists. split; [reflexivity|]. split; simpl; [by apply check_restored_spec|done..].
Qed.

(** * Executions of one node *)

(** What can happen to a node: a message arrives, or its owner calls it. *)
Inductive raft_action :=
  | OnVoteRequest (r : RequestVoteRequest)
  | OnAppend (r : AppendEntriesRequest)
  | OnCandidate
  | OnLeader
  | OnFollower (term : N)
  | OnPropose (type : EntryType) (command : string)
  | OnCommit (commit_index : N)
  | OnApply
  | OnRestart (commit_index last_applied : N) (log : list LogEntry).

Definition perform (a : raft_action) (n : RaftNode) : RaftNode :=
  match a with
  | OnVoteRequest r => (HandleRequestVote r n).2
  | OnAppend r => (HandleAppendEntries r n).2
  | OnCandidate => BecomeCandidate n
  | OnLeader => BecomeLeader n
  | OnFollower t => BecomeFollower t n
  | OnPropose ty cmd => (Propose ty cmd n).2
  | OnCommit c => SetCommitIndex c n
  | OnApply => (TakeCommittedEntries n).2
  | OnRestart c a log => (Restore (current_term_ n) (voted_for_ n) c a log n).2
  end.

(** The conditions the callers keep: requests as leaders build them, commit
    positions that do not go back, counters short of 2^64. A restart restores
    the term and the vote the node had: they are saved after every vote. *)
Definition permitted (a : raft_action) (n : RaftNode) : Prop :=
  match a with
  | OnAppend r => request_ok (region_id_ n) r
  | OnCandidate => (current_term_ n + 1 < two64)%N
  | OnPropose _ _ => (N.of_nat (length (log_ n)) + 1 < two64)%N
  | OnCommit c => (last_applied_ n <= c)%N
  | _ => True
  end.

Definition raft_step (n n' : RaftNode) : Prop :=
  ∃ a, permitted a n ∧ n' = perform a n.

Lemma HandleRequestVote_fields r n :
  let n' := (HandleRequestVote r n).2 in
  log_ n' = log_ n ∧ commit_index_ n' = commit_index_ n ∧
  last_applied_ n' = last_applied_ n ∧ region_id_ n' = region_id_ n ∧
  current_term_ n' = N.max (current_term_ n) (rv_term r).
Proof.
  unfold HandleRequestVote.
  destruct (N.ltb_spec (rv_term r) (current_term_ n)); simpl; [split_and!; try done; lia|].
  unfold BecomeFollower. simpl. destruct (N.ltb_spec (current_term_ n) (rv_term r));
    simpl; case_match; simpl; split_and!; try done; lia.
Qed.

Lemma wf_propose ty cmd n :
  wf n → (N.of_nat (length (log_ n)) + 1 < two64)%N → wf (Propose ty cmd n).2.
Proof.
  intros Hwf Hlen. pose proof Hwf as [Hl Hc Ha]. unfold Propose. run.
  destruct (negb (bool_decide (role_ n = kLeader))); [done|]. run. simpl.
  split; simpl; [|rewrite length_app; lia | done].
  apply log_from_app. split; [done|]. apply log_from_cons. simpl.
  split_and!; [done| |apply log_from_nil].
  rewrite wf_last_index, u64_small by done. lia.
Qed.

Lemma raft_step_wf n n' : raft_step n n' → wf n → wf n'.
Proof.
  intros (a & Hok & ->) Hwf. pose proof Hwf as [Hl Hc Ha].
  destruct a as [r|r| | |t|ty cmd|c| |c a log]; simpl in *.
  - destruct (HandleRequestVote_fields r n) as (?&?&?&?&_). by eapply wf_same_log.
  - destruct (HandleAppendEntries_outcome n r Hwf Hok) as (resp & n' & -> & _ & ?). done.
  - by apply (wf_same_log n).
  - by apply (wf_same_log n).
  - destruct (BecomeFollower_fields t n) as (?&?&?&?&_). by eapply wf_same_log.
  - by apply wf_propose.
  - split; simpl; rewrite ?wf_last_index by done; [done | lia | lia].
  - rewrite TakeCommittedEntries_spec by done. split; simpl; [done | done | lia].
  - destruct (Restore_cases n (current_term_ n) (voted_for_ n) c a log)
      as [(st & ->) | (n' & -> & ?)]; done.
Qed.

Lemma raft_steps_wf n n' : rtc raft_step n n' → wf n → wf n'.
Proof. induction 1; eauto using raft_step_wf. Qed.

(** ** What steps leave alone *)

Definition same_peer (raft raft' : RaftNode) : Prop :=
  region_id_ raft' = region_id_ raft ∧ self_id_ raft' = self_id_ raft ∧ peers_ raft' = peers_ raft.

#[export] Instance same_peer_preorder : PreOrder same_peer.
Proof. split; [done|]. intros a b c (? & ? & ?) (? & ? & ?). split_and!; congruence. Qed.


Lemma BecomeFollower_same t n : same_peer n (BecomeFollower t n).
Proof. unfold BecomeFollower. by case_match. Qed.

Lemma accept_same t n : same_peer n (accept_term t n).
Proof. unfold accept_term. case_match; [apply BecomeFollower_same | done]. Qed.

Lemma follow_same c n : same_peer n (follow_commit c n).
Proof. unfold follow_commit. by case_match. Qed.

Lemma append_outcome_same n r resp n' : append_outcome n r resp n' → same_peer n n'.
Proof.
  intros [| |k l _ _ _]; [done | apply accept_same|].
  etrans; [apply accept_same|]. apply (follow_same _ (cut k l _)).
Qed.

Lemma HandleRequestVote_same r n : same_peer n (HandleRequestVote r n).2.
Proof.
  unfold HandleRequestVote. case_match; [done|].
  pose proof (BecomeFollower_same (rv_term r) n). repeat case_match; done.
Qed.

(** ** Terms never go back, and a vote stands for the rest of its term *)

Definition vote_kept (n n' : RaftNode) : Prop :=
  (current_term_ n <= current_term_ n')%N ∧
  (current_term_ n' = current_term_ n → ∀ c, voted_for_ n = Some c → voted_for_ n' = Some c).

#[export] Instance vote_kept_preorder : PreOrder vote_kept.
Proof.
  split.
  - intros n. split; [lia | done].
  - intros a b c [H1 H2] [H3 H4]. split; [lia|]. intros Heq x Hx.
    apply H4; [lia|]. apply H2; [lia | done].
Qed.

Lemma vote_kept_same n n' :
  current_term_ n' = current_term_ n → voted_for_ n' = voted_for_ n → vote_kept n n'.
Proof. intros H1 H2. split; [lia|]. intros _ c. by rewrite H2. Qed.

Lemma BecomeFollower_vote_kept t n : vote_kept n (BecomeFollower t n).
Proof.
  unfold BecomeFollower. simpl.
  destruct (N.ltb_spec (current_term_ n) t); split; simpl; try done; lia.
Qed.

Lemma append_entries_vote es n :
  let n' := (append_entries es n).2 in
  current_term_ n' = current_term_ n ∧ voted_for_ n' = voted_for_ n.
Proof.
  revert n. induction es as [|e es IH]; intros n; [done|]. cbn [append_entries].
  destruct (e_index e =? 0)%N; [done|]. run.
  destruct (e_index e <=? last_log_index n)%N; [|run; apply (IH (push_entry e n))].
  destruct (log_ n !! _) as [x|]; [|done].
  destruct (e_term x =? e_term e)%N; simpl; run; [apply IH|].
  destruct (IH (push_entry e (DeleteFrom (e_index e) n))) as [-> ->].
  unfold DeleteFrom. by destruct (_ || _).
Qed.

Lemma HandleAppendEntries_vote_kept r n : vote_kept n (HandleAppendEntries r n).2.
Proof.
  unfold HandleAppendEntries. run. destruct (ae_term r <? current_term_ n)%N; [done|].
  run. fold (accept_term (ae_term r) n).
  assert (vote_kept n (accept_term (ae_term r) n)) as Hacc.
  { unfold accept_term. destruct (_ || _); [apply BecomeFollower_vote_kept | done]. }
  destruct (negb (HasLogAt _ _ _)); [done|]. etrans; [exact Hacc|].
  pose proof (append_entries_vote (ae_entries r) (accept_term (ae_term r) n)) as [Ht Hv].
  unfold mbind at 1, M_bind.
  destruct (append_entries _ _) as [[[]|st|f] n1]; simpl in *; try by apply vote_kept_same.
  apply vote_kept_same; unfold follow_commit; by case_match.
Qed.

Lemma HandleRequestVote_vote_kept r n : vote_kept n (HandleRequestVote r n).2.
Proof.
  unfold HandleRequestVote. destruct (rv_term r <? current_term_ n)%N; [done|].
  set (n1 := if (current_term_ n <? rv_term r)%N then BecomeFollower (rv_term r) n else n).
  assert (vote_kept n n1) as Hn1.
  { subst n1. destruct (current_term_ n <? rv_term r)%N; [apply BecomeFollower_vote_kept | done]. }
  etrans; [exact Hn1|].
  destruct (voted_for_ n1) as [c|] eqn:Hv; simpl.
  - destruct (N.eqb_spec c (rv_candidate_id r)) as [-> | _]; simpl; [|done].
    destruct (IsCandidateLogUpToDate _ _ _); simpl; [|done]. by apply vote_kept_same.
  - destruct (IsCandidateLogUpToDate _ _ _); simpl; [|done].
    split; simpl; [lia|]. intros _ c. by rewrite Hv.
Qed.

Lemma take_committed_vote fuel n :
  let n' := (take_committed fuel n).2 in
  current_term_ n' = current_term_ n ∧ voted_for_ n' = voted_for_ n.
Proof.
  revert n. induction fuel as [|fuel IH]; intros n; [done|]. cbn [take_committed]. run.
  destruct (_ <? _)%N; [|done]. run. destruct (log_ n !! _); [|done].
  unfold mbind, M_bind.
  destruct (IH (with_log (commit_index_ n) (last_applied_ n + 1) (log_ n) n)) as [IH1 IH2].
  destruct (take_committed fuel _) as [[|st|f] n1]; simpl in *; done.
Qed.

Lemma perform_vote_kept a n : permitted a n → vote_kept n (perform a n).
Proof.
  destruct a as [r|r| | |t|ty cmd|c| |c a log]; simpl; intros Hok.
  - apply HandleRequestVote_vote_kept.
  - apply HandleAppendEntries_vote_kept.
  - unfold BecomeCandidate. split; simpl; rewrite u64_small by done; lia.
  - by apply vote_kept_same.
  - apply BecomeFollower_vote_kept.
  - unfold Propose. run. destruct (negb _); [done|]. by apply vote_kept_same.
  - by apply vote_kept_same.
  - unfold TakeCommittedEntries. run. destruct (take_committed_vote
      (N.to_nat (commit_index_ n - last_applied_ n)) n) as [? ?]. by apply vote_kept_same.
  - unfold Restore. run. destruct (check_restored _ _ _); run; try done.
    destruct (_ <? _)%N; [done|]. destruct (_ <? _)%N; [done|]. by apply vote_kept_same.
Qed.

(** ** Votes *)

(** The votes an action casts, as (term, candidate): a grant, or a candidate's
    own vote. *)
Definition votes_cast (a : raft_action) (n : RaftNode) : list (N * N) :=
  match a with
  | OnVoteRequest r =>
      if rv_granted (HandleRequestVote r n).1 then [(rv_term r, rv_candidate_id r)] else []
  | OnCandidate => [(u64 (current_term_ n + 1), self_id_ n)]
  | _ => []
  end.

Lemma up_to_date_spec n i t :
  IsCandidateLogUpToDate n i t = true ↔
  (last_log_term n < t ∨ last_log_term n = t ∧ last_log_index n <= i)%N.
Proof.
  unfold IsCandidateLogUpToDate.
  destruct (N.eqb_spec t (last_log_term n)) as [-> | ?]; simpl;
    [rewrite N.leb_le | rewrite N.ltb_lt]; lia.
Qed.

Lemma HandleRequestVote_granted r n :
  rv_granted (HandleRequestVote r n).1 = true →
  let n' := (HandleRequestVote r n).2 in
  current_term_ n' = rv_term r ∧ voted_for_ n' = Some (rv_candidate_id r) ∧
  (current_term_ n <= rv_term r)%N ∧
  (current_term_ n = rv_term r →
   ∀ c, voted_for_ n = Some c → c = rv_candidate_id r) ∧
  (last_log_term n < rv_last_log_term r ∨
   last_log_term n = rv_last_log_term r ∧ last_log_index n <= rv_last_log_index r)%N.
Proof.
  unfold HandleRequestVote.
  destruct (N.ltb_spec (rv_term r) (current_term_ n)); [done|].
  set (n1 := if (current_term_ n <? rv_term r)%N then _ else n).
  assert (last_log_term n1 = last_log_term n ∧ last_log_index n1 = last_log_index n ∧
    current_term_ n1 = rv_term r ∧
    (current_term_ n = rv_term r → voted_for_ n1 = voted_for_ n)) as (H1 & H2 & H3 & H4).
  { subst n1. destruct (N.ltb_spec (current_term_ n) (rv_term r)) as [Hlt|Hge].
    - destruct (BecomeFollower_fields (rv_term r) n) as (Hl&_&_&_&Ht).
      unfold last_log_term, last_log_index. rewrite Hl, Ht. split_and!; [done..|lia|lia].
    - split_and!; [done..|lia|done]. }
  clearbody n1.
  destruct (IsCandidateLogUpToDate n1 _ _) eqn:Hup; [|rewrite andb_false_r; done].
  apply up_to_date_spec in Hup. rewrite H1, H2 in Hup. rewrite andb_true_r.
  destruct (voted_for_ n1) as [c|] eqn:Hv; simpl.
  - destruct (N.eqb_spec c (rv_candidate_id r)) as [->|]; simpl; [|done]. intros _.
    split_and!; [done..|lia| |done]. intros Heq c Hc.
    rewrite <-(H4 Heq) in Hc. congruence.
  - intros _. split_and!; [done..|lia| |done]. intros Heq c Hc.
    rewrite <-(H4 Heq) in Hc. congruence.
Qed.

Lemma votes_cast_recorded a n t c :
  permitted a n → (t, c) ∈ votes_cast a n →
  current_term_ (perform a n) = t ∧ voted_for_ (perform a n) = Some c ∧
  (current_term_ n = t → ∀ c', voted_for_ n = Some c' → c' = c) ∧
  (current_term_ n <= t)%N.
Proof.
  destruct a as [r|r| | |t'|ty cmd|ci| |ci la log]; simpl; intros Hok Hin; try by apply elem_of_nil in Hin.
  - destruct (rv_granted _) eqn:Hg; [|by apply elem_of_nil in Hin].
    apply list_elem_of_singleton in Hin as [= -> ->].
    apply HandleRequestVote_granted in Hg as (?&?&?&?&_). done.
  - apply list_elem_of_singleton in Hin as [= -> ->]. rewrite u64_small by done.
    split_and!; [done | done | lia | lia].
Qed.
