(* ===== verification/RaftSafety.v ===== *)
(** What the Raft node guarantees: one leader per term, logs that agree with
    the leader's, committed entries that stay. The group
    of nodes is a map from peer ids to nodes; every step is one action at one
    node, and the ballots cast so far are kept as a history. *)

From S2P Require Import Prelude Types Raft.

(** * Elections *)

Record Ballot := mkBallot { voter : N; ballot_term : N; ballot_for : N }.

#[export] Instance Ballot_eq_dec : EqDecision Ballot.
Proof. solve_decision. Defined.

Record Group := mkGroup { members : gmap N RaftNode; ballots : list Ballot }.

Definition act (i : N) (a : raft_action) (g : Group) : Group :=
  match members g !! i with
  | None => g
  | Some n =>
      mkGroup (<[i := perform a n]> (members g))
        (map (λ v, mkBallot i v.1 v.2) (votes_cast a n) ++ ballots g)
  end.

Definition may_act (i : N) (a : raft_action) (g : Group) : Prop :=
  match members g !! i with None => False | Some n => permitted a n end.

Fixpoint run_group (acts : list (N * raft_action)) (g : Group) : Group :=
  match acts with [] => g | (i, a) :: rest => run_group rest (act i a g) end.

Fixpoint may_run (acts : list (N * raft_action)) (g : Group) : Prop :=
  match acts with
  | [] => True
  | (i, a) :: rest => may_act i a g ∧ may_run rest (act i a g)
  end.

Definition new_group (ids : list N) (region : N) : Group :=
  mkGroup (list_to_map (map (λ i, (i, new_raft region i ids)) ids)) [].

(** The members that voted for a candidate in a term, and the strict majority
    [SingleRegionCluster::ElectLeader] asks for. *)
Definition voters (t c : N) (g : Group) : gset N :=
  list_to_set (voter <$> filter (λ b, ballot_term b = t ∧ ballot_for b = c) (ballots g)).

Definition elected (t c : N) (g : Group) : Prop := size (members g) `div` 2 < size (voters t c g).

#[export] Instance elected_dec t c g : Decision (elected t c g).
Proof. unfold elected. apply _. Defined.

Lemma elem_of_voters t c g i : i ∈ voters t c g ↔ mkBallot i t c ∈ ballots g.
Proof.
  unfold voters. rewrite elem_of_list_to_set, list_elem_of_fmap. split.
  - intros ([j t' c'] & -> & [[<- <-] Hin]%list_elem_of_filter). done.
  - intros Hin. exists (mkBallot i t c). by rewrite list_elem_of_filter.
Qed.

(** Every ballot is by a member, of a term it has reached, and the member
    still stands by it while that term lasts; two ballots of one member in one
    term are for the same candidate. *)
Record ballots_ok (g : Group) : Prop := {
  ballot_kept b : b ∈ ballots g → ∃ n, members g !! voter b = Some n ∧
    (ballot_term b <= current_term_ n)%N ∧
    (current_term_ n = ballot_term b → voted_for_ n = Some (ballot_for b));
  ballot_unique b1 b2 : b1 ∈ ballots g → b2 ∈ ballots g →
    voter b1 = voter b2 → ballot_term b1 = ballot_term b2 → b1 = b2;
}.

Lemma act_ballots_ok i a g : may_act i a g → ballots_ok g → ballots_ok (act i a g).
Proof.
  unfold may_act, act. destruct (members g !! i) as [n|] eqn:Hi; [|done].
  intros Hok [Hkept Huniq].
  pose proof (perform_vote_kept a n Hok) as [Hterm Hstay].
  pose proof (λ t c, votes_cast_recorded a n t c Hok) as Hcast.
  assert (∀ b v, b ∈ ballots g → v ∈ votes_cast a n → voter b = i →
            ballot_term b = v.1 → ballot_for b = v.2) as Hsame.
  { intros b [t c] Hb Hv Hvi Ht. simpl in *.
    destruct (Hkept b Hb) as (m & Hm & Hle & Hvote). rewrite Hvi, Hi in Hm.
    injection Hm as <-. destruct (Hcast t c Hv) as (_ & _ & Hfor & Hle').
    apply Hfor; [lia|]. apply Hvote. lia. }
  assert (∀ v1 v2, v1 ∈ votes_cast a n → v2 ∈ votes_cast a n → v1.1 = v2.1 → v1 = v2)
    as Hone.
  { intros [t1 c1] [t2 c2] H1 H2 Ht. simpl in Ht. subst t2.
    destruct (Hcast _ _ H1) as (_ & Hc1 & _), (Hcast _ _ H2) as (_ & Hc2 & _). congruence. }
  split; simpl.
  - intros b [Hnew | Hold]%elem_of_app.
    + apply list_elem_of_fmap in Hnew as ([t c] & -> & Hv). simpl.
      exists (perform a n). rewrite lookup_insert_eq.
      destruct (Hcast t c Hv) as (-> & Hc & _). split_and!; [done | lia | done].
    + destruct (Hkept b Hold) as (m & Hm & Hle & Hvote).
      destruct (decide (voter b = i)) as [Heq | Hne].
      * rewrite Heq, Hi in Hm. injection Hm as <-. rewrite Heq, lookup_insert_eq.
        eexists. split; [done|]. split; [lia|]. intros Ht.
        apply Hstay; [lia|]. apply Hvote. lia.
      * rewrite lookup_insert_ne by done. by exists m.
  - intros b1 b2 [H1 | H1]%elem_of_app [H2 | H2]%elem_of_app Hv Ht.
    + apply list_elem_of_fmap in H1 as (v1 & -> & H1), H2 as (v2 & -> & H2).
      simpl in *. by rewrite (Hone v1 v2).
    + apply list_elem_of_fmap in H1 as (v1 & -> & H1). simpl in *.
      rewrite <-(Hsame b2 v1) by done. destruct b2; simpl in *. congruence.
    + apply list_elem_of_fmap in H2 as (v2 & -> & H2). simpl in *.
      rewrite <-(Hsame b1 v2) by done. destruct b1; simpl in *. congruence.
    + by apply Huniq.
Qed.

Lemma run_ballots_ok acts g : may_run acts g → ballots_ok g → ballots_ok (run_group acts g).
Proof.
  revert g. induction acts as [|[i a] acts IH]; intros g; [done|].
  intros [H1 H2] Hok. apply IH; [done|]. by apply act_ballots_ok.
Qed.

Lemma new_group_ballots_ok ids region : ballots_ok (new_group ids region).
Proof. split; simpl; intros b; [|intros b2]; by intros ?%elem_of_nil. Qed.

Lemma voters_members t c g : ballots_ok g → voters t c g ⊆ dom (members g).
Proof.
  intros [Hkept _] i Hi%elem_of_voters. destruct (Hkept _ Hi) as (n & Hn & _).
  by apply elem_of_dom_2 in Hn.
Qed.

(** Two majorities of one set meet. *)
Lemma majorities_meet (X Y Z : gset N) :
  X ⊆ Z → Y ⊆ Z → size Z `div` 2 < size X → size Z `div` 2 < size Y →
  ∃ i, i ∈ X ∧ i ∈ Y.
Proof.
  intros HX HY H1 H2. destruct (set_choose_or_empty (X ∩ Y)) as [[i Hi] | He];
    [exists i; set_solver|].
  assert (size (X ∪ Y) = size X + size Y) as Hsize by (apply size_union; set_solver).
  assert (size (X ∪ Y) ≤ size Z) by (apply subseteq_size; set_solver).
  pose proof (Nat.div_mod_eq (size Z) 2). pose proof (Nat.mod_upper_bound (size Z) 2).
  lia.
Qed.

(** C15: Election safety. Whatever happens in a group of nodes started by the
    constructor, and in whatever order (messages arriving, candidacies,
    proposals, commits), two candidates that both hold a majority of one
    term's votes are the same. *)
Theorem election_safety ids region acts t c1 c2 :
  let g := run_group acts (new_group ids region) in
  may_run acts (new_group ids region) → elected t c1 g → elected t c2 g → c1 = c2.
Proof.
  intros g Hrun H1 H2.
  assert (ballots_ok g) as Hok by (apply run_ballots_ok, new_group_ballots_ok; done).
  unfold elected in *. rewrite <-size_dom in H1, H2.
  destruct (majorities_meet (voters t c1 g) (voters t c2 g) (dom (members g)))
    as (i & Hi1%elem_of_voters & Hi2%elem_of_voters); eauto using voters_members.
  pose proof (ballot_unique g Hok _ _ Hi1 Hi2 eq_refl eq_refl) as [=]. done.
Qed.

Definition election_run : list (N * raft_action) :=
  [(1%N, OnCandidate);
   (2%N, OnVoteRequest (mkVoteRequest 1 1 1 0 0));
   (3%N, OnCandidate);
   (1%N, OnVoteRequest (mkVoteRequest 1 1 3 0 0))].

Lemma election_safety_witness :
  elected 1 1 (run_group election_run (new_group [1%N; 2%N; 3%N] 1)) ∧ 1%N = 1%N.
Proof.
  assert (elected 1 1 (run_group election_run (new_group [1%N; 2%N; 3%N] 1))) as H
    by (apply (bool_decide_unpack _); vm_compute; exact I).
  split; [exact H|].
  apply (election_safety [1%N; 2%N; 3%N] 1 election_run 1 1 1); [|exact H..].
  vm_compute. repeat split.
Defined.

(** * Votes *)

(** The voting rule. A vote is granted exactly when the request's term is
    not old, the node has not voted for somebody else in that term, and the
    candidate's log is at least as up to date as the node's; the node moves to
    the request's term unless the request is old, and records exactly the
    granted vote. *)
Lemma vote_rule r n :
  let '(resp, n') := HandleRequestVote r n in
  (rv_granted resp = true ↔
     (current_term_ n <= rv_term r)%N ∧
     (current_term_ n = rv_term r → voted_for_ n = None ∨ voted_for_ n = Some (rv_candidate_id r)) ∧
     (last_log_term n < rv_last_log_term r ∨
      last_log_term n = rv_last_log_term r ∧ last_log_index n <= rv_last_log_index r)%N) ∧
  rv_resp_term resp = N.max (current_term_ n) (rv_term r) ∧
  current_term_ n' = N.max (current_term_ n) (rv_term r) ∧
  log_ n' = log_ n ∧ commit_index_ n' = commit_index_ n ∧ last_applied_ n' = last_applied_ n ∧
  voted_for_ n' = (if rv_granted resp then Some (rv_candidate_id r)
                   else if (current_term_ n <? rv_term r)%N then None else voted_for_ n).
Proof.
  pose proof (HandleRequestVote_fields r n) as (Hl & Hc & Ha & _ & Ht).
  pose proof (HandleRequestVote_granted r n) as Hg.
  revert Hl Hc Ha Ht Hg. unfold HandleRequestVote.
  destruct (N.ltb_spec (rv_term r) (current_term_ n)) as [Hold | Hnew]; simpl.
  { intros. destruct (N.ltb_spec (current_term_ n) (rv_term r)); [lia|].
    split_and!; try done; lia. }
  set (n1 := if (current_term_ n <? rv_term r)%N then BecomeFollower (rv_term r) n else n).
  assert (voted_for_ n1 = if (current_term_ n <? rv_term r)%N then None else voted_for_ n) as Hv.
  { subst n1. destruct (N.ltb_spec (current_term_ n) (rv_term r)) as [Hlt|]; [|done].
    unfold BecomeFollower. simpl. apply N.ltb_lt in Hlt. by rewrite Hlt. }
  assert (IsCandidateLogUpToDate n1 = IsCandidateLogUpToDate n) as Hup.
  { subst n1. destruct (current_term_ n <? rv_term r)%N; [|done].
    unfold IsCandidateLogUpToDate, last_log_term, last_log_index.
    by destruct (BecomeFollower_fields (rv_term r) n) as [-> _]. }
  rewrite Hup, Hv. destruct (_ && _) eqn:Hgrant; simpl; intros Hl Hc Ha Ht Hg.
  - destruct (Hg eq_refl) as (?&?&?&Hsame&?). split_and!; try done. split; [|done].
    intros _. split_and!; [done| |done]. intros Heq.
    destruct (voted_for_ n) as [c|]; [right; f_equal; by apply Hsame | by left].
  - split_and!; try done. split; [done|]. intros (_ & Hvote & Hlog%up_to_date_spec).
    rewrite Hlog, andb_true_r in Hgrant.
    destruct (N.ltb_spec (current_term_ n) (rv_term r)); [done|].
    destruct Hvote as [Hvote | Hvote]; [lia| |]; rewrite Hvote in Hgrant; [done|].
    by rewrite N.eqb_refl in Hgrant.
Qed.

(** * Replication *)

(** C31: AppendEntries, every branch. On a well-formed node, a request built as
    leaders build them gets an answer: a stale term leaves the node as it is; a
    missing or conflicting previous entry only moves the term; otherwise the
    entries are merged in (kept when present, cut at the first conflict or at
    the end and extended from there), the commit position follows the leader,
    and the node stays well-formed. *)
Theorem HandleAppendEntries_correct n r :
  wf n → request_ok (region_id_ n) r →
  ∃ resp n', HandleAppendEntries r n = (Ok resp, n') ∧ append_outcome n r resp n' ∧ wf n'.
Proof. apply HandleAppendEntries_outcome. Qed.

Definition entry_at (i t : N) (cmd : string) : LogEntry := mkEntry 1 i t kNormal cmd.

Definition follower_node : RaftNode :=
  mkRaft 1 2 [1%N; 2%N; 3%N] kFollower 2 None 1 1 [entry_at 1 1 "a"; entry_at 2 1 "b"].
Definition conflict_request : AppendEntriesRequest :=
  mkAppendRequest 1 3 1 1 1 [entry_at 2 3 "c"; entry_at 3 3 "d"] 2.

Lemma follower_node_wf : wf follower_node.
Proof.
  split; [|vm_compute; discriminate..].
  intros [|[|[|i]]] e [= <-]; vm_compute; done.
Qed.

Lemma conflict_request_ok : request_ok 1 conflict_request.
Proof. intros [|[|[|i]]] e [= <-]; vm_compute; done. Qed.

Lemma HandleAppendEntries_correct_witness :
  HandleAppendEntries conflict_request follower_node =
    (Ok (mkAppendResponse 3 true 3),
     mkRaft 1 2 [1%N; 2%N; 3%N] kFollower 3 None 2 1
       [entry_at 1 1 "a"; entry_at 2 3 "c"; entry_at 3 3 "d"]) ∧
  ∃ resp n', HandleAppendEntries conflict_request follower_node = (Ok resp, n') ∧
    append_outcome follower_node conflict_request resp n' ∧ wf n'.
Proof.
  split; [vm_compute; reflexivity|].
  apply (HandleAppendEntries_correct follower_node conflict_request);
    [exact follower_node_wf | exact conflict_request_ok].
Defined.

Lemma follow_commit_mono c n : wf n → (commit_index_ n <= commit_index_ (follow_commit c n))%N.
Proof.
  intros Hwf. pose proof (wf_commit _ Hwf). unfold follow_commit.
  destruct (N.ltb_spec (commit_index_ n) c); [|lia].
  rewrite wf_last_index by done. simpl. lia.
Qed.

Lemma follow_commit_log c n : log_ (follow_commit c n) = log_ n.
Proof. unfold follow_commit. by case_match. Qed.

Lemma append_outcome_log n r resp n' :
  wf n → request_ok (region_id_ n) r → append_outcome n r resp n' →
  (ae_success resp = false ∧ log_ n' = log_ n ∧ commit_index_ n' = commit_index_ n) ∨
  ∃ k, ae_success resp = true ∧
    HasLogAt n (ae_prev_log_index r) (ae_prev_log_term r) = true ∧
    merged (log_ n) (N.to_nat (ae_prev_log_index r)) (ae_entries r) k (log_ n') ∧
    (N.min (commit_index_ n) k <= commit_index_ n')%N.
Proof.
  intros Hwf Hr Hout. destruct Hout as [Ht | Ht Hh | k l Ht Hh Hm]; [by left|left|right];
    destruct (accept_term_fields (ae_term r) n Ht) as (Hl & Hc & Ha & Hreg & _); [done|].
  exists k. rewrite follow_commit_log. split_and!; [done..|].
  rewrite <-Hc.
  apply (follow_commit_mono _ (cut k l (accept_term (ae_term r) n))).
  eapply (wf_cut _ (N.to_nat (ae_prev_log_index r)) (ae_entries r));
    [by apply wf_accept_term | rewrite Hreg, N2Nat.id; done | by rewrite Hl].
Qed.

(** Log matching. When the follower's log and the leader's log [L] agree
    wherever they hold an entry of one term, a request cut out of [L] keeps it
    so, and if it is accepted, the follower's log equals [L] up to the last
    entry sent; a refused request leaves the log alone. *)
Theorem append_matches_leader n L r :
  wf n → request_ok (region_id_ n) r → log_matching (log_ n) L → from_leader L r →
  ∃ resp n', HandleAppendEntries r n = (Ok resp, n') ∧ log_matching (log_ n') L ∧
    (ae_success resp = false → log_ n' = log_ n) ∧
    (ae_success resp = true →
     let sent := N.to_nat (ae_prev_log_index r) + length (ae_entries r) in
     take sent (log_ n') = take sent L).
Proof.
  intros Hwf Hr HFL HL. destruct (HandleAppendEntries_outcome n r Hwf Hr)
    as (resp & n' & Hrun & Hout & _). exists resp, n'. split; [done|].
  destruct (append_outcome_log n r resp n' Hwf Hr Hout)
    as [(-> & -> & _) | (k & -> & Hh & Hm & _)]; [done|].
  destruct (merged_agrees (log_ n) L (N.to_nat (ae_prev_log_index r)) (ae_entries r) k (log_ n')) as [? ?]; try done.
  - apply HasLogAt_length in Hh. lia.
  - by apply prev_matches.
  - by destruct HL as (_ & _ & ?).
Qed.

Definition leader_log : list LogEntry := [entry_at 1 1 "a"; entry_at 2 3 "c"; entry_at 3 3 "d"].

Lemma append_matches_leader_witness :
  ∃ resp n', HandleAppendEntries conflict_request follower_node = (Ok resp, n') ∧
    log_matching (log_ n') leader_log ∧
    (ae_success resp = false → log_ n' = log_ follower_node) ∧
    (ae_success resp = true → take 3 (log_ n') = take 3 leader_log).
Proof.
  apply (append_matches_leader follower_node leader_log conflict_request).
  - exact follower_node_wf.
  - exact conflict_request_ok.
  - intros [|[|[|i]]] x y Hx Hy; simpl in Hx, Hy; simplify_eq; simpl; done.
  - split; [vm_compute; lia|]. split; [by exists (entry_at 1 1 "a")|reflexivity].
Defined.

Lemma merged_keeps log p es k l c L :
  merged log p es k l → log_matching log L → c ≤ length log →
  take c log = take c L → es = take (length es) (drop p L) →
  c ≤ N.to_nat k ∧ take c l = take c log.
Proof.
  intros Hm HFL Hc HcL Hes. destruct Hm as [Hall | k Hp Hk Hlen Hpre Hconf].
  - split; [lia | done].
  - assert (c ≤ k) as Hck.
    { destruct (decide (c ≤ k)) as [|Hn]; [done|]. exfalso.
      destruct (lookup_lt_is_Some_2 log k) as [x Hx]; [lia|].
      destruct (lookup_lt_is_Some_2 es (k - p)) as [e He]; [lia|].
      apply (Hconf x e Hx He).
      apply (slice_lookup L es p) in He; [|done].
      replace (p + (k - p)) with k in He by lia.
      assert (take c log !! k = Some x) as H1 by (rewrite lookup_take_lt by lia; done).
      rewrite HcL, lookup_take_lt in H1 by lia. congruence. }
    split; [lia|]. rewrite take_app, take_take, Nat.min_l by lia.
    rewrite length_take_le by done. replace (c - k) with 0 by lia.
    by rewrite take_0, app_nil_r.
Qed.

(** Committed entries stay. As long as the leader's log [L] holds the
    entries the follower has committed (leader completeness), no request cut
    out of [L] makes the commit position go back or changes a committed
    entry. *)
Theorem committed_entries_stay n L r :
  wf n → request_ok (region_id_ n) r → log_matching (log_ n) L → from_leader L r →
  let c := N.to_nat (commit_index_ n) in
  take c (log_ n) = take c L →
  ∃ resp n', HandleAppendEntries r n = (Ok resp, n') ∧
    (commit_index_ n <= commit_index_ n')%N ∧ take c (log_ n') = take c (log_ n).
Proof.
  intros Hwf Hr HFL HL c HcL. destruct (HandleAppendEntries_outcome n r Hwf Hr)
    as (resp & n' & Hrun & Hout & _). exists resp, n'. split; [done|].
  pose proof (wf_commit _ Hwf).
  destruct (append_outcome_log n r resp n' Hwf Hr Hout)
    as [(_ & -> & ->) | (k & _ & _ & Hm & Hk)]; [done|].
  destruct HL as (_ & _ & Hes).
  destruct (merged_keeps _ _ _ _ _ c L Hm) as [Hck Htake]; try done; [subst c; lia|].
  split; [subst c; lia | done].
Qed.

Lemma committed_entries_stay_witness :
  ∃ resp n', HandleAppendEntries conflict_request follower_node = (Ok resp, n') ∧
    (1 <= commit_index_ n')%N ∧ take 1 (log_ n') = [entry_at 1 1 "a"].
Proof.
  apply (committed_entries_stay follower_node leader_log conflict_request).
  - exact follower_node_wf.
  - exact conflict_request_ok.
  - intros [|[|[|i]]] x y Hx Hy; simpl in Hx, Hy; simplify_eq; simpl; done.
  - split; [vm_compute; lia|]. split; [by exists (entry_at 1 1 "a")|reflexivity].
  - reflexivity.
Defined.

(** A heartbeat can commit an entry the leader does not have. The commit
    position follows the follower's last log index and not the last entry the
    request speaks for, so a follower with a longer, conflicting log, whose
    log agrees with the leader's wherever their terms meet, commits its own
    entry 2 although the leader's entry 2 is another one. *)
Lemma heartbeat_commits_unmatched :
  ∃ n L r resp n',
    wf n ∧ request_ok (region_id_ n) r ∧ log_matching (log_ n) L ∧ from_leader L r ∧
    (ae_leader_commit r <= N.of_nat (length L))%N ∧
    HandleAppendEntries r n = (Ok resp, n') ∧ ae_success resp = true ∧
    commit_index_ n' = 2%N ∧ log_ n' !! 1 ≠ L !! 1.
Proof.
  exists follower_node, leader_log, (mkAppendRequest 1 3 1 1 1 [] 3).
  do 2 eexists. split; [exact follower_node_wf|].
  split; [by intros i e Hi|].
  split; [intros [|[|[|i]]] x y Hx Hy; simpl in Hx, Hy; simplify_eq; done|].
  split; [split; [vm_compute; lia | split; [by exists (entry_at 1 1 "a") | done]]|].
  split; [vm_compute; discriminate|]. split; [vm_compute; reflexivity|].
  split; [done|]. split; [done|]. vm_compute. discriminate.
Qed.

(** Entries are not checked to be consecutive. A request whose entry skips
    an index is stored at the wrong position, and a later request for the
    skipped index reads outside the log. *)
Lemma gapped_entry_reads_past_log :
  ∃ r1 r2 resp n1,
    HandleAppendEntries r1 (new_raft 1 2 [1%N; 2%N]) = (Ok resp, n1) ∧
    ae_success resp = true ∧ last_log_index n1 = 5%N ∧ length (log_ n1) = 1 ∧
    (HandleAppendEntries r2 n1).1 = Fault Undefined.
Proof.
  exists (mkAppendRequest 1 1 1 0 0 [entry_at 5 1 "a"] 0),
    (mkAppendRequest 1 1 1 0 0 [entry_at 3 1 "b"] 0).
  do 2 eexists. split; [vm_compute; reflexivity|]. vm_compute. done.
Qed.

(** * Fronts and slices of logs *)

Lemma take_prefix {A} (l1 l2 : list A) p q :
  p ≤ q → take q l1 = take q l2 → take p l1 = take p l2.
Proof.
  intros Hpq H. rewrite <-(Nat.min_l p q), <-!take_take by lia. by rewrite H.
Qed.

Lemma slices_join {A} (l m : list A) p q r :
  p ≤ q → q ≤ r → take q l = take q m →
  take (q - p) (drop p m) ++ take (r - q) (drop q l) = take (r - p) (drop p l).
Proof.
  intros ?? H. rewrite <-(List.skipn_firstn_comm p q m), <-H, (List.skipn_firstn_comm p q l).
  replace (drop q l) with (drop (q - p) (drop p l)) by (rewrite drop_drop; f_equal; lia).
  replace (r - p) with ((q - p) + (r - q)) by lia. by rewrite take_take_drop.
Qed.
