(* ===== verification/Consensus.v ===== *)
(** A group of Raft nodes on a network that delays, reorders, repeats and loses
    messages: candidacies, votes, elections, proposals, append requests, commits,
    applications and restarts of src/raft/raft_node.cpp, in any order, with requests
    and majorities as src/store/distributed_region_node.cpp builds and counts them.
    The second half is the invariant of such a group, over the logs its leaders had. *)

From S2P Require Import Prelude Types Raft RaftSafety.

(** * The group and its messages *)

(** The nodes with the ballots they cast, the requests ever sent, and for every
    node the terms and positions up to which it took a leader's log. *)
Record Net := mkNet {
  group : Group;
  asked : list RequestVoteRequest;
  sent : list AppendEntriesRequest;
  held : list (N * N * nat);
}.

Definition new_net (ids : list N) (region : N) : Net := mkNet (new_group ids region) [] [] [].

(** What a node does next; a message goes to the node [i]. *)
Inductive event :=
  | Campaign (i : N)
  | Vote (i : N) (r : RequestVoteRequest)
  | Lead (i : N)
  | Offer (i : N) (ty : EntryType) (command : string)
  | Send (i : N) (r : AppendEntriesRequest)
  | Append (i : N) (r : AppendEntriesRequest)
  | Commit (i : N)
  | Apply (i : N)
  | StepDown (i : N) (term : N)
  | Crash (i : N) (commit_index last_applied : N).

Definition who (e : event) : N :=
  match e with
  | Campaign i | Vote i _ | Lead i | Offer i _ _ | Send i _ | Append i _ | Commit i | Apply i
  | StepDown i _ | Crash i _ _ => i
  end.

(** The call of the node's Raft; sending changes nothing at the sender. *)
Definition does (e : event) (n : RaftNode) : option raft_action :=
  match e with
  | Campaign _ => Some OnCandidate
  | Vote _ r => Some (OnVoteRequest r)
  | Lead _ => Some OnLeader
  | Offer _ ty command => Some (OnPropose ty command)
  | Send _ _ => None
  | Append _ r => Some (OnAppend r)
  | Commit _ => Some (OnCommit (last_log_index n))
  | Apply _ => Some OnApply
  | StepDown _ t => Some (OnFollower t)
  | Crash _ c a => Some (OnRestart c a (log_ n))
  end.

(** The request of a candidate, as [EnsureLeader] builds it. *)
Definition vote_request (n : RaftNode) : RequestVoteRequest :=
  mkVoteRequest (region_id_ n) (current_term_ n) (self_id_ n) (last_log_index n) (last_log_term n).

(** The requests a leader sends: a slice of its log after an entry of it, with a
    commit position it has and the slice reaches. *)
Definition sendable (n : RaftNode) (r : AppendEntriesRequest) : Prop :=
  role_ n = kLeader ∧ ae_term r = current_term_ n ∧ from_leader (log_ n) r ∧
  (ae_leader_commit r <= commit_index_ n)%N ∧
  (ae_leader_commit r <= ae_prev_log_index r + N.of_nat (length (ae_entries r)))%N.

(** How far a request reaches into the leader's log. *)
Definition reach (r : AppendEntriesRequest) : nat :=
  N.to_nat (ae_prev_log_index r) + length (ae_entries r).

(** The nodes that took the log of the leader of term [t] up to [k]; the leader
    counts itself when it proposes. *)
Definition holders (t : N) (k : nat) (g : Net) : gset N :=
  list_to_set ((λ a, a.1.1) <$> filter (λ a, a.1.2 = t ∧ k ≤ a.2) (held g)).

Definition accepts (r : AppendEntriesRequest) (n : RaftNode) : bool :=
  match (HandleAppendEntries r n).1 with Ok resp => ae_success resp | _ => false end.

(** The positions an event acknowledges. *)
Definition takes_up (e : event) (n : RaftNode) : list (N * N * nat) :=
  match e with
  | Append i r => if accepts r n then [(i, ae_term r, reach r)] else []
  | Offer i _ _ =>
      if decide (role_ n = kLeader) then [(i, current_term_ n, S (length (log_ n)))] else []
  | _ => []
  end.

Definition happen (e : event) (g : Net) : Net :=
  match members (group g) !! who e with
  | None => g
  | Some n =>
      mkNet (match does e n with Some a => act (who e) a (group g) | None => group g end)
        (match e with Campaign _ => [vote_request (BecomeCandidate n)] | _ => [] end ++ asked g)
        (match e with Send _ r => [r] | _ => [] end ++ sent g)
        (takes_up e n ++ held g)
  end.

(** When it can happen: messages were sent, a leader has a majority of votes, a
    commit is of an entry of the leader's own term that a majority took, a
    restarted node comes back with its log and no later commit position;
    counters stay short of 2^64. *)
Definition can_happen (e : event) (g : Net) : Prop :=
  match members (group g) !! who e with
  | None => False
  | Some n =>
      match e with
      | Campaign _ => (current_term_ n + 1 < two64)%N
      | Vote _ r => r ∈ asked g
      | Lead i => role_ n = kCandidate ∧ elected (current_term_ n) i (group g)
      | Offer _ _ _ => (N.of_nat (length (log_ n)) + 1 < two64)%N
      | Send _ r => sendable n r
      | Append _ r => r ∈ sent g
      | Commit _ => role_ n = kLeader ∧ last_log_term n = current_term_ n ∧
          size (members (group g)) `div` 2 < size (holders (current_term_ n) (length (log_ n)) g)
      | Crash _ c _ => (c <= commit_index_ n)%N
      | _ => True
      end
  end.

Fixpoint run_net (es : list event) (g : Net) : Net :=
  match es with [] => g | e :: rest => run_net rest (happen e g) end.

Fixpoint can_run (es : list event) (g : Net) : Prop :=
  match es with [] => True | e :: rest => can_happen e g ∧ can_run rest (happen e g) end.

Lemma elem_of_holders t k g v : v ∈ holders t k g ↔ ∃ m, (v, t, m) ∈ held g ∧ k ≤ m.
Proof.
  unfold holders. rewrite elem_of_list_to_set, list_elem_of_fmap. split.
  - intros ([[v' t'] m] & -> & [[<- Hm] Hin]%list_elem_of_filter). by exists m.
  - intros (m & Hin & Hm). exists (v, t, m). by rewrite list_elem_of_filter.
Qed.

(** * The past *)

(** The log of every term's leader, as far as it got in that term, and the log
    of every candidate. *)
Record Past := mkPast {
  reign : gmap N (N * list LogEntry);
  bid : gmap (N * N) (list LogEntry);
}.

(** Leaders only append entries of their own term; candidates are remembered. *)
Record extends (h h' : Past) : Prop := {
  ext_reign t c L : reign h !! t = Some (c, L) →
    ∃ es, reign h' !! t = Some (c, L ++ es) ∧ Forall (λ e, e_term e = t) es;
  ext_bid : bid h ⊆ bid h';
}.

#[export] Instance extends_preorder : PreOrder extends.
Proof.
  split.
  - intros h. split; [|done]. intros t c L HL. exists []. by rewrite app_nil_r.
  - intros h1 h2 h3 [H1 B1] [H2 B2]. split; [|by etrans]. intros t c L HL.
    destruct (H1 _ _ _ HL) as (es & HL2 & Hes). destruct (H2 _ _ _ HL2) as (fs & HL3 & Hfs).
    exists (es ++ fs). rewrite app_assoc. split; [done|]. by apply Forall_app.
Qed.

(** Every entry sits in the log of its term's leader, with the same entries before it. *)
Definition log_ok (h : Past) (l : list LogEntry) : Prop :=
  ∀ i e, l !! i = Some e → ∃ c L, reign h !! e_term e = Some (c, L) ∧ take (S i) l `prefix_of` L.

Definition terms_below (t : N) (l : list LogEntry) : Prop := Forall (λ e, e_term e <= t)%N l.

(** A part of the first [m] entries of the leader of term [t]. *)
Definition part (h : Past) (t : N) (m : nat) (p : list LogEntry) : Prop :=
  ∃ c L, reign h !! t = Some (c, L) ∧ p `prefix_of` take m L.

Definition backed (h : Past) (t : N) (m : nat) : Prop :=
  ∃ c L, reign h !! t = Some (c, L) ∧ m ≤ length L.

(** A leader after term [t0] and up to [t1] went without the entries [p]. *)
Definition overruled (h : Past) (t0 t1 : N) (p : list LogEntry) : Prop :=
  ∃ t c L, (t0 < t <= t1)%N ∧ reign h !! t = Some (c, L) ∧ ¬ p `prefix_of` L.

Definition keeps (h : Past) (t0 t1 : N) (p l : list LogEntry) : Prop :=
  p `prefix_of` l ∨ overruled h t0 t1 p.

Definition ends_in (t : N) (p : list LogEntry) : Prop := ∃ e, last p = Some e ∧ e_term e = t.

(** Committed by the rule: the leader of [t] had [p], ending in an entry of its
    own, and a majority took it. *)
Definition chosen (h : Past) (g : Net) (t : N) (p : list LogEntry) : Prop :=
  (∃ c L, reign h !! t = Some (c, L) ∧ p `prefix_of` L) ∧ ends_in t p ∧
  size (members (group g)) `div` 2 < size (holders t (length p) g).

Definition decided (h : Past) (g : Net) (t : N) (p : list LogEntry) : Prop :=
  p = [] ∨ ∃ t' p', (t' <= t)%N ∧ chosen h g t' p' ∧ p `prefix_of` p'.

(** * The invariant *)

(** One promise of a voter: the log has what it took in earlier terms, as far as
    it counts and nobody overruled it. *)
Definition vouches (h : Past) (g : Net) (v t t1 : N) (l : list LogEntry) : Prop :=
  ∀ t0 m p, (v, t0, m) ∈ held g → (t0 < t)%N → part h t0 m p → ends_in t0 p → keeps h t0 t1 p l.

Record node_ok (region : N) (h : Past) (g : Net) (i : N) (n : RaftNode) : Prop := {
  no_wf : wf n;
  no_region : region_id_ n = region;
  no_self : self_id_ n = i;
  no_log : log_ok h (log_ n);
  no_terms : terms_below (current_term_ n) (log_ n);
  no_leader : role_ n = kLeader → reign h !! current_term_ n = Some (i, log_ n);
  no_candidate : role_ n = kCandidate → bid h !! (current_term_ n, i) = Some (log_ n);
  no_reign t L : reign h !! t = Some (i, L) →
    (t <= current_term_ n)%N ∧ (t = current_term_ n → role_ n ≠ kCandidate);
  no_bid t l : bid h !! (t, i) = Some l → (t <= current_term_ n)%N;
  no_held t m : (i, t, m) ∈ held g → (t <= current_term_ n)%N ∧
    ∀ p, part h t m p → keeps h t (current_term_ n) p (log_ n);
  no_commit : decided h g (current_term_ n) (take (N.to_nat (commit_index_ n)) (log_ n));
}.

Record past_ok (region : N) (h : Past) : Prop := {
  po_reign t c L : reign h !! t = Some (c, L) →
    log_ok h L ∧ terms_below t L ∧ log_from region 0 L;
  po_bid t c l : bid h !! (t, c) = Some l →
    log_ok h l ∧ Forall (λ e, e_term e < t)%N l;
}.

Definition asked_ok (h : Past) (r : RequestVoteRequest) : Prop :=
  ∃ l, bid h !! (rv_term r, rv_candidate_id r) = Some l ∧
    rv_last_log_index r = N.of_nat (length l) ∧
    rv_last_log_term r = match last l with None => 0%N | Some e => e_term e end.

Definition sent_ok (h : Past) (g : Net) (r : AppendEntriesRequest) : Prop :=
  ∃ c L, reign h !! ae_term r = Some (c, L) ∧ from_leader L r ∧ reach r ≤ length L ∧
    N.to_nat (ae_leader_commit r) ≤ reach r ∧
    decided h g (ae_term r) (take (N.to_nat (ae_leader_commit r)) L).

Definition ballot_ok (h : Past) (g : Net) (b : Ballot) : Prop :=
  ∃ l, bid h !! (ballot_term b, ballot_for b) = Some l ∧
    vouches h g (voter b) (ballot_term b) (ballot_term b) l.

(** A majority voted the leader of [t] in, and vouches for its log. *)
Definition election_ok (h : Past) (g : Net) (t c : N) (L : list LogEntry) : Prop :=
  ∃ Q, Q ⊆ voters t c (group g) ∧ size (members (group g)) `div` 2 < size Q ∧
    ∀ v, v ∈ Q → vouches h g v t (t - 1) L.

Record net_ok (region : N) (h : Past) (g : Net) : Prop := {
  ok_past : past_ok region h;
  ok_nodes i n : members (group g) !! i = Some n → node_ok region h g i n;
  ok_ballots : ballots_ok (group g);
  ok_bids b : b ∈ ballots (group g) → ballot_ok h g b;
  ok_reigns t c L : reign h !! t = Some (c, L) → election_ok h g t c L;
  ok_asked r : r ∈ asked g → asked_ok h r;
  ok_sent r : r ∈ sent g → sent_ok h g r;
  ok_held v t m : (v, t, m) ∈ held g → is_Some (members (group g) !! v) ∧ backed h t m;
}.

(** * What the past keeps *)

Lemma prefix_take_both (p l : list LogEntry) : p `prefix_of` l → take (length p) l = p.
Proof. intros [m ->]. apply take_app_length. Qed.

Lemma take_prefix_take (L : list LogEntry) a b : a ≤ b → take a L `prefix_of` take b L.
Proof. intros Hab. rewrite <-(Nat.min_l a b), <-take_take by done. apply prefix_take. Qed.

Lemma prefix_take_le (p l : list LogEntry) m : p `prefix_of` l → length p ≤ m → p `prefix_of` take m l.
Proof. intros Hp Hm. rewrite <-(prefix_take_both p l Hp) at 1. by apply take_prefix_take. Qed.

Lemma Forall_prefix {A} (P : A → Prop) (l l' : list A) : l `prefix_of` l' → Forall P l' → Forall P l.
Proof. intros [m ->]. rewrite Forall_app. by intros []. Qed.

Section keeping.
Context (region : N) (h h' : Past) (Hext : extends h h').

Lemma log_ok_extends l : log_ok h l → log_ok h' l.
Proof.
  intros Hl i e He. destruct (Hl i e He) as (c & L & HL & Hp).
  destruct (ext_reign _ _ Hext _ _ _ HL) as (es & HL' & _). exists c, (L ++ es).
  split; [done|]. by apply prefix_app_r.
Qed.

Lemma backed_extends t m : backed h t m → backed h' t m.
Proof.
  intros (c & L & HL & Hm). destruct (ext_reign _ _ Hext _ _ _ HL) as (es & HL' & _).
  exists c, (L ++ es). rewrite length_app. split; [done | lia].
Qed.

(** What was taken from a leader is not changed by what it appends later. *)
Lemma part_extends t m p : backed h t m → part h' t m p → part h t m p.
Proof.
  intros (c & L & HL & Hm) (c' & L' & HL' & Hp).
  destruct (ext_reign _ _ Hext _ _ _ HL) as (es & HL2 & _).
  rewrite HL' in HL2. injection HL2 as -> ->. rewrite take_app_le in Hp by done. by exists c, L.
Qed.

Lemma overruled_extends t0 t1 p : terms_below t0 p → overruled h t0 t1 p → overruled h' t0 t1 p.
Proof.
  intros Hp (t & c & L & Ht & HL & Hno). destruct (ext_reign _ _ Hext _ _ _ HL) as (es & HL' & Hes).
  exists t, c, (L ++ es). split; [done|]. split; [done|]. intros Hpre.
  destruct (prefix_weak_total p L (L ++ es) Hpre) as [? | [q ->]]; [by apply prefix_app_r | done|].
  apply prefix_app_inv in Hpre. destruct q as [|x q]; [by rewrite app_nil_r in Hno|].
  destruct Hpre as [q' ->]. apply Forall_cons in Hes as [Hx _].
  apply Forall_app in Hp as [_ Hp]. apply Forall_cons in Hp as [Hx' _]. lia.
Qed.

Lemma keeps_extends t0 t1 p l : terms_below t0 p → keeps h t0 t1 p l → keeps h' t0 t1 p l.
Proof. intros Hp [?|?]; [by left | right; by apply overruled_extends]. Qed.

Lemma part_terms t m p : past_ok region h → part h t m p → terms_below t p.
Proof.
  intros Hok (c & L & HL & Hp). destruct (po_reign _ _ Hok _ _ _ HL) as (_ & Ht & _).
  eapply Forall_prefix; [|exact Ht]. etrans; [exact Hp | apply prefix_take].
Qed.
End keeping.

Lemma overruled_later h t0 t1 t2 p : (t1 <= t2)%N → overruled h t0 t1 p → overruled h t0 t2 p.
Proof. intros Hle (t & c & L & Ht & HL & Hno). exists t, c, L. split; [lia | done]. Qed.

Lemma keeps_later h t0 t1 t2 p l : (t1 <= t2)%N → keeps h t0 t1 p l → keeps h t0 t2 p l.
Proof. intros Hle [?|?]; [by left | right; by eapply overruled_later]. Qed.

Lemma keeps_prefix h t0 t1 p l l' : l `prefix_of` l' → keeps h t0 t1 p l → keeps h t0 t1 p l'.
Proof. intros Hl [?|?]; [left; by etrans | by right]. Qed.

Lemma log_ok_prefix h l l' : l `prefix_of` l' → log_ok h l' → log_ok h l.
Proof.
  intros Hl Hok i e He. destruct (Hok i e (prefix_lookup_Some _ _ _ _ He Hl)) as (c & L & HL & Hp).
  exists c, L. split; [done|]. etrans; [|exact Hp].
  apply prefix_take_le; [etrans; [apply prefix_take | exact Hl]|]. rewrite length_take. lia.
Qed.

Lemma log_ok_matching h l l' : log_ok h l → log_ok h l' → log_matching l l'.
Proof.
  intros H H' i x y Hx Hy Ht. destruct (H i x Hx) as (c & L & HL & Hp), (H' i y Hy) as (c' & L' & HL' & Hp').
  rewrite Ht in HL. rewrite HL in HL'. injection HL' as -> ->.
  apply lookup_lt_Some in Hx, Hy.
  apply prefix_take_both in Hp, Hp'. rewrite length_take_le in Hp, Hp' by lia. congruence.
Qed.

Lemma last_owner h l x : log_ok h l → last l = Some x →
  ∃ c L, reign h !! e_term x = Some (c, L) ∧ l `prefix_of` L.
Proof.
  intros Hl Hx. rewrite last_lookup in Hx. destruct (Hl _ _ Hx) as (c & L & HL & Hp).
  apply lookup_lt_Some in Hx. rewrite take_ge in Hp by lia. by exists c, L.
Qed.

(** * Commitment *)

Lemma holders_grow t k g g' : held g ⊆ held g' → holders t k g ⊆ holders t k g'.
Proof. intros Hsub v (m & Hm & Hk)%elem_of_holders. apply elem_of_holders. exists m. auto. Qed.

Lemma chosen_extends h h' g g' t p :
  extends h h' → held g ⊆ held g' → size (members (group g')) = size (members (group g)) →
  chosen h g t p → chosen h' g' t p.
Proof.
  intros Hext Hsub Hsize ((c & L & HL & Hp) & He & Hq).
  destruct (ext_reign _ _ Hext _ _ _ HL) as (es & HL' & _).
  split; [exists c, (L ++ es); split; [done | by apply prefix_app_r]|]. split; [done|].
  rewrite Hsize. pose proof (subseteq_size _ _ (holders_grow t (length p) _ _ Hsub)). lia.
Qed.

Lemma decided_extends h h' g g' t p :
  extends h h' → held g ⊆ held g' → size (members (group g')) = size (members (group g)) →
  decided h g t p → decided h' g' t p.
Proof.
  intros ??? [-> | (t' & p' & Ht & Hc & Hp)]; [by left|]. right. exists t', p'.
  split; [done|]. split; [by eapply chosen_extends | done].
Qed.

Lemma decided_later h g t t' p : (t <= t')%N → decided h g t p → decided h g t' p.
Proof.
  intros Ht [-> | (u & p' & Hu & ?)]; [by left|]. right. exists u, p'. split; [lia | done].
Qed.

Lemma decided_prefix h g t p q : q `prefix_of` p → decided h g t p → decided h g t q.
Proof.
  intros Hq [-> | (u & p' & Hu & Hc & Hp)]; [left; by apply prefix_nil_inv|].
  right. exists u, p'. split_and!; [done..|]. by etrans.
Qed.

Section agreement.
Context (region : N) (h : Past) (g : Net) (Hok : net_ok region h g).

Lemma holders_members t k : holders t k g ⊆ dom (members (group g)).
Proof.
  intros v (m & Hm & _)%elem_of_holders. apply elem_of_dom. by apply (ok_held _ _ _ Hok v t m).
Qed.

(** Leader completeness: a majority took [p], a majority voted the later leader
    in, and a node in both vouches that nobody in between went without [p]. *)
Lemma chosen_kept t p t1 c1 L1 :
  chosen h g t p → reign h !! t1 = Some (c1, L1) → (t < t1)%N → p `prefix_of` L1.
Proof.
  intros ((c & L & HL & Hp) & Hend & Hmaj). revert c1 L1.
  induction (N.lt_wf_0 t1) as [t1 _ IH]. intros c1 L1 HL1 Ht.
  destruct (ok_reigns _ _ _ Hok _ _ _ HL1) as (Q & HQ & HQmaj & Hvouch).
  rewrite <-size_dom in Hmaj, HQmaj.
  destruct (majorities_meet Q (holders t (length p) g) (dom (members (group g))))
    as (v & Hv & (m & Hheld & Hm)%elem_of_holders); [|apply holders_members|done..|].
  { etrans; [exact HQ|]. apply voters_members, (ok_ballots _ _ _ Hok). }
  assert (part h t m p) as Hpart by (exists c, L; split; [done | by apply prefix_take_le]).
  destruct (Hvouch v Hv t m p Hheld Ht Hpart Hend) as [? | (t2 & c2 & L2 & Ht2 & HL2 & Hno)]; [done|].
  destruct Hno. apply (IH t2) with (c1 := c2); [lia | done | lia].
Qed.

Lemma decided_kept t p t1 c1 L1 :
  decided h g t p → reign h !! t1 = Some (c1, L1) → (t <= t1)%N → p `prefix_of` L1.
Proof.
  intros [-> | (t' & p' & Ht' & Hc & Hp)] HL1 Ht; [apply prefix_nil|]. etrans; [exact Hp|].
  destruct (decide (t' = t1)) as [-> | Hne]; [|apply (chosen_kept t' p' t1 c1); [done..|lia]].
  destruct Hc as ((c & L & HL & Hp') & _). rewrite HL1 in HL. by injection HL as -> ->.
Qed.

Lemma decided_agree t1 t2 p1 p2 :
  decided h g t1 p1 → decided h g t2 p2 → p1 `prefix_of` p2 ∨ p2 `prefix_of` p1.
Proof.
  intros [-> | (u1 & q1 & _ & H1 & Hp1)]; [left; apply prefix_nil|].
  intros [-> | (u2 & q2 & _ & H2 & Hp2)]; [right; apply prefix_nil|].
  assert (∃ L, q1 `prefix_of` L ∧ q2 `prefix_of` L) as (L & ? & ?).
  { pose proof H1 as ((c1 & L1 & HL1 & Hq1) & _). pose proof H2 as ((c2 & L2 & HL2 & Hq2) & _).
    destruct (N.lt_trichotomy u1 u2) as [Hlt | [-> | Hlt]].
    - exists L2. split; [by eapply chosen_kept | done].
    - exists L2. rewrite HL1 in HL2. injection HL2 as -> ->. done.
    - exists L1. split; [done | by eapply chosen_kept]. }
  apply (prefix_weak_total _ _ L); by etrans.
Qed.

(** * Voting *)

(** A voter that has [p] grants its vote only to logs that have [p] too, unless
    a leader in between went without it. *)
Lemma up_to_date_keeps n t t0 m p l :
  log_ok h (log_ n) → wf n → log_ok h l → Forall (λ e, e_term e < t)%N l →
  IsCandidateLogUpToDate n (N.of_nat (length l)) (match last l with None => 0%N | Some e => e_term e end) = true →
  part h t0 m p → ends_in t0 p → p `prefix_of` log_ n → keeps h t0 (t - 1) p l.
Proof.
  intros Hn Hwf Hl Hbelow Hup Hpart (e & He & Het) Hpn.
  pose proof (part_terms region h t0 m p (ok_past _ _ _ Hok) Hpart) as Hpt.
  rewrite up_to_date_spec, wf_last_index in Hup by done. unfold last_log_term in Hup.
  pose proof (prefix_length _ _ Hpn). rewrite last_lookup in He.
  pose proof (prefix_lookup_Some _ _ _ _ He Hpn) as Hen.
  destruct (last (log_ n)) as [x|] eqn:Hx; [|apply last_None in Hx; by rewrite Hx in Hen].
  destruct (last_owner h _ x Hn Hx) as (cx & X & HX & HpX).
  assert (t0 <= e_term x)%N as Ht0.
  { destruct (po_reign _ _ (ok_past _ _ _ Hok) _ _ _ HX) as (_ & HXt & _).
    rewrite <-Het. apply (Forall_lookup_1 _ _ _ _ HXt (prefix_lookup_Some _ _ _ _ Hen HpX)). }
  destruct (last l) as [y|] eqn:Hy.
  2: { apply last_None in Hy as ->. apply lookup_lt_Some in Hen. cbn in Hup. lia. }
  destruct (last_owner h _ y Hl Hy) as (cy & Y & HY & HpY). rewrite last_lookup in Hy.
  pose proof (Forall_lookup_1 _ _ _ _ Hbelow Hy) as Hyt. cbn in Hyt.
  destruct Hup as [Hlt | [Heq Hle]].
  - destruct (decide (p `prefix_of` Y)) as [HpY'|Hno].
    2: { right. exists (e_term y), cy, Y. split; [lia | done]. }
    destruct (prefix_weak_total p l Y HpY' HpY) as [? | Hlp]; [by left|].
    pose proof (Forall_lookup_1 _ _ _ _ Hpt (prefix_lookup_Some _ _ _ _ Hy Hlp)) as Hyp. cbn in Hyp. lia.
  - rewrite Heq in HX. rewrite HX in HY. injection HY as -> ->. left.
    assert (p `prefix_of` Y) as HpX' by by etrans.
    destruct (prefix_weak_total p l Y HpX' HpY) as [? | Hlp]; [done|].
    assert (l = p) as ->; [|done]. apply prefix_length_eq; [done | lia].
Qed.
End agreement.

(** * Steps *)

(** What one step of node [i] in term [cur] leaves alone. *)
Record moves (i cur : N) (h h' : Past) (g g' : Net) : Prop := {
  mv_past : extends h h';
  mv_held : held g ⊆ held g';
  mv_size : size (members (group g')) = size (members (group g));
  mv_reign t j L : j ≠ i → reign h' !! t = Some (j, L) → reign h !! t = Some (j, L);
  mv_bid t j l : j ≠ i → bid h' !! (t, j) = Some l → bid h !! (t, j) = Some l;
  mv_acks v t m : (v, t, m) ∈ held g' →
    (v, t, m) ∈ held g ∨ v = i ∧ (cur <= t)%N ∧ backed h' t m;
}.

Section moving.
Context (region i cur : N) (h h' : Past) (g g' : Net).
Context (Hok : net_ok region h g) (Hmv : moves i cur h h' g g').

Lemma part_old v t m p : (v, t, m) ∈ held g → part h' t m p → part h t m p.
Proof.
  intros Hin. apply part_extends; [apply Hmv|]. apply (ok_held _ _ _ Hok _ _ _ Hin).
Qed.

Lemma keeps_moves v t m t1 p l :
  (v, t, m) ∈ held g → part h' t m p → keeps h t t1 p l → keeps h' t t1 p l.
Proof.
  intros Hin Hp. apply keeps_extends; [apply Hmv|].
  eapply part_terms; [apply (ok_past _ _ _ Hok) | by eapply part_old].
Qed.

Lemma vouches_moves v t t1 l l' :
  (v = i → t <= cur)%N → l `prefix_of` l' → vouches h g v t t1 l → vouches h' g' v t t1 l'.
Proof.
  intros Hcur Hl Hv t0 m p Hin Ht Hp He.
  destruct (mv_acks _ _ _ _ _ _ Hmv _ _ _ Hin) as [Hold | (-> & Hge & _)]; [|specialize (Hcur eq_refl); lia].
  apply (keeps_prefix _ _ _ _ l); [done|]. eapply keeps_moves; [done..|].
  apply (Hv t0 m p); [done..| by eapply part_old | done].
Qed.

Lemma decided_moves t p : decided h g t p → decided h' g' t p.
Proof. apply decided_extends; apply Hmv. Qed.

Lemma node_ok_moves j n : j ≠ i → node_ok region h g j n → node_ok region h' g' j n.
Proof.
  intros Hj [? ? ? Hlog ? Hlead Hcand Hreign Hbid Hheld Hcommit].
  assert (∀ t L, reign h' !! t = Some (j, L) → reign h !! t = Some (j, L)) as Hown
    by (intros t L; by apply (mv_reign _ _ _ _ _ _ Hmv)).
  split; try done.
  - by eapply log_ok_extends; [apply Hmv|].
  - intros Hr. specialize (Hlead Hr).
    destruct (ext_reign _ _ (mv_past _ _ _ _ _ _ Hmv) _ _ _ Hlead) as (es & Hes & _).
    rewrite Hes. by rewrite <-(Hown _ _ Hes).
  - intros Hr. eapply lookup_weaken; [by apply Hcand | apply (mv_past _ _ _ _ _ _ Hmv)].
  - intros t L HL. by apply (Hreign t L), Hown.
  - intros t l Hl. by apply (Hbid t l), (mv_bid _ _ _ _ _ _ Hmv).
  - intros t m Hin. destruct (mv_acks _ _ _ _ _ _ Hmv _ _ _ Hin) as [Hold | (? & _)]; [|done].
    destruct (Hheld t m Hold) as [Ht Hk]. split; [done|]. intros p Hp.
    eapply keeps_moves; [done..|]. apply Hk. by eapply part_old.
  - by apply decided_moves.
Qed.

Lemma asked_ok_moves r : asked_ok h r → asked_ok h' r.
Proof.
  intros (l & Hl & ?). exists l. split; [|done].
  eapply lookup_weaken; [done | apply (mv_past _ _ _ _ _ _ Hmv)].
Qed.

Lemma from_leader_app L es r : reach r ≤ length L → from_leader L r → from_leader (L ++ es) r.
Proof.
  unfold reach. intros Hreach (Hp & Hprev & Hes). split; [rewrite length_app; lia|]. split.
  - destruct (ae_prev_log_index r =? 0)%N; [done|]. destruct Hprev as (e & He & ?).
    exists e. split; [|done]. by apply lookup_app_l_Some.
  - rewrite drop_app_le by done. rewrite take_app_le; [done|]. rewrite length_drop. lia.
Qed.

Lemma sent_ok_moves r : sent_ok h g r → sent_ok h' g' r.
Proof.
  intros (c & L & HL & Hfrom & Hreach & Hc & Hd).
  destruct (ext_reign _ _ (mv_past _ _ _ _ _ _ Hmv) _ _ _ HL) as (es & HL' & _).
  exists c, (L ++ es). split; [done|]. split; [by apply from_leader_app|].
  rewrite length_app, take_app_le by lia. split_and!; [lia | done | by apply decided_moves].
Qed.

Lemma ballot_ok_moves b :
  (voter b = i → ballot_term b <= cur)%N → ballot_ok h g b → ballot_ok h' g' b.
Proof.
  intros Hb (l & Hl & Hv). exists l. split; [|by eapply vouches_moves].
  eapply lookup_weaken; [done | apply (mv_past _ _ _ _ _ _ Hmv)].
Qed.
End moving.

(** The node after an event, and the ballots it casts. *)
Definition next (e : event) (n : RaftNode) : RaftNode :=
  match does e n with Some a => perform a n | None => n end.

Definition casts (e : event) (n : RaftNode) : list (N * N) :=
  match does e n with Some a => votes_cast a n | None => [] end.

Definition asks (e : event) (n : RaftNode) : list RequestVoteRequest :=
  match e with Campaign _ => [vote_request (BecomeCandidate n)] | _ => [] end.

Definition sends (e : event) : list AppendEntriesRequest :=
  match e with Send _ r => [r] | _ => [] end.

Lemma happen_fields e g n : members (group g) !! who e = Some n →
  members (group (happen e g)) = <[who e := next e n]> (members (group g)) ∧
  ballots (group (happen e g)) =
    map (λ v, mkBallot (who e) v.1 v.2) (casts e n) ++ ballots (group g) ∧
  asked (happen e g) = asks e n ++ asked g ∧ sent (happen e g) = sends e ++ sent g ∧
  held (happen e g) = takes_up e n ++ held g.
Proof.
  intros Hn. unfold happen, next, casts. rewrite Hn. cbn [group asked sent held].
  destruct (does e n) as [a|]; [unfold act; rewrite Hn; done|].
  by rewrite insert_id.
Qed.

Lemma happen_voters e g n t c : members (group g) !! who e = Some n →
  voters t c (group g) ⊆ voters t c (group (happen e g)).
Proof.
  intros Hn v Hv%elem_of_voters. apply elem_of_voters.
  destruct (happen_fields e g n Hn) as (_ & -> & _). set_solver.
Qed.

Section frame.
Context (region : N) (h h' : Past) (e : event) (g : Net) (n : RaftNode).
Context (Hok : net_ok region h g) (Hn : members (group g) !! who e = Some n).

Lemma happen_moves :
  extends h h' →
  (∀ t j L, j ≠ who e → reign h' !! t = Some (j, L) → reign h !! t = Some (j, L)) →
  (∀ t j l, j ≠ who e → bid h' !! (t, j) = Some l → bid h !! (t, j) = Some l) →
  (∀ v t m, (v, t, m) ∈ takes_up e n → v = who e ∧ (current_term_ n <= t)%N ∧ backed h' t m) →
  moves (who e) (current_term_ n) h h' g (happen e g).
Proof.
  intros Hext Hreign Hbid Hup. destruct (happen_fields e g n Hn) as (Hm & _ & _ & _ & Hh).
  split; [done | rewrite Hh; set_solver | | done | done |].
  - rewrite Hm. rewrite !map_size_insert_Some; [done | by exists n].
  - intros v t m. rewrite Hh. intros [Hin | Hin]%elem_of_app; [right; by apply Hup | by left].
Qed.

Lemma voted_before b : b ∈ ballots (group g) → voter b = who e → (ballot_term b <= current_term_ n)%N.
Proof.
  intros Hb Hv. destruct (ballot_kept _ (ok_ballots _ _ _ Hok) b Hb) as (m & Hm & Ht & _).
  rewrite Hv, Hn in Hm. by injection Hm as <-.
Qed.

Lemma election_ok_moves t c L L' :
  moves (who e) (current_term_ n) h h' g (happen e g) → L `prefix_of` L' →
  election_ok h g t c L → election_ok h' (happen e g) t c L'.
Proof.
  intros Hmv HL (Q & HQ & Hmaj & Hv). exists Q.
  split; [etrans; [exact HQ | by eapply happen_voters]|].
  rewrite (mv_size _ _ _ _ _ _ Hmv). split; [done|]. intros v Hin.
  eapply vouches_moves; [exact Hok | exact Hmv | | exact HL | by apply Hv].
  intros ->. apply HQ, elem_of_voters in Hin. by apply (voted_before _ Hin).
Qed.

Lemma happen_ok :
  (∀ a, does e n = Some a → permitted a n) →
  moves (who e) (current_term_ n) h h' g (happen e g) →
  past_ok region h' → node_ok region h' (happen e g) (who e) (next e n) →
  (∀ v, v ∈ casts e n → ballot_ok h' (happen e g) (mkBallot (who e) v.1 v.2)) →
  (∀ t c L, reign h' !! t = Some (c, L) →
     (∃ L0, reign h !! t = Some (c, L0) ∧ L0 `prefix_of` L) ∨ election_ok h' (happen e g) t c L) →
  (∀ r, r ∈ asks e n → asked_ok h' r) → (∀ r, r ∈ sends e → sent_ok h' (happen e g) r) →
  net_ok region h' (happen e g).
Proof.
  intros Hperm Hmv Hpast Hnode Hcast Hreign Hask Hsend.
  destruct (happen_fields e g n Hn) as (Hm & Hb & Ha & Hs & Hh). split; [done|..].
  - intros j x. rewrite Hm. intros [[<- <-] | [Hj Hx]]%lookup_insert_Some; [done|].
    eapply node_ok_moves; [exact Hok | exact Hmv | done | by apply (ok_nodes _ _ _ Hok)].
  - unfold happen. rewrite Hn. cbn [group]. destruct (does e n) as [a|]; [|apply Hok].
    apply act_ballots_ok; [|apply Hok]. unfold may_act. rewrite Hn. by apply Hperm.
  - intros b. rewrite Hb. intros [Hnew | Hold]%elem_of_app.
    + apply list_elem_of_fmap in Hnew as (v & -> & Hv). by apply Hcast.
    + eapply ballot_ok_moves; [exact Hok | exact Hmv | | by apply (ok_bids _ _ _ Hok)].
      by apply voted_before.
  - intros t c L HL. destruct (Hreign t c L HL) as [(L0 & HL0 & Hp) | ?]; [|done].
    eapply election_ok_moves; [done | exact Hp | by apply (ok_reigns _ _ _ Hok)].
  - intros r. rewrite Ha. intros [Hr | Hr]%elem_of_app; [by apply Hask|].
    eapply asked_ok_moves; [exact Hmv | by apply (ok_asked _ _ _ Hok)].
  - intros r. rewrite Hs. intros [Hr | Hr]%elem_of_app; [by apply Hsend|].
    eapply sent_ok_moves; [exact Hmv | by apply (ok_sent _ _ _ Hok)].
  - intros v t m Hin. destruct (mv_acks _ _ _ _ _ _ Hmv _ _ _ Hin) as [Hold | (-> & _ & Hbk)].
    + destruct (ok_held _ _ _ Hok _ _ _ Hold) as [[x Hx] Hbk]. split; [|by eapply backed_extends; [apply Hmv|]].
      rewrite Hm. destruct (decide (who e = v)) as [<- | Hne]; [rewrite lookup_insert_eq; by eexists|].
      rewrite lookup_insert_ne by done. by exists x.
    + split; [|done]. rewrite Hm, lookup_insert_eq. by eexists.
Qed.
End frame.

(** ** Steps that keep the log *)

Lemma node_ok_same_log region h g g' i n n' :
  node_ok region h g i n → held g' = held g → wf n' → same_peer n n' → log_ n' = log_ n →
  (current_term_ n <= current_term_ n')%N →
  role_ n' = kFollower ∨ role_ n' = role_ n ∧ current_term_ n' = current_term_ n →
  decided h g' (current_term_ n') (take (N.to_nat (commit_index_ n')) (log_ n)) →
  node_ok region h g' i n'.
Proof.
  intros [Hwf Hr Hs Hlog Hterms Hlead Hcand Hreign Hbid Hheld _] Hh Hwf' (Hr' & Hs' & _) Hl Ht Hrole Hd.
  split; rewrite ?Hl; try done; try congruence.
  - eapply Forall_impl; [exact Hterms|]. cbn. lia.
  - intros Hrl. destruct Hrole as [? | [Heq Hte]]; [congruence|]. rewrite Hte. apply Hlead. congruence.
  - intros Hrl. destruct Hrole as [? | [Heq Hte]]; [congruence|]. rewrite Hte. apply Hcand. congruence.
  - intros t L HL. destruct (Hreign t L HL) as [? Hnc]. split; [lia|]. intros ->.
    destruct Hrole as [-> | [-> Hte]]; [done|]. by apply Hnc.
  - intros t l Hb. specialize (Hbid t l Hb). lia.
  - intros t m. rewrite Hh. intros Hin. destruct (Hheld t m Hin) as [? Hk]. split; [lia|].
    intros p Hp. eapply keeps_later; [exact Ht | by apply Hk].
Qed.

Lemma commit_back h g g' n t c :
  extends h h → held g' = held g → size (members (group g')) = size (members (group g)) →
  (current_term_ n <= t)%N → (c <= commit_index_ n)%N →
  decided h g (current_term_ n) (take (N.to_nat (commit_index_ n)) (log_ n)) →
  decided h g' t (take (N.to_nat c) (log_ n)).
Proof.
  intros Hh Hheld Hsize Ht Hc Hd. apply (decided_later _ _ (current_term_ n)); [done|].
  eapply (decided_extends h h g g'); [done | by rewrite Hheld | done|].
  eapply decided_prefix; [|exact Hd]. apply take_prefix_take. lia.
Qed.

Section quiet.
Context (region : N) (h : Past) (e : event) (g : Net) (n : RaftNode).
Context (Hok : net_ok region h g) (Hn : members (group g) !! who e = Some n).

Lemma happen_size : size (members (group (happen e g))) = size (members (group g)).
Proof.
  destruct (happen_fields e g n Hn) as (-> & _). rewrite !map_size_insert_Some; [done | by exists n].
Qed.

(** An event that adds nothing to the past. *)
Lemma happen_same_past :
  (∀ a, does e n = Some a → permitted a n) →
  (∀ v t m, (v, t, m) ∈ takes_up e n → v = who e ∧ (current_term_ n <= t)%N ∧ backed h t m) →
  node_ok region h (happen e g) (who e) (next e n) →
  (∀ v, v ∈ casts e n → ballot_ok h (happen e g) (mkBallot (who e) v.1 v.2)) →
  asks e n = [] → (∀ r, r ∈ sends e → sent_ok h (happen e g) r) →
  net_ok region h (happen e g).
Proof.
  intros Hperm Hup Hnode Hcast Hask Hsend.
  apply (happen_ok region h h e g n); try done; [|apply Hok| |].
  - by apply (happen_moves region).
  - intros t c L HL. left. by exists L.
  - rewrite Hask. by intros r ?%elem_of_nil.
Qed.

(** An event that adds nothing at all, but may move the commit position. *)
Lemma happen_quiet :
  (∀ a, does e n = Some a → permitted a n) →
  takes_up e n = [] → casts e n = [] → asks e n = [] → sends e = [] →
  same_peer n (next e n) → wf (next e n) → log_ (next e n) = log_ n →
  (current_term_ n <= current_term_ (next e n))%N →
  role_ (next e n) = kFollower ∨
    role_ (next e n) = role_ n ∧ current_term_ (next e n) = current_term_ n →
  (commit_index_ (next e n) <= commit_index_ n)%N ∨
    decided h g (current_term_ (next e n)) (take (N.to_nat (commit_index_ (next e n))) (log_ n)) →
  net_ok region h (happen e g).
Proof.
  intros Hperm Hup Hcast Hask Hsend Hpeer Hwf Hlog Hterm Hrole Hcommit.
  pose proof (ok_nodes _ _ _ Hok _ _ Hn) as Hnode.
  destruct (happen_fields e g n Hn) as (_ & _ & _ & _ & Hh). rewrite Hup in Hh.
  apply happen_same_past; rewrite ?Hup, ?Hcast, ?Hsend; try done; try (by intros ? ?%elem_of_nil); try (by intros ? ? ? ?%elem_of_nil).
  eapply node_ok_same_log; [exact Hnode | done..|]. destruct Hcommit as [Hle | Hd].
  - eapply commit_back; [done | done | apply happen_size | done | done | apply Hnode].
  - eapply (decided_extends h h g); [done | by rewrite Hh | apply happen_size | done].
Qed.
End quiet.

Lemma Restore_run t v c a log n :
  (Restore t v c a log n).2 = n ∨
  (Restore t v c a log n).2 =
    mkRaft (region_id_ n) (self_id_ n) (peers_ n) kFollower t v c a log.
Proof.
  unfold Restore. run. destruct (check_restored _ _ _); run; [|by left..].
  destruct (_ <? _)%N; [by left|]. destruct (_ <? _)%N; [by left | by right].
Qed.

(** ** What candidates and leaders add to the past *)

Definition bids (t c : N) (l : list LogEntry) (h : Past) : Past :=
  mkPast (reign h) (<[(t, c) := l]> (bid h)).

Definition reigns (t c : N) (L : list LogEntry) (h : Past) : Past :=
  mkPast (<[t := (c, L)]> (reign h)) (bid h).

Lemma bids_lookup t c l h t0 c0 l0 : bid (bids t c l h) !! (t0, c0) = Some l0 →
  t0 = t ∧ c0 = c ∧ l0 = l ∨ bid h !! (t0, c0) = Some l0.
Proof. cbn. intros [[[= <- <-] <-] | [_ Hl]]%lookup_insert_Some; [by left | by right]. Qed.

Lemma reigns_lookup t c L h t0 c0 L0 : reign (reigns t c L h) !! t0 = Some (c0, L0) →
  t0 = t ∧ c0 = c ∧ L0 = L ∨ reign h !! t0 = Some (c0, L0).
Proof. cbn. intros [[<- [= <- <-]] | [_ HL]]%lookup_insert_Some; [by left | by right]. Qed.

Lemma bids_extends t c l h : bid h !! (t, c) = None → extends h (bids t c l h).
Proof.
  intros Hnone. split; [|by apply insert_subseteq]. intros t0 c0 L HL. exists [].
  by rewrite app_nil_r.
Qed.

Lemma reigns_extends t c L es h :
  reign h !! t = None ∨ reign h !! t = Some (c, L) → Forall (λ e, e_term e = t) es →
  extends h (reigns t c (L ++ es) h).
Proof.
  intros Hold Hes. split; [|done]. intros t0 c0 L0 HL0. cbn. destruct (decide (t0 = t)) as [-> | Hne].
  - destruct Hold as [Hnone | Hold]; [congruence|]. rewrite Hold in HL0. injection HL0 as <- <-.
    exists es. by rewrite lookup_insert_eq.
  - exists []. by rewrite lookup_insert_ne, app_nil_r.
Qed.

Lemma bids_past region t c l h :
  past_ok region h → log_ok h l → Forall (λ e, e_term e < t)%N l → past_ok region (bids t c l h).
Proof.
  intros [Hr Hb] Hl Hlt. split; [done|]. intros t0 c0 l0 [(-> & -> & ->) | H]%bids_lookup; [done | by apply (Hb t0 c0)].
Qed.

Lemma reigns_past region t c L h :
  past_ok region h → extends h (reigns t c L h) → log_ok (reigns t c L h) L → terms_below t L →
  log_from region 0 L → past_ok region (reigns t c L h).
Proof.
  intros [Hr Hb] Hext HL Ht Hfrom. split.
  - intros t0 c0 L0 [(-> & -> & ->) | H]%reigns_lookup; [done|]. destruct (Hr t0 c0 L0 H) as (? & ? & ?).
    split; [by eapply log_ok_extends | done].
  - intros t0 c0 l0 Hl. destruct (Hb t0 c0 l0 Hl). split; [by eapply log_ok_extends | done].
Qed.

Lemma held_kept region i cur h h' g g' n t m l :
  net_ok region h g → moves i cur h h' g g' → node_ok region h g i n → (i, t, m) ∈ held g →
  log_ n `prefix_of` l →
  (t <= current_term_ n)%N ∧ ∀ p, part h' t m p → keeps h' t (current_term_ n) p l.
Proof.
  intros Hok Hmv Hnode Hin Hl. destruct (no_held _ _ _ _ _ Hnode t m Hin) as [Ht Hk].
  split; [done|]. intros p Hp. apply (keeps_prefix _ _ _ _ (log_ n)); [done|].
  eapply keeps_moves; [done..|]. apply Hk. by eapply part_old.
Qed.

(** ** Commits, applications, step-downs, restarts *)

Section events.
Context (region : N) (h : Past) (g : Net) (Hok : net_ok region h g).

Lemma apply_step i : can_happen (Apply i) g → net_ok region h (happen (Apply i) g).
Proof.
  unfold can_happen. destruct (members (group g) !! who (Apply i)) as [n|] eqn:Hn; [intros _|done].
  pose proof (no_wf _ _ _ _ _ (ok_nodes _ _ _ Hok _ _ Hn)) as Hwf.
  assert (next (Apply i) n = with_log (commit_index_ n) (commit_index_ n) (log_ n) n) as Hnext.
  { unfold next. cbn [does perform]. by rewrite TakeCommittedEntries_spec. }
  apply (happen_quiet region h (Apply i) g n); rewrite ?Hnext; try done.
  - by intros a [= <-].
  - destruct Hwf. split; cbn; [done | done | lia].
  - by right.
  - by left.
Qed.

Lemma step_down_step i t : can_happen (StepDown i t) g → net_ok region h (happen (StepDown i t) g).
Proof.
  unfold can_happen. destruct (members (group g) !! who (StepDown i t)) as [n|] eqn:Hn; [intros _|done].
  pose proof (no_wf _ _ _ _ _ (ok_nodes _ _ _ Hok _ _ Hn)) as Hwf.
  destruct (BecomeFollower_fields t n) as (Hl & Hc & Ha & Hr & Ht).
  apply (happen_quiet region h (StepDown i t) g n); try done; unfold next; cbn [does perform].
  - by intros a [= <-].
  - apply BecomeFollower_same.
  - by eapply wf_same_log.
  - rewrite Ht. lia.
  - left. unfold BecomeFollower. by case_match.
  - left. by rewrite Hc.
Qed.

Lemma crash_step i c a : can_happen (Crash i c a) g → net_ok region h (happen (Crash i c a) g).
Proof.
  unfold can_happen. destruct (members (group g) !! who (Crash i c a)) as [n|] eqn:Hn; [intros Hle|done].
  pose proof (no_wf _ _ _ _ _ (ok_nodes _ _ _ Hok _ _ Hn)) as Hwf.
  assert (wf (next (Crash i c a) n)) as Hwf'.
  { unfold next. cbn [does perform].
    destruct (Restore_cases n (current_term_ n) (voted_for_ n) c a (log_ n)) as [[st ->] | (n' & -> & ?)]; done. }
  unfold next in Hwf'. cbn [does perform] in Hwf'.
  apply (happen_quiet region h (Crash i c a) g n); try done; unfold next; cbn [does perform];
    try (destruct (Restore_run (current_term_ n) (voted_for_ n) c a (log_ n) n) as [-> | ->]; done).
  - by intros b [= <-].
  - destruct (Restore_run (current_term_ n) (voted_for_ n) c a (log_ n) n) as [-> | ->]; [by right | by left].
  - left. by destruct (Restore_run (current_term_ n) (voted_for_ n) c a (log_ n) n) as [-> | ->].
Qed.

Lemma commit_step i : can_happen (Commit i) g → net_ok region h (happen (Commit i) g).
Proof.
  unfold can_happen. destruct (members (group g) !! who (Commit i)) as [n|] eqn:Hn; [|done].
  intros (Hlead & Hterm & Hmaj). pose proof (ok_nodes _ _ _ Hok _ _ Hn) as Hnode.
  pose proof (no_wf _ _ _ _ _ Hnode) as Hwf. destruct (Hwf) as [Hlog Hc Ha].
  assert (next (Commit i) n = with_log (last_log_index n) (last_applied_ n) (log_ n) n) as Hnext.
  { unfold next. cbn [does perform]. unfold SetCommitIndex. by rewrite N.min_id. }
  apply (happen_quiet region h (Commit i) g n); rewrite ?Hnext; try done.
  - intros b [= <-]. cbn [permitted]. rewrite wf_last_index by done. lia.
  - split; cbn; rewrite ?wf_last_index by done; [done | lia | lia].
  - by right.
  - right. cbn [with_log commit_index_ current_term_]. rewrite wf_last_index, Nat2N.id, firstn_all by done.
    destruct (last (log_ n)) as [x|] eqn:Hx; [|left; by apply last_None].
    right. exists (current_term_ n), (log_ n). split; [lia|]. split; [|done]. split_and!; [| |done].
    + exists (who (Commit i)), (log_ n). split; [by apply (no_leader _ _ _ _ _ Hnode) | done].
    + exists x. split; [done|]. unfold last_log_term in Hterm. by rewrite Hx in Hterm.
Qed.

(** ** Sending *)

Lemma send_step i r : can_happen (Send i r) g → net_ok region h (happen (Send i r) g).
Proof.
  unfold can_happen. destruct (members (group g) !! who (Send i r)) as [n|] eqn:Hn; [|done].
  intros (Hlead & Hterm & Hfrom & Hc & Hreach). pose proof (ok_nodes _ _ _ Hok _ _ Hn) as Hnode.
  pose proof (no_wf _ _ _ _ _ Hnode) as Hwf.
  destruct (happen_fields (Send i r) g n Hn) as (_ & _ & _ & _ & Hh). cbn [takes_up app] in Hh.
  pose proof (happen_size (Send i r) g n Hn) as Hsize.
  apply (happen_same_past region h (Send i r) g n); try done.
  - by intros v t m ?%elem_of_nil.
  - eapply node_ok_same_log; [exact Hnode | done | done | done | done | done | by right|].
    eapply (decided_extends h h g); [done | by rewrite Hh | done | apply Hnode].
  - by intros v ?%elem_of_nil.
  - intros x ->%list_elem_of_singleton. exists (who (Send i r)), (log_ n).
    rewrite Hterm. split; [by apply (no_leader _ _ _ _ _ Hnode)|]. split; [done|].
    pose proof Hfrom as (Hp & _ & Hes). apply (f_equal length) in Hes.
    rewrite length_take, length_drop in Hes. unfold reach.
    split_and!; [lia | lia|]. eapply (commit_back h g); [done | done | done | done | exact Hc | apply Hnode].
Qed.

(** ** Votes *)

Lemma vote_step i r : can_happen (Vote i r) g → net_ok region h (happen (Vote i r) g).
Proof.
  unfold can_happen. destruct (members (group g) !! who (Vote i r)) as [n|] eqn:Hn; [intros Hr|done].
  pose proof (ok_nodes _ _ _ Hok _ _ Hn) as Hnode. pose proof (no_wf _ _ _ _ _ Hnode) as Hwf.
  destruct (happen_fields (Vote i r) g n Hn) as (_ & _ & _ & _ & Hh). cbn [takes_up app] in Hh.
  pose proof (happen_size (Vote i r) g n Hn) as Hsize.
  destruct (HandleRequestVote_fields r n) as (Hl & Hc & Ha & Hreg & Ht).
  apply (happen_same_past region h (Vote i r) g n); try done.
  - by intros a [= <-].
  - by intros v t m ?%elem_of_nil.
  - unfold next. cbn [does perform].
    eapply node_ok_same_log; [exact Hnode | done | by eapply wf_same_log | apply HandleRequestVote_same
      | done | rewrite Ht; lia | |].
    + unfold HandleRequestVote. destruct (N.ltb_spec (rv_term r) (current_term_ n)); [by right|].
      destruct (N.ltb_spec (current_term_ n) (rv_term r)).
      * left. unfold BecomeFollower. by repeat case_match.
      * right. by repeat case_match.
    + rewrite Hc, Ht. eapply (commit_back h g); [done | done | done | lia | lia | apply Hnode].
  - unfold casts. cbn [does votes_cast]. destruct (rv_granted _) eqn:Hg; [|by intros v ?%elem_of_nil].
    intros v ->%list_elem_of_singleton. cbn [fst snd].
    apply HandleRequestVote_granted in Hg as (_ & _ & Hge & _ & Hup).
    destruct (ok_asked _ _ _ Hok _ Hr) as (l & Hbid & Hlen & Hlast).
    exists l. split; [exact Hbid|]. intros t0 m p Hin Ht0 Hpart Hend.
    change (voter (mkBallot (who (Vote i r)) (rv_term r) (rv_candidate_id r))) with (who (Vote i r)) in Hin.
    rewrite Hh in Hin. destruct (no_held _ _ _ _ _ Hnode _ _ Hin) as [_ Hk].
    destruct (Hk p Hpart) as [Hp | Ho]; [|right; by eapply overruled_later].
    destruct (po_bid _ _ (ok_past _ _ _ Hok) _ _ _ Hbid) as [Hlok Hbelow].
    eapply keeps_later; [|eapply (up_to_date_keeps region h g Hok n (rv_term r)); [apply Hnode | done | done | done | | done..]].
    { cbn. lia. }
    by rewrite <-Hlen, <-Hlast, up_to_date_spec.
  - by intros x ?%elem_of_nil.
Qed.

(** ** Candidacies *)

Lemma campaign_node i n h' :
  members (group g) !! i = Some n → (current_term_ n + 1 < two64)%N →
  h' = bids (current_term_ n + 1) i (log_ n) h → moves i (current_term_ n) h h' g (happen (Campaign i) g) →
  node_ok region h' (happen (Campaign i) g) i (next (Campaign i) n).
Proof.
  intros Hn Ht -> Hmv. pose proof (ok_nodes _ _ _ Hok _ _ Hn) as Hnode.
  destruct (happen_fields (Campaign i) g n Hn) as (_ & _ & _ & _ & Hh). cbn [takes_up app] in Hh.
  unfold next. cbn [does perform]. unfold BecomeCandidate. rewrite u64_small by done.
  split; cbn [with_term with_role region_id_ self_id_ role_ current_term_ commit_index_ log_]; try done.
  - apply (wf_same_log n); try done. apply Hnode.
  - apply Hnode.
  - apply Hnode.
  - apply Hnode.
  - eapply Forall_impl; [apply Hnode|]. cbn. lia.
  - intros _. apply lookup_insert_eq.
  - intros t L HL. destruct (no_reign _ _ _ _ _ Hnode t L HL). split; lia.
  - intros t l [(-> & _) | Hl]%bids_lookup; [lia|]. pose proof (no_bid _ _ _ _ _ Hnode t l Hl). lia.
  - intros t m. rewrite Hh. intros Hin. destruct (no_held _ _ _ _ _ Hnode t m Hin) as [? Hk].
    split; [lia|]. intros p Hp. eapply keeps_later; [|by apply Hk]. lia.
  - eapply decided_later; [|eapply decided_moves; [exact Hmv | apply Hnode]]. lia.
Qed.

Lemma campaign_step i : can_happen (Campaign i) g → ∃ h', extends h h' ∧ net_ok region h' (happen (Campaign i) g).
Proof.
  unfold can_happen. destruct (members (group g) !! who (Campaign i)) as [n|] eqn:Hn; [intros Ht|done].
  pose proof (ok_nodes _ _ _ Hok _ _ Hn) as Hnode. cbn [who] in Hn, Hnode.
  set (t := current_term_ n) in *. assert (u64 (t + 1) = (t + 1)%N) as Hu by by apply u64_small.
  set (h' := bids (t + 1) i (log_ n) h).
  assert (extends h h') as Hext.
  { apply bids_extends. destruct (bid h !! _) as [l|] eqn:Hl; [|done].
    apply (no_bid _ _ _ _ _ Hnode) in Hl. lia. }
  assert (moves i t h h' g (happen (Campaign i) g)) as Hmv.
  { apply (happen_moves region h h' (Campaign i)); [exact Hok | exact Hn | exact Hext | done | |].
    - intros t0 j l Hj [(_ & -> & _) | Hl]%bids_lookup; done.
    - by intros v t0 m ?%elem_of_nil. }
  destruct (happen_fields (Campaign i) g n Hn) as (_ & _ & _ & _ & Hh). cbn [takes_up app] in Hh.
  exists h'. split; [exact Hext|]. apply (happen_ok region h h' (Campaign i) g n); try done.
  - by intros a [= <-].
  - apply bids_past; [apply Hok | apply Hnode|]. eapply Forall_impl; [apply Hnode|]. cbn. lia.
  - by apply campaign_node.
  - unfold casts. cbn [does votes_cast]. fold t. rewrite Hu, (no_self _ _ _ _ _ Hnode).
    intros v ->%list_elem_of_singleton. exists (log_ n). split; [apply lookup_insert_eq|].
    intros t0 m p Hin Ht0 Hpart _. rewrite Hh in Hin.
    destruct (no_held _ _ _ _ _ Hnode t0 m Hin) as [_ Hk]. eapply keeps_later; [|by apply Hk]. cbn. lia.
  - intros t0 c L HL. left. by exists L.
  - intros r ->%list_elem_of_singleton. exists (log_ n). cbn. fold t. rewrite Hu, (no_self _ _ _ _ _ Hnode).
    split; [apply lookup_insert_eq|]. split; [exact (wf_last_index n (no_wf _ _ _ _ _ Hnode)) | done].
  - by intros r ?%elem_of_nil.
Qed.

(** ** Elections *)

(** Only one candidate wins a term, and only once. *)
Lemma no_reign_yet i n :
  members (group g) !! i = Some n → role_ n = kCandidate →
  elected (current_term_ n) i (group g) → reign h !! current_term_ n = None.
Proof.
  intros Hn Hrole Hel. destruct (reign h !! current_term_ n) as [[c L]|] eqn:HL; [exfalso|done].
  destruct (ok_reigns _ _ _ Hok _ _ _ HL) as (Q & HQ & Hmaj & _).
  pose proof (ok_ballots _ _ _ Hok) as Hb. unfold elected in Hel. rewrite <-size_dom in Hel, Hmaj.
  destruct (majorities_meet Q (voters (current_term_ n) i (group g)) (dom (members (group g))))
    as (v & Hv%HQ%elem_of_voters & Hv'%elem_of_voters); [|by apply voters_members|done..|].
  { etrans; [exact HQ | by apply voters_members]. }
  pose proof (ballot_unique _ Hb _ _ Hv Hv' eq_refl eq_refl) as [= ->].
  destruct (no_reign _ _ _ _ _ (ok_nodes _ _ _ Hok _ _ Hn) _ _ HL) as [_ Hnc]. by apply Hnc.
Qed.

Lemma election_won i n :
  members (group g) !! i = Some n → role_ n = kCandidate →
  elected (current_term_ n) i (group g) → election_ok h g (current_term_ n) i (log_ n).
Proof.
  intros Hn Hrole Hel. exists (voters (current_term_ n) i (group g)).
  split; [done|]. split; [exact Hel|]. intros v Hv%elem_of_voters t0 m p Hin Ht0 Hpart Hend.
  destruct (ok_bids _ _ _ Hok _ Hv) as (l & Hl & Hvouch). cbn in Hl, Hvouch.
  rewrite (no_candidate _ _ _ _ _ (ok_nodes _ _ _ Hok _ _ Hn) Hrole) in Hl. injection Hl as <-.
  destruct (Hvouch t0 m p Hin Ht0 Hpart Hend) as [? | (t & c & L & Ht & HL & Hno)]; [by left|].
  right. exists t, c, L. split; [|done].
  assert (t ≠ current_term_ n) by (intros ->; by rewrite (no_reign_yet i n Hn Hrole Hel) in HL). lia.
Qed.

Lemma lead_node i n h' :
  members (group g) !! i = Some n → h' = reigns (current_term_ n) i (log_ n) h →
  moves i (current_term_ n) h h' g (happen (Lead i) g) →
  node_ok region h' (happen (Lead i) g) i (next (Lead i) n).
Proof.
  intros Hn -> Hmv. pose proof (ok_nodes _ _ _ Hok _ _ Hn) as Hnode.
  destruct (happen_fields (Lead i) g n Hn) as (_ & _ & _ & _ & Hh). cbn [takes_up app] in Hh.
  unfold next. cbn [does perform]. unfold BecomeLeader.
  split; cbn [with_role region_id_ self_id_ role_ current_term_ commit_index_ log_]; try done.
  - apply (wf_same_log n); try done. apply Hnode.
  - apply Hnode.
  - apply Hnode.
  - eapply log_ok_extends; [apply (mv_past _ _ _ _ _ _ Hmv) | apply Hnode].
  - apply Hnode.
  - intros _. apply lookup_insert_eq.
  - intros t L [(-> & _) | HL]%reigns_lookup; [done|]. by destruct (no_reign _ _ _ _ _ Hnode t L HL).
  - apply (no_bid _ _ _ _ _ Hnode).
  - intros t m. rewrite Hh. intros Hin. by eapply held_kept.
  - eapply decided_moves; [exact Hmv | apply Hnode].
Qed.

Lemma lead_step i : can_happen (Lead i) g → ∃ h', extends h h' ∧ net_ok region h' (happen (Lead i) g).
Proof.
  unfold can_happen. destruct (members (group g) !! who (Lead i)) as [n|] eqn:Hn; [intros [Hrole Hel]|done].
  pose proof (ok_nodes _ _ _ Hok _ _ Hn) as Hnode. cbn [who] in Hn, Hnode.
  pose proof (no_reign_yet i n Hn Hrole Hel) as Hnone.
  pose proof (election_won i n Hn Hrole Hel) as Hwon.
  set (t := current_term_ n) in *. set (h' := reigns t i (log_ n) h).
  assert (extends h h') as Hext.
  { pose proof (reigns_extends t i (log_ n) [] h) as He. rewrite app_nil_r in He. by apply He; [left|]. }
  assert (moves i t h h' g (happen (Lead i) g)) as Hmv.
  { apply (happen_moves region h h' (Lead i)); [exact Hok | exact Hn | exact Hext | | done |].
    - intros t0 j L Hj [(_ & -> & _) | HL]%reigns_lookup; done.
    - by intros v t0 m ?%elem_of_nil. }
  exists h'. split; [exact Hext|]. apply (happen_ok region h h' (Lead i) g n); try done.
  - by intros a [= <-].
  - apply reigns_past; [apply Hok | done | | apply Hnode |].
    + eapply log_ok_extends; [exact Hext | apply Hnode].
    + rewrite <-(no_region _ _ _ _ _ Hnode). apply Hnode.
  - by apply lead_node.
  - by intros v ?%elem_of_nil.
  - intros t0 c L [(-> & -> & ->) | HL]%reigns_lookup; [right | left; by exists L].
    by apply (election_ok_moves region h h' (Lead i) g n Hok Hn t i (log_ n)).
  - by intros r ?%elem_of_nil.
  - by intros r ?%elem_of_nil.
Qed.

(** ** Proposals *)

Lemma log_ok_snoc h' t c L e :
  reign h' !! t = Some (c, L ++ [e]) → e_term e = t → log_ok h' L → log_ok h' (L ++ [e]).
Proof.
  intros HL He Hlog i x [Hx | [Hi Hx]]%lookup_app_Some.
  - pose proof (lookup_lt_Some _ _ _ Hx). rewrite take_app_le by lia. by apply Hlog.
  - apply list_lookup_singleton_Some in Hx as [? <-]. exists c, (L ++ [e]).
    rewrite He. split; [done|]. apply prefix_take.
Qed.

Definition offered (ty : EntryType) (command : string) (n : RaftNode) : LogEntry :=
  mkEntry (region_id_ n) (N.of_nat (length (log_ n)) + 1) (current_term_ n) ty command.

Lemma offer_run i ty command n : wf n → role_ n = kLeader → (N.of_nat (length (log_ n)) + 1 < two64)%N →
  next (Offer i ty command) n = push_entry (offered ty command n) n ∧ wf (push_entry (offered ty command n) n).
Proof.
  intros Hwf Hrole Hlen.
  assert (next (Offer i ty command) n = push_entry (offered ty command n) n) as Hnext.
  { unfold next. cbn [does perform]. unfold Propose. run. rewrite Hrole. cbn [bool_decide negb]. run.
    cbn. by rewrite wf_last_index, u64_small. }
  split; [done|]. rewrite <-Hnext. unfold next. by apply wf_propose.
Qed.

Lemma offer_refused i ty command n :
  members (group g) !! i = Some n → role_ n ≠ kLeader → (N.of_nat (length (log_ n)) + 1 < two64)%N →
  net_ok region h (happen (Offer i ty command) g).
Proof.
  intros Hn Hrole Hlen. pose proof (no_wf _ _ _ _ _ (ok_nodes _ _ _ Hok _ _ Hn)) as Hwf.
  assert (next (Offer i ty command) n = n) as Hnext.
  { unfold next. cbn [does perform]. unfold Propose. run. by rewrite bool_decide_false. }
  apply (happen_quiet region h (Offer i ty command) g n); rewrite ?Hnext; try done.
  - by intros a [= <-].
  - cbn [takes_up]. by rewrite decide_False.
  - by right.
  - by left.
Qed.

Lemma offer_node i ty command n h' :
  let L := log_ n ++ [offered ty command n] in
  members (group g) !! i = Some n → role_ n = kLeader → (N.of_nat (length (log_ n)) + 1 < two64)%N →
  h' = reigns (current_term_ n) i L h →
  moves i (current_term_ n) h h' g (happen (Offer i ty command) g) → log_ok h' L → terms_below (current_term_ n) L →
  node_ok region h' (happen (Offer i ty command) g) i (next (Offer i ty command) n).
Proof.
  intros L Hn Hrole Hlen -> Hmv HL Ht. pose proof (ok_nodes _ _ _ Hok _ _ Hn) as Hnode.
  pose proof (no_wf _ _ _ _ _ Hnode) as Hwf.
  destruct (happen_fields (Offer i ty command) g n Hn) as (_ & _ & _ & _ & Hh). cbn [takes_up] in Hh.
  rewrite decide_True in Hh by done. destruct (offer_run i ty command n Hwf Hrole Hlen) as [-> Hwf'].
  split; cbn [push_entry with_log region_id_ self_id_ role_ current_term_ commit_index_ log_]; try done;
    try apply Hnode.
  - intros _. apply lookup_insert_eq.
  - by rewrite Hrole.
  - intros t L0 [(-> & _) | HL0]%reigns_lookup; [by rewrite Hrole|].
    by destruct (no_reign _ _ _ _ _ Hnode t L0 HL0).
  - intros t m. rewrite Hh. intros [[= -> ->]%list_elem_of_singleton | Hin]%elem_of_app.
    + split; [done|]. intros p (c & L0 & HL0 & Hp). left. cbn in HL0. rewrite lookup_insert_eq in HL0.
      injection HL0 as <- <-. etrans; [exact Hp | apply prefix_take].
    + eapply held_kept; [done..|]. by apply prefix_app_r.
  - destruct Hwf. rewrite take_app_le by lia. eapply decided_moves; [exact Hmv | apply Hnode].
Qed.

Lemma offer_step i ty command :
  can_happen (Offer i ty command) g → ∃ h', extends h h' ∧ net_ok region h' (happen (Offer i ty command) g).
Proof.
  unfold can_happen. destruct (members (group g) !! who (Offer i ty command)) as [n|] eqn:Hn; [intros Hlen|done].
  cbn [who] in Hn. pose proof (ok_nodes _ _ _ Hok _ _ Hn) as Hnode.
  destruct (decide (role_ n = kLeader)) as [Hrole | Hrole]; [|exists h; split; [done | by eapply offer_refused]].
  destruct (offer_run i ty command n (no_wf _ _ _ _ _ Hnode) Hrole Hlen) as [Hnext Hwf'].
  set (t := current_term_ n) in *. set (L := log_ n ++ [offered ty command n]). set (h' := reigns t i L h).
  pose proof (no_leader _ _ _ _ _ Hnode Hrole) as Hold. fold t in Hold.
  assert (extends h h') as Hext by (apply reigns_extends; [by right | by apply Forall_singleton]).
  assert (moves i t h h' g (happen (Offer i ty command) g)) as Hmv.
  { apply (happen_moves region h h' (Offer i ty command)); [exact Hok | exact Hn | exact Hext | | done |].
    - intros t0 j L0 Hj [(_ & -> & _) | HL0]%reigns_lookup; done.
    - cbn [takes_up]. rewrite decide_True by done. intros v t0 m [= -> -> ->]%list_elem_of_singleton.
      split_and!; [done..|]. exists i, L. split; [apply lookup_insert_eq|]. unfold L. rewrite length_app. cbn. lia. }
  assert (log_ok h' L) as HL.
  { apply (log_ok_snoc h' t i); [apply lookup_insert_eq | done|].
    eapply log_ok_extends; [exact Hext | apply Hnode]. }
  assert (terms_below t L) as Ht by (apply Forall_app; split; [apply Hnode | by apply Forall_singleton]).
  exists h'. split; [exact Hext|]. apply (happen_ok region h h' (Offer i ty command) g n); try done.
  - by intros a [= <-].
  - apply reigns_past; [apply Hok | done..|]. rewrite <-(no_region _ _ _ _ _ Hnode). apply Hwf'.
  - by apply offer_node.
  - by intros v ?%elem_of_nil.
  - intros t0 c L0 [(-> & -> & ->) | HL0]%reigns_lookup; left; [|by exists L0].
    exists (log_ n). split; [done | by apply prefix_app_r].
  - by intros r ?%elem_of_nil.
  - by intros r ?%elem_of_nil.
Qed.

(** ** Append requests *)

Lemma sent_request_ok r : sent_ok h g r → request_ok region r.
Proof.
  intros (c & L & HL & (_ & _ & Hes) & _). unfold request_ok. rewrite Hes.
  apply log_from_take. destruct (po_reign _ _ (ok_past _ _ _ Hok) _ _ _ HL) as (_ & _ & Hlog).
  apply (log_from_drop _ _ (N.to_nat (ae_prev_log_index r))) in Hlog. by rewrite N2Nat.id in Hlog.
Qed.

(** The log after an accepted request: still what it was or the leader's, and no
    entry it shared with the leader's log is lost. *)
Lemma accepted_log n r L k l :
  log_matching (log_ n) L → from_leader L r → reach r ≤ length L →
  HasLogAt n (ae_prev_log_index r) (ae_prev_log_term r) = true →
  merged (log_ n) (N.to_nat (ae_prev_log_index r)) (ae_entries r) k l →
  (l = log_ n ∨ l = take (reach r) L) ∧ take (reach r) l = take (reach r) L ∧ reach r ≤ length l ∧
  ∀ p, p `prefix_of` log_ n → p `prefix_of` L → (N.of_nat (length p) <= k)%N ∧ p `prefix_of` l.
Proof.
  intros HFL HL Hreach Hhas Hm. pose proof (HasLogAt_length _ _ _ Hhas) as Hprev.
  pose proof HL as (_ & _ & Hes).
  destruct (merged_agrees (log_ n) L (N.to_nat (ae_prev_log_index r)) (ae_entries r) k l) as [Htake _];
    [done | lia | by apply prev_matches | done | done|]. fold (reach r) in Htake.
  destruct (merged_length _ _ _ _ _ Hm) as [_ Hlen]. fold (reach r) in Hlen.
  split_and!; [ | done | apply Hlen; lia |].
  - rewrite <-Htake. destruct Hm as [|j Hj Hj' HjF _ _]; [by left|]. right. symmetry. apply take_ge.
    rewrite length_app, length_take_le, length_drop by done. unfold reach. lia.
  - intros p Hp HpL. pose proof (prefix_length _ _ Hp).
    destruct (merged_keeps _ _ _ _ _ (length p) L Hm) as [Hk Hl]; [done | done | | done|].
    { by rewrite (prefix_take_both p (log_ n)), (prefix_take_both p L). }
    split; [lia|]. rewrite (prefix_take_both p (log_ n)) in Hl by done. rewrite <-Hl. apply prefix_take.
Qed.

(** *** A request that is accepted *)

Section accepted.
Context (i : N) (r : AppendEntriesRequest) (n : RaftNode) (k : N) (l : list LogEntry).
Context (c : N) (L : list LogEntry).
Context (Hn : members (group g) !! i = Some n) (Hsent : sent_ok h g r).
Context (Hterm : (current_term_ n <= ae_term r)%N).
Context (Hhas : HasLogAt n (ae_prev_log_index r) (ae_prev_log_term r) = true).
Context (Hm : merged (log_ n) (N.to_nat (ae_prev_log_index r)) (ae_entries r) k l).
Context (HL : reign h !! ae_term r = Some (c, L)).

Let cutted := cut k l (accept_term (ae_term r) n).
Let after := follow_commit (ae_leader_commit r) cutted.

Lemma accepted_here :
  (l = log_ n ∨ l = take (reach r) L) ∧ take (reach r) l = take (reach r) L ∧ reach r ≤ length l ∧
  ∀ p, p `prefix_of` log_ n → p `prefix_of` L → (N.of_nat (length p) <= k)%N ∧ p `prefix_of` l.
Proof.
  pose proof Hsent as (c' & L' & HL' & Hfrom & Hreach & _). rewrite HL in HL'. injection HL' as <- <-.
  apply (accepted_log n r L k l); [|done..].
  eapply log_ok_matching; [apply (ok_nodes _ _ _ Hok _ _ Hn)|].
  by destruct (po_reign _ _ (ok_past _ _ _ Hok) _ _ _ HL).
Qed.

(** The positions it acknowledges: what it takes now is the leader's; what it
    took before stays, or the leader of this term went without it. *)
Lemma accepted_held t m p :
  (i, t, m) ∈ held g ∨ t = ae_term r ∧ m = reach r → part h t m p →
  (t <= ae_term r)%N ∧ keeps h t (ae_term r) p l.
Proof.
  destruct accepted_here as (_ & Htake & _ & Hkeep).
  intros [Hin | [-> ->]] (c0 & L0 & HL0 & Hp).
  - destruct (no_held _ _ _ _ _ (ok_nodes _ _ _ Hok _ _ Hn) t m Hin) as [Ht Hk].
    split; [lia|]. destruct (Hk p) as [Hpl | Ho]; [by exists c0, L0| |right; by eapply overruled_later].
    destruct (decide (p `prefix_of` L)) as [HpL | Hno]; [left; by apply Hkeep|].
    right. exists (ae_term r), c, L. split; [|done]. split; [|done].
    destruct (decide (t = ae_term r)) as [-> | ?]; [exfalso|lia].
    rewrite HL in HL0. injection HL0 as <- <-. apply Hno. etrans; [exact Hp | apply prefix_take].
  - split; [done|]. left. rewrite HL in HL0. injection HL0 as <- <-.
    etrans; [exact Hp|]. rewrite <-Htake. apply prefix_take.
Qed.

Lemma accepted_wf : wf cutted.
Proof.
  pose proof (ok_nodes _ _ _ Hok _ _ Hn) as Hnode.
  destruct (accept_term_fields (ae_term r) n Hterm) as (Hla & _ & _ & Hra & _).
  apply (wf_cut _ (N.to_nat (ae_prev_log_index r)) (ae_entries r)); [apply wf_accept_term, Hnode; done| |].
  - rewrite Hra, N2Nat.id, (no_region _ _ _ _ _ Hnode). by apply sent_request_ok.
  - by rewrite Hla.
Qed.

Lemma accepted_commit : decided h g (ae_term r) (take (N.to_nat (commit_index_ after)) l).
Proof.
  destruct accepted_here as (_ & Htake & Hlen & Hkeep).
  pose proof Hsent as (c' & L' & HL' & Hfrom & Hreach & Hlc & Hdec).
  rewrite HL in HL'. injection HL' as <- <-.
  pose proof (ok_nodes _ _ _ Hok _ _ Hn) as Hnode. pose proof (no_commit _ _ _ _ _ Hnode) as Hd.
  pose proof (no_wf _ _ _ _ _ Hnode) as [_ Hcn _].
  destruct (Hkeep _ (prefix_take _ _) (decided_kept _ _ _ Hok _ _ _ _ _ Hd HL Hterm)) as [Hck Hcl].
  rewrite length_take_le in Hck by lia.
  destruct (accept_term_fields (ae_term r) n Hterm) as (_ & Hca & _).
  assert (commit_index_ cutted = commit_index_ n) as Hcut by (cbn; rewrite Hca; lia).
  unfold after, follow_commit. rewrite Hcut.
  destruct (N.ltb_spec (commit_index_ n) (ae_leader_commit r)); cbn [with_log commit_index_].
  - rewrite wf_last_index by apply accepted_wf. cbn [cutted cut with_log log_].
    rewrite N.min_l by lia. by rewrite (take_prefix l L _ (reach r)).
  - rewrite Hcut. apply (decided_later _ _ (current_term_ n)); [done|].
    apply prefix_take_both in Hcl. rewrite length_take_le in Hcl by lia. by rewrite Hcl.
Qed.

Lemma accepted_node :
  accepts r n = true → wf after → same_peer n after → node_ok region h (happen (Append i r) g) i after.
Proof.
  intros Hacc Hwf (Hreg & Hself & _). pose proof (ok_nodes _ _ _ Hok _ _ Hn) as Hnode.
  destruct (po_reign _ _ (ok_past _ _ _ Hok) _ _ _ HL) as (HLok & HLterms & _).
  destruct accepted_here as (Hl & _).
  destruct (happen_fields (Append i r) g n Hn) as (_ & _ & _ & _ & Hh). cbn [takes_up] in Hh.
  rewrite Hacc in Hh. pose proof (happen_size (Append i r) g n Hn) as Hsize.
  destruct (accept_term_fields (ae_term r) n Hterm) as (_ & _ & _ & _ & Hta & Hra).
  assert (log_ after = l ∧ current_term_ after = ae_term r ∧ role_ after = kFollower) as (Hl' & Ht' & Hr')
    by (unfold after, follow_commit; case_match; done).
  split; rewrite ?Hl', ?Ht', ?Hr'; try done; try (rewrite ?Hreg, ?Hself; apply Hnode).
  - destruct Hl as [-> | ->]; [apply Hnode | eapply log_ok_prefix; [apply prefix_take | done]].
  - destruct Hl as [-> | ->]; [|eapply Forall_prefix; [apply prefix_take | done]].
    eapply Forall_impl; [apply Hnode|]. cbn. lia.
  - intros t L0 HL0. destruct (no_reign _ _ _ _ _ Hnode t L0 HL0). split; [lia | done].
  - intros t b Hb. pose proof (no_bid _ _ _ _ _ Hnode t b Hb). lia.
  - intros t m Hin. assert ((i, t, m) ∈ held g ∨ t = ae_term r ∧ m = reach r) as Hin'.
    { rewrite Hh in Hin. apply elem_of_app in Hin as [[= -> ->]%list_elem_of_singleton | ?]; auto. }
    split; [|intros p; by apply accepted_held].
    destruct Hin' as [Hold | [-> _]]; [|done].
    destruct (no_held _ _ _ _ _ Hnode t m Hold). lia.
  - eapply (decided_extends h h g); [done | rewrite Hh; set_solver | done | apply accepted_commit].
Qed.
End accepted.

Lemma append_step i r : can_happen (Append i r) g → net_ok region h (happen (Append i r) g).
Proof.
  unfold can_happen. destruct (members (group g) !! who (Append i r)) as [n|] eqn:Hn; [intros Hr|done].
  pose proof (ok_nodes _ _ _ Hok _ _ Hn) as Hnode. pose proof (no_wf _ _ _ _ _ Hnode) as Hwf.
  pose proof (ok_sent _ _ _ Hok _ Hr) as Hsent. pose proof (sent_request_ok r Hsent) as Hrok.
  rewrite <-(no_region _ _ _ _ _ Hnode) in Hrok.
  destruct (happen_fields (Append i r) g n Hn) as (_ & _ & _ & _ & Hh). cbn [takes_up] in Hh.
  pose proof (happen_size (Append i r) g n Hn) as Hsize.
  destruct (HandleAppendEntries_outcome n r Hwf Hrok) as (resp & n' & Hrun & Hout & Hwf').
  assert (next (Append i r) n = n') as Hnext by (unfold next; cbn [does perform]; by rewrite Hrun).
  assert (accepts r n = ae_success resp) as Hacc by (unfold accepts; by rewrite Hrun).
  pose proof (append_outcome_same _ _ _ _ Hout) as Hpeer.
  apply (happen_same_past region h (Append i r) g n); rewrite ?Hnext; try done.
  - by intros a [= <-].
  - cbn [takes_up]. intros v t m. rewrite Hacc. destruct Hout as [| |k l Hge _ _]; cbn [ae_success];
      [by intros ?%elem_of_nil..|]. intros [= -> -> ->]%list_elem_of_singleton. split_and!; [done..|].
    destruct Hsent as (c & L & HL & _ & Hreach & _). by exists c, L.
  - destruct Hout as [| Hge _ |k l Hge Hhas Hm].
    + eapply (node_ok_same_log _ _ g); [done | by rewrite Hh, Hacc | done.. | by right|].
      eapply (commit_back h g); [done | by rewrite Hh, Hacc | done | done | done | apply Hnode].
    + destruct (accept_term_fields (ae_term r) n Hge) as (Hla & Hca & _ & _ & Hta & Hra).
      eapply (node_ok_same_log _ _ g); [done | by rewrite Hh, Hacc | done.. | by rewrite Hta | by left|].
      rewrite Hca, Hta.
      eapply (commit_back h g); [done | by rewrite Hh, Hacc | done | done | done | apply Hnode].
    + destruct Hsent as (c & L & HL & _). eapply accepted_node; try done. by apply (ok_sent _ _ _ Hok).
  - by intros v ?%elem_of_nil.
  - by intros x ?%elem_of_nil.
Qed.
End events.

(** * Runs *)

Lemma happen_net_ok region h g e :
  net_ok region h g → can_happen e g → ∃ h', extends h h' ∧ net_ok region h' (happen e g).
Proof.
  intros Hok He. destruct e.
  - by apply campaign_step.
  - exists h. split; [done | by apply vote_step].
  - by apply lead_step.
  - by apply offer_step.
  - exists h. split; [done | by apply send_step].
  - exists h. split; [done | by apply append_step].
  - exists h. split; [done | by apply commit_step].
  - exists h. split; [done | by apply apply_step].
  - exists h. split; [done | by apply step_down_step].
  - exists h. split; [done | by apply crash_step].
Qed.

Lemma happen_grows e g : held g ⊆ held (happen e g) ∧
  size (members (group (happen e g))) = size (members (group g)).
Proof.
  destruct (members (group g) !! who e) as [n|] eqn:Hn.
  - destruct (happen_fields e g n Hn) as (_ & _ & _ & _ & ->).
    split; [set_solver | by apply (happen_size e g n)].
  - unfold happen. by rewrite Hn.
Qed.

Lemma run_net_grows es : ∀ g, held g ⊆ held (run_net es g) ∧
  size (members (group (run_net es g))) = size (members (group g)).
Proof.
  induction es as [|e es IH]; intros g; [done|]. destruct (IH (happen e g)) as [H1 H2].
  destruct (happen_grows e g) as [H3 H4]. cbn [run_net]. split; [by etrans | congruence].
Qed.

Lemma run_net_ok region es : ∀ h g,
  net_ok region h g → can_run es g → ∃ h', extends h h' ∧ net_ok region h' (run_net es g).
Proof.
  induction es as [|e es IH]; intros h g Hok Hrun; [by exists h|]. destruct Hrun as [He Hes].
  destruct (happen_net_ok region h g e Hok He) as (h1 & Hext1 & Hok1).
  destruct (IH h1 _ Hok1 Hes) as (h2 & Hext2 & Hok2). exists h2. split; [by etrans | done].
Qed.

Lemma new_net_ok ids region : net_ok region (mkPast ∅ ∅) (new_net ids region).
Proof.
  split; cbn.
  - by split.
  - intros i n Hn. apply elem_of_list_to_map_2, list_elem_of_fmap in Hn as (j & [= -> ->] & _).
    split; try done; [by apply Forall_nil | by intros ? ? ?%elem_of_nil | by left].
  - apply new_group_ballots_ok.
  - by intros b ?%elem_of_nil.
  - done.
  - by intros r ?%elem_of_nil.
  - by intros r ?%elem_of_nil.
  - by intros v t m ?%elem_of_nil.
Qed.

Lemma decided_run es h h' g t p :
  extends h h' → decided h g t p → decided h' (run_net es g) t p.
Proof. intros Hext. destruct (run_net_grows es g) as [??]. by apply decided_extends. Qed.
