(* ===== verification/ConsensusSafety.v ===== *)
(** What the group of Consensus.v guarantees, whatever the network does and
    whichever nodes restart: a position once committed holds the same entry at every
    node for ever, a later leader has every committed entry, every node keeps its
    invariant, and each committed entry is applied once. *)

From S2P Require Import Prelude Types Raft RaftSafety Consensus.

(** * Decidable steps *)

#[export] Instance RequestVoteRequest_eq_dec : EqDecision RequestVoteRequest.
Proof. solve_decision. Defined.
#[export] Instance AppendEntriesRequest_eq_dec : EqDecision AppendEntriesRequest.
Proof. solve_decision. Defined.

#[export] Instance holds_term_dec (L : list LogEntry) p t : Decision (∃ e, L !! p = Some e ∧ e_term e = t).
Proof.
  refine (match L !! p as x return Decision (∃ e, x = Some e ∧ e_term e = t) with
          | Some e => cast_if (decide (e_term e = t))
          | None => right _
          end); [by exists e | by intros (e' & [= <-] & ?) | by intros (e' & ? & _)].
Defined.

#[export] Instance from_leader_dec L r : Decision (from_leader L r).
Proof. unfold from_leader. destruct (ae_prev_log_index r =? 0)%N; apply _. Defined.

#[export] Instance can_happen_dec e g : Decision (can_happen e g).
Proof.
  unfold can_happen. destruct (members (group g) !! who e) as [n|]; [|apply _].
  destruct e; unfold sendable; apply _.
Defined.

#[export] Instance can_run_dec es : ∀ g, Decision (can_run es g).
Proof. induction es as [|e es IH]; intros g; cbn [can_run]; apply _. Defined.

(** * Safety *)

(** What a node has committed is decided, then and later. *)
Lemma committed_decided region h g i n es :
  net_ok region h g → can_run es g → members (group g) !! i = Some n →
  ∃ h', net_ok region h' (run_net es g) ∧
    decided h' (run_net es g) (current_term_ n) (take (N.to_nat (commit_index_ n)) (log_ n)).
Proof.
  intros Hok Hrun Hn. destruct (run_net_ok region es _ _ Hok Hrun) as (h' & Hext & Hok'). exists h'.
  split; [done|]. eapply decided_run; [exact Hext|].
  apply (no_commit _ _ _ _ _ (ok_nodes _ _ _ Hok _ _ Hn)).
Qed.

(** A decided entry is the entry of every node that has committed its position. *)
Lemma decided_entry region h g t p k e j n :
  net_ok region h g → decided h g t p → p !! k = Some e → members (group g) !! j = Some n →
  k < N.to_nat (commit_index_ n) → log_ n !! k = Some e.
Proof.
  intros Hok Hd He Hj Hk. pose proof (ok_nodes _ _ _ Hok _ _ Hj) as Hnode.
  pose proof (wf_commit _ (no_wf _ _ _ _ _ Hnode)).
  destruct (lookup_lt_is_Some_2 (log_ n) k) as [y Hy]; [lia|].
  assert (take (N.to_nat (commit_index_ n)) (log_ n) !! k = Some y) as Hy' by by rewrite lookup_take_lt.
  destruct (decided_agree region h _ Hok _ _ _ _ Hd (no_commit _ _ _ _ _ Hnode)) as [Hp | Hp];
    [pose proof (prefix_lookup_Some _ _ _ _ He Hp) | pose proof (prefix_lookup_Some _ _ _ _ Hy' Hp)]; congruence.
Qed.

(** What is decided in a term is at the front of the log of its leaders from then on. *)
Lemma decided_led region h g t p j n :
  net_ok region h g → decided h g t p → members (group g) !! j = Some n →
  role_ n = kLeader → (t <= current_term_ n)%N → p `prefix_of` log_ n.
Proof.
  intros Hok Hd Hj Hrole Ht. eapply (decided_kept region h _ Hok); [exact Hd | | exact Ht].
  by apply (no_leader _ _ _ _ _ (ok_nodes _ _ _ Hok _ _ Hj)).
Qed.

(** * What a node applies *)

(** The event starts the node again. *)
Definition restarts (i : N) (e : event) : Prop :=
  match e with Crash j _ _ => j = i | _ => False end.

#[export] Instance restarts_dec i e : Decision (restarts i e).
Proof. destruct e; cbn [restarts]; apply _. Defined.

(** The entries node [i] hands to its state machine over a run. *)
Fixpoint handed (i : N) (es : list event) (g : Net) : list LogEntry :=
  match es with
  | [] => []
  | e :: rest =>
      match e, members (group g) !! i with
      | Apply j, Some n =>
          if decide (j = i) then match (TakeCommittedEntries n).1 with Ok l => l | _ => [] end else []
      | _, _ => []
      end ++ handed i rest (happen e g)
  end.

(** What a node has committed is there to stay, and its positions do not go back. *)
Record advances (n n' : RaftNode) : Prop := {
  adv_term : (current_term_ n <= current_term_ n')%N;
  adv_commit : (commit_index_ n <= commit_index_ n')%N;
  adv_applied : (last_applied_ n <= last_applied_ n')%N;
  adv_log : take (N.to_nat (commit_index_ n)) (log_ n') = take (N.to_nat (commit_index_ n)) (log_ n);
}.

#[export] Instance advances_preorder : PreOrder advances.
Proof.
  split; [by split|]. intros n1 n2 n3 [] []. split; [lia..|].
  etrans; [eapply take_prefix; [|done]; lia | done].
Qed.

Section advancing.
Context (region : N) (h : Past) (g : Net) (Hok : net_ok region h g).
Context (i : N) (n : RaftNode) (Hn : members (group g) !! i = Some n).

(** A request that was sent finds every entry its node has committed in the log
    of the leader it comes from, and leaves it where it is. *)
Lemma append_advances r : sent_ok h g r →
  let n' := (HandleAppendEntries r n).2 in advances n n' ∧ last_applied_ n' = last_applied_ n.
Proof.
  intros Hsent. pose proof (ok_nodes _ _ _ Hok _ _ Hn) as Hnode.
  pose proof (no_wf _ _ _ _ _ Hnode) as Hwf. pose proof Hwf as [_ Hcn Han].
  pose proof (sent_request_ok region h g Hok r Hsent) as Hrok.
  rewrite <-(no_region _ _ _ _ _ Hnode) in Hrok.
  destruct (HandleAppendEntries_outcome n r Hwf Hrok) as (resp & n' & Hrun & Hout & _).
  rewrite Hrun. cbn [snd].
  destruct Hout as [Hold | Hge Hno | k l Hge Hhas Hm]; [done | |].
  - destruct (accept_term_fields (ae_term r) n Hge) as (Hl & Hc & Ha & _ & Ht & _).
    split; [split; rewrite ?Hl, ?Hc, ?Ha, ?Ht; (done || lia) | done].
  - pose proof Hsent as (c & L & HL & _).
    destruct (accepted_here region h g Hok i r n k l c L Hn Hsent Hhas Hm HL) as (_ & _ & _ & Hkeep).
    pose proof (decided_kept _ _ _ Hok _ _ _ _ _ (no_commit _ _ _ _ _ Hnode) HL Hge) as HcL.
    destruct (Hkeep _ (prefix_take _ _) HcL) as [Hk Hl]. rewrite length_take_le in Hk by lia.
    destruct (accept_term_fields (ae_term r) n Hge) as (_ & Hc & Ha & _ & Ht & _).
    set (m := cut k l (accept_term (ae_term r) n)) in *.
    assert (last_applied_ (follow_commit (ae_leader_commit r) m) = last_applied_ m ∧
      current_term_ (follow_commit (ae_leader_commit r) m) = current_term_ m) as [Hfa Hft]
      by (unfold follow_commit; by case_match).
    assert (last_applied_ m = last_applied_ n) as Hma by (cbn; rewrite Ha; lia).
    assert (commit_index_ m = commit_index_ n) as Hmc by (cbn; rewrite Hc; lia).
    split; [|congruence]. split; rewrite ?Hfa, ?Hft, ?follow_commit_log.
    + cbn. rewrite Ht. done.
    + unfold follow_commit. rewrite Hmc. destruct (N.ltb_spec (commit_index_ n) (ae_leader_commit r)); [|lia].
      cbn [with_log commit_index_]. rewrite wf_last_index; [cbn [m cut with_log log_]|].
      * apply prefix_length in Hl. rewrite length_take_le in Hl by lia. lia.
      * by eapply accepted_wf.
    + rewrite Hma. done.
    + apply prefix_take_both in Hl. rewrite length_take_le in Hl by lia. exact Hl.
Qed.

Lemma next_advances e : who e = i → can_happen e g → ¬ restarts i e → (∀ j, e ≠ Apply j) →
  advances n (next e n) ∧ last_applied_ (next e n) = last_applied_ n.
Proof.
  intros Hi. pose proof (no_wf _ _ _ _ _ (ok_nodes _ _ _ Hok _ _ Hn)) as Hwf. pose proof Hwf as [_ Hcn Han].
  unfold can_happen. rewrite Hi, Hn. intros He Hno Hap. unfold next.
  destruct e as [j|j r|j|j ty cmd|j r|j r|j|j|j t|j c a]; cbn [does perform who restarts] in *.
  - split; [|done]. split; cbn; rewrite ?u64_small by done; (done || lia).
  - destruct (HandleRequestVote_fields r n) as (Hl & Hc & Ha & _ & Ht).
    split; [|done]. split; rewrite ?Hl, ?Hc, ?Ha, ?Ht; (done || lia).
  - split; [|done]. by split.
  - destruct (decide (role_ n = kLeader)) as [Hrole | Hrole].
    + destruct (offer_run j ty cmd n Hwf Hrole He) as [Hnext _]. unfold next in Hnext.
      cbn [does perform] in Hnext. rewrite Hnext. split; [|done]. split; cbn; [done..|].
      rewrite take_app_le by lia. done.
    + unfold Propose. run. rewrite bool_decide_false by done. done.
  - done.
  - apply append_advances. by apply (ok_sent _ _ _ Hok).
  - split; [|done]. unfold SetCommitIndex. rewrite N.min_id, wf_last_index by done.
    split; cbn; (done || lia).
  - by destruct (Hap j).
  - destruct (BecomeFollower_fields t n) as (Hl & Hc & Ha & _ & Ht).
    split; [|done]. split; rewrite ?Hl, ?Hc, ?Ha, ?Ht; (done || lia).
  - done.
Qed.

(** One event, wherever it happens. *)
Lemma happen_advances e : can_happen e g → ¬ restarts i e →
  ∃ n', members (group (happen e g)) !! i = Some n' ∧ advances n n' ∧
    handed i [e] g =
      take (N.to_nat (last_applied_ n' - last_applied_ n)) (drop (N.to_nat (last_applied_ n)) (log_ n')).
Proof.
  intros He Hno. pose proof (no_wf _ _ _ _ _ (ok_nodes _ _ _ Hok _ _ Hn)) as Hwf.
  cbn [handed]. rewrite app_nil_r, Hn.
  destruct (members (group g) !! who e) as [m|] eqn:Hm; [|unfold can_happen in He; by rewrite Hm in He].
  destruct (happen_fields e g m Hm) as (-> & _).
  destruct (decide (who e = i)) as [Hi | Hi].
  - assert (m = n) as -> by congruence. exists (next e n). rewrite Hi, lookup_insert_eq.
    split; [done|].
    assert ((∃ j, e = Apply j) ∨ ∀ j, e ≠ Apply j) as [[j ->] | Hap]
      by (destruct e; (by right) || (left; by eexists)).
    + cbn [who] in Hi. subst j. rewrite decide_True by done.
      unfold next. cbn [does perform]. rewrite TakeCommittedEntries_spec by done. cbn [fst snd].
      pose proof Hwf as [_ Hcn Han]. split; [|done]. split; cbn; (done || lia).
    + destruct (next_advances e) as [Hadv Ha]; [done..|].
      split; [done|]. rewrite Ha, N.sub_diag. destruct e as [| | | | | | |j| |]; try done. by destruct (Hap j).
  - exists n. rewrite lookup_insert_ne by done. split; [done|]. split; [done|].
    rewrite N.sub_diag. destruct e; try done. by rewrite decide_False.
Qed.
End advancing.

(** * Theorems *)

(** C2: State machine safety. Take a group of nodes and any events, messages
    delayed, repeated, reordered or lost, leaders changing, nodes restarting. An
    entry that some node has committed at some moment is the entry every node has
    at that position as soon as it has committed it too, at any later moment. *)
Theorem state_machine_safety ids region es1 es2 i j ni nj k :
  let g1 := run_net es1 (new_net ids region) in
  let g2 := run_net es2 g1 in
  can_run es1 (new_net ids region) → can_run es2 g1 →
  members (group g1) !! i = Some ni → members (group g2) !! j = Some nj →
  k < N.to_nat (commit_index_ ni) → k < N.to_nat (commit_index_ nj) →
  ∃ e, log_ ni !! k = Some e ∧ log_ nj !! k = Some e.
Proof.
  intros g1 g2 Hrun1 Hrun2 Hi Hj Hki Hkj.
  destruct (run_net_ok region es1 _ _ (new_net_ok ids region) Hrun1) as (h1 & _ & Hok1).
  destruct (committed_decided region h1 g1 i ni es2 Hok1 Hrun2 Hi) as (h2 & Hok2 & Hd).
  pose proof (wf_commit _ (no_wf _ _ _ _ _ (ok_nodes _ _ _ Hok1 _ _ Hi))).
  destruct (lookup_lt_is_Some_2 (log_ ni) k) as [e He]; [lia|]. exists e. split; [done|].
  eapply decided_entry; [exact Hok2 | exact Hd | by rewrite lookup_take_lt | exact Hj | exact Hkj].
Qed.

(** C16: Leader completeness. What a node has committed is at the front of the log
    of every node that leads later, in the same term or a newer one. *)
Theorem leader_completeness ids region es1 es2 i j ni nj :
  let g1 := run_net es1 (new_net ids region) in
  let g2 := run_net es2 g1 in
  can_run es1 (new_net ids region) → can_run es2 g1 →
  members (group g1) !! i = Some ni → members (group g2) !! j = Some nj →
  role_ nj = kLeader → (current_term_ ni <= current_term_ nj)%N →
  take (N.to_nat (commit_index_ ni)) (log_ ni) `prefix_of` log_ nj.
Proof.
  intros g1 g2 Hrun1 Hrun2 Hi Hj Hrole Hterm.
  destruct (run_net_ok region es1 _ _ (new_net_ok ids region) Hrun1) as (h1 & _ & Hok1).
  destruct (committed_decided region h1 g1 i ni es2 Hok1 Hrun2 Hi) as (h2 & Hok2 & Hd).
  by eapply decided_led.
Qed.

(** Whatever happens without a restart of the node, it goes on from where it was,
    and hands over what lies between its apply positions. *)
Lemma run_advances region i es : ∀ h g n,
  net_ok region h g → can_run es g → Forall (λ e, ¬ restarts i e) es → members (group g) !! i = Some n →
  ∃ n', members (group (run_net es g)) !! i = Some n' ∧ advances n n' ∧
    handed i es g =
      take (N.to_nat (last_applied_ n' - last_applied_ n)) (drop (N.to_nat (last_applied_ n)) (log_ n')).
Proof.
  induction es as [|e es IH]; intros h g n Hok Hrun Hno Hn.
  { exists n. by rewrite N.sub_diag. }
  destruct Hrun as [He Hrun]. apply list.Forall_cons in Hno as [Hne Hno].
  destruct (happen_advances region h g Hok i n Hn e He Hne) as (n1 & Hn1 & Hadv1 & H1).
  destruct (happen_net_ok region h g e Hok He) as (h1 & _ & Hok1).
  destruct (IH h1 _ n1 Hok1 Hrun Hno Hn1) as (n2 & Hn2 & Hadv2 & H2).
  pose proof (no_wf _ _ _ _ _ (ok_nodes _ _ _ Hok1 _ _ Hn1)) as [_ _ Ha1].
  exists n2. split; [done|]. split; [by etrans|]. cbn [handed] in H1 |- *. rewrite app_nil_r in H1.
  rewrite H1, H2. destruct Hadv1, Hadv2. rewrite !N2Nat.inj_sub.
  apply slices_join; [lia | lia|]. eapply take_prefix; [|done]. lia.
Qed.

(** C30: Every committed entry is applied exactly once, in order. Take a group of
    nodes after any events (see [can_happen]: candidates, voters, leaders and
    commits follow the rules of the code, counters stay short of 2^64), and then any
    further events, messages delayed, repeated, reordered or lost and leaders
    changing, in which the node [i] does not restart (a restarted node begins again
    at the apply position it has saved). Nothing is assumed of the logs or of the
    apply positions. The apply position of [i] does not go back, what [i] hands to its
    state machine is exactly the part of its final log between the two positions,
    each entry once and in order, and the entries applied before are still in
    front of it. *)
Theorem applied_exactly_once ids region es1 es2 i n1 n2 :
  let g1 := run_net es1 (new_net ids region) in
  let g2 := run_net es2 g1 in
  can_run es1 (new_net ids region) → can_run es2 g1 → Forall (λ e, ¬ restarts i e) es2 →
  members (group g1) !! i = Some n1 → members (group g2) !! i = Some n2 →
  let first := N.to_nat (last_applied_ n1) in
  first ≤ N.to_nat (last_applied_ n2) ∧
  handed i es2 g1 = take (N.to_nat (last_applied_ n2) - first) (drop first (log_ n2)) ∧
  take first (log_ n2) = take first (log_ n1).
Proof.
  intros g1 g2 Hrun1 Hrun2 Hno Hn1 Hn2 first.
  destruct (run_net_ok region es1 _ _ (new_net_ok ids region) Hrun1) as (h1 & _ & Hok1).
  destruct (run_advances region i es2 h1 g1 n1 Hok1 Hrun2 Hno Hn1) as (n & Hn & [_ _ Ha Hlog] & Hhanded).
  fold g2 in Hn. rewrite Hn2 in Hn. injection Hn as <-.
  pose proof (no_wf _ _ _ _ _ (ok_nodes _ _ _ Hok1 _ _ Hn1)) as [_ _ Ha1].
  split_and!; [lia | by rewrite Hhanded, N2Nat.inj_sub|]. eapply take_prefix; [|exact Hlog]. lia.
Qed.

(** C32: The invariant of a node of the group, over every run of the group (see
    [can_happen]), restarts included. Nothing is assumed of the requests but that
    some leader of the run sent them; one with a gap, which the handler does not
    check for, is never sent. The log holds the entries of its region numbered 1, 2, ... without gaps,
    applied is at most committed is at most the log's length; no request that was
    ever sent to anybody makes the node read outside its log, and neither does
    applying; and the next event, unless it restarts the node, moves none of its
    positions back and changes nothing it has committed. *)
Theorem raft_invariant ids region es i n :
  let g := run_net es (new_net ids region) in
  can_run es (new_net ids region) → members (group g) !! i = Some n →
  region_id_ n = region ∧ wf n ∧
  (∀ r, r ∈ sent g → ∃ resp, (HandleAppendEntries r n).1 = Ok resp) ∧
  (∃ entries, (TakeCommittedEntries n).1 = Ok entries) ∧
  (∀ e n', can_happen e g → ¬ restarts i e → members (group (happen e g)) !! i = Some n' → advances n n').
Proof.
  intros g Hrun Hn.
  destruct (run_net_ok region es _ _ (new_net_ok ids region) Hrun) as (h & _ & Hok). fold g in Hok.
  pose proof (ok_nodes _ _ _ Hok _ _ Hn) as Hnode. pose proof (no_wf _ _ _ _ _ Hnode) as Hwf.
  pose proof (no_region _ _ _ _ _ Hnode) as Hreg. split_and!; [done | done | | |].
  - intros r Hr. pose proof (sent_request_ok region h g Hok r (ok_sent _ _ _ Hok _ Hr)) as Hrok.
    rewrite <-Hreg in Hrok. destruct (HandleAppendEntries_outcome n r Hwf Hrok) as (resp & n' & -> & _).
    by exists resp.
  - rewrite TakeCommittedEntries_spec by done. by eexists.
  - intros e n' He Hno Hn'. destruct (happen_advances region h g Hok i n Hn e He Hno) as (n1 & Hn1 & Hadv & _).
    rewrite Hn' in Hn1. by injection Hn1 as <-.
Qed.

(** * A run *)

(** Store 1 leads, commits an entry with store 2 and proposes another; store 2
    then leads with the vote of store 3, commits its own second entry with store
    3 while a message of the old leader is still on its way; it arrives, refused,
    and store 1 restarts and follows. *)
Definition first_write : AppendEntriesRequest :=
  mkAppendRequest 7 1 1 0 0 [mkEntry 7 1 1 kNormal "PUT a 1"] 0.
Definition lost_write : AppendEntriesRequest :=
  mkAppendRequest 7 1 1 1 1 [mkEntry 7 2 1 kNormal "PUT b 1"] 1.
Definition second_log : list LogEntry :=
  [mkEntry 7 1 1 kNormal "PUT a 1"; mkEntry 7 2 2 kNormal "PUT c 2"].
Definition second_write : AppendEntriesRequest := mkAppendRequest 7 2 2 0 0 second_log 0.
Definition second_commit : AppendEntriesRequest := mkAppendRequest 7 2 2 1 1 (drop 1 second_log) 2.

Definition first_reign : list event :=
  [Campaign 1; Vote 2 (mkVoteRequest 7 1 1 0 0); Lead 1; Offer 1 kNormal "PUT a 1";
   Send 1 first_write; Append 2 first_write; Commit 1; Apply 1;
   Offer 1 kNormal "PUT b 1"; Send 1 lost_write].
Definition second_reign : list event :=
  [Campaign 2; Vote 3 (mkVoteRequest 7 2 2 1 1); Lead 2; Offer 2 kNormal "PUT c 2";
   Send 2 second_write; Append 3 second_write; Commit 2; Append 3 lost_write; Crash 1 1 1;
   Send 2 second_commit; Append 1 second_commit; Append 3 second_commit].

Definition node_at (i : N) (g : Net) : RaftNode := default (new_raft 7 i []) (members (group g) !! i).

Lemma reigns_can_run :
  can_run first_reign (new_net [1%N; 2%N; 3%N] 7) ∧
  can_run second_reign (run_net first_reign (new_net [1%N; 2%N; 3%N] 7)).
Proof. split; apply (bool_decide_unpack _); vm_compute; exact I. Qed.

Lemma state_machine_safety_witness :
  let g1 := run_net first_reign (new_net [1%N; 2%N; 3%N] 7) in
  let g2 := run_net second_reign g1 in
  map e_command (log_ (node_at 1 g1)) = ["PUT a 1"; "PUT b 1"] ∧
  map e_command (log_ (node_at 1 g2)) = ["PUT a 1"; "PUT c 2"] ∧
  commit_index_ (node_at 1 g1) = 1%N ∧ commit_index_ (node_at 3 g2) = 2%N ∧
  ∃ e, log_ (node_at 1 g1) !! 0 = Some e ∧ log_ (node_at 3 g2) !! 0 = Some e.
Proof.
  split; [vm_compute; reflexivity|]. split; [vm_compute; reflexivity|].
  split; [vm_compute; reflexivity|]. split; [vm_compute; reflexivity|].
  apply (state_machine_safety [1%N; 2%N; 3%N] 7 first_reign second_reign 1 3 _ _ 0).
  - exact (proj1 reigns_can_run).
  - exact (proj2 reigns_can_run).
  - vm_compute; reflexivity.
  - vm_compute; reflexivity.
  - vm_compute. lia.
  - vm_compute. lia.
Defined.

Lemma leader_completeness_witness :
  let g1 := run_net first_reign (new_net [1%N; 2%N; 3%N] 7) in
  let g2 := run_net second_reign g1 in
  role_ (node_at 2 g2) = kLeader ∧ log_ (node_at 2 g2) = second_log ∧
  commit_index_ (node_at 1 g1) = 1%N ∧
  take (N.to_nat (commit_index_ (node_at 1 g1))) (log_ (node_at 1 g1)) `prefix_of` log_ (node_at 2 g2).
Proof.
  split; [vm_compute; reflexivity|]. split; [vm_compute; reflexivity|]. split; [vm_compute; reflexivity|].
  apply (leader_completeness [1%N; 2%N; 3%N] 7 first_reign second_reign 1 2 _ (node_at 2 _)).
  - exact (proj1 reigns_can_run).
  - exact (proj2 reigns_can_run).
  - vm_compute; reflexivity.
  - vm_compute; reflexivity.
  - vm_compute; reflexivity.
  - vm_compute; discriminate.
Defined.

(** Store 3 applies what it committed; the message of the old leader does not
    make it apply anything else. *)
Definition third_applies : list event := second_reign ++ [Apply 3].

Lemma third_applies_can_run :
  can_run third_applies (run_net first_reign (new_net [1%N; 2%N; 3%N] 7)) ∧
  Forall (λ e, ¬ restarts 3 e) third_applies.
Proof. split; apply (bool_decide_unpack _); vm_compute; exact I. Qed.

Lemma applied_exactly_once_witness :
  let g1 := run_net first_reign (new_net [1%N; 2%N; 3%N] 7) in
  let n1 := node_at 3 g1 in
  let n2 := node_at 3 (run_net third_applies g1) in
  let first := N.to_nat (last_applied_ n1) in
  handed 3 third_applies g1 = second_log ∧
  first ≤ N.to_nat (last_applied_ n2) ∧
  handed 3 third_applies g1 = take (N.to_nat (last_applied_ n2) - first) (drop first (log_ n2)) ∧
  take first (log_ n2) = take first (log_ n1).
Proof.
  split; [vm_compute; reflexivity|].
  apply (applied_exactly_once [1%N; 2%N; 3%N] 7 first_reign third_applies 3 (node_at 3 _) (node_at 3 _)).
  - exact (proj1 reigns_can_run).
  - exact (proj1 third_applies_can_run).
  - exact (proj2 third_applies_can_run).
  - vm_compute; reflexivity.
  - vm_compute; reflexivity.
Defined.

Lemma raft_invariant_witness :
  let g := run_net first_reign (new_net [1%N; 2%N; 3%N] 7) in
  let n := node_at 3 g in
  lost_write ∈ sent g ∧ region_id_ n = 7%N ∧ wf n ∧
  (∀ r, r ∈ sent g → ∃ resp, (HandleAppendEntries r n).1 = Ok resp) ∧
  (∃ entries, (TakeCommittedEntries n).1 = Ok entries) ∧
  (∀ e n', can_happen e g → ¬ restarts 3 e → members (group (happen e g)) !! 3%N = Some n' → advances n n').
Proof.
  split; [apply (bool_decide_unpack _); vm_compute; exact I|].
  apply (raft_invariant [1%N; 2%N; 3%N] 7 first_reign 3 (node_at 3 _)).
  - exact (proj1 reigns_can_run).
  - vm_compute; reflexivity.
Defined.
