(* ===== verification/RaftStorage.v ===== *)
(** Raft state on disk: the hard state and the log of a region as keys of the
    store's engine, src/raft/raft_storage.cpp. Written against the engine
    interface; the laws carry the theorems. *)

From S2P Require Import Prelude Types Text Engine Raft.

(** * Keys and records *)

Definition RaftMetaKey (region_id : N) (name : string) : string :=
  "raft/meta/" +:+ to_string region_id +:+ "/" +:+ name.

Definition log_prefix (region_id : N) : string :=
  "raft/log/" +:+ to_string region_id +:+ "/".

Fixpoint zeros (n : nat) : string :=
  match n with O => "" | S n => String "0" (zeros n) end.

(** [std::setw(w) << std::setfill('0') << n]. *)
Definition padded (w : nat) (n : N) : string :=
  zeros (w - String.length (to_string n)) +:+ to_string n.

Definition RaftLogKey (region_id index : N) : string :=
  log_prefix region_id +:+ padded 20 index.

Definition EntryTypeToInt (type : EntryType) : N :=
  match type with kNormal => 0 | kConfigChange => 1 | kSplit => 2 | kNoop => 3 end.

Definition EntryTypeFromInt (value : Z) : EntryType :=
  match value with
  | 1%Z => kConfigChange
  | 2%Z => kSplit
  | 3%Z => kNoop
  | _ => kNormal
  end.

Definition SerializeLogEntry (entry : LogEntry) : string :=
  to_string (e_region_id entry) +:+ " " +:+ to_string (e_index entry) +:+ " "
  +:+ to_string (e_term entry) +:+ " " +:+ to_string (EntryTypeToInt (e_type entry))
  +:+ " " +:+ HexEncode (e_command entry).

Definition ParseLogEntry (value : string) : res LogEntry :=
  let '(region_id, input) := get_u64 (istringstream value) in
  let '(index, input) := get_u64 input in
  let '(term, input) := get_u64 input in
  let '(type, input) := get_int input in
  let '(command_hex, input) := get_word input in
  if failbit input then Err (InvalidArgument "invalid serialized log entry")
  else
    command ← HexDecode command_hex;
    Ok (mkEntry region_id index term (EntryTypeFromInt type) command).

(** [key.substr(key.find_last_of('/') + 1)], if there is a slash. *)
Fixpoint after_last_slash (key : string) : option string :=
  match key with
  | "" => None
  | String c rest =>
      match after_last_slash rest with
      | Some r => Some r
      | None => if decide (c = "/"%char) then Some rest else None
      end
  end.

Record HardState := mkHard {
  hs_current_term : N;
  hs_voted_for : N;
  hs_commit_index : N;
  hs_last_applied : N;
}.

#[export] Instance HardState_eq_dec : EqDecision HardState.
Proof. solve_decision. Defined.

(** * Operations *)

Section storage.
Context {S : Type} `{KvEngine S}.

Definition hard_mutation (region_id : N) (name : string) (value : N) : KvMutation :=
  mkMutation kPut (RaftMetaKey region_id name) (to_string value).

Definition SaveHardState (region_id : N) (state : HardState) : IO S unit :=
  kv_WriteBatch
    [hard_mutation region_id "current_term" (hs_current_term state);
     hard_mutation region_id "voted_for" (hs_voted_for state);
     hard_mutation region_id "commit_index" (hs_commit_index state);
     hard_mutation region_id "last_applied" (hs_last_applied state)].

Definition load_meta (region_id : N) (name : string) : IO S N :=
  value ← kv_Get (RaftMetaKey region_id name);
  lift (stoull value).

Definition LoadHardState (region_id : N) : IO S HardState :=
  current_term ← load_meta region_id "current_term";
  voted_for ← load_meta region_id "voted_for";
  commit_index ← load_meta region_id "commit_index";
  last_applied ← load_meta region_id "last_applied";
  mret (mkHard current_term voted_for commit_index last_applied).

Definition AppendLog (entry : LogEntry) : IO S unit :=
  kv_Put (RaftLogKey (e_region_id entry) (e_index entry)) (SerializeLogEntry entry).

Fixpoint parse_records (records : list (string * string)) : res (list LogEntry) :=
  match records with
  | [] => Ok []
  | (_, value) :: rest =>
      entry ← ParseLogEntry value;
      entries ← parse_records rest;
      Ok (entry :: entries)
  end.

Definition LoadLog (region_id : N) : IO S (list LogEntry) :=
  records ← kv_ScanPrefix (log_prefix region_id);
  lift (parse_records records).

Fixpoint deletions (first_index : N) (records : list (string * string)) :
    res (list KvMutation) :=
  match records with
  | [] => Ok []
  | (key, _) :: rest =>
      match after_last_slash key with
      | None => deletions first_index rest
      | Some digits =>
          index ← stoull digits;
          ms ← deletions first_index rest;
          Ok (if (first_index <=? index)%N then mkMutation kDelete key "" :: ms else ms)
      end
  end.

Definition DeleteLogsFrom (region_id first_index : N) : IO S unit :=
  records ← kv_ScanPrefix (log_prefix region_id);
  mutations ← lift (deletions first_index records);
  kv_WriteBatch mutations.
End storage.

(** * Records *)

Lemma EntryType_roundtrip t : EntryTypeFromInt (Z.of_N (EntryTypeToInt t)) = t.
Proof. by destruct t. Qed.

Definition entry_ok (e : LogEntry) : Prop :=
  (e_region_id e < two64)%N ∧ (e_index e < two64)%N ∧ (e_term e < two64)%N ∧
  e_command e ≠ "".

Lemma ParseLogEntry_serialize e : entry_ok e → ParseLogEntry (SerializeLogEntry e) = Ok e.
Proof.
  intros (Hr & Hi & Ht & Hc). unfold ParseLogEntry, SerializeLogEntry.
  replace (to_string (e_region_id e) +:+ _) with
    (to_string (e_region_id e) +:+ String " " (to_string (e_index e)
      +:+ String " " (to_string (e_term e)
      +:+ String " " (to_string (EntryTypeToInt (e_type e))
      +:+ String " " (HexEncode (e_command e)))))) by by snorm.
  rewrite get_u64_first by done. cbv beta iota.
  do 2 (rewrite get_u64_sp by done; cbv beta iota).
  rewrite get_int_sp by (done || by destruct (e_type e)). cbv beta iota.
  rewrite get_word_sp_end by auto with str. cbv beta iota. cbn [failbit].
  rewrite HexDecode_encode, EntryType_roundtrip. by destruct e.
Qed.

Lemma ParseLogEntry_empty e :
  (e_region_id e < two64)%N → (e_index e < two64)%N → (e_term e < two64)%N →
  e_command e = "" →
  ParseLogEntry (SerializeLogEntry e) = Err (InvalidArgument "invalid serialized log entry").
Proof.
  intros Hr Hi Ht Hc. unfold ParseLogEntry, SerializeLogEntry. rewrite Hc.
  replace (to_string (e_region_id e) +:+ _) with
    (to_string (e_region_id e) +:+ String " " (to_string (e_index e)
      +:+ String " " (to_string (e_term e)
      +:+ String " " (to_string (EntryTypeToInt (e_type e)) +:+ " ")))) by by snorm.
  rewrite get_u64_first by done. cbv beta iota.
  do 2 (rewrite get_u64_sp by done; cbv beta iota).
  rewrite get_int_sp by (done || by destruct (e_type e)). cbv beta iota.
  by rewrite get_word_sp_eof.
Qed.

(** * Padded indices sort like numbers *)

Lemma zeros_digits n : str_all is_digit (zeros n) = true.
Proof. by induction n. Qed.

Lemma zeros_value n : dec_value 0 (zeros n) = 0%N.
Proof. by induction n. Qed.

Lemma zeros_length n : String.length (zeros n) = n.
Proof. induction n; simpl; congruence. Qed.

Lemma padded_spec w n :
  str_all is_digit (padded w n) = true ∧ padded w n ≠ "" ∧ dec_value 0 (padded w n) = n.
Proof.
  destruct (to_string_spec n) as (Hd & Hne & Hv). unfold padded. split_and!.
  - by rewrite str_all_app, zeros_digits, Hd.
  - by destruct (w - _).
  - by rewrite dec_value_app, zeros_value.
Qed.

Lemma dec_value_acc acc s :
  dec_value acc s = (acc * 10 ^ N.of_nat (String.length s) + dec_value 0 s)%N.
Proof.
  revert acc. induction s as [|c s IH]; intros acc; [simpl; lia|].
  cbn [dec_value String.length]. rewrite (IH (10 * acc + _)%N), (IH (10 * 0 + _)%N).
  rewrite Nat2N.inj_succ, N.pow_succ_r'. lia.
Qed.

Lemma digit_val_lt c : is_digit c = true → (digit_val c < 10)%N.
Proof. by destruct c as [[] [] [] [] [] [] [] []]. Qed.

Lemma dec_value_lt s :
  str_all is_digit s = true → (dec_value 0 s < 10 ^ N.of_nat (String.length s))%N.
Proof.
  induction s as [|c s IH]; intros Hs; [simpl; lia|].
  apply andb_true_iff in Hs as [Hc%digit_val_lt Hs].
  cbn [dec_value String.length]. rewrite dec_value_acc, Nat2N.inj_succ, N.pow_succ_r'.
  specialize (IH Hs). nia.
Qed.

Lemma digit_compare a b :
  is_digit a = true → is_digit b = true →
  Ascii.compare a b = N.compare (digit_val a) (digit_val b).
Proof.
  unfold is_digit. intros Ha Hb. unfold Ascii.compare, digit_val.
  apply andb_true_iff in Ha as [Ha%N.leb_le _], Hb as [Hb%N.leb_le _].
  destruct (N.compare_spec (Ascii.N_of_ascii a) (Ascii.N_of_ascii b));
    symmetry; [apply N.compare_eq_iff | apply N.compare_lt_iff | apply N.compare_gt_iff]; lia.
Qed.

(** Decimal numerals of one length compare as their values. *)
Lemma digits_leb s t :
  str_all is_digit s = true → str_all is_digit t = true →
  String.length s = String.length t → (dec_value 0 s <= dec_value 0 t)%N →
  String.leb s t = true.
Proof.
  revert t. induction s as [|a s IH]; intros [|b t] Hs Ht Hlen Hle; try done.
  injection Hlen as Hlen. cbn [str_all] in Hs, Ht.
  apply andb_true_iff in Hs as [Ha Hs], Ht as [Hb Ht].
  cbn [dec_value] in Hle. rewrite (dec_value_acc _ s), (dec_value_acc _ t) in Hle.
  apply dec_value_lt in Hs as Hls, Ht as Hlt. rewrite <-Hlen in Hle, Hlt.
  rewrite leb_cons, digit_compare by done.
  destruct (N.compare_spec (digit_val a) (digit_val b)) as [Heq | | Hgt]; [|done|].
  - apply IH; try done. rewrite Heq in Hle. lia.
  - exfalso. nia.
Qed.

Lemma padded_length w n :
  (n < 10 ^ N.of_nat w)%N → 0 < w → String.length (padded w n) = w.
Proof.
  intros Hn Hw. unfold padded. rewrite slength_app, zeros_length.
  pose proof (to_string_length n w Hn Hw). lia.
Qed.

(** A 64-bit number fits into twenty digits. *)
Lemma padded20_length n : (n < two64)%N → String.length (padded 20 n) = 20.
Proof.
  unfold two64. intros. apply padded_length; [|lia].
  change (10 ^ N.of_nat 20)%N with 100000000000000000000%N. lia.
Qed.

Lemma padded_leb a b :
  (a <= b)%N → (b < two64)%N → String.leb (padded 20 a) (padded 20 b) = true.
Proof.
  intros Hab Hb. destruct (padded_spec 20 a) as (Hda & _ & Hva).
  destruct (padded_spec 20 b) as (Hdb & _ & Hvb).
  apply digits_leb; [done..| |lia].
  by rewrite !padded20_length by lia.
Qed.

Lemma padded_inj w a b : padded w a = padded w b → a = b.
Proof.
  intros H. destruct (padded_spec w a) as (_ & _ & <-), (padded_spec w b) as (_ & _ & <-).
  by rewrite H.
Qed.

Lemma sapp_leb p s t : String.leb (p +:+ s) (p +:+ t) = String.leb s t.
Proof.
  induction p as [|c p IH]; [done|].
  by rewrite !sapp_cons, leb_cons, ascii_compare_refl.
Qed.

Lemma sapp_inj_l (p s t : string) : p +:+ s = p +:+ t → s = t.
Proof. induction p as [|c p IH]; [done|]. rewrite !sapp_cons. intros [= H]. auto. Qed.

Lemma RaftLogKey_inj r i j : RaftLogKey r i = RaftLogKey r j → i = j.
Proof. intros H%sapp_inj_l. by apply padded_inj in H. Qed.

Lemma starts_with_app p s : starts_with p (p +:+ s) = true.
Proof.
  unfold starts_with. induction p as [|c p IH]; [by destruct s|].
  rewrite sapp_cons. apply prefix_cons. by exists (p +:+ s).
Qed.

Lemma after_last_slash_none s : str_all (λ c, negb (bool_decide (c = "/"%char))) s = true →
  after_last_slash s = None.
Proof.
  induction s as [|c s IH]; [done|]. simpl. intros [Hc Hs]%andb_true_iff.
  rewrite IH by done. case_decide; [|done]. by rewrite bool_decide_eq_true_2 in Hc.
Qed.

Lemma after_last_slash_app p s :
  str_all (λ c, negb (bool_decide (c = "/"%char))) s = true →
  after_last_slash (p +:+ String "/" s) = Some s.
Proof.
  intros Hs. induction p as [|c p IH].
  - rewrite sapp_nil_l. simpl. by rewrite after_last_slash_none.
  - rewrite sapp_cons. simpl. by rewrite IH.
Qed.

Lemma RaftLogKey_index r i :
  (i < two64)%N → ∃ ds, after_last_slash (RaftLogKey r i) = Some ds ∧
    stoull (E := Status) ds = Ok i.
Proof.
  intros Hi. destruct (padded_spec 20 i) as (Hd & Hne & Hv).
  exists (padded 20 i). split.
  - unfold RaftLogKey, log_prefix.
    replace (_ +:+ padded 20 i) with (("raft/log/" +:+ to_string r) +:+ String "/" (padded 20 i))
      by by snorm.
    apply after_last_slash_app. eapply str_all_mono, Hd.
    intros c Hc. rewrite negb_true_iff, bool_decide_eq_false. by intros ->.
  - rewrite stoull_digits by (done || by rewrite Hv). by rewrite Hv.
Qed.

(** * The stored log *)

Definition log_record (e : LogEntry) : string * string :=
  (RaftLogKey (e_region_id e) (e_index e), SerializeLogEntry e).

(** The part of the store's contents that holds the log of a region. *)
Definition log_part (r : N) (data : DataMap) : DataMap :=
  filter (λ kv, starts_with (log_prefix r) kv.1 = true) data.

Definition log_stored (r : N) (data : DataMap) (log : list LogEntry) : Prop :=
  log_part r data = list_to_map (log_record <$> log).

Definition log_ok (r : N) (log : list LogEntry) : Prop :=
  log_from r 0 log ∧ Forall entry_ok log.

Lemma log_ok_app r l e :
  log_ok r (l ++ [e]) ↔
  log_ok r l ∧ e_region_id e = r ∧ e_index e = (N.of_nat (length l) + 1)%N ∧ entry_ok e.
Proof.
  unfold log_ok. rewrite log_from_app, log_from_cons, list.Forall_app, list.Forall_singleton.
  rewrite N.add_0_l. pose proof (log_from_nil r (N.of_nat (length l) + 1)). tauto.
Qed.

Lemma log_ok_take r k l : log_ok r l → log_ok r (take k l).
Proof. intros [? ?]. split; [by apply log_from_take | by apply list.Forall_take]. Qed.

Lemma log_ok_lookup r l i e :
  log_ok r l → l !! i = Some e →
  e_region_id e = r ∧ e_index e = (N.of_nat i + 1)%N ∧ entry_ok e.
Proof.
  intros [Hl Hok] Hi. destruct (Hl i e Hi) as [Hr Hx].
  split_and!; [done | lia | by eapply list.Forall_lookup_1].
Qed.

Lemma log_ok_last r l e :
  log_ok r l → e ∈ l → (e_index e <= N.of_nat (length l))%N ∧ e_region_id e = r.
Proof.
  intros Hl (i & Hi)%list_elem_of_lookup. destruct (log_ok_lookup r l i e Hl Hi) as (? & ? & _).
  apply lookup_lt_Some in Hi. split; [lia | done].
Qed.

Lemma log_records_sorted r l :
  log_ok r l → StronglySorted entry_le (log_record <$> l) ∧ NoDup (log_record <$> l).*1.
Proof.
  induction l as [|e l IH] using rev_ind; intros Hl.
  { split; [constructor | apply NoDup_nil_2]. }
  apply log_ok_app in Hl as (Hl & Hr & Hi & He). destruct (IH Hl) as [Hs Hnd].
  assert (∀ x, x ∈ l → String.leb (RaftLogKey r (e_index x)) (RaftLogKey r (e_index e)) = true)
    as Hle.
  { intros x Hx. destruct (log_ok_last r l x Hl Hx). unfold RaftLogKey.
    rewrite sapp_leb. apply padded_leb; [lia | by destruct He as (_ & ? & _)]. }
  rewrite !fmap_app. split.
  - apply StronglySorted_app_2; [|done|repeat constructor].
    intros x1 x2 (x & -> & Hx)%list_elem_of_fmap ->%list_elem_of_singleton.
    destruct (log_ok_last r l x Hl Hx) as [_ Hrx]. unfold entry_le, log_record. simpl.
    rewrite Hrx, Hr. by apply Is_true_true, Hle.
  - apply list.NoDup_app. split_and!; [done| |apply NoDup_singleton].
    rewrite <-list_fmap_compose. intros k (x & -> & Hx)%list_elem_of_fmap Hk.
    apply list_elem_of_singleton in Hk. destruct (log_ok_last r l x Hl Hx) as [Hlt Hrx].
    simpl in Hk. rewrite Hrx, Hr in Hk. apply RaftLogKey_inj in Hk. lia.
Qed.

Lemma log_stored_entries r data log :
  log_stored r data log → log_ok r log →
  entries (starts_with (log_prefix r)) data = log_record <$> log.
Proof.
  intros Hst Hl. destruct (log_records_sorted r log Hl) as [Hs Hnd].
  apply entries_unique; [done..|]. intros k v.
  rewrite elem_of_list_to_map, <-Hst by done. unfold log_part.
  rewrite map_lookup_filter_Some. simpl. tauto.
Qed.

Lemma parse_records_log log :
  Forall entry_ok log → parse_records (log_record <$> log) = Ok log.
Proof.
  induction 1 as [|e log He Hlog IH]; [done|].
  rewrite fmap_cons. change (log_record e) with
    (RaftLogKey (e_region_id e) (e_index e), SerializeLogEntry e).
  cbn [parse_records]. rewrite ParseLogEntry_serialize by done.
  unfold mbind, result_bind. by rewrite IH.
Qed.

Lemma log_stored_put r data log e :
  log_stored r data log → log_ok r (log ++ [e]) →
  log_stored r (<[RaftLogKey r (e_index e) := SerializeLogEntry e]> data) (log ++ [e]).
Proof.
  intros Hst Hl. pose proof (log_records_sorted r _ Hl) as [_ Hnd].
  unfold log_stored, log_part in *. rewrite map_filter_insert_True by apply starts_with_app.
  apply log_ok_app in Hl as (Hl & Hr & _). rewrite fmap_app. rewrite <-Hr at 1.
  change (log_record <$> [e]) with
    [(RaftLogKey (e_region_id e) (e_index e), SerializeLogEntry e)].
  rewrite list_to_map_snoc; [by rewrite Hst|].
  - rewrite !fmap_app in Hnd. apply list.NoDup_app in Hnd as (_ & Hnd & _).
    intros Hin. by apply (Hnd _ Hin), list_elem_of_here.
Qed.

Lemma log_stored_frame r data data' log :
  (∀ k, starts_with (log_prefix r) k = true → data' !! k = data !! k) →
  log_stored r data log → log_stored r data' log.
Proof.
  unfold log_stored, log_part. intros Hk <-. apply map_filter_strong_ext.
  intros k v. simpl. split; intros [? <-]; (split; [done|]); [symmetry|]; by apply Hk.
Qed.

(** ** What the operations do to the stored log *)

Lemma starts_with_meta r name : starts_with (log_prefix r) (RaftMetaKey r name) = false.
Proof. done. Qed.

Lemma log_not_meta r r' k :
  starts_with (log_prefix r) k = true →
  starts_with ("raft/meta/" +:+ to_string r' +:+ "/") k = false.
Proof.
  unfold starts_with, log_prefix. intros H.
  do 5 (apply prefix_cons in H as (? & -> & H)).
  apply prefix_cons in H as (? & -> & _). done.
Qed.

Definition hard_ok (h : HardState) : Prop :=
  (hs_current_term h < two64)%N ∧ (hs_voted_for h < two64)%N ∧
  (hs_commit_index h < two64)%N ∧ (hs_last_applied h < two64)%N.

(** The contents hold the hard state. *)
Definition hard_stored (r : N) (data : DataMap) (h : HardState) : Prop :=
  data !! RaftMetaKey r "current_term" = Some (to_string (hs_current_term h)) ∧
  data !! RaftMetaKey r "voted_for" = Some (to_string (hs_voted_for h)) ∧
  data !! RaftMetaKey r "commit_index" = Some (to_string (hs_commit_index h)) ∧
  data !! RaftMetaKey r "last_applied" = Some (to_string (hs_last_applied h)).

Lemma RaftMetaKey_inj r n m : RaftMetaKey r n = RaftMetaKey r m → n = m.
Proof. unfold RaftMetaKey. by intros H%sapp_inj_l%sapp_inj_l%sapp_inj_l. Qed.

Definition hard_batch (r : N) (h : HardState) : list KvMutation :=
  [hard_mutation r "current_term" (hs_current_term h);
   hard_mutation r "voted_for" (hs_voted_for h);
   hard_mutation r "commit_index" (hs_commit_index h);
   hard_mutation r "last_applied" (hs_last_applied h)].

Lemma hard_batch_stored r data h : hard_stored r (apply_batch data (hard_batch r h)) h.
Proof.
  unfold hard_stored, apply_batch, hard_batch, hard_mutation, apply_mutation.
  cbn [foldl mut_type mut_key mut_value].
  assert (∀ n m, n ≠ m → RaftMetaKey r n ≠ RaftMetaKey r m) as Hne
    by (intros n m Hnm H; by apply RaftMetaKey_inj in H).
  repeat split; repeat (rewrite lookup_insert_eq || (rewrite lookup_insert_ne by by apply Hne));
    done.
Qed.

Lemma hard_batch_frame r data h k :
  starts_with ("raft/meta/" +:+ to_string r +:+ "/") k = false →
  apply_batch data (hard_batch r h) !! k = data !! k.
Proof.
  intros Hk. unfold apply_batch, hard_batch, hard_mutation, apply_mutation.
  cbn [foldl mut_type mut_key mut_value].
  assert (∀ n, RaftMetaKey r n ≠ k) as Hne.
  { intros n <-. unfold RaftMetaKey in Hk.
    replace ("raft/meta/" +:+ to_string r +:+ "/" +:+ n)
      with (("raft/meta/" +:+ to_string r +:+ "/") +:+ n) in Hk by by snorm.
    by rewrite starts_with_app in Hk. }
  by rewrite !lookup_insert_ne by apply Hne.
Qed.

Definition delete_key (k : string) : KvMutation := mkMutation kDelete k "".

Lemma apply_deletes data ks k :
  apply_batch data (delete_key <$> ks) !! k = if decide (k ∈ ks) then None else data !! k.
Proof.
  revert data. induction ks as [|k' ks IH]; intros data; [done|].
  change (apply_batch data (delete_key <$> k' :: ks))
    with (apply_batch (delete k' data) (delete_key <$> ks)). rewrite IH.
  destruct (decide (k ∈ ks)) as [Hin | Hin].
  - rewrite decide_True; [done|]. by apply list_elem_of_further.
  - destruct (decide (k = k')) as [-> | Hne].
    + rewrite lookup_delete_eq, decide_True; [done | apply list_elem_of_here].
    + rewrite lookup_delete_ne, decide_False; [done| |done].
      by intros [? | ?]%elem_of_cons.
Qed.

Definition log_keys (l : list LogEntry) : list string := (log_record <$> l).*1.

Lemma deletions_log first r b l :
  log_from r b l → Forall entry_ok l →
  deletions first (log_record <$> l) =
  Ok (delete_key <$> log_keys (drop (N.to_nat (first - 1 - b)) l)).
Proof.
  intros Hl Hok. revert b Hl. induction Hok as [|e l He Hok IH]; intros b Hl.
  { by rewrite drop_nil. }
  apply log_from_cons in Hl as (Hr & Hi & Hl). destruct He as (_ & Hlt & _).
  rewrite fmap_cons. change (log_record e) with
    (RaftLogKey (e_region_id e) (e_index e), SerializeLogEntry e).
  destruct (RaftLogKey_index (e_region_id e) (e_index e) Hlt) as (ds & Hds & Hst).
  cbn [deletions]. rewrite Hds, Hst. unfold mbind, result_bind.
  rewrite (IH _ Hl). rewrite Hi.
  destruct (N.leb_spec first (b + 1)) as [Hle | Hgt].
  - by replace (N.to_nat (first - 1 - b)) with 0 by lia;
      replace (N.to_nat (first - 1 - (b + 1))) with 0 by lia; rewrite <-Hi.
  - by replace (N.to_nat (first - 1 - b)) with (S (N.to_nat (first - 1 - (b + 1)))) by lia.
Qed.

Lemma log_stored_delete r data log k :
  log_stored r data log → log_ok r log →
  log_stored r (apply_batch data (delete_key <$> log_keys (drop k log))) (take k log).
Proof.
  intros Hst Hl. pose proof (log_records_sorted r log Hl) as [_ Hnd].
  unfold log_stored, log_part in *. apply map_eq. intros key. apply option_eq. intros v.
  rewrite map_lookup_filter_Some, apply_deletes. simpl.
  rewrite <-(take_drop k log), fmap_app, fmap_app in Hnd.
  apply list.NoDup_app in Hnd as (Hnd1 & Hdisj & Hnd2).
  rewrite <-elem_of_list_to_map by done.
  assert (data !! key = Some v ∧ starts_with (log_prefix r) key = true ↔
          (key, v) ∈ log_record <$> log) as Hmap.
  { rewrite elem_of_list_to_map, <-Hst, map_lookup_filter_Some by
      by apply (log_records_sorted r log). done. }
  rewrite <-(take_drop k log), fmap_app, elem_of_app in Hmap.
  case_decide as Hin.
  - split; [by intros []|]. intros Hv. exfalso. apply (Hdisj key); [|done].
    apply list_elem_of_fmap. by exists (key, v).
  - rewrite Hmap. split; [|by left]. intros [? | Hv]; [done|]. exfalso. apply Hin.
    apply list_elem_of_fmap. by exists (key, v).
Qed.

Section facts.
Context {S : Type} `{KvEngineLaws S}.

Lemma SaveHardState_run r h s :
  kv_ready s → ∃ s', SaveHardState r h s = (Ok tt, s') ∧ kv_ready s' ∧
    kv_data s' = apply_batch (kv_data s) (hard_batch r h).
Proof. intros Hs. exact (kv_WriteBatch_ok s _ Hs). Qed.

Lemma load_meta_run r name s n :
  kv_data s !! RaftMetaKey r name = Some (to_string n) → (n < two64)%N →
  load_meta r name s = (Ok n, s).
Proof.
  intros Hk Hn. unfold load_meta. run_call ltac:(rewrite kv_Get_spec, Hk; reflexivity).
  unfold lift. by rewrite stoull_to_string.
Qed.

Lemma LoadHardState_run r h s :
  hard_stored r (kv_data s) h → hard_ok h → LoadHardState r s = (Ok h, s).
Proof.
  intros (H1 & H2 & H3 & H4) (?&?&?&?). unfold LoadHardState.
  do 4 (run_call ltac:(by eapply load_meta_run)). by destruct h.
Qed.

Lemma LoadHardState_missing r s :
  kv_data s !! RaftMetaKey r "current_term" = None →
  LoadHardState r s = (Err (key_not_found (RaftMetaKey r "current_term")), s).
Proof.
  intros Hk. unfold LoadHardState, load_meta.
  run_call ltac:(erewrite bind_err; [reflexivity | by rewrite kv_Get_spec, Hk]). done.
Qed.

Lemma AppendLog_run e s :
  kv_ready s → ∃ s', AppendLog e s = (Ok tt, s') ∧ kv_ready s' ∧
    kv_data s' = <[RaftLogKey (e_region_id e) (e_index e) := SerializeLogEntry e]> (kv_data s).
Proof. intros Hs. unfold AppendLog. rewrite kv_Put_batch. exact (kv_WriteBatch_ok s _ Hs). Qed.

Lemma LoadLog_run r log s :
  log_stored r (kv_data s) log → log_ok r log → LoadLog r s = (Ok log, s).
Proof.
  intros Hst Hl. unfold LoadLog.
  run_call ltac:(rewrite kv_ScanPrefix_spec, (log_stored_entries r _ log) by done; reflexivity).
  unfold lift. destruct Hl as [_ Hl]. by rewrite parse_records_log.
Qed.

Lemma DeleteLogsFrom_run r first log s :
  kv_ready s → log_stored r (kv_data s) log → log_ok r log →
  ∃ s', DeleteLogsFrom r first s = (Ok tt, s') ∧ kv_ready s' ∧
    log_stored r (kv_data s') (take (N.to_nat (first - 1)) log).
Proof.
  intros Hs Hst Hl. unfold DeleteLogsFrom.
  run_call ltac:(rewrite kv_ScanPrefix_spec, (log_stored_entries r _ log) by done; reflexivity).
  run_call ltac:(unfold lift; rewrite (deletions_log _ r 0) by apply Hl; reflexivity).
  edestruct (kv_WriteBatch_ok s) as (s' & -> & Hs' & Hd); [done|]. exists s'.
  split_and!; [done..|]. rewrite Hd, N.sub_0_r. by apply log_stored_delete.
Qed.

(** Storing a log entry by entry, as [AddPeer] does for a new peer. *)
Fixpoint append_entries_to_storage (entries : list LogEntry) : IO S unit :=
  match entries with
  | [] => mret tt
  | e :: rest => _ ← AppendLog e; append_entries_to_storage rest
  end.

Lemma append_entries_run r log1 log2 s :
  kv_ready s → log_stored r (kv_data s) log1 → log_ok r (log1 ++ log2) →
  ∃ s', append_entries_to_storage log2 s = (Ok tt, s') ∧ kv_ready s' ∧
    log_stored r (kv_data s') (log1 ++ log2) ∧
    (∀ k, starts_with (log_prefix r) k = false → kv_data s' !! k = kv_data s !! k).
Proof.
  revert log1 s. induction log2 as [|e log2 IH]; intros log1 s Hs Hst Hl.
  { exists s. rewrite app_nil_r. done. }
  rewrite (cons_middle e), app_assoc in Hl |- *.
  assert (log_ok r (log1 ++ [e])) as Hl1.
  { rewrite <-(take_app_length (log1 ++ [e]) log2). by apply log_ok_take. }
  pose proof Hl1 as (_ & Hr & _ & _)%log_ok_app.
  destruct (AppendLog_run e s Hs) as (s1 & Hrun & Hs1 & Hd1).
  destruct (IH (log1 ++ [e]) s1) as (s' & Hrun' & Hs' & Hst' & Hk); [done| |done|].
  { rewrite Hd1, Hr. by apply log_stored_put. }
  exists s'. cbn [append_entries_to_storage]. split.
  { by run_call ltac:(exact Hrun). }
  split_and!; [done..|]. intros k Hkp. rewrite Hk, Hd1, lookup_insert_ne; [done| |done].
  intros <-. rewrite Hr in Hkp. unfold RaftLogKey in Hkp. by rewrite starts_with_app in Hkp.
Qed.
End facts.

(** * What the storage promises *)

(** Raft state round trip. On any engine that keeps the interface's laws,
    after saving a hard state and appending a log (consecutive indices from 1,
    64-bit fields, no empty command) to a store without log entries of the
    region, loading gives back exactly that hard state and that log, in order;
    deleting from an index on then leaves exactly the entries below it. *)
Theorem raft_state_roundtrip {S} `{KvEngineLaws S} r h log first (s : S) :
  kv_ready s → log_part r (kv_data s) = ∅ → log_ok r log → hard_ok h →
  ∃ s1 s2,
    (append_entries_to_storage log ≫= λ _, SaveHardState r h) s = (Ok tt, s1) ∧
    LoadHardState r s1 = (Ok h, s1) ∧ LoadLog r s1 = (Ok log, s1) ∧
    DeleteLogsFrom r first s1 = (Ok tt, s2) ∧
    LoadLog r s2 = (Ok (take (N.to_nat (first - 1)) log), s2).
Proof.
  intros Hs Hnone Hl Hh.
  destruct (append_entries_run r [] log s) as (sa & Hra & Hsa & Hsta & _); [done..|].
  destruct (SaveHardState_run r h sa Hsa) as (s1 & Hr1 & Hs1 & Hd1).
  assert (log_stored r (kv_data s1) log) as Hst1.
  { eapply log_stored_frame; [|exact Hsta]. intros k Hk. rewrite Hd1.
    apply hard_batch_frame. by eapply log_not_meta. }
  destruct (DeleteLogsFrom_run r first log s1 Hs1 Hst1 Hl) as (s2 & Hr2 & _ & Hst2).
  exists s1, s2. split_and!.
  - by run_call ltac:(exact Hra).
  - apply LoadHardState_run; [|done]. rewrite Hd1. apply hard_batch_stored.
  - by apply LoadLog_run.
  - done.
  - apply LoadLog_run; [done | by apply log_ok_take].
Qed.

Definition sample_disk : EngineW := (mkDisk ∅ [], mkEngine "d" "d/kv.log" ∅).
Definition sample_log : list LogEntry :=
  [mkEntry 7 1 1 kNormal "PUT 61 62"; mkEntry 7 2 3 kNoop "x"].

Lemma sample_log_ok : log_ok 7 sample_log.
Proof.
  split; [intros [|[|i]] e [= <-]; done|].
  repeat constructor; discriminate.
Qed.

Lemma raft_state_roundtrip_witness :
  ∃ s1 s2,
    (append_entries_to_storage sample_log ≫= λ _, SaveHardState 7 (mkHard 3 1 2 1))
      sample_disk = (Ok tt, s1) ∧
    LoadHardState 7 s1 = (Ok (mkHard 3 1 2 1), s1) ∧ LoadLog 7 s1 = (Ok sample_log, s1) ∧
    DeleteLogsFrom 7 2 s1 = (Ok tt, s2) ∧
    LoadLog 7 s2 = (Ok [mkEntry 7 1 1 kNormal "PUT 61 62"], s2).
Proof.
  apply (raft_state_roundtrip 7 (mkHard 3 1 2 1) sample_log 2 sample_disk).
  - reflexivity.
  - reflexivity.
  - exact sample_log_ok.
  - repeat split; reflexivity.
Defined.

(** An entry with an empty command cannot be read back: it is written with
    one column less, and loading the region's log then fails as a whole. *)
Lemma empty_command_unreadable {S} `{KvEngineLaws S} e (s s1 : S) :
  kv_ready s → log_part (e_region_id e) (kv_data s) = ∅ → e_command e = "" →
  (e_region_id e < two64)%N → (e_index e < two64)%N → (e_term e < two64)%N →
  AppendLog e s = (Ok tt, s1) →
  LoadLog (e_region_id e) s1 =
    (Err (InvalidArgument "invalid serialized log entry"), s1).
Proof.
  intros Hs Hnone Hc Hr Hi Ht Hrun.
  destruct (AppendLog_run e s Hs) as (s1' & Hrun' & _ & Hd).
  rewrite Hrun' in Hrun. injection Hrun as ->.
  assert (entries (starts_with (log_prefix (e_region_id e))) (kv_data s1) = [log_record e])
    as Hent.
  { apply entries_unique; [repeat constructor | apply NoDup_singleton|].
    intros k v. rewrite list_elem_of_singleton.
    assert (log_part (e_region_id e) (kv_data s1) = {[(log_record e).1 := (log_record e).2]})
      as Hp.
    { unfold log_part. rewrite Hd, map_filter_insert_True by apply starts_with_app.
      unfold log_part in Hnone. by rewrite Hnone. }
    split.
    - intros [= -> ->]. split; [apply starts_with_app | by rewrite Hd, lookup_insert_eq].
    - intros [Hk Hv]. assert (log_part (e_region_id e) (kv_data s1) !! k = Some v) as H1
        by by apply map_lookup_filter_Some.
      rewrite Hp in H1. apply lookup_singleton_Some in H1 as [<- <-]. by destruct e. }
  unfold LoadLog. run_call ltac:(rewrite kv_ScanPrefix_spec, Hent; reflexivity).
  unfold lift, log_record. cbn [parse_records].
  by rewrite ParseLogEntry_empty.
Qed.

Lemma empty_command_unreadable_witness :
  ∃ s1, AppendLog (mkEntry 7 1 1 kNormal "") sample_disk = (Ok tt, s1) ∧
    LoadLog 7 s1 = (Err (InvalidArgument "invalid serialized log entry"), s1).
Proof.
  eexists. split; [vm_compute; reflexivity|].
  apply (empty_command_unreadable (mkEntry 7 1 1 kNormal "") sample_disk); reflexivity.
Defined.
