(* ===== verification/Keyspace.v ===== *)
(** The keys of one engine: those of users and those of the Raft state, and the
    writes behind the operations of the Raft storage. *)

From S2P Require Import Prelude Types Text Engine Raft RaftStorage.

(** * User keys and the keys of the Raft state *)

Definition user_key (k : string) : Prop := starts_with "raft/" k = false.

(** The contents as the users of the region see them. *)
Definition user_part (data : DataMap) : DataMap := filter (λ kv, user_key kv.1) data.

Lemma lookup_user_part data k : user_key k → user_part data !! k = data !! k.
Proof.
  intros Hk. apply option_eq. intros v. unfold user_part. rewrite map_lookup_filter_Some.
  split; [by intros [] | done].
Qed.

Definition user_batch (ms : list KvMutation) : Prop := Forall (λ m, user_key (mut_key m)) ms.

Lemma user_part_user data ms :
  user_batch ms → user_part (apply_batch data ms) = apply_batch (user_part data) ms.
Proof.
  intros Hms. revert data. induction Hms as [|m ms Hm Hms IH]; intros data; [done|].
  change (apply_batch data (m :: ms)) with (apply_batch (apply_mutation data m) ms).
  change (apply_batch (user_part data) (m :: ms))
    with (apply_batch (apply_mutation (user_part data) m) ms).
  rewrite IH. f_equal. unfold user_part, apply_mutation. destruct (mut_type m).
  - by apply map_filter_insert_True.
  - apply map_filter_delete.
Qed.

Lemma user_part_frame data ms :
  Forall (λ m, mut_type m = kPut ∧ ¬ user_key (mut_key m)) ms →
  user_part (apply_batch data ms) = user_part data.
Proof.
  intros Hms. revert data. induction Hms as [|m ms [Ht Hm] Hms IH]; intros data; [done|].
  change (apply_batch data (m :: ms)) with (apply_batch (apply_mutation data m) ms).
  rewrite IH. unfold user_part, apply_mutation. rewrite Ht.
  by apply map_filter_insert_not.
Qed.

Lemma raft_key_not_user k : starts_with "raft/" k = true → ¬ user_key k.
Proof. unfold user_key. by intros ->. Qed.

Lemma hard_batch_not_user r h :
  Forall (λ m, mut_type m = kPut ∧ ¬ user_key (mut_key m)) (hard_batch r h).
Proof. repeat constructor; by apply raft_key_not_user. Qed.

Lemma log_key_not_user r i : ¬ user_key (RaftLogKey r i).
Proof. by apply raft_key_not_user. Qed.

(** * Storage operations are batches *)

Lemma SaveHardState_batch r h : SaveHardState r h = Engine.WriteBatch (hard_batch r h).
Proof. reflexivity. Qed.

Lemma AppendLog_batch e :
  AppendLog e = Engine.WriteBatch
    [mkMutation kPut (RaftLogKey (e_region_id e) (e_index e)) (SerializeLogEntry e)].
Proof. reflexivity. Qed.

(** * An engine that can be opened again *)

(** An open engine in the directory [dir] of a disk that works. *)
Definition engine_good (dir : string) (w : EngineW) : Prop :=
  disk_ok w.1 ∧ durable w ∧ directory_ w.2 = dir.

Lemma write_good dir ms d e :
  engine_good dir (d, e) → keys_ok ms →
  ∃ d' e', Engine.WriteBatch ms (d, e) = (Ok tt, (d', e')) ∧ engine_good dir (d', e') ∧
    data_ e' = apply_batch (data_ e) ms.
Proof.
  intros (Hd & Hdur & Hdir) Hms.
  pose proof (WriteBatch_ok ms d e Hd) as Hrun. do 2 eexists. split; [exact Hrun|].
  split; [|done]. split_and!; [by apply write_disk_ok| |done].
  by eapply (WriteBatch_durable ms d e).
Qed.

(** A command of users: a batch of mutations of user keys. *)
Definition command_ok (command : string) : Prop :=
  ∃ ms, (ApplyKvCommand command : IO EngineW unit) = Engine.WriteBatch ms ∧
    user_batch ms ∧ keys_ok ms.

Definition entry_valid (e : LogEntry) : Prop := entry_ok e ∧ command_ok (e_command e).

(** User writes do not touch the Raft state of a region. *)
Lemma user_frame ms data k :
  user_batch ms → starts_with "raft/" k = true → apply_batch data ms !! k = data !! k.
Proof.
  intros Hms Hk. revert data. induction Hms as [|m ms Hm Hms IH]; intros data; [done|].
  change (apply_batch data (m :: ms)) with (apply_batch (apply_mutation data m) ms).
  rewrite IH. unfold apply_mutation, user_key in *.
  assert (mut_key m ≠ k) by (intros <-; congruence).
  destruct (mut_type m); [by rewrite lookup_insert_ne | by rewrite lookup_delete_ne].
Qed.

Lemma log_prefix_raft r k : starts_with (log_prefix r) k = true → starts_with "raft/" k = true.
Proof.
  unfold starts_with, log_prefix. intros H.
  do 4 (apply prefix_cons in H as (? & -> & H)). apply prefix_cons in H as (s & -> & _). by destruct s.
Qed.

Lemma meta_key_raft r name : starts_with "raft/" (RaftMetaKey r name) = true.
Proof. done. Qed.

Lemma log_stored_user r data ms log :
  user_batch ms → log_stored r data log → log_stored r (apply_batch data ms) log.
Proof.
  intros Hms. apply log_stored_frame. intros k Hk%log_prefix_raft. by apply user_frame.
Qed.

Lemma hard_stored_user r data ms h :
  user_batch ms → hard_stored r data h → hard_stored r (apply_batch data ms) h.
Proof.
  intros Hms (?&?&?&?). unfold hard_stored. by rewrite !user_frame by done.
Qed.
