(* ===== verification/Snapshot.v ===== *)
(** Snapshots of a key range as a text file, src/raft/snapshot.cpp: a header
    line and one line per key, read back word by word. *)

From S2P Require Import Prelude Types Text Engine.

Record SnapshotMeta := mkSnapshotMeta {
  sm_region_id : N;
  sm_last_included_index : N;
  sm_last_included_term : N;
  sm_prefix : string;
}.

#[export] Instance SnapshotMeta_eq_dec : EqDecision SnapshotMeta.
Proof. solve_decision. Defined.

(** * Writing *)

Definition meta_line (meta : SnapshotMeta) : string :=
  "META " +:+ to_string (sm_region_id meta) +:+ " "
  +:+ to_string (sm_last_included_index meta) +:+ " "
  +:+ to_string (sm_last_included_term meta) +:+ " "
  +:+ HexEncode (sm_prefix meta) +:+ newline.

Definition kv_line (kv : string * string) : string :=
  "KV " +:+ HexEncode kv.1 +:+ " " +:+ HexEncode kv.2 +:+ newline.

Definition kv_lines (l : list (string * string)) : string :=
  foldr (λ kv acc, kv_line kv +:+ acc) "" l.

Definition snapshot_text (meta : SnapshotMeta) (l : list (string * string)) : string :=
  meta_line meta +:+ kv_lines l.

(** * Reading

    The loop reads one record per round and stops when the stream does. [meta]
    is the output parameter, written as soon as a header has been read. *)
Fixpoint read_records (fuel : nat) (input : istream) (meta : option SnapshotMeta)
    (mutations : list KvMutation) : res (list KvMutation) * option SnapshotMeta :=
  match fuel with
  | O => (Ok mutations, meta)
  | S fuel =>
      let '(record_type, input) := get_word input in
      if failbit input then (Ok mutations, meta)
      else if decide (record_type = "META") then
        let '(region_id, input) := get_u64 input in
        let '(index, input) := get_u64 input in
        let '(term, input) := get_u64 input in
        let '(prefix_hex, input) := get_word input in
        match HexDecode prefix_hex with
        | Ok prefix =>
            read_records fuel input (Some (mkSnapshotMeta region_id index term prefix)) mutations
        | Err st => (Err st, meta)
        | Fault f => (Fault f, meta)
        end
      else if decide (record_type = "KV") then
        let '(key_hex, input) := get_word input in
        let '(value_hex, input) := get_word input in
        match (key ← HexDecode key_hex; value ← HexDecode value_hex; Ok (key, value)) with
        | Ok kv => read_records fuel input meta (mutations ++ [kv_mutation kv])
        | Err st => (Err st, meta)
        | Fault f => (Fault f, meta)
        end
      else (Err (InvalidArgument ("unknown snapshot record type: " +:+ record_type)), meta)
  end.

Definition has_slash (p : string) : bool := negb (str_all (λ c, negb (bool_decide (c = "/"%char))) p).

(** [std::filesystem::path(p).parent_path()], up to a separator at its end:
    what is before the last separator, [/] for a file of the root. *)
Fixpoint directory_part (p : string) : string :=
  match p with
  | "" => ""
  | String c r => if has_slash r then String c (directory_part r) else ""
  end.
Definition parent_path (p : string) : string :=
  match p, directory_part p with
  | String "/" _, "" => "/"
  | _, q => q
  end.

Section snapshotter.
Context {S : Type} `{KvEngine (Disk * S)}.
Abbreviation W := (Disk * S)%type.

Definition Create (meta : SnapshotMeta) (snapshot_path : string) : IO W unit :=
  _ ← create_directories (parent_path snapshot_path)
        (λ msg, IoError ("failed to create snapshot directory: " +:+ msg));
  _ ← io_or (λ _, IoError ("failed to create snapshot: " +:+ snapshot_path));
  _ ← modify_files (overwrite snapshot_path "");
  records ← kv_ScanPrefix (sm_prefix meta);
  write_or (λ _, IoError ("failed to write snapshot: " +:+ snapshot_path))
    (overwrite snapshot_path) (snapshot_text meta records).

(** Every round reads at least one character, so this many are enough. *)
Definition read_snapshot (text : string) : res (list KvMutation) * option SnapshotMeta :=
  read_records (String.length text + 1) (istringstream text) None [].

Definition Restore (snapshot_path : string) (w : W) :
    res unit * option SnapshotMeta * W :=
  match (_ ← io_or (λ _, IoError ("failed to open snapshot: " +:+ snapshot_path));
         read_file snapshot_path) w with
  | (Ok (Some text), w) =>
      let '(r, meta) := read_snapshot text in
      let '(r, w) := (lift r ≫= kv_WriteBatch) w in
      (r, meta, w)
  | (Ok None, w) => (Err (IoError ("failed to open snapshot: " +:+ snapshot_path)), None, w)
  | (Err st, w) => (Err st, None, w)
  | (Fault f, w) => (Fault f, None, w)
  end.
End snapshotter.

(** * The loop ends before the fuel does *)

Definition stream_size (i : istream) : nat :=
  if failbit i then 0 else S (String.length (rest i)).

Lemma span_size p s : String.length (span p s).1 + String.length (span p s).2 = String.length s.
Proof.
  induction s as [|c s IH]; [done|]. simpl. destruct (p c); [|done].
  destruct (span p s). simpl in *. lia.
Qed.

Lemma skip_ws_size s : String.length (skip_ws s) ≤ String.length s.
Proof. unfold skip_ws. pose proof (span_size Ascii.is_space s). lia. Qed.

Lemma get_word_size i :
  stream_size (get_word i).2 ≤ stream_size i ∧
  (failbit (get_word i).2 = false → (get_word i).1 ≠ "" → stream_size (get_word i).2 < stream_size i).
Proof.
  unfold get_word. destruct i as [s []]; cbn [failbit rest]; [by split|].
  pose proof (skip_ws_size s) as Hs. destruct (skip_ws s) as [|c t] eqn:E.
  { split; [unfold stream_size; simpl; lia | done]. }
  pose proof (span_size (λ c, negb (Ascii.is_space c)) (String c t)) as Hsp.
  destruct (span _ _) as [w r]. unfold stream_size. cbn [fst snd failbit rest] in *.
  split; [lia|]. intros _ Hw. destruct w; [done|]. simpl in *. lia.
Qed.

Lemma scan_number_size s neg v r :
  scan_number s = Some (neg, v, r) → String.length r ≤ String.length s.
Proof.
  unfold scan_number.
  set (p := match s with String "-"%char q => (true, q) | String "+"%char q => (false, q)
            | _ => (false, s) end).
  assert (String.length p.2 ≤ String.length s) as Hp.
  { subst p. destruct s as [|c s]; [done|].
    destruct c as [[] [] [] [] [] [] [] []]; simpl; lia. }
  destruct p as [b body]. pose proof (span_size is_digit body) as Hsp.
  destruct (span is_digit body) as [ds q]. case_decide; [done|]. intros [= <- <- <-].
  simpl in *. lia.
Qed.

Lemma get_u64_size i : stream_size (get_u64 i).2 ≤ stream_size i.
Proof.
  unfold get_u64. destruct i as [s []]; cbn [failbit rest]; [done|].
  pose proof (skip_ws_size s). destruct (scan_number (skip_ws s)) as [[[neg v] r]|] eqn:E.
  - apply scan_number_size in E. case_match; unfold stream_size; simpl; lia.
  - unfold stream_size. simpl. lia.
Qed.

(** Any two amounts of fuel that cover the stream give the same result. *)
Lemma read_records_fuel f1 f2 i meta ms :
  stream_size i ≤ f1 → stream_size i ≤ f2 →
  read_records f1 i meta ms = read_records f2 i meta ms.
Proof.
  assert (∀ f i meta ms, stream_size i = 0 → read_records f i meta ms = (Ok ms, meta)) as Hend.
  { intros [|f] [s b] m l Hs; [done|]. unfold stream_size in Hs. simpl in Hs.
    by destruct b. }
  revert f2 i meta ms. induction f1 as [|f1 IH]; intros [|f2] i meta ms H1 H2;
    try (by rewrite !Hend by lia).
  cbn [read_records]. pose proof (get_word_size i) as [_ Hlt].
  destruct (get_word i) as [w i1]. cbn [fst snd] in *.
  destruct (failbit i1); [done|]. specialize (Hlt eq_refl).
  case_decide as Hmeta.
  - assert (stream_size i1 < stream_size i) as Hi1 by (apply Hlt; by rewrite Hmeta).
    pose proof (get_u64_size i1). destruct (get_u64 i1) as [x1 i2]. cbn [snd] in *.
    pose proof (get_u64_size i2). destruct (get_u64 i2) as [x2 i3]. cbn [snd] in *.
    pose proof (get_u64_size i3). destruct (get_u64 i3) as [x3 i4]. cbn [snd] in *.
    pose proof (get_word_size i4) as [? _]. destruct (get_word i4) as [x4 i5]. cbn [snd] in *.
    destruct (HexDecode x4); [|done..]. apply IH; lia.
  - case_decide as Hkv; [|done].
    assert (stream_size i1 < stream_size i) as Hi1 by (apply Hlt; by rewrite Hkv).
    pose proof (get_word_size i1) as [? _]. destruct (get_word i1) as [x1 i2]. cbn [snd] in *.
    pose proof (get_word_size i2) as [? _]. destruct (get_word i2) as [x2 i3]. cbn [snd] in *.
    destruct (HexDecode x1 ≫= _); [|done..]. apply IH; lia.
Qed.

(** * Reading back what was written *)

Definition meta_ok (meta : SnapshotMeta) : Prop :=
  (sm_region_id meta < two64)%N ∧ (sm_last_included_index meta < two64)%N ∧
  (sm_last_included_term meta < two64)%N ∧ sm_prefix meta ≠ "".

Definition record_ok (kv : string * string) : Prop := kv.1 ≠ "" ∧ kv.2 ≠ "".

(** The stream after a line: its newline has not been read yet. *)
Lemma get_word_line w r b :
  is_word w = true → word_end r →
  get_word (mkStream (if b : bool then w +:+ r else String nl (w +:+ r)) false) =
  (w, mkStream r false).
Proof.
  intros Hw Hr. apply get_word_next; [|done..].
  destruct b; [|rewrite skip_ws_nl]; by apply skip_ws_word.
Qed.

Lemma read_kv_line fuel kv r b meta ms :
  record_ok kv →
  read_records (S fuel)
    (mkStream (if b : bool then kv_line kv +:+ r else String nl (kv_line kv +:+ r)) false) meta ms =
  read_records fuel (mkStream (String nl r) false) meta (ms ++ [kv_mutation kv]).
Proof.
  intros [Hk Hv]. destruct kv as [k v]. cbn [read_records kv_line fst snd] in *.
  replace (kv_line (k, v) +:+ r) with
    ("KV" +:+ String " " (HexEncode k +:+ String " " (HexEncode v +:+ String nl r)))
    by (unfold kv_line, newline; by snorm).
  rewrite get_word_line by done. cbv beta iota. cbn [failbit].
  rewrite decide_False, decide_True by done.
  do 2 (rewrite get_word_sp by auto with str; cbv beta iota).
  by rewrite !HexDecode_encode.
Qed.

Lemma read_kv_lines l fuel meta ms :
  Forall record_ok l → length l < fuel →
  read_records fuel (mkStream (String nl (kv_lines l)) false) meta ms =
  (Ok (ms ++ (kv_mutation <$> l)), meta).
Proof.
  intros Hl. revert fuel ms. induction Hl as [|kv l Hkv Hl IH]; intros fuel ms Hfuel.
  - destruct fuel; [simpl in Hfuel; lia|]. by rewrite app_nil_r.
  - destruct fuel; [simpl in Hfuel; lia|]. cbn [kv_lines foldr].
    rewrite (read_kv_line fuel kv _ false) by done.
    fold (kv_lines l). rewrite IH by (simpl in Hfuel; lia).
    by rewrite <-app_assoc.
Qed.

Lemma kv_lines_length l : length l ≤ String.length (kv_lines l).
Proof.
  induction l as [|kv l IH]; [done|]. cbn [kv_lines foldr length].
  fold (kv_lines l). unfold kv_line. rewrite !slength_app. simpl. lia.
Qed.

Lemma read_snapshot_text meta l :
  meta_ok meta → Forall record_ok l →
  read_snapshot (snapshot_text meta l) = (Ok (kv_mutation <$> l), Some meta).
Proof.
  intros (Hr & Hi & Ht & Hp) Hl. unfold read_snapshot, snapshot_text.
  set (n := String.length _ + 1). assert (length l + 1 < n) as Hn.
  { pose proof (kv_lines_length l). unfold n. rewrite slength_app. simpl. lia. }
  clearbody n. destruct n as [|n]; [lia|]. cbn [read_records].
  replace (meta_line meta +:+ kv_lines l) with
    ("META" +:+ String " " (to_string (sm_region_id meta)
      +:+ String " " (to_string (sm_last_included_index meta)
      +:+ String " " (to_string (sm_last_included_term meta)
      +:+ String " " (HexEncode (sm_prefix meta) +:+ String nl (kv_lines l))))))
    by (unfold meta_line, newline; by snorm).
  rewrite get_word_first by done. cbv beta iota. cbn [failbit].
  rewrite decide_True by done.
  do 3 (rewrite get_u64_sp by done; cbv beta iota).
  rewrite get_word_sp by auto with str. cbv beta iota.
  rewrite HexDecode_encode, read_kv_lines by (done || lia). by destruct meta.
Qed.

(** A record with an empty value in front of another one: its value is read as
    the next line's record type. *)
Lemma read_empty_value k kv l fuel meta ms :
  k ≠ "" →
  ∃ st, (read_records (S fuel) (mkStream (String nl (kv_lines ((k, "") :: kv :: l))) false)
           meta ms).1 = Err st.
Proof.
  intros Hk. destruct kv as [k' v']. cbn [read_records kv_lines foldr].
  replace (String nl _) with
    (String nl ("KV" +:+ String " " (HexEncode k +:+ String " "
      (String nl ("KV" +:+ String " " (HexEncode k' +:+ " " +:+ HexEncode v' +:+ newline
        +:+ kv_lines l))))))
    by (unfold kv_line, newline; cbn [fst snd HexEncode]; by snorm).
  rewrite (get_word_line _ _ false) by done. cbv beta iota. cbn [failbit].
  rewrite decide_False, decide_True by done.
  rewrite get_word_sp by auto with str. cbv beta iota.
  rewrite (get_word_next _ "KV" (String " " (HexEncode k' +:+ " " +:+ HexEncode v' +:+ newline
        +:+ kv_lines l))); [|by rewrite skip_ws_space, skip_ws_nl, skip_ws_word|done|done].
  rewrite HexDecode_encode. by eexists.
Qed.

(** * Create and Restore *)

Lemma starts_with_empty_key p : p ≠ "" → starts_with p "" = false.
Proof. by destruct p. Qed.

(** C35: Snapshot and restore. A snapshot of the keys under a non-empty prefix,
    none of whose values is empty, written to a path that names a directory,
    restored into any engine on the same disk: the target then holds the source's
    keys under the prefix with their values, all its other keys as before, those
    under the prefix that the source lacks included, and gets the header back; the
    source is not touched. *)
Theorem snapshot_restore meta path d e e2 :
  disk_ok d → meta_ok meta → parent_path path ≠ "" → (∀ k v, data_ e !! k = Some v →
    starts_with (sm_prefix meta) k = true → v ≠ "") →
  ∃ d1 d2 e2',
    Create meta path (d, e) = (Ok tt, (d1, e)) ∧
    Restore path (d1, e2) = (Ok tt, Some meta, (d2, e2')) ∧
    data_ e2' =
      filter (λ kv, starts_with (sm_prefix meta) kv.1 = true) (data_ e) ∪ data_ e2.
Proof.
  intros Hd Hm Hpath Hv. set (l := entries (starts_with (sm_prefix meta)) (data_ e)).
  assert (Forall record_ok l) as Hl.
  { apply list.Forall_forall. intros [k v] [Hk Hkv]%elem_of_entries. split; simpl.
    - intros ->. destruct Hm as (_ & _ & _ & Hp). by rewrite starts_with_empty_key in Hk.
    - by eapply Hv. }
  set (d1 := set_files (overwrite path (snapshot_text meta l)) (set_files (overwrite path "") d)).
  exists d1, (write_disk e2 (kv_mutation <$> l) d1),
    (set_data (λ data, apply_batch data (kv_mutation <$> l)) e2). split_and!.
  - unfold Create, modify_files. run_call ltac:(by apply create_directories_ok).
    run_call ltac:(by apply io_or_ok). run.
    run_call ltac:(exact (ScanPrefix_entries _ _)). by rewrite write_or_ok.
  - unfold Restore. erewrite bind_ok by by apply io_or_ok.
    unfold read_file, gets. cbn [files d1 set_files]. unfold overwrite at 1.
    rewrite lookup_insert_eq, read_snapshot_text by done.
    run. cbn [kv_WriteBatch FileKvEngine_ops]. by rewrite WriteBatch_ok.
  - cbn [data_ set_data]. rewrite apply_puts by apply entries_nodup. f_equal.
    unfold l. by rewrite entries_kvs, kvs_to_map.
Qed.

Definition snapshot_source : FileKvEngine :=
  mkEngine "a" "a/kv.log" (<["kv/1" := "x"]> (<["kv/2" := "y"]> (<["z" := ""]> ∅))).
Definition snapshot_header : SnapshotMeta := mkSnapshotMeta 1 9 2 "kv/".

Lemma snapshot_restore_witness :
  ∃ d1 d2 e2',
    Create snapshot_header "backup/s" (mkDisk ∅ [], snapshot_source) =
      (Ok tt, (d1, snapshot_source)) ∧
    Restore "backup/s" (d1, mkEngine "b" "b/kv.log" (<["kv/1" := "old"]> ∅)) =
      (Ok tt, Some snapshot_header, (d2, e2')) ∧
    data_ e2' =
      filter (λ kv, starts_with (sm_prefix snapshot_header) kv.1 = true) (data_ snapshot_source)
      ∪ data_ (mkEngine "b" "b/kv.log" (<["kv/1" := "old"]> ∅)).
Proof.
  apply (snapshot_restore snapshot_header "backup/s" (mkDisk ∅ []) snapshot_source
    (mkEngine "b" "b/kv.log" (<["kv/1" := "old"]> ∅))).
  - reflexivity.
  - repeat split; discriminate.
  - discriminate.
  - intros k v Hk Hp ->. unfold snapshot_source in Hk. cbn [data_] in Hk.
    do 2 (apply lookup_insert_Some in Hk as [[_ Hk] | [_ Hk]]; [discriminate|]).
    apply lookup_insert_Some in Hk as [[<- _] | [_ Hk]]; [discriminate|].
    by rewrite lookup_empty in Hk.
Defined.

(** A path without a directory is refused: its parent is the empty path. *)
Lemma bare_path_refused {S} `{KvEngine (Disk * S)} meta path (w : Disk * S) :
  has_slash path = false →
  Create meta path w = (Err (IoError "failed to create snapshot directory: Invalid argument"), w).
Proof.
  intros Hp. unfold Create. assert (parent_path path = "") as ->; [|done].
  destruct path as [|c r]; [done|]. unfold has_slash in Hp. cbn [str_all] in Hp.
  apply negb_false_iff, andb_true_iff in Hp as [Hc Hr]. unfold parent_path.
  cbn [directory_part]. unfold has_slash. rewrite Hr. cbn [negb].
  destruct c as [[] [] [] [] [] [] [] []]; try done.
Qed.

(** A snapshot with an empty value cannot be restored. When a record with
    an empty value is followed by another one, reading fails, so that restoring
    refuses the whole snapshot. *)
Lemma snapshot_empty_value_unreadable meta l1 k kv l2 :
  meta_ok meta → Forall record_ok l1 → k ≠ "" →
  ∃ st, (read_snapshot (snapshot_text meta (l1 ++ (k, "") :: kv :: l2))).1 = Err st.
Proof.
  intros (Hr & Hi & Ht & Hp) Hl Hk. unfold read_snapshot, snapshot_text.
  set (n := String.length _ + 1).
  assert (length l1 + 2 < n) as Hn.
  { pose proof (kv_lines_length (l1 ++ (k, "") :: kv :: l2)) as Hlen.
    rewrite length_app in Hlen. cbn [length] in Hlen. unfold n. rewrite slength_app. simpl. lia. }
  clearbody n. destruct n as [|n]; [lia|]. cbn [read_records].
  set (tail := kv_lines _).
  replace (meta_line meta +:+ tail) with
    ("META" +:+ String " " (to_string (sm_region_id meta)
      +:+ String " " (to_string (sm_last_included_index meta)
      +:+ String " " (to_string (sm_last_included_term meta)
      +:+ String " " (HexEncode (sm_prefix meta) +:+ String nl tail)))))
    by (unfold meta_line, newline; by snorm).
  rewrite get_word_first by done. cbv beta iota. cbn [failbit].
  rewrite decide_True by done.
  do 3 (rewrite get_u64_sp by done; cbv beta iota).
  rewrite get_word_sp by auto with str. cbv beta iota. rewrite HexDecode_encode.
  unfold tail. clear tail. generalize (@nil KvMutation), (Some (mkSnapshotMeta (sm_region_id meta)
    (sm_last_included_index meta) (sm_last_included_term meta) (sm_prefix meta))).
  intros ms m. revert n ms Hn. induction Hl as [|kv' l1 Hkv' Hl IH]; intros n ms Hn.
  - simpl in Hn. destruct n; [lia|]. by apply read_empty_value.
  - simpl in Hn. destruct n as [|n]; [lia|]. cbn [app kv_lines foldr].
    rewrite (read_kv_line n kv' _ false) by done. apply IH. lia.
Qed.

Lemma snapshot_empty_value_unreadable_witness :
  ∃ st, (read_snapshot (snapshot_text snapshot_header
    ([("kv/0", "x")] ++ ("kv/1", "") :: ("kv/2", "y") :: []))).1 = Err st.
Proof.
  apply (snapshot_empty_value_unreadable snapshot_header [("kv/0", "x")] "kv/1" ("kv/2", "y") []).
  - repeat split; discriminate.
  - repeat constructor; discriminate.
  - discriminate.
Defined.

(** Restoring terminates. Whatever the file holds, the reading loop stops
    within one round per character: more rounds change nothing. *)
Lemma snapshot_reading_ends text meta ms fuel :
  read_records (String.length text + 1 + fuel) (istringstream text) meta ms =
  read_records (String.length text + 1) (istringstream text) meta ms.
Proof. apply read_records_fuel; unfold stream_size; simpl; lia. Qed.
