(* ===== verification/Cluster.v ===== *)
(** One region replicated over several stores of one process,
    src/store/single_region_cluster.cpp: a store couples a Raft node with its
    engine; the cluster drives election, replication, commit broadcast and
    membership by direct calls on its stores, one after the other. *)

From S2P Require Import Prelude Types Text Engine Raft RaftStorage.

(** * A store *)

Record SingleRegionStore := mkStoreNode {
  store_id_ : N;
  peer_id_ : N;
  raft_ : RaftNode;
  engine_ : FileKvEngine;
  opened_ : bool;          (* [raft_storage_] has been created *)
}.

Abbreviation StoreW := (Disk * SingleRegionStore)%type.

Definition new_store (store_id peer region : N) (peer_ids : list N) : SingleRegionStore :=
  mkStoreNode store_id peer (new_raft region peer peer_ids) new_engine false.

Definition set_raft (n : RaftNode) (s : SingleRegionStore) : SingleRegionStore :=
  mkStoreNode (store_id_ s) (peer_id_ s) n (engine_ s) (opened_ s).
Definition set_engine (e : FileKvEngine) (s : SingleRegionStore) : SingleRegionStore :=
  mkStoreNode (store_id_ s) (peer_id_ s) (raft_ s) e (opened_ s).
Definition set_opened (s : SingleRegionStore) : SingleRegionStore :=
  mkStoreNode (store_id_ s) (peer_id_ s) (raft_ s) (engine_ s) true.

(** Calls on the store's engine and on its Raft node. *)
Definition on_engine {A} (m : IO EngineW A) : IO StoreW A :=
  zoom (λ w : StoreW, (w.1, engine_ w.2)) (λ (w' : EngineW) (w : StoreW), (w'.1, set_engine w'.2 w.2)) m.
Definition on_raft {A} (m : IO RaftNode A) : IO StoreW A :=
  zoom (λ w : StoreW, raft_ w.2) (λ n (w : StoreW), (w.1, set_raft n w.2)) m.
Definition the_raft : IO StoreW RaftNode := gets (λ w, raft_ w.2).

Definition storage_ready : IO StoreW unit :=
  w ← get;
  if opened_ w.2 then mret tt
  else fail (InvalidArgument "raft storage is not initialized").

Definition hard_state (n : RaftNode) : HardState :=
  mkHard (current_term_ n) (default 0%N (voted_for_ n)) (commit_index_ n) (last_applied_ n).

Definition PersistHardState : IO StoreW unit :=
  _ ← storage_ready;
  n ← the_raft;
  on_engine (SaveHardState (region_id_ n) (hard_state n)).

Definition PersistLogEntry (entry : LogEntry) : IO StoreW unit :=
  _ ← storage_ready;
  on_engine (AppendLog entry).

Definition RestoreRaftState : IO StoreW unit :=
  _ ← storage_ready;
  n ← the_raft;
  loaded ← status_of (on_engine (LoadHardState (region_id_ n)));
  match loaded with
  | inr st => if decide (code_ st = kKeyNotFound) then mret tt else fail st
  | inl h =>
      entries ← on_engine (LoadLog (region_id_ n));
      on_raft (Raft.Restore (hs_current_term h)
                 (if (hs_voted_for h =? 0)%N then None else Some (hs_voted_for h))
                 (hs_commit_index h) (hs_last_applied h) entries)
  end.

Definition store_dir (data_dir : string) (store_id : N) : string :=
  data_dir +:+ "/store-" +:+ to_string store_id.

Definition Store_Open (data_dir : string) : IO StoreW unit :=
  id ← gets (λ w : StoreW, store_id_ w.2);
  _ ← on_engine (Engine.Open (store_dir data_dir id));
  _ ← modify (λ w : StoreW, (w.1, set_opened w.2));
  RestoreRaftState.

Fixpoint apply_entries (entries : list LogEntry) : IO StoreW unit :=
  match entries with
  | [] => mret tt
  | entry :: rest =>
      if decide (e_type entry = kNoop) then apply_entries rest
      else
        _ ← on_engine (ApplyKvCommand (e_command entry));
        apply_entries rest
  end.

Definition ApplyCommitted : IO StoreW unit :=
  entries ← on_raft TakeCommittedEntries;
  _ ← apply_entries entries;
  PersistHardState.

Definition Store_Get (key : string) : IO StoreW string := on_engine (Engine.Get key).

(** * The cluster *)

Record SingleRegionCluster := mkCluster {
  sc_region_id : N;
  sc_leader_peer_id : N;
  sc_peer_ids : list N;
  sc_stores : list SingleRegionStore;
  sc_data_dir : string;
}.

Definition new_cluster : SingleRegionCluster := mkCluster 1 0 [] [] "".

Abbreviation ClusterW := (Disk * SingleRegionCluster)%type.

Definition set_leader (p : N) (c : SingleRegionCluster) : SingleRegionCluster :=
  mkCluster (sc_region_id c) p (sc_peer_ids c) (sc_stores c) (sc_data_dir c).
Definition set_peer_ids (ps : list N) (c : SingleRegionCluster) : SingleRegionCluster :=
  mkCluster (sc_region_id c) (sc_leader_peer_id c) ps (sc_stores c) (sc_data_dir c).
Definition set_stores (ss : list SingleRegionStore) (c : SingleRegionCluster) :
    SingleRegionCluster :=
  mkCluster (sc_region_id c) (sc_leader_peer_id c) (sc_peer_ids c) ss (sc_data_dir c).

Definition the_cluster : IO ClusterW SingleRegionCluster := gets snd.
Definition update (f : SingleRegionCluster → SingleRegionCluster) : IO ClusterW unit :=
  modify (λ w : ClusterW, (w.1, f w.2)).

(** The first store of a peer, as an index into [stores_]. *)
Definition find_peer (p : N) (ss : list SingleRegionStore) : option nat :=
  fst <$> list_find (λ s, peer_id_ s = p) ss.
Definition Leader (c : SingleRegionCluster) : option nat :=
  find_peer (sc_leader_peer_id c) (sc_stores c).
Definition FindByStoreId (id : N) (c : SingleRegionCluster) : option SingleRegionStore :=
  snd <$> list_find (λ s, store_id_ s = id) (sc_stores c).

(** A call on the store at an index. *)
Definition at_store {A} (i : nat) (m : IO StoreW A) : IO ClusterW A := λ '(d, c),
  match sc_stores c !! i with
  | None => (Fault Undefined, (d, c))
  | Some s =>
      let '(r, (d', s')) := m (d, s) in
      (r, (d', set_stores (<[i := s']> (sc_stores c)) c))
  end.

(** [for (auto& store : stores_)] with a local carried around the loop. *)
Definition for_stores {A} (f : A → IO StoreW A) (a : A) : IO ClusterW A := λ '(d, c),
  let '(r, (d', ss)) := traverse f (sc_stores c) a d in (r, (d', set_stores ss c)).

Definition leader_raft (i : nat) : IO ClusterW RaftNode := at_store i the_raft.

Definition ElectLeader (peer_id : N) : IO ClusterW unit :=
  c ← the_cluster;
  match find_peer peer_id (sc_stores c) with
  | None => fail (InvalidArgument "leader peer not found")
  | Some elected =>
      _ ← at_store elected (_ ← on_raft (modify BecomeCandidate); PersistHardState);
      n ← leader_raft elected;
      votes ← for_stores (λ votes,
        w ← get;
        if decide (peer_id_ w.2 = peer_id) then mret votes
        else
          response ← on_raft (λ m,
            let '(resp, m') := HandleRequestVote
              (mkVoteRequest (sc_region_id c) (current_term_ n) peer_id
                 (last_log_index n) (last_log_term n)) m in (Ok resp, m'));
          _ ← PersistHardState;
          mret (if rv_granted response then S votes else votes)) 1;
      if decide (votes ≤ length (sc_stores c) `div` 2) then
        fail (Internal "failed to elect leader")
      else
        _ ← at_store elected (_ ← on_raft (modify BecomeLeader); PersistHardState);
        update (set_leader peer_id)
  end.

Definition TransferLeader (peer_id : N) : IO ClusterW unit :=
  c ← the_cluster;
  if decide (sc_leader_peer_id c = peer_id) then mret tt else ElectLeader peer_id.

(** [request.prev_log_term] for an entry of the leader's log. *)
Definition prev_log_term (n : RaftNode) (entry : LogEntry) : res N :=
  if (e_index entry =? 1)%N then Ok 0%N
  else match log_ n !! N.to_nat (u64_sub (e_index entry) 2) with
       | None => Fault Undefined
       | Some e => Ok (e_term e)
       end.

Definition BroadcastCommit (commit_index : N) : IO ClusterW unit :=
  c ← the_cluster;
  match Leader c with
  | None => fail (mkStatus kNotLeader "no leader")
  | Some leader =>
      n ← leader_raft leader;
      for_stores (λ _,
        w ← get;
        if decide (peer_id_ w.2 = sc_leader_peer_id c) then mret tt
        else
          let m := raft_ w.2 in
          response ← on_raft (HandleAppendEntries
            (mkAppendRequest (sc_region_id c) (current_term_ n) (sc_leader_peer_id c)
               (last_log_index m) (last_log_term m) [] commit_index));
          if negb (ae_success response) then fail (Internal "failed to broadcast commit")
          else ApplyCommitted) tt
  end.

Definition ProposeAndReplicate (command : string) : IO ClusterW unit :=
  c ← the_cluster;
  match Leader c with
  | None => fail (mkStatus kNotLeader "no leader")
  | Some leader =>
      entry ← at_store leader (on_raft (Propose kNormal command));
      _ ← at_store leader (PersistLogEntry entry);
      n ← leader_raft leader;
      replicated ← for_stores (λ replicated,
        w ← get;
        if decide (peer_id_ w.2 = sc_leader_peer_id c) then mret replicated
        else
          prev_term ← lift (prev_log_term n entry);
          response ← on_raft (HandleAppendEntries
            (mkAppendRequest (sc_region_id c) (current_term_ n) (sc_leader_peer_id c)
               (u64_sub (e_index entry) 1) prev_term [entry] (commit_index_ n)));
          if ae_success response then
            _ ← PersistLogEntry entry;
            _ ← PersistHardState;
            mret (S replicated)
          else mret replicated) 1;
      if decide (replicated ≤ length (sc_stores c) `div` 2) then
        fail (Internal "failed to replicate entry to majority")
      else
        _ ← at_store leader (_ ← on_raft (modify (SetCommitIndex (e_index entry))); ApplyCommitted);
        BroadcastCommit (e_index entry)
  end.

Definition Put (key value : string) : IO ClusterW unit :=
  ProposeAndReplicate (EncodePutCommand key value).

Definition Delete (key : string) : IO ClusterW unit :=
  ProposeAndReplicate (EncodeDeleteCommand key).

Definition Batch (mutations : list KvMutation) : IO ClusterW unit :=
  if decide (mutations = []) then mret tt
  else ProposeAndReplicate (EncodeBatchCommand mutations).

Definition GetFromStore (store_id : N) (key : string) : IO ClusterW string := λ '(d, c),
  match FindByStoreId store_id c with
  | Some s => let '(r, _) := Store_Get key (d, s) in (r, (d, c))
  | None => (Err (mkStatus kStoreNotFound "store not found"), (d, c))
  end.

Definition ExportRangeFromLeader (start_key end_key : string) :
    IO ClusterW (list (string * string)) :=
  c ← the_cluster;
  match Leader c with
  | None => mret []
  | Some leader => at_store leader (on_engine (Engine.ScanRange start_key end_key))
  end.

(** A store object that is not yet part of the cluster. *)
Definition on_new {A} (s : SingleRegionStore) (m : IO StoreW A) :
    IO ClusterW SingleRegionStore := λ '(d, c),
  let '(r, (d', s')) := m (d, s) in
  (match r with Ok _ => Ok s' | Err st => Err st | Fault f => Fault f end, (d', c)).

Definition reserved_key (key : string) : bool :=
  starts_with "raft/" key || starts_with "region/" key || starts_with "pd/" key
  || starts_with "local/" key.

Definition bootstrap_mutations (records : list (string * string)) : list KvMutation :=
  kv_mutation <$> filter (λ kv, reserved_key kv.1 = false) records.

Fixpoint persist_log (entries : list LogEntry) : IO StoreW unit :=
  match entries with
  | [] => mret tt
  | entry :: rest => _ ← PersistLogEntry entry; persist_log rest
  end.

Definition AddPeer (store_id peer_id : N) : IO ClusterW unit :=
  c ← the_cluster;
  if bool_decide (FindByStoreId store_id c ≠ None) then
    fail (InvalidArgument "store already exists in region cluster")
  else if decide (peer_id ∈ sc_peer_ids c) then
    fail (InvalidArgument "peer already exists in region cluster")
  else
    let peer_ids := sc_peer_ids c ++ [peer_id] in
    _ ← update (set_peer_ids peer_ids);
    new ← on_new (new_store store_id peer_id (sc_region_id c) peer_ids)
            (Store_Open (sc_data_dir c));
    '(new, bootstrap) ← match Leader c with
      | None => mret (new, [])
      | Some leader =>
          records ← at_store leader (on_engine (Engine.ScanRange "" ""));
          n ← leader_raft leader;
          new ← on_new new (
            _ ← on_raft (Raft.Restore (current_term_ n) (voted_for_ n) (commit_index_ n)
                           (last_applied_ n) (log_ n));
            _ ← persist_log (log_ n);
            PersistHardState);
          mret (new, bootstrap_mutations records)
      end;
    _ ← update (λ c, set_stores (sc_stores c ++ [new]) c);
    if decide (bootstrap = []) then mret tt
    else at_store (length (sc_stores c)) (on_engine (Engine.WriteBatch bootstrap)).

Definition RemovePeer (peer_id : N) : IO ClusterW unit :=
  c ← the_cluster;
  if decide (length (sc_stores c) ≤ 1) then
    fail (InvalidArgument "cannot remove last peer")
  else match find_peer peer_id (sc_stores c) with
  | None => fail (InvalidArgument "peer not found")
  | Some i =>
      let stores := delete i (sc_stores c) in
      _ ← update (λ c, set_peer_ids (filter (λ p, p ≠ peer_id) (sc_peer_ids c))
                         (set_stores stores c));
      if decide (sc_leader_peer_id c = peer_id) then
        _ ← update (set_leader 0);
        match stores with
        | [] => throw Undefined
        | s :: _ => ElectLeader (peer_id_ s)
        end
      else mret tt
  end.

(** [std::filesystem::remove_all(dir)] on the files below [dir]. *)
Definition below (dir path : string) : bool :=
  negb (bool_decide (dir = "")) &&
  (bool_decide (path = dir) || starts_with (path_join dir "") path).
Definition remove_all {S} (dir : string) : IO (Disk * S) unit :=
  _ ← io_throwing;
  modify_files (filter (λ f, below dir f.1 = false)).

Fixpoint open_stores (n : nat) (id : N) : IO ClusterW unit :=
  match n with
  | O => mret tt
  | S n =>
      c ← the_cluster;
      s ← on_new (new_store id id (sc_region_id c) (sc_peer_ids c)) (Store_Open (sc_data_dir c));
      _ ← update (λ c, set_stores (sc_stores c ++ [s]) c);
      open_stores n (id + 1)
  end.

Definition first_ids (n : nat) : list N := (λ i, N.of_nat i + 1)%N <$> seq 0 n.

Definition Bootstrap (data_dir : string) (store_count : nat) (region_id : N)
    (reset_data : bool) : IO ClusterW unit :=
  if decide (store_count = 0) then fail (InvalidArgument "store_count must be non-zero")
  else
    _ ← update (λ c, mkCluster region_id (sc_leader_peer_id c) (sc_peer_ids c) (sc_stores c)
                       data_dir);
    _ ← (if reset_data then remove_all data_dir else mret tt);
    _ ← create_directories_throwing data_dir;
    _ ← update (λ c, set_peer_ids (first_ids store_count) (set_stores [] c));
    _ ← open_stores store_count 1;
    c ← the_cluster;
    match list_find (λ s, role_ (raft_ s) = kLeader) (sc_stores c) with
    | Some (_, s) => update (set_leader (peer_id_ s))
    | None => ElectLeader 1
    end.
