(* ===== verification/ClusterSpec.v ===== *)
(** What a replicated region promises: after a successful bootstrap or
    election every store holds the same log and the same contents, and each
    write acts on all of them as one write to one map. *)

From S2P Require Import Prelude Types Text Engine Raft RaftStorage Keyspace Cluster.

(** * Running calls on parts *)

Lemma on_engine_run {A} (m : IO EngineW A) d s r d' e' :
  m (d, engine_ s) = (r, (d', e')) → on_engine m (d, s) = (r, (d', set_engine e' s)).
Proof. unfold on_engine, zoom. cbn [fst snd]. by intros ->. Qed.

Lemma on_raft_run {A} (m : IO RaftNode A) d s r n' :
  m (raft_ s) = (r, n') → on_raft m (d, s) = (r, (d, set_raft n' s)).
Proof. unfold on_raft, zoom. cbn [fst snd]. by intros ->. Qed.

Lemma at_store_run {A} i (m : IO StoreW A) d c s r d' s' :
  sc_stores c !! i = Some s → m (d, s) = (r, (d', s')) →
  at_store i m (d, c) = (r, (d', set_stores (<[i := s']> (sc_stores c)) c)).
Proof. unfold at_store. by intros -> ->. Qed.

(** * The state of a store *)

(** What a store holds: its Raft view, and the users' contents. *)
Record holds (s : SingleRegionStore) (r : N) (role : RaftRole) (t : N) (log : list LogEntry)
    (c a : N) (data : DataMap) : Prop := {
  h_opened : opened_ s = true;
  h_region : region_id_ (raft_ s) = r;
  h_role : role_ (raft_ s) = role;
  h_term : current_term_ (raft_ s) = t;
  h_log : log_ (raft_ s) = log;
  h_commit : commit_index_ (raft_ s) = c;
  h_applied : last_applied_ (raft_ s) = a;
  h_data : user_part (data_ (engine_ s)) = data;
}.

(** The identity of a store never changes. *)
Definition same_ids (s s' : SingleRegionStore) : Prop :=
  store_id_ s' = store_id_ s ∧ peer_id_ s' = peer_id_ s.

#[export] Instance same_ids_preorder : PreOrder same_ids.
Proof.
  split; [by intros s|]. intros a b c [H1 H2] [H3 H4]. split; congruence.
Qed.

Lemma holds_wf s r role t log c a data :
  holds s r role t log c a data → log_from r 0 log → (c <= N.of_nat (length log))%N →
  (a <= c)%N → wf (raft_ s).
Proof.
  intros [_ Hr _ _ Hlog Hcommit Happlied _] Hl Hc Ha.
  split; by rewrite ?Hr, ?Hlog, ?Hcommit, ?Happlied.
Qed.

Lemma storage_ready_ok d s : opened_ s = true → storage_ready (d, s) = (Ok tt, (d, s)).
Proof. intros Ho. unfold storage_ready. run. cbn [snd]. by rewrite Ho. Qed.

(** A call on the Raft node that leaves the rest of the store, and what the node
    is and voted for. *)
Definition still (s s' : SingleRegionStore) : Prop :=
  engine_ s' = engine_ s ∧ opened_ s' = opened_ s ∧
  self_id_ (raft_ s') = self_id_ (raft_ s) ∧ voted_for_ (raft_ s') = voted_for_ (raft_ s).

(** A successful engine write, seen from the store. *)
Lemma engine_write_run (m : IO EngineW unit) ms d s :
  m = Engine.WriteBatch ms → disk_ok d →
  ∃ d' e', on_engine m (d, s) = (Ok tt, (d', set_engine e' s)) ∧ disk_ok d' ∧
    data_ e' = apply_batch (data_ (engine_ s)) ms.
Proof.
  intros Hm Hd. do 2 eexists. split.
  - apply on_engine_run. rewrite Hm. by apply WriteBatch_ok.
  - split; [by apply write_disk_ok | done].
Qed.

Lemma PersistHardState_holds d s r role t log c a data :
  disk_ok d → holds s r role t log c a data →
  ∃ d' s', PersistHardState (d, s) = (Ok tt, (d', s')) ∧ disk_ok d' ∧ same_ids s s' ∧
    holds s' r role t log c a data.
Proof.
  intros Hd [Ho Hr Hro Ht Hl Hc Ha Hdata].
  destruct (engine_write_run (SaveHardState (region_id_ (raft_ s)) (hard_state (raft_ s)))
    (hard_batch (region_id_ (raft_ s)) (hard_state (raft_ s))) d s
    (SaveHardState_batch _ _) Hd) as (d' & e' & Hrun & Hd' & He').
  exists d', (set_engine e' s). split.
  - unfold PersistHardState, the_raft. run_call ltac:(by apply storage_ready_ok).
    run. exact Hrun.
  - split_and!; [done | done|]. split; try done. cbn [engine_ set_engine].
    rewrite He', user_part_frame; [done | apply hard_batch_not_user].
Qed.

Lemma PersistLogEntry_holds d s e r role t log c a data :
  disk_ok d → holds s r role t log c a data →
  ∃ d' s', PersistLogEntry e (d, s) = (Ok tt, (d', s')) ∧ disk_ok d' ∧ same_ids s s' ∧
    raft_ s' = raft_ s ∧ holds s' r role t log c a data.
Proof.
  intros Hd [Ho Hr Hro Ht Hl Hc Ha Hdata].
  destruct (engine_write_run (AppendLog e)
    [mkMutation kPut (RaftLogKey (e_region_id e) (e_index e)) (SerializeLogEntry e)]
    d s (AppendLog_batch e) Hd) as (d' & e' & Hrun & Hd' & He').
  exists d', (set_engine e' s). split.
  - unfold PersistLogEntry. run_call ltac:(by apply storage_ready_ok). exact Hrun.
  - split_and!; [done | done | done|]. split; try done. cbn [engine_ set_engine].
    rewrite He', user_part_frame; [done|]. repeat constructor. apply log_key_not_user.
Qed.

(** * The steps of a write *)

(** An entry list right behind the follower's log, sent by the leader of the
    follower's own term. *)
Lemma append_here n r es t :
  wf n → role_ n = kFollower → current_term_ n = t →
  ae_term r = t → ae_prev_log_index r = N.of_nat (length (log_ n)) →
  ae_prev_log_term r = last_log_term n → ae_entries r = es →
  log_from (region_id_ n) (N.of_nat (length (log_ n))) es →
  HandleAppendEntries r n =
  (Ok (mkAppendResponse t true (N.of_nat (length (log_ n ++ es)))),
   follow_commit (ae_leader_commit r) (with_entries (log_ n ++ es) n)).
Proof.
  intros Hwf Hrole Ht Hrt Hprev Hpt Hes Hlog. unfold HandleAppendEntries. run.
  rewrite Hrt, Ht, N.ltb_irrefl. run. rewrite ?Hrt, Ht, N.ltb_irrefl, Hrole.
  rewrite bool_decide_eq_false_2 by (by intros []). cbn [orb].
  assert (HasLogAt n (ae_prev_log_index r) (ae_prev_log_term r) = true) as ->.
  { apply HasLogAt_spec. rewrite Hprev, Hpt. unfold last_log_term. rewrite last_lookup.
    destruct (decide (length (log_ n) = 0)) as [H0 | H0].
    - left. apply length_zero_iff_nil in H0. by rewrite H0.
    - right. split; [lia|].
      destruct (lookup_lt_is_Some_2 (log_ n) (length (log_ n) - 1)) as [e He]; [lia|].
      exists e. replace (pred (length (log_ n))) with (length (log_ n) - 1) by lia.
      replace (N.to_nat (N.of_nat (length (log_ n)) - 1)) with (length (log_ n) - 1) by lia.
      by rewrite He. }
  cbn [negb]. rewrite Hes. run_call ltac:(by apply append_new). cbn [negb]. run.
  assert (last_log_index (with_entries (log_ n ++ es) n) = N.of_nat (length (log_ n ++ es)))
    as Hlast.
  { apply (wf_last_index (with_entries (log_ n ++ es) n)). destruct Hwf as [Hl Hc Ha].
    split; [|cbn; rewrite length_app; lia | done]. apply log_from_app. done. }
  rewrite ret_run. do 3 f_equal; [done|]. rewrite <-Hlast. unfold follow_commit. by case_match.
Qed.

(** The entry a leader of region [r] and term [t] proposes behind [log]. *)
Definition next_entry (r t : N) (log : list LogEntry) (cmd : string) : LogEntry :=
  mkEntry r (N.of_nat (length log) + 1) t kNormal cmd.

Section write.
Context (r t : N) (log : list LogEntry) (cmd : string).
Context (Hlog : log_from r 0 log).

Abbreviation e := (next_entry r t log cmd).
Abbreviation len := (N.of_nat (length log)).

Lemma log_from_next : log_from r 0 (log ++ [e]).
Proof.
  apply log_from_app. split; [done|]. apply log_from_cons.
  split_and!; [done | done | apply log_from_nil].
Qed.

Lemma length_next : N.of_nat (length (log ++ [e])) = (len + 1)%N.
Proof. rewrite length_app. simpl. lia. Qed.

Lemma Propose_holds d s c a data :
  (len + 1 < two64)%N → holds s r kLeader t log c a data → wf (raft_ s) →
  ∃ s', on_raft (Propose kNormal cmd) (d, s) = (Ok e, (d, s')) ∧ same_ids s s' ∧ still s s' ∧
    holds s' r kLeader t (log ++ [e]) c a data.
Proof.
  intros Hlen [Ho Hr Hro Ht Hl Hc Ha Hd] Hwf.
  exists (set_raft (push_entry e (raft_ s)) s). split; [|split; [done|split; [done|]]].
  - apply on_raft_run. unfold Propose. run. rewrite Hro. cbn. run.
    rewrite wf_last_index, Hl, Hr, Ht, u64_small by done. done.
  - by split; cbn; rewrite ?Hl.
Qed.

Lemma prev_log_term_next n m :
  (len + 1 < two64)%N → log_ n = log ++ [e] → log_ m = log → prev_log_term n e = Ok (last_log_term m).
Proof.
  intros Hlen Hn Hm. unfold prev_log_term. cbn [e_index next_entry]. rewrite Hn.
  unfold last_log_term. rewrite Hm, last_lookup.
  destruct (N.eqb_spec (len + 1) 1) as [H1 | H1].
  - assert (length log = 0) as H0 by lia. apply length_zero_iff_nil in H0. by rewrite H0.
  - rewrite u64_sub_le by lia. replace (N.to_nat (len + 1 - 2)) with (pred (length log)) by lia.
    destruct (lookup_lt_is_Some_2 log (pred (length log))) as [x Hx]; [lia|].
    rewrite lookup_app_l by lia. by rewrite Hx.
Qed.

Lemma follower_appends d s data req :
  holds s r kFollower t log len len data →
  ae_term req = t → ae_prev_log_index req = len →
  ae_prev_log_term req = last_log_term (raft_ s) → ae_entries req = [e] →
  (ae_leader_commit req <= len)%N →
  ∃ s', on_raft (HandleAppendEntries req) (d, s) =
          (Ok (mkAppendResponse t true (len + 1)), (d, s')) ∧ same_ids s s' ∧ still s s' ∧
    holds s' r kFollower t (log ++ [e]) len len data.
Proof.
  intros Hs Hrt Hprev Hpt Hes Hcom. pose proof Hs as [Ho Hr Hro Ht Hl Hc Ha Hd].
  exists (set_raft (with_entries (log_ (raft_ s) ++ [e]) (raft_ s)) s).
  split; [|split; [done | split; [done | split; try done; cbn; by rewrite Hl]]].
  apply on_raft_run. rewrite (append_here _ req [e] t); try done.
  - rewrite Hl, length_next. do 2 f_equal. unfold follow_commit.
    destruct (N.ltb_spec (commit_index_ (with_entries (log ++ [e]) (raft_ s)))
      (ae_leader_commit req)) as [H|]; [cbn in H; lia | done].
  - by eapply holds_wf.
  - by rewrite Hl.
  - rewrite Hr, Hl. apply log_from_cons. split_and!; [done | done | apply log_from_nil].
Qed.

(** The empty request that carries the new commit position. *)
Lemma follower_commits d s data req :
  holds s r kFollower t (log ++ [e]) len len data →
  ae_term req = t → ae_prev_log_index req = (len + 1)%N →
  ae_prev_log_term req = last_log_term (raft_ s) → ae_entries req = [] →
  ae_leader_commit req = (len + 1)%N →
  ∃ s', on_raft (HandleAppendEntries req) (d, s) =
          (Ok (mkAppendResponse t true (len + 1)), (d, s')) ∧ same_ids s s' ∧ still s s' ∧
    holds s' r kFollower t (log ++ [e]) (len + 1) len data.
Proof.
  intros Hs Hrt Hprev Hpt Hes Hcom. pose proof Hs as [Ho Hr Hro Ht Hl Hc Ha Hd].
  assert (wf (raft_ s)) as Hwf.
  { eapply holds_wf; [done | apply log_from_next | rewrite length_next; lia | lia]. }
  exists (set_raft (with_log (len + 1) len (log ++ [e]) (raft_ s)) s).
  split; [|split; [done | split; [done | by split]]].
  apply on_raft_run. rewrite (append_here _ req [] t); try done.
  - rewrite app_nil_r, Hl, length_next, Hcom. do 2 f_equal. unfold follow_commit.
    unfold with_entries. cbn [commit_index_ with_log]. rewrite Hc.
    destruct (N.ltb_spec len (len + 1)); [|lia].
    rewrite (wf_last_index (with_log len (last_applied_ (raft_ s)) (log ++ [e]) (raft_ s))).
    + cbn. by rewrite length_next, N.min_id, Ha.
    + destruct Hwf as [? ? ?]. rewrite Hl in *. split; cbn; [done | lia | lia].
  - by rewrite Hl, length_next.
Qed.

Context (ms : list KvMutation) (Hcmd : ApplyKvCommand cmd = Engine.WriteBatch ms).
Context (Hms : user_batch ms).

Lemma ApplyCommitted_holds d s role data :
  disk_ok d → holds s r role t (log ++ [e]) (len + 1) len data →
  ∃ d' s', ApplyCommitted (d, s) = (Ok tt, (d', s')) ∧ disk_ok d' ∧ same_ids s s' ∧
    holds s' r role t (log ++ [e]) (len + 1) (len + 1) (apply_batch data ms).
Proof.
  intros Hd Hs. pose proof Hs as [Ho Hr Hro Ht Hl Hc Ha Hdata].
  assert (wf (raft_ s)) as Hwf.
  { eapply holds_wf; [done | apply log_from_next | rewrite length_next; lia | lia]. }
  set (s1 := set_raft (with_log (len + 1) (len + 1) (log ++ [e]) (raft_ s)) s).
  destruct (engine_write_run (ApplyKvCommand cmd) ms d s1 Hcmd Hd)
    as (d2 & e2 & Hrun2 & Hd2 & He2).
  destruct (PersistHardState_holds d2 (set_engine e2 s1) r role t (log ++ [e])
    (len + 1) (len + 1) (apply_batch data ms) Hd2) as (d3 & s3 & Hrun3 & Hd3 & Hid3 & Hs3).
  { split; try done. cbn [engine_ set_engine]. rewrite He2, user_part_user by done.
    cbn. by rewrite Hdata. }
  exists d3, s3. split; [|split_and!; [done | by etrans; [|exact Hid3] | done]].
  unfold ApplyCommitted. run_call ltac:(apply on_raft_run, TakeCommittedEntries_spec, Hwf).
  rewrite Hc, Ha, Hl. replace (N.to_nat (len + 1 - len)) with 1 by lia.
  rewrite Nat2N.id, drop_app_length. cbn [take apply_entries e_type next_entry].
  run_call ltac:(rewrite decide_False by done; run_call ltac:(exact Hrun2); reflexivity).
  exact Hrun3.
Qed.

Lemma leader_commits d s data :
  disk_ok d → holds s r kLeader t (log ++ [e]) len len data →
  ∃ d' s', (on_raft (modify (SetCommitIndex (len + 1))) ≫= λ _, ApplyCommitted) (d, s) =
             (Ok tt, (d', s')) ∧ disk_ok d' ∧ same_ids s s' ∧
    holds s' r kLeader t (log ++ [e]) (len + 1) (len + 1) (apply_batch data ms).
Proof.
  intros Hd Hs. pose proof Hs as [Ho Hr Hro Ht Hl Hc Ha Hdata].
  assert (wf (raft_ s)) as Hwf.
  { eapply holds_wf; [done | apply log_from_next | rewrite length_next; lia | lia]. }
  set (s1 := set_raft (SetCommitIndex (len + 1) (raft_ s)) s).
  assert (holds s1 r kLeader t (log ++ [e]) (len + 1) len data) as Hs1.
  { split; try done. cbn. by rewrite wf_last_index, Hl, length_next, N.min_id. }
  destruct (ApplyCommitted_holds d s1 kLeader data Hd Hs1) as (d2 & s2 & Hrun & ?&Hid&?).
  exists d2, s2. split; [|split_and!; [done | by etrans; [|exact Hid] | done]].
  run_call ltac:(by apply on_raft_run). exact Hrun.
Qed.
End write.

(** * The leader and its followers *)

(** [L] holds at the peer [p], [F] at the others. *)
Definition phase (p : N) (F L : SingleRegionStore → Prop) (s : SingleRegionStore) : Prop :=
  if decide (peer_id_ s = p) then L s else F s.

Lemma find_peer_Some p ss i :
  find_peer p ss = Some i → ∃ s, ss !! i = Some s ∧ peer_id_ s = p.
Proof.
  unfold find_peer. intros ([j s] & (Hj & Hp & _)%list_find_Some & ->)%fmap_Some.
  by exists s.
Qed.

Lemma find_peer_member p ss : p ∈ peer_id_ <$> ss → is_Some (find_peer p ss).
Proof.
  intros (s & Hp & Hs)%list_elem_of_fmap.
  destruct (list_find_elem_of (λ s, peer_id_ s = p) ss s Hs (eq_sym Hp)) as [[i x] Hf].
  exists i. unfold find_peer. by rewrite Hf.
Qed.

Lemma find_peer_not_member p ss : p ∉ peer_id_ <$> ss → find_peer p ss = None.
Proof.
  intros Hp. destruct (find_peer p ss) as [i|] eqn:Hf; [|done].
  apply find_peer_Some in Hf as (s & Hs & Hps). exfalso. apply Hp.
  apply list_elem_of_fmap. exists s. split; [done|]. by eapply list_elem_of_lookup_2.
Qed.

Lemma same_ids_peers ss ss' :
  Forall2 same_ids ss ss' → peer_id_ <$> ss' = peer_id_ <$> ss.
Proof. induction 1 as [|s s' ss ss' [_ Hp] _ IH]; [done|]. rewrite !fmap_cons. congruence. Qed.

Lemma find_peer_same p ss ss' : Forall2 same_ids ss ss' → find_peer p ss' = find_peer p ss.
Proof.
  unfold find_peer. induction 1 as [|s s' ss ss' [_ Hp] _ IH]; [done|].
  cbn [list_find]. rewrite Hp. case_decide; [done|].
  destruct (list_find _ ss') as [[]|], (list_find _ ss) as [[]|]; simpl in *; congruence.
Qed.

Lemma same_ids_insert ss i s s' :
  ss !! i = Some s → same_ids s s' → Forall2 same_ids ss (<[i := s']> ss).
Proof.
  intros Hi Hs. rewrite <-(list_insert_id ss i s) at 1 by done.
  apply list.Forall2_insert; [|done]. by apply list.Forall_Forall2_diag, list.Forall_true.
Qed.

Lemma nodup_peers ss i j s s' :
  NoDup (peer_id_ <$> ss) → ss !! i = Some s → ss !! j = Some s' →
  peer_id_ s = peer_id_ s' → i = j.
Proof.
  intros Hnd Hi Hj Hp. eapply NoDup_lookup; [exact Hnd| |].
  - rewrite list_lookup_fmap, Hi. done.
  - rewrite list_lookup_fmap, Hj. simpl. by rewrite Hp.
Qed.

Lemma phase_insert p F L L' ss i s' :
  NoDup (peer_id_ <$> ss) → find_peer p ss = Some i → Forall (phase p F L) ss →
  peer_id_ s' = p → L' s' → Forall (phase p F L') (<[i := s']> ss).
Proof.
  intros Hnd (s & Hs & Hp)%find_peer_Some Hall Hp' HL. apply list.Forall_lookup. intros j x Hj.
  apply list_lookup_insert_Some in Hj as [(<- & <- & _) | (Hne & Hj)].
  - unfold phase. by rewrite decide_True.
  - pose proof (list.Forall_lookup_1 _ _ _ _ Hall Hj) as Hx. unfold phase in *.
    destruct (decide (peer_id_ x = p)) as [Hxp|]; [|done].
    exfalso. apply Hne. eapply nodup_peers; [done..|]. congruence.
Qed.

Lemma leader_raft_run i d c s :
  sc_stores c !! i = Some s → leader_raft i (d, c) = (Ok (raft_ s), (d, c)).
Proof.
  intros Hi. unfold leader_raft. erewrite at_store_run; [|exact Hi|reflexivity].
  rewrite list_insert_id by done. by destruct c.
Qed.

(** ** Calls on stores that share a disk *)

(** [R p d d'] is what a call on the store of the peer [p] may do to the disk. *)
Section shared_disk.
Context (R : N → Disk → Disk → Prop) `{∀ p, PreOrder (R p)}.

(** What calls on other stores leave alone. *)
Definition stable (F : Disk → SingleRegionStore → Prop) : Prop :=
  ∀ p d d' s, R p d d' → peer_id_ s ≠ p → F d s → F d' s.

(** The call succeeds with [x] and takes the store to a state of [F']. *)
Definition takes {A} (m : IO StoreW A) (x : A) (F' : Disk → SingleRegionStore → Prop)
    (w : StoreW) : Prop :=
  ∃ d' s', m w = (Ok x, (d', s')) ∧ R (peer_id_ w.2) w.1 d' ∧ same_ids w.2 s' ∧ F' d' s'.

Lemma takes_bind {A B} (m : IO StoreW A) (f : A → IO StoreW B) x y F F' w :
  takes m x F w → (∀ d s, same_ids w.2 s → F d s → takes (f x) y F' (d, s)) →
  takes (m ≫= f) y F' w.
Proof.
  intros (d1 & s1 & Hrun1 & HR1 & Hid1 & HF1) Hf.
  destruct (Hf d1 s1 Hid1 HF1) as (d2 & s2 & Hrun2 & HR2 & Hid2 & HF2). cbn [fst snd] in *.
  destruct w as [d s]. exists d2, s2. split_and!; [by run_call ltac:(exact Hrun1) | | by etrans | done].
  etrans; [exact HR1|]. destruct Hid1 as [_ Hp]. by rewrite <-Hp.
Qed.

Lemma stable_phase p F L : stable F → stable L → stable (λ d, phase p (F d) (L d)).
Proof.
  intros HF HL q d d' s Hs Hne. unfold phase.
  case_decide; [by apply (HL q d d') | by apply (HF q d d')].
Qed.

(** A successful call at the leader. *)
Lemma at_leader {A} p F L L' (m : IO StoreW A) (x : A) i d c :
  stable F → NoDup (peer_id_ <$> sc_stores c) → find_peer p (sc_stores c) = Some i →
  Forall (phase p (F d) (L d)) (sc_stores c) →
  (∀ d s, peer_id_ s = p → L d s → takes m x L' (d, s)) →
  ∃ d' ss' s', at_store i m (d, c) = (Ok x, (d', set_stores ss' c)) ∧
    Forall2 same_ids (sc_stores c) ss' ∧ Forall (phase p (F d') (L' d')) ss' ∧
    ss' !! i = Some s' ∧ peer_id_ s' = p ∧ L' d' s'.
Proof.
  intros HF Hnd Hfind Hall Hm. destruct (find_peer_Some _ _ _ Hfind) as (s & Hs & Hp).
  pose proof (list.Forall_lookup_1 _ _ _ _ Hall Hs) as HL. unfold phase in HL.
  rewrite decide_True in HL by done.
  destruct (Hm d s Hp HL) as (d' & s' & Hrun & HR & Hid & HL'). cbn [fst snd] in *.
  assert (peer_id_ s' = p) as Hp' by (destruct Hid as [_ ->]; done).
  exists d', (<[i := s']> (sc_stores c)), s'. split_and!; [| | | |done|done].
  - by apply at_store_run with (s := s).
  - by eapply same_ids_insert.
  - apply list.Forall_lookup. intros j y Hj.
    apply list_lookup_insert_Some in Hj as [(<- & <- & _) | (Hne & Hj)].
    + unfold phase. by rewrite decide_True.
    + pose proof (list.Forall_lookup_1 _ _ _ _ Hall Hj) as Hy. unfold phase in *.
      assert (peer_id_ y ≠ p) as Hyp 
        by (intros Hyp; apply Hne, (nodup_peers (sc_stores c) i j s y); [done..|congruence]).
      rewrite decide_False in * by done. eapply HF; [exact HR | congruence | done].
  - apply list_lookup_insert_eq. by eapply lookup_lt_Some.
Qed.

(** A loop whose body succeeds at every store. *)
Lemma traverse_takes {A} (f : A → IO StoreW A) (g : A → SingleRegionStore → A) P Q ss : ∀ a d,
  stable P → stable Q → NoDup (peer_id_ <$> ss) → Forall (P d) ss →
  (∀ d s a, P d s → takes (f a) (g a s) Q (d, s)) →
  ∃ d' ss', traverse f ss a d = (Ok (foldl g a ss), (d', ss')) ∧ Forall2 same_ids ss ss' ∧
    Forall (Q d') ss' ∧
    (∀ G s0, stable G → peer_id_ s0 ∉ peer_id_ <$> ss → G d s0 → G d' s0).
Proof.
  induction ss as [|s ss IH]; intros a d HP HQ Hnd Hss Hf.
  { exists d, []. split_and!; [done | constructor | constructor | by intros]. }
  rewrite fmap_cons in Hnd. apply list.NoDup_cons in Hnd as [Hs Hnd].
  apply list.Forall_cons in Hss as [Hps Hss].
  destruct (Hf d s a Hps) as (d1 & s1 & Hrun & HR & Hid & HQ1). cbn [fst snd] in *.
  destruct (IH (g a s) d1 HP HQ Hnd) as (d2 & ss2 & Hrest & Hids & HQ2 & Hframe); [|done|].
  { rewrite list.Forall_forall in Hss |- *. intros x Hx. eapply HP; [exact HR| |by apply Hss].
    intros Heq. apply Hs, list_elem_of_fmap. exists x. split; [by symmetry | done]. }
  exists d2, (s1 :: ss2). cbn [traverse foldl]. rewrite Hrun, Hrest.
  split_and!; [done | by constructor | constructor; [|done] |].
  - apply (Hframe Q); [done| |done]. destruct Hid as [_ ->]. done.
  - intros G s0 HG Hs0 HGs. rewrite fmap_cons, not_elem_of_cons in Hs0. destruct Hs0.
    apply (Hframe G); [done..|]. by eapply HG.
Qed.

(** A loop that skips the leader and succeeds at every follower. *)
Lemma at_followers {A} p F F' L (f : A → IO StoreW A) (g : A → A) a d c :
  stable F → stable F' → stable L → NoDup (peer_id_ <$> sc_stores c) →
  Forall (phase p (F d) (L d)) (sc_stores c) →
  (∀ d s a, peer_id_ s = p → f a (d, s) = (Ok a, (d, s))) →
  (∀ d s a, peer_id_ s ≠ p → F d s → takes (f a) (g a) F' (d, s)) →
  ∃ d' ss', for_stores f a (d, c) =
      (Ok (foldl (λ a s, if decide (peer_id_ s = p) then a else g a) a (sc_stores c)),
       (d', set_stores ss' c)) ∧
    Forall2 same_ids (sc_stores c) ss' ∧ Forall (phase p (F' d') (L d')) ss'.
Proof.
  intros HF HF' HL Hnd Hall Hskip Hf.
  destruct (traverse_takes f (λ a s, if decide (peer_id_ s = p) then a else g a)
    (λ d, phase p (F d) (L d)) (λ d, phase p (F' d) (L d)) (sc_stores c) a d)
    as (d' & ss' & Hrun & Hid & HQ & _);
    [exact (stable_phase p F L HF HL) | exact (stable_phase p F' L HF' HL) | done | exact Hall | |].
  - intros d0 s a0 Hs. unfold phase in Hs. case_decide as Hp.
    + exists d0, s. split_and!; [by apply Hskip | reflexivity | done |].
      unfold phase. by rewrite decide_True.
    + destruct (Hf d0 s a0 Hp Hs) as (d1 & s1 & Hrun & HR & Hid & HF1).
      exists d1, s1. split_and!; [done..|]. cbn [fst snd] in *. unfold phase.
      rewrite decide_False; [done|]. destruct Hid as [_ ->]. done.
  - exists d', ss'. unfold for_stores. by rewrite Hrun.
Qed.
End shared_disk.

(** All that is asked of a call is that the disk goes on working. *)
Definition works (p : N) (d d' : Disk) : Prop := disk_ok d → disk_ok d'.

#[export] Instance works_preorder p : PreOrder (works p).
Proof. unfold works. split; [intros d Hd; exact Hd | intros a b c Hab Hbc Ha; by apply Hbc, Hab]. Qed.

Definition on_disk (F : SingleRegionStore → Prop) (d : Disk) (s : SingleRegionStore) : Prop :=
  disk_ok d ∧ F s.

Lemma stable_on_disk F : stable works (on_disk F).
Proof. intros p d d' s Hs _ [Hd HF]. split; [by apply Hs | done]. Qed.

#[export] Hint Resolve stable_on_disk : core.

Lemma takes_on_disk {A} (m : IO StoreW A) x (F' : SingleRegionStore → Prop) d s :
  (∃ d' s', m (d, s) = (Ok x, (d', s')) ∧ disk_ok d' ∧ same_ids s s' ∧ F' s') →
  takes works m x (on_disk F') (d, s).
Proof. intros (d' & s' & ?&?&?&?). exists d', s'. split_and!; [done | by intros _ | done | by split]. Qed.

Lemma phase_on_disk p F L d ss :
  disk_ok d → Forall (phase p F L) ss → Forall (phase p (on_disk F d) (on_disk L d)) ss.
Proof.
  intros Hd Hss. eapply list.Forall_impl; [exact Hss|]. intros s. unfold phase, on_disk.
  by case_decide.
Qed.

(** Everybody but the leader is counted. *)
Lemma count_followers p ss n :
  NoDup (peer_id_ <$> ss) → p ∈ peer_id_ <$> ss →
  S (foldl (λ a s, if decide (peer_id_ s = p) then a else S a) n ss) = n + length ss.
Proof.
  assert (∀ ss n, p ∉ peer_id_ <$> ss →
    foldl (λ a s, if decide (peer_id_ s = p) then a else S a) n ss = n + length ss) as Hnone.
  { intros ss'. induction ss' as [|s ss' IH]; intros m Hp; [simpl; lia|].
    rewrite fmap_cons, not_elem_of_cons in Hp. cbn [foldl length].
    rewrite decide_False, IH by naive_solver. lia. }
  revert n. induction ss as [|s ss IH]; intros n Hnd Hp; [by apply elem_of_nil in Hp|].
  rewrite fmap_cons in Hnd, Hp. apply list.NoDup_cons in Hnd as [Hs Hnd].
  cbn [foldl length]. destruct (decide (peer_id_ s = p)) as [<- | Hne].
  - rewrite Hnone by done. lia.
  - apply elem_of_cons in Hp as [? | Hp]; [congruence|]. rewrite IH by done. lia.
Qed.

Lemma same_ids_length ss ss' : Forall2 same_ids ss ss' → length ss = length ss'.
Proof. apply list.Forall2_length. Qed.

(** All of a non-empty group are more than half. *)
Lemma majority_of_all k i (ss : list SingleRegionStore) :
  S k = 1 + length ss → i < length ss → ¬ k ≤ length ss `div` 2.
Proof. intros Hk Hi. pose proof (Nat.div_lt (length ss) 2). lia. Qed.

(** * The invariant of a led region *)

Definition caught_up (role : RaftRole) (r t : N) (log : list LogEntry) (data : DataMap)
    (s : SingleRegionStore) : Prop :=
  holds s r role t log (N.of_nat (length log)) (N.of_nat (length log)) data.

(** One peer leads, all stores are in its term, have its log, have applied all
    of it, and hold the same user contents [data]. *)
Record in_sync (c : SingleRegionCluster) (t : N) (log : list LogEntry) (data : DataMap) :
    Prop := {
  sync_stores : Forall (phase (sc_leader_peer_id c)
    (caught_up kFollower (sc_region_id c) t log data)
    (caught_up kLeader (sc_region_id c) t log data)) (sc_stores c);
  sync_peers : NoDup (peer_id_ <$> sc_stores c);
  sync_leader : sc_leader_peer_id c ∈ peer_id_ <$> sc_stores c;
  sync_log : log_from (sc_region_id c) 0 log;
}.

(** The same region, leader and stores by identity. *)
Definition same_shape (c c' : SingleRegionCluster) : Prop :=
  sc_region_id c' = sc_region_id c ∧ sc_leader_peer_id c' = sc_leader_peer_id c ∧
  sc_peer_ids c' = sc_peer_ids c ∧ sc_data_dir c' = sc_data_dir c ∧
  Forall2 same_ids (sc_stores c) (sc_stores c').

#[export] Instance same_shape_preorder : PreOrder same_shape.
Proof.
  split.
  - intros c. split_and!; [done..|]. by apply list.Forall_Forall2_diag, list.Forall_true.
  - intros a b c (?&?&?&?&Hs1) (?&?&?&?&Hs2). split_and!; [congruence..|].
    by etrans.
Qed.

Lemma same_shape_stores c ss : Forall2 same_ids (sc_stores c) ss → same_shape c (set_stores ss c).
Proof. done. Qed.

(** * The rounds of a write and of an election

    What a write or an election does, in terms of what its calls do to the
    leader and to each follower. *)

Section rounds.
Context (R : N → Disk → Disk → Prop) `{∀ p, PreOrder (R p)}.

(** The body of the loop that offers a new entry to every follower. *)
Definition offer (c : SingleRegionCluster) (entry : LogEntry) (n : RaftNode) (replicated : nat) :
    IO StoreW nat :=
  w ← get;
  if decide (peer_id_ w.2 = sc_leader_peer_id c) then mret replicated
  else
    prev_term ← lift (prev_log_term n entry);
    response ← on_raft (HandleAppendEntries
      (mkAppendRequest (sc_region_id c) (current_term_ n) (sc_leader_peer_id c)
         (u64_sub (e_index entry) 1) prev_term [entry] (commit_index_ n)));
    if ae_success response then
      _ ← PersistLogEntry entry;
      _ ← PersistHardState;
      mret (S replicated)
    else mret replicated.

(** The body of the loop that tells the followers how far to apply. *)
Definition tell (c : SingleRegionCluster) (n : RaftNode) (commit_index : N) (_ : unit) :
    IO StoreW unit :=
  w ← get;
  if decide (peer_id_ w.2 = sc_leader_peer_id c) then mret tt
  else
    let m := raft_ w.2 in
    response ← on_raft (HandleAppendEntries
      (mkAppendRequest (sc_region_id c) (current_term_ n) (sc_leader_peer_id c)
         (last_log_index m) (last_log_term m) [] commit_index));
    if negb (ae_success response) then fail (Internal "failed to broadcast commit")
    else ApplyCommitted.

(** The body of the loop that asks for votes. *)
Definition solicit (c : SingleRegionCluster) (pid : N) (n : RaftNode) (votes : nat) :
    IO StoreW nat :=
  w ← get;
  if decide (peer_id_ w.2 = pid) then mret votes
  else
    response ← on_raft (λ m,
      let '(resp, m') := HandleRequestVote
        (mkVoteRequest (sc_region_id c) (current_term_ n) pid
           (last_log_index n) (last_log_term n)) m in
      (Ok resp, m'));
    _ ← PersistHardState;
    mret (if rv_granted response then S votes else votes).

Lemma everyone_counts p (ss ss' : list SingleRegionStore) i :
  NoDup (peer_id_ <$> ss) → find_peer p ss = Some i → length ss = length ss' →
  ¬ foldl (λ a s, if decide (peer_id_ s = p) then a else S a) 1 ss ≤ length ss' `div` 2.
Proof.
  intros Hnd (s & Hs & Hp)%find_peer_Some Hlen.
  pose proof (count_followers p ss 1 Hnd) as Hcount. rewrite <-Hlen.
  eapply majority_of_all; [apply Hcount | by eapply lookup_lt_Some].
  apply list_elem_of_fmap. exists s. split; [done | by eapply list_elem_of_lookup_2].
Qed.

Lemma BroadcastCommit_rounds F F' L k i d c :
  stable R F → stable R F' → stable R L →
  NoDup (peer_id_ <$> sc_stores c) → Leader c = Some i →
  Forall (phase (sc_leader_peer_id c) (F d) (L d)) (sc_stores c) →
  (∀ d s dl l, peer_id_ s ≠ sc_leader_peer_id c → L dl l → F d s →
     takes R (tell c (raft_ l) k tt) tt F' (d, s)) →
  ∃ d' c', BroadcastCommit k (d, c) = (Ok tt, (d', c')) ∧ same_shape c c' ∧
    Forall (phase (sc_leader_peer_id c) (F' d') (L d')) (sc_stores c').
Proof.
  intros HF HF' HL Hnd Hi Hall Htell. pose proof Hi as (l & Hl & Hp)%find_peer_Some.
  pose proof (list.Forall_lookup_1 _ _ _ _ Hall Hl) as HLl. unfold phase in HLl.
  rewrite decide_True in HLl by done.
  destruct (at_followers R (sc_leader_peer_id c) F F' L (tell c (raft_ l) k) (λ _, tt) tt d c
    HF HF' HL Hnd Hall) as (d' & ss' & Hrun & Hid & Hall').
  { intros d0 s0 [] Hp0. unfold tell. run. cbn [snd]. by rewrite decide_True. }
  { intros d0 s0 [] Hp0 HF0. by apply (Htell _ _ d l). }
  exists d', (set_stores ss' c). split_and!; [|by apply same_shape_stores | done].
  unfold BroadcastCommit, the_cluster. run. cbn [snd]. rewrite Hi.
  run_call ltac:(by apply leader_raft_run). etrans; [exact Hrun|]. do 2 f_equal.
  by destruct (foldl _ _ _).
Qed.

Lemma ProposeAndReplicate_rounds F0 F1 F2 L0 L1 L2 L3 cmd entry i d c :
  stable R F0 → stable R F1 → stable R F2 → stable R L2 → stable R L3 →
  NoDup (peer_id_ <$> sc_stores c) → Leader c = Some i →
  Forall (phase (sc_leader_peer_id c) (F0 d) (L0 d)) (sc_stores c) →
  let leader m (x : unit) L L' :=
    ∀ d s, peer_id_ s = sc_leader_peer_id c → L d s → takes R m x L' (d, s) in
  let follower A (m : RaftNode → IO StoreW A) x L F F' :=
    ∀ d s dl l, peer_id_ s ≠ sc_leader_peer_id c → L dl l → F d s →
      takes R (m (raft_ l)) x F' (d, s) in
  (∀ d s, peer_id_ s = sc_leader_peer_id c → L0 d s →
     takes R (on_raft (Propose kNormal cmd)) entry L1 (d, s)) →
  leader (PersistLogEntry entry) tt L1 L2 →
  (∀ k, follower nat (λ n, offer c entry n k) (S k) L2 F0 F1) →
  leader (on_raft (modify (SetCommitIndex (e_index entry))) ≫= λ _, ApplyCommitted) tt L2 L3 →
  follower unit (λ n, tell c n (e_index entry) tt) tt L3 F1 F2 →
  ∃ d' c', ProposeAndReplicate cmd (d, c) = (Ok tt, (d', c')) ∧ same_shape c c' ∧
    Forall (phase (sc_leader_peer_id c) (F2 d') (L3 d')) (sc_stores c').
Proof.
  intros HF0 HF1 HF2 HL2 HL3 Hnd Hi Hall leader follower Hpropose Hpersist Hoffer Hcommit Htell.
  destruct (at_leader R (sc_leader_peer_id c) F0 L0 L1 _ entry i d c HF0 Hnd Hi Hall Hpropose)
    as (d1 & ss1 & s1 & Hrun1 & Hid1 & Hall1 & _).
  assert (NoDup (peer_id_ <$> ss1)) as Hnd1 by by rewrite (same_ids_peers _ _ Hid1).
  pose proof (find_peer_same (sc_leader_peer_id c) _ _ Hid1) as Hi1.
  unfold Leader in Hi. rewrite Hi in Hi1.
  destruct (at_leader R (sc_leader_peer_id c) F0 L1 L2 _ tt i d1 (set_stores ss1 c) HF0 Hnd1 Hi1 Hall1
    Hpersist) as (d2 & ss2 & s2 & Hrun2 & Hid2 & Hall2 & Hs2 & _ & HLs2).
  cbn [sc_stores set_stores] in Hid2.
  assert (NoDup (peer_id_ <$> ss2)) as Hnd2 by by rewrite (same_ids_peers _ _ Hid2).
  pose proof (find_peer_same (sc_leader_peer_id c) _ _ Hid2) as Hi2. rewrite Hi1 in Hi2.
  destruct (at_followers R (sc_leader_peer_id c) F0 F1 L2 (offer c entry (raft_ s2)) S 1 d2
    (set_stores ss2 c) HF0 HF1 HL2 Hnd2 Hall2) as (d3 & ss3 & Hrun3 & Hid3 & Hall3).
  { intros d0 s0 k Hp0. unfold offer. run. cbn [snd]. by rewrite decide_True. }
  { intros d0 s0 k Hp0 Hs0. by apply (Hoffer k d0 s0 d2 s2). }
  cbn [sc_stores set_stores] in Hid3, Hrun3.
  assert (NoDup (peer_id_ <$> ss3)) as Hnd3 by by rewrite (same_ids_peers _ _ Hid3).
  pose proof (find_peer_same (sc_leader_peer_id c) _ _ Hid3) as Hi3. rewrite Hi2 in Hi3.
  destruct (at_leader R (sc_leader_peer_id c) F1 L2 L3 _ tt i d3 (set_stores ss3 c) HF1 Hnd3 Hi3 Hall3
    Hcommit) as (d4 & ss4 & s4 & Hrun4 & Hid4 & Hall4 & _).
  cbn [sc_stores set_stores] in Hid4.
  assert (Forall2 same_ids (sc_stores c) ss4) as Hid by (by do 3 (etrans; [eassumption|])).
  destruct (BroadcastCommit_rounds F1 F2 L3 (e_index entry) i d4 (set_stores ss4 c))
    as (d5 & c5 & Hrun5 & Hsh5 & Hall5); [done..| | |done|exact Htell|].
  { cbn [sc_stores set_stores]. by rewrite (same_ids_peers _ _ Hid). }
  { unfold Leader. cbn [sc_stores set_stores sc_leader_peer_id].
    by rewrite (find_peer_same _ _ _ Hid). }
  exists d5, c5. split_and!; [|etrans; [|exact Hsh5]; by apply same_shape_stores | exact Hall5].
  unfold ProposeAndReplicate, the_cluster. run. cbn [snd]. unfold Leader. rewrite Hi.
  run_call ltac:(exact Hrun1). run_call ltac:(exact Hrun2).
  run_call ltac:(by apply leader_raft_run). run_call ltac:(exact Hrun3).
  rewrite decide_False; [run_call ltac:(exact Hrun4); exact Hrun5|].
  eapply everyone_counts; [exact Hnd2 | exact Hi2 |]. symmetry. apply same_ids_length.
  etrans; [exact Hid1 | exact Hid2].
Qed.

Lemma ElectLeader_rounds A F C L pid i d c :
  stable R A → stable R F → stable R C → stable R L →
  NoDup (peer_id_ <$> sc_stores c) → find_peer pid (sc_stores c) = Some i →
  Forall (A d) (sc_stores c) →
  (∀ d s, peer_id_ s = pid → A d s →
     takes R (on_raft (modify BecomeCandidate) ≫= λ _, PersistHardState) tt C (d, s)) →
  (∀ d s dl l k, peer_id_ s ≠ pid → C dl l → A d s →
     takes R (solicit c pid (raft_ l) k) (S k) F (d, s)) →
  (∀ d s, peer_id_ s = pid → C d s →
     takes R (on_raft (modify BecomeLeader) ≫= λ _, PersistHardState) tt L (d, s)) →
  ∃ d' c', ElectLeader pid (d, c) = (Ok tt, (d', c')) ∧ same_shape (set_leader pid c) c' ∧
    Forall (phase pid (F d') (L d')) (sc_stores c').
Proof.
  intros HA HF HC HL Hnd Hi Hall0 Hcand Hvote Hlead.
  assert (Forall (phase pid (A d) (A d)) (sc_stores c)) as Hall.
  { eapply list.Forall_impl; [exact Hall0|]. intros s Hs. unfold phase. by case_decide. }
  destruct (at_leader R pid A A C _ tt i d c HA Hnd Hi Hall Hcand)
    as (d1 & ss1 & s1 & Hrun1 & Hid1 & Hall1 & Hs1 & _ & HC1).
  pose proof (find_peer_same pid _ _ Hid1) as Hi1. rewrite Hi in Hi1.
  assert (NoDup (peer_id_ <$> ss1)) as Hnd1 by by rewrite (same_ids_peers _ _ Hid1).
  destruct (at_followers R pid A F C (solicit c pid (raft_ s1)) S 1 d1 (set_stores ss1 c)
    HA HF HC Hnd1 Hall1) as (d2 & ss2 & Hrun2 & Hid2 & Hall2).
  { intros d0 s0 k Hp0. unfold solicit. run. cbn [snd]. by rewrite decide_True. }
  { intros d0 s0 k Hp0 Hs0. by apply (Hvote d0 s0 d1 s1). }
  cbn [sc_stores set_stores] in Hid2, Hrun2.
  pose proof (find_peer_same pid _ _ Hid2) as Hi2. rewrite Hi1 in Hi2.
  assert (NoDup (peer_id_ <$> ss2)) as Hnd2 by by rewrite (same_ids_peers _ _ Hid2).
  destruct (at_leader R pid F C L _ tt i d2 (set_stores ss2 c) HF Hnd2 Hi2 Hall2 Hlead)
    as (d3 & ss3 & s3 & Hrun3 & Hid3 & Hall3 & _).
  cbn [sc_stores set_stores] in Hid3.
  assert (Forall2 same_ids (sc_stores c) ss3) as Hid by (by do 2 (etrans; [eassumption|])).
  exists d3, (set_leader pid (set_stores ss3 c)). split_and!; [|done|done].
  unfold ElectLeader, the_cluster, update. run. cbn [snd]. rewrite Hi.
  run_call ltac:(exact Hrun1). run_call ltac:(by apply leader_raft_run).
  run_call ltac:(exact Hrun2). rewrite decide_False.
  { by run_call ltac:(exact Hrun3). }
  eapply everyone_counts; [exact Hnd1 | exact Hi1 |]. symmetry. by apply same_ids_length.
Qed.
End rounds.

(** Of a round with a working disk, seen without it. *)
Lemma phase_off_disk p F L d ss :
  ss ≠ [] → Forall (phase p (on_disk F d) (on_disk L d)) ss → disk_ok d ∧ Forall (phase p F L) ss.
Proof.
  intros Hne Hss. split.
  - destruct Hss as [|s ss Hs _]; [done|]. unfold phase in Hs. case_decide; apply Hs.
  - eapply list.Forall_impl; [exact Hss|]. intros s. unfold phase. case_decide; by intros [].
Qed.

Section propose.
Context (c : SingleRegionCluster) (t : N) (log : list LogEntry) (data : DataMap).
Context (cmd : string) (ms : list KvMutation).
Context (Hsync : in_sync c t log data) (Hlen : (N.of_nat (length log) + 1 < two64)%N).
Context (Hcmd : ApplyKvCommand cmd = Engine.WriteBatch ms) (Hms : user_batch ms).

Abbreviation r := (sc_region_id c).
Abbreviation len := (N.of_nat (length log)).
Abbreviation entry := (next_entry r t log cmd).
Abbreviation log' := (log ++ [entry]).

Lemma offer_follower n d s k :
  log_ n = log' → current_term_ n = t → commit_index_ n = len →
  peer_id_ s ≠ sc_leader_peer_id c → disk_ok d → caught_up kFollower r t log data s →
  ∃ d' s', offer c entry n k (d, s) = (Ok (S k), (d', s')) ∧ disk_ok d' ∧ same_ids s s' ∧
    holds s' r kFollower t log' len len data.
Proof.
  intros Hn Ht Hc Hp Hd Hs.
  destruct (follower_appends r t log cmd (sync_log _ _ _ _ Hsync) d s data
    (mkAppendRequest r (current_term_ n) (sc_leader_peer_id c) (u64_sub (e_index entry) 1)
      (last_log_term (raft_ s)) [entry] (commit_index_ n)))
    as (s1 & Hrun1 & Hid1 & _ & Hs1); try done.
  { cbn. rewrite u64_sub_le by lia. lia. }
  { cbn. lia. }
  destruct (PersistLogEntry_holds d s1 entry _ _ _ _ _ _ _ Hd Hs1)
    as (d2 & s2 & Hrun2 & Hd2 & Hid2 & _ & Hs2).
  destruct (PersistHardState_holds d2 s2 _ _ _ _ _ _ _ Hd2 Hs2)
    as (d3 & s3 & Hrun3 & Hd3 & Hid3 & Hs3).
  exists d3, s3. split_and!; [|done| |done].
  - unfold offer. run. cbn [snd]. rewrite decide_False by done.
    rewrite (prev_log_term_next r t log cmd n (raft_ s) Hlen Hn)
      by apply (h_log _ _ _ _ _ _ _ _ Hs). run.
    run_call ltac:(exact Hrun1). cbn [ae_success].
    run_call ltac:(exact Hrun2). by run_call ltac:(exact Hrun3).
  - by do 2 (etrans; [eassumption|]).
Qed.

Lemma tell_follower n d s :
  current_term_ n = t → peer_id_ s ≠ sc_leader_peer_id c → disk_ok d →
  holds s r kFollower t log' len len data →
  ∃ d' s', tell c n (len + 1) tt (d, s) = (Ok tt, (d', s')) ∧ disk_ok d' ∧ same_ids s s' ∧
    caught_up kFollower r t log' (apply_batch data ms) s'.
Proof.
  intros Ht Hp Hd Hs. pose proof (sync_log _ _ _ _ Hsync) as Hlog.
  assert (wf (raft_ s)) as Hwf.
  { eapply holds_wf; [exact Hs | by apply log_from_next | rewrite length_next; lia | lia]. }
  destruct (follower_commits r t log cmd Hlog d s data
    (mkAppendRequest r (current_term_ n) (sc_leader_peer_id c)
       (last_log_index (raft_ s)) (last_log_term (raft_ s)) [] (len + 1)))
    as (s1 & Hrun1 & Hid1 & _ & Hs1); try done.
  { cbn. rewrite wf_last_index, (h_log _ _ _ _ _ _ _ _ Hs) by done. apply length_next. }
  destruct (ApplyCommitted_holds r t log cmd Hlog ms Hcmd Hms d s1 kFollower data Hd Hs1)
    as (d2 & s2 & Hrun2 & Hd2 & Hid2 & Hs2).
  exists d2, s2. split_and!; [|done | by etrans |].
  - unfold tell. run. cbn [snd]. rewrite decide_False by done.
    run_call ltac:(exact Hrun1). exact Hrun2.
  - unfold caught_up. by rewrite length_next.
Qed.

Lemma ProposeAndReplicate_sync d :
  disk_ok d →
  ∃ d' c', ProposeAndReplicate cmd (d, c) = (Ok tt, (d', c')) ∧ disk_ok d' ∧
    same_shape c c' ∧ in_sync c' t log' (apply_batch data ms).
Proof.
  intros Hd. pose proof Hsync as [Hall Hnd Hmem Hlog].
  destruct (find_peer_member _ _ Hmem) as [i Hi].
  destruct (ProposeAndReplicate_rounds works
    (on_disk (caught_up kFollower r t log data))
    (on_disk (λ s, holds s r kFollower t log' len len data))
    (on_disk (caught_up kFollower r t log' (apply_batch data ms)))
    (on_disk (caught_up kLeader r t log data))
    (on_disk (λ s, holds s r kLeader t log' len len data))
    (on_disk (λ s, holds s r kLeader t log' len len data))
    (on_disk (caught_up kLeader r t log' (apply_batch data ms)))
    cmd entry i d c) as (d' & c' & Hrun & Hsh & Hall'); [done..|by apply phase_on_disk| | | | | |].
  - intros d0 s0 _ [Hd0 Hs0]. apply takes_on_disk.
    destruct (Propose_holds r t log cmd d0 s0 len len data Hlen Hs0)
      as (s' & ? & ? & _ & ?); [by eapply holds_wf|]. by exists d0, s'.
  - intros d0 s0 _ [Hd0 Hs0]. apply takes_on_disk.
    destruct (PersistLogEntry_holds d0 s0 entry _ _ _ _ _ _ _ Hd0 Hs0)
      as (d' & s' & ? & ? & ? & _ & ?). by exists d', s'.
  - intros k d0 s0 dl l Hp0 [_ HLl] [Hd0 Hs0]. apply takes_on_disk, offer_follower; try done; apply HLl.
  - intros d0 s0 _ [Hd0 Hs0]. apply takes_on_disk. unfold caught_up. rewrite length_next.
    by apply leader_commits.
  - intros d0 s0 dl l Hp0 [_ HLl] [Hd0 Hs0]. apply takes_on_disk, tell_follower; try done. apply HLl.
  - pose proof Hsh as (H1 & H2 & _ & _ & H5).
    apply phase_off_disk in Hall' as [Hd' Hall'].
    2:{ intros Hnil. rewrite Hnil in H5. apply list.Forall2_nil_inv_r in H5. rewrite H5 in Hi. done. }
    exists d', c'. split_and!; [done..|]. split; rewrite ?H1, ?H2, ?(same_ids_peers _ _ H5);
      [done..|by apply log_from_next].
Qed.
End propose.

(** * Elections *)

(** All stores are in one term with one log, all applied, whoever leads. *)
Record quiet (c : SingleRegionCluster) (t : N) (log : list LogEntry) (data : DataMap) :
    Prop := {
  quiet_stores :
    Forall (λ s, ∃ role, caught_up role (sc_region_id c) t log data s) (sc_stores c);
  quiet_peers : NoDup (peer_id_ <$> sc_stores c);
  quiet_log : log_from (sc_region_id c) 0 log;
}.

Lemma in_sync_quiet c t log data : in_sync c t log data → quiet c t log data.
Proof.
  intros [Hall Hnd _ Hlog]. split; [|done..]. eapply list.Forall_impl; [exact Hall|].
  intros s. unfold phase. case_decide; eauto.
Qed.

Lemma vote_next_term r n t :
  current_term_ n = t → rv_term r = (t + 1)%N →
  rv_last_log_index r = last_log_index n → rv_last_log_term r = last_log_term n →
  HandleRequestVote r n =
  (mkVoteResponse (t + 1) true,
   with_term (t + 1) (Some (rv_candidate_id r)) (with_role kFollower n)).
Proof.
  intros Ht Hrt Hi Hlt. unfold HandleRequestVote. rewrite Hrt, Ht.
  destruct (N.ltb_spec (t + 1) t); [lia|]. destruct (N.ltb_spec t (t + 1)); [|lia].
  unfold BecomeFollower. cbn [current_term_ with_role]. rewrite Ht.
  destruct (N.ltb_spec t (t + 1)); [|lia]. cbn [voted_for_ with_term].
  assert (IsCandidateLogUpToDate (with_term (t + 1) None (with_role kFollower n))
            (rv_last_log_index r) (rv_last_log_term r) = true) as ->.
  { apply up_to_date_spec. right. rewrite Hi, Hlt. split; [done | apply N.le_refl]. }
  done.
Qed.

Section elect.
Context (c : SingleRegionCluster) (t : N) (log : list LogEntry) (data : DataMap).
Context (Hquiet : quiet c t log data) (Ht : (t + 1 < two64)%N).
Context (pid : N) (Hpid : pid ∈ peer_id_ <$> sc_stores c).

Abbreviation r := (sc_region_id c).
Abbreviation any := (λ s, ∃ role, caught_up role r t log data s).

Lemma solicit_follower n d s k :
  log_ n = log → current_term_ n = (t + 1)%N → peer_id_ s ≠ pid → disk_ok d → any s →
  ∃ d' s', solicit c pid n k (d, s) = (Ok (S k), (d', s')) ∧ disk_ok d' ∧ same_ids s s' ∧
    caught_up kFollower r (t + 1) log data s'.
Proof.
  intros Hn Hnt Hp Hd [role Hs]. pose proof Hs as [Ho Hr Hro Hst Hl Hc Ha Hdata].
  set (s1 := set_raft (with_term (t + 1) (Some pid) (with_role kFollower (raft_ s))) s).
  assert (caught_up kFollower r (t + 1) log data s1) as Hs1 by by split.
  destruct (PersistHardState_holds d s1 _ _ _ _ _ _ _ Hd Hs1)
    as (d2 & s2 & Hrun2 & Hd2 & Hid2 & Hs2).
  exists d2, s2. split_and!; [|done | by etrans; [|exact Hid2] | done].
  unfold solicit. run. cbn [snd]. rewrite decide_False by done.
  run_call ltac:(apply on_raft_run; rewrite (vote_next_term _ _ t); [reflexivity|done..|
    unfold last_log_index; cbn; by rewrite Hn, Hl|unfold last_log_term; cbn; by rewrite Hn, Hl]).
  cbn [rv_granted rv_candidate_id]. by run_call ltac:(exact Hrun2).
Qed.

(** A change of role and term at a store, saved at once. *)
Lemma change_role f role role' t' d s :
  (∀ n, current_term_ n = t' → region_id_ (f n) = region_id_ n ∧ role_ (f n) = role' ∧
     current_term_ (f n) = (t + 1)%N ∧ log_ (f n) = log_ n ∧
     commit_index_ (f n) = commit_index_ n ∧ last_applied_ (f n) = last_applied_ n) →
  disk_ok d → caught_up role r t' log data s →
  ∃ d' s', (on_raft (modify f) ≫= λ _, PersistHardState) (d, s) = (Ok tt, (d', s')) ∧
    disk_ok d' ∧ same_ids s s' ∧ caught_up role' r (t + 1) log data s'.
Proof.
  intros Hf Hd [Ho Hr Hro Hst Hl Hc Ha Hdata].
  destruct (Hf (raft_ s) Hst) as (H1 & H2 & H3 & H4 & H5 & H6).
  assert (caught_up role' r (t + 1) log data (set_raft (f (raft_ s)) s)) as Hs1.
  { split; cbn; congruence. }
  destruct (PersistHardState_holds d _ _ _ _ _ _ _ _ Hd Hs1)
    as (d2 & s2 & Hrun2 & Hd2 & Hid2 & Hs2).
  exists d2, s2. split_and!; [|done | by etrans; [|exact Hid2] | done].
  run_call ltac:(by apply on_raft_run). exact Hrun2.
Qed.

Lemma ElectLeader_sync d :
  disk_ok d →
  ∃ d' c', ElectLeader pid (d, c) = (Ok tt, (d', c')) ∧ disk_ok d' ∧
    same_shape (set_leader pid c) c' ∧ in_sync c' (t + 1) log data.
Proof.
  intros Hd. pose proof Hquiet as [Hall0 Hnd Hlog].
  destruct (find_peer_member _ _ Hpid) as [i Hi].
  destruct (ElectLeader_rounds works (on_disk any) (on_disk (caught_up kFollower r (t + 1) log data))
    (on_disk (caught_up kCandidate r (t + 1) log data))
    (on_disk (caught_up kLeader r (t + 1) log data)) pid i d c)
    as (d' & c' & Hrun & Hsh & Hall'); [done..| | | | |].
  - eapply list.Forall_impl; [exact Hall0|]. by intros s Hs.
  - intros d0 s0 _ [Hd0 [role Hs0]]. apply takes_on_disk.
    eapply change_role; [|done|exact Hs0].
    intros n Hn. unfold BecomeCandidate. cbn. rewrite Hn, u64_small by done. done.
  - intros d0 s0 dl l k Hp0 [_ HCl] [Hd0 Hs0]. apply takes_on_disk, solicit_follower; try done; apply HCl.
  - intros d0 s0 _ [Hd0 Hs0]. apply takes_on_disk. eapply change_role; [|done|exact Hs0]. by intros n Hn.
  - pose proof Hsh as (H1 & H2 & _ & _ & H5). cbn [sc_region_id sc_leader_peer_id sc_stores set_leader] in *.
    apply phase_off_disk in Hall' as [Hd' Hall'].
    2:{ intros Hnil. rewrite Hnil in H5. apply list.Forall2_nil_inv_r in H5. rewrite H5 in Hi. done. }
    exists d', c'. split_and!; [done..|]. split; rewrite ?H1, ?H2, ?(same_ids_peers _ _ H5); done.
Qed.
End elect.

(** * Opening stores *)

(** No file of the store exists yet. *)
Definition no_files (data_dir : string) (store_id : N) (d : Disk) : Prop :=
  files d !! path_join (store_dir data_dir store_id) "kv.log" = None.

Lemma store_dir_filled dir sid : store_dir dir sid ≠ "".
Proof. by destruct dir. Qed.

Lemma Store_Open_fresh dir sid pid r ids d :
  disk_ok d → no_files dir sid d →
  ∃ d' s, Store_Open dir (d, new_store sid pid r ids) = (Ok tt, (d', s)) ∧ disk_ok d' ∧
    d' = set_files (append_to (path_join (store_dir dir sid) "kv.log") "") d ∧
    same_ids (new_store sid pid r ids) s ∧ raft_ s = new_raft r pid ids ∧
    opened_ s = true ∧
    engine_ s = mkEngine (store_dir dir sid) (path_join (store_dir dir sid) "kv.log") ∅.
Proof.
  intros Hd Hno. set (path := path_join (store_dir dir sid) "kv.log").
  set (d1 := set_files (append_to path "") d).
  set (s1 := set_opened (set_engine (mkEngine (store_dir dir sid) path ∅)
               (new_store sid pid r ids))).
  exists d1, s1. split; [|done]. unfold Store_Open. run.
  change (store_id_ _) with sid.
  run_call ltac:(apply on_engine_run; apply (Open_ok _ _ _ "" ∅ (store_dir_filled _ _) Hd); [by rewrite Hno | done]).
  run. cbn [fst snd]. unfold RestoreRaftState.
  run_call ltac:(by apply storage_ready_ok). unfold the_raft. run.
  cbn [snd raft_ set_opened set_engine new_store new_raft region_id_].
  fold path d1. fold s1.
  assert (on_engine (LoadHardState r) (d1, s1) =
    (Err (key_not_found (RaftMetaKey r "current_term")), (d1, s1))) as Hload.
  { change (d1, s1) with (d1, set_engine (engine_ s1) s1) at 2. apply on_engine_run.
    by apply (LoadHardState_missing r (d1, engine_ s1)). }
  run_call ltac:(unfold status_of; rewrite Hload; reflexivity). done.
Qed.

(** ** Paths of different stores *)

Lemma sapp_inj_r (s s' t : string) : s +:+ t = s' +:+ t → s = s'.
Proof.
  revert s'. induction s as [|c s IH]; intros [|c' s'] H; [done|..].
  - exfalso. rewrite sapp_nil_l, sapp_cons in H.
    apply (f_equal String.length) in H. simpl in H. rewrite slength_app in H. lia.
  - exfalso. rewrite sapp_nil_l, sapp_cons in H.
    apply (f_equal String.length) in H. simpl in H. rewrite slength_app in H. lia.
  - rewrite !sapp_cons in H. injection H as -> H. f_equal. auto.
Qed.

Lemma ends_with_slash_app s t : t ≠ "" → ends_with_slash (s +:+ t) = ends_with_slash t.
Proof.
  intros Ht. induction s as [|c s IH]; [done|]. rewrite sapp_cons.
  destruct (s +:+ t) eqn:E; [by destruct s, t|]. simpl in *. by rewrite IH.
Qed.

Lemma digits_no_slash ds :
  str_all is_digit ds = true → ds ≠ "" → ends_with_slash ds = false.
Proof.
  induction ds as [|c ds IH]; [done|]. simpl. intros [Hc Hds]%andb_true_iff _.
  destruct ds; [|by apply IH]. apply bool_decide_eq_false. by intros ->.
Qed.

Lemma starts_with_split p s : starts_with p s = true → ∃ t, s = p +:+ t.
Proof.
  unfold starts_with. revert s. induction p as [|c p IH]; intros s; [by exists s|].
  destruct s as [|a s]; [done|]. cbn. destruct (Ascii.ascii_dec c a) as [->|]; [|done].
  intros (t & ->)%IH. by exists t.
Qed.

Definition store_log (dir : string) (id : N) : string := path_join (store_dir dir id) "kv.log".

Lemma store_log_eq dir id : store_log dir id = dir +:+ "/store-" +:+ to_string id +:+ "/kv.log".
Proof.
  unfold store_log, path_join. destruct (to_string_spec id) as (Hd & Hne & _).
  rewrite decide_False by (unfold store_dir; by destruct dir).
  unfold store_dir at 1. rewrite ends_with_slash_app by done.
  rewrite ends_with_slash_app, digits_no_slash by done. unfold store_dir. by snorm.
Qed.

Lemma store_log_inj dir i j : store_log dir i = store_log dir j → i = j.
Proof.
  rewrite !store_log_eq. intros H%sapp_inj_l%sapp_inj_l%sapp_inj_r. by apply to_string_inj.
Qed.

Lemma store_log_below dir id : dir ≠ "" → below dir (store_log dir id) = true.
Proof.
  intros Hdir. unfold below. rewrite bool_decide_eq_false_2 by done. cbn [negb andb].
  apply orb_true_iff. right. rewrite store_log_eq. unfold path_join.
  rewrite decide_False by done. destruct (ends_with_slash dir).
  - rewrite sapp_nil_r. apply starts_with_app.
  - replace (dir +:+ "/store-" +:+ _) with
      ((dir +:+ "/" +:+ "") +:+ ("store-" +:+ to_string id +:+ "/kv.log")) by by snorm.
    apply starts_with_app.
Qed.

(** ** Bootstrap *)

Definition ids_from (id : N) (n : nat) : list N := (λ i, id + N.of_nat i)%N <$> seq 0 n.

Lemma ids_from_S id n : ids_from id (S n) = id :: ids_from (id + 1) n.
Proof.
  unfold ids_from. cbn [seq]. rewrite fmap_cons, <-fmap_S_seq, <-list_fmap_compose.
  f_equal; [lia|]. apply list_fmap_ext. intros i x _. simpl. lia.
Qed.

Lemma elem_of_ids_from id n j :
  j ∈ ids_from id n ↔ (id <= j < id + N.of_nat n)%N.
Proof.
  unfold ids_from. rewrite list_elem_of_fmap. split.
  - intros (i & -> & Hi%elem_of_seq). lia.
  - intros Hj. exists (N.to_nat (j - id)). rewrite elem_of_seq. lia.
Qed.

Lemma ids_from_nodup id n : NoDup (ids_from id n).
Proof. apply NoDup_fmap_2; [intros i j H; lia | apply NoDup_seq]. Qed.

Lemma first_ids_from n : first_ids n = ids_from 1 n.
Proof. apply list_fmap_ext. intros i x _. lia. Qed.

(** Stores are opened one after the other, each from what [P] says of its id on
    the disk to a state of [Q]. *)
Lemma open_stores_takes R `{∀ p, PreOrder (R p)} (P : Disk → N → Prop) Q n id d c :
  (∀ p d d' j, R p d d' → j ≠ p → P d j → P d' j) → stable R Q →
  (∀ d j, P d j → takes R (Store_Open (sc_data_dir c)) tt Q
     (d, new_store j j (sc_region_id c) (sc_peer_ids c))) →
  (∀ j, j ∈ ids_from id n → P d j) →
  ∃ d' ss, open_stores n id (d, c) = (Ok tt, (d', set_stores (sc_stores c ++ ss) c)) ∧
    Forall (Q d') ss ∧ peer_id_ <$> ss = ids_from id n ∧ store_id_ <$> ss = ids_from id n ∧
    (∀ G : Disk → Prop, (∀ p d d', R p d d' → G d → G d') → G d → G d') ∧
    (∀ s0, peer_id_ s0 ∉ ids_from id n → Q d s0 → Q d' s0).
Proof.
  intros HP HQ. revert id d c. induction n as [|n IH]; intros id d c Hopen Hin.
  { exists d, []. rewrite app_nil_r. split_and!; [by destruct c|done..|by intros|by intros]. }
  rewrite ids_from_S in *.
  destruct (Hopen d id (Hin id (list_elem_of_here _ _))) as (d1 & s & Hrun & HR & [Hsid Hpid] & HQs).
  cbn [fst snd peer_id_ store_id_ new_store] in *.
  assert (id ∉ ids_from (id + 1) n) as Hid by (rewrite elem_of_ids_from; lia).
  destruct (IH (id + 1)%N d1 (set_stores (sc_stores c ++ [s]) c) Hopen)
    as (d2 & ss & Hrun2 & Hall & Hps & Hss & Hkeep & Hframe).
  { intros j Hj. eapply HP; [exact HR | by intros -> | by apply Hin, list_elem_of_further]. }
  exists d2, (s :: ss). cbn [open_stores]. split_and!; [| | | | |].
  - unfold the_cluster, update. run. cbn [snd].
    run_call ltac:(unfold on_new; by rewrite Hrun). run. cbn [fst snd].
    rewrite Hrun2. cbn [set_stores sc_stores]. by rewrite <-app_assoc.
  - constructor; [|done]. apply Hframe; [by rewrite Hpid | done].
  - rewrite fmap_cons, Hps. by rewrite Hpid.
  - rewrite fmap_cons, Hss. by rewrite Hsid.
  - intros G HG HGd. by eapply Hkeep, HG.
  - intros s0 [Hne Hs0]%not_elem_of_cons HQ0. apply Hframe; [done|]. by eapply HQ.
Qed.

(** A call on the store of peer [p] writes that store's log only. *)
Definition writes (dir : string) (p : N) (d d' : Disk) : Prop :=
  (disk_ok d → disk_ok d') ∧ ∀ q, q ≠ store_log dir p → files d' !! q = files d !! q.

#[export] Instance writes_preorder dir p : PreOrder (writes dir p).
Proof.
  split; [by intros d; split|]. intros a b c [H1 H2] [H3 H4].
  split; [tauto | intros q Hq; by rewrite H4, H2].
Qed.

Lemma append_writes dir p text d :
  writes dir p d (set_files (append_to (store_log dir p) text) d).
Proof.
  split; [done|]. intros q Hq. cbn [files set_files]. unfold append_to. by rewrite lookup_insert_ne.
Qed.

Lemma open_stores_run n id d c :
  disk_ok d → (∀ j, j ∈ ids_from id n → no_files (sc_data_dir c) j d) →
  ∃ d' ss, open_stores n id (d, c) = (Ok tt, (d', set_stores (sc_stores c ++ ss) c)) ∧
    disk_ok d' ∧ Forall (caught_up kFollower (sc_region_id c) 0 [] ∅) ss ∧
    peer_id_ <$> ss = ids_from id n ∧ store_id_ <$> ss = ids_from id n.
Proof.
  intros Hd Hno.
  destruct (open_stores_takes (writes (sc_data_dir c))
    (λ d j, disk_ok d ∧ no_files (sc_data_dir c) j d)
    (on_disk (caught_up kFollower (sc_region_id c) 0 [] ∅)) n id d c)
    as (d' & ss & Hrun & Hall & Hps & Hss & Hkeep & _).
  - intros p d1 d2 j [Hok Hf] Hj [Hd1 Hno1]. split; [by apply Hok|]. unfold no_files.
    fold (store_log (sc_data_dir c) j). rewrite Hf; [exact Hno1|]. by intros Heq%store_log_inj.
  - intros p d1 d2 s [Hok _] _ [Hd1 Hs]. split; [by apply Hok | done].
  - intros d1 j [Hd1 Hno1].
    destruct (Store_Open_fresh (sc_data_dir c) j j (sc_region_id c) (sc_peer_ids c) d1 Hd1 Hno1)
      as (d2 & s & Hrun & Hd2 & -> & Hid & Hraft & Ho & Hen).
    exists (set_files (append_to (store_log (sc_data_dir c) j) "") d1), s.
    split; [exact Hrun | split; [apply append_writes | split; [done|split; [done|]]]].
    by split; rewrite ?Hraft, ?Hen.
  - intros j Hj. split; [done | by apply Hno].
  - exists d', ss. split_and!; [done| |by eapply list.Forall_impl; [exact Hall|]; intros s []|done..].
    apply (Hkeep disk_ok); [by intros p d1 d2 [Hok _] | done].
Qed.


Lemma remove_all_ok {S} dir d (c : S) :
  disk_ok d →
  remove_all dir (d, c) = (Ok tt, (set_files (filter (λ f, below dir f.1 = false)) d, c)).
Proof. intros Hd. unfold remove_all. by run_call ltac:(by apply io_throwing_ok). Qed.

Lemma no_leader_yet ss :
  Forall (λ s, role_ (raft_ s) = kFollower) ss →
  list_find (λ s, role_ (raft_ s) = kLeader) ss = None.
Proof.
  intros Hss. apply list_find_None. eapply list.Forall_impl; [exact Hss|].
  by intros s ->.
Qed.

Lemma same_ids_stores ss ss' :
  Forall2 same_ids ss ss' → store_id_ <$> ss' = store_id_ <$> ss.
Proof. induction 1 as [|s s' ss ss' [Hs _] _ IH]; [done|]. rewrite !fmap_cons. congruence. Qed.

(** [Bootstrap] once the stores are open: nobody leads yet, so peer 1 is elected. *)
Lemma Bootstrap_elects dir n r (reset : bool) d d1 d2 c ss x :
  n ≠ 0 → dir ≠ "" → disk_ok d1 →
  (if reset then remove_all dir else mret tt) (d, mkCluster r (sc_leader_peer_id c) (sc_peer_ids c)
     (sc_stores c) dir) = (Ok tt, (d1, mkCluster r (sc_leader_peer_id c) (sc_peer_ids c) (sc_stores c) dir)) →
  let c1 := mkCluster r (sc_leader_peer_id c) (first_ids n) [] dir in
  open_stores n 1 (d1, c1) = (Ok tt, (d2, set_stores ss c1)) →
  Forall (λ s, role_ (raft_ s) = kFollower) ss →
  ElectLeader 1 (d2, set_stores ss c1) = x → Bootstrap dir n r reset (d, c) = x.
Proof.
  intros Hn Hdir Hd1 Hreset c1 Hopen Hss Hx. unfold Bootstrap. rewrite decide_False by done.
  unfold update. run. cbn [fst snd]. run_call ltac:(exact Hreset).
  run_call ltac:(by apply create_directories_throwing_ok). run. cbn [fst snd].
  run_call ltac:(exact Hopen). unfold the_cluster. run. cbn [snd]. by rewrite no_leader_yet.
Qed.

Lemma Bootstrap_sync dir n r d c :
  disk_ok d → dir ≠ "" → n ≠ 0 →
  ∃ d' c', Bootstrap dir n r true (d, c) = (Ok tt, (d', c')) ∧ disk_ok d' ∧
    in_sync c' 1 [] ∅ ∧ sc_region_id c' = r ∧ sc_leader_peer_id c' = 1%N ∧
    sc_data_dir c' = dir ∧ sc_peer_ids c' = first_ids n ∧
    store_id_ <$> sc_stores c' = ids_from 1 n ∧ peer_id_ <$> sc_stores c' = first_ids n.
Proof.
  intros Hd Hdir Hn.
  set (d1 := set_files (filter (λ f, below dir f.1 = false)) d).
  set (c1 := mkCluster r (sc_leader_peer_id c) (first_ids n) [] dir).
  destruct (open_stores_run n 1 d1 c1) as (d2 & ss & Hrun & Hd2 & Hall & Hps & Hss).
  { done. }
  { intros j _. unfold no_files. cbn [files d1 set_files sc_data_dir c1].
    apply map_lookup_filter_None. right. intros x _. cbn [fst].
    fold (store_log dir j). by rewrite store_log_below. }
  cbn [sc_stores c1 app] in Hrun.
  set (c2 := set_stores ss c1) in *.
  destruct (ElectLeader_sync c2 0 [] ∅) with (pid := 1%N) (d := d2)
    as (d3 & c3 & Hrun3 & Hd3 & (H1 & H2 & H3 & H4 & H5) & Hsync); [|done| |done|].
  { split; [|cbn; rewrite Hps; apply ids_from_nodup|apply log_from_nil].
    eapply list.Forall_impl; [exact Hall|]. intros s Hs. by exists kFollower. }
  { cbn. rewrite Hps. apply elem_of_ids_from. lia. }
  exists d3, c3. split; [|split_and!; try done].
  - eapply (Bootstrap_elects dir n r true d d1); [done | done | exact Hd | by apply remove_all_ok | exact Hrun | | exact Hrun3].
    by eapply list.Forall_impl; [exact Hall|]; intros s [].
  - rewrite <-Hss. by apply same_ids_stores.
  - rewrite (same_ids_peers _ _ H5). cbn. by rewrite Hps, first_ids_from.
Qed.

(** ** Membership *)

Lemma persist_log_holds es d s r role t log c a data :
  disk_ok d → holds s r role t log c a data →
  ∃ d' s', persist_log es (d, s) = (Ok tt, (d', s')) ∧ disk_ok d' ∧ same_ids s s' ∧
    holds s' r role t log c a data.
Proof.
  revert d s. induction es as [|e es IH]; intros d s Hd Hs; [by exists d, s|].
  destruct (PersistLogEntry_holds d s e _ _ _ _ _ _ _ Hd Hs)
    as (d1 & s1 & Hrun1 & Hd1 & Hid1 & _ & Hs1).
  destruct (IH d1 s1 Hd1 Hs1) as (d2 & s2 & Hrun2 & Hd2 & Hid2 & Hs2).
  exists d2, s2. split_and!; [|done | by etrans | done].
  cbn [persist_log]. by run_call ltac:(exact Hrun1).
Qed.

(** A new store takes over the leader's Raft state. *)
Lemma join_holds n s d r t log :
  disk_ok d → opened_ s = true → region_id_ (raft_ s) = r → user_part (data_ (engine_ s)) = ∅ →
  current_term_ n = t → log_ n = log → commit_index_ n = N.of_nat (length log) →
  last_applied_ n = N.of_nat (length log) → log_from r 0 log →
  ∃ d' s',
    (on_raft (Raft.Restore (current_term_ n) (voted_for_ n) (commit_index_ n)
                (last_applied_ n) (log_ n)) ≫= λ _,
     persist_log (log_ n) ≫= λ _, PersistHardState) (d, s) = (Ok tt, (d', s')) ∧
    disk_ok d' ∧ same_ids s s' ∧ caught_up kFollower r t log ∅ s'.
Proof.
  intros Hd Ho Hr Hdata Ht Hl Hc Ha Hlog.
  set (s1 := set_raft (mkRaft r (self_id_ (raft_ s)) (peers_ (raft_ s)) kFollower t
    (voted_for_ n) (N.of_nat (length log)) (N.of_nat (length log)) log) s).
  assert (caught_up kFollower r t log ∅ s1) as Hs1 by by split.
  destruct (persist_log_holds log d s1 _ _ _ _ _ _ _ Hd Hs1)
    as (d2 & s2 & Hrun2 & Hd2 & Hid2 & Hs2).
  destruct (PersistHardState_holds d2 s2 _ _ _ _ _ _ _ Hd2 Hs2)
    as (d3 & s3 & Hrun3 & Hd3 & Hid3 & Hs3).
  exists d3, s3. split_and!; [|done | by etrans | done].
  assert (Raft.Restore (current_term_ n) (voted_for_ n) (commit_index_ n) (last_applied_ n)
    (log_ n) (raft_ s) = (Ok tt, raft_ s1)) as Hrestore.
  { rewrite Restore_ok; rewrite ?Hl, ?Hc, ?Ha, ?Hr; [by rewrite Ht | done | lia | lia]. }
  run_call ltac:(apply on_raft_run, Hrestore). rewrite Hl. fold s1.
  run_call ltac:(exact Hrun2). exact Hrun3.
Qed.

Definition unreserved (data : DataMap) : Prop :=
  ∀ k v, data !! k = Some v → reserved_key k = false.

Lemma unreserved_user k : reserved_key k = false → user_key k.
Proof.
  unfold reserved_key, user_key. intros Hk. by rewrite !orb_false_iff in Hk; destruct Hk as [[[? _] _] _].
Qed.

Lemma bootstrap_contents data (all : DataMap) :
  user_part all = data → unreserved data →
  user_batch (bootstrap_mutations (entries (in_rangeb "" "") all)) ∧
  apply_batch ∅ (bootstrap_mutations (entries (in_rangeb "" "") all)) = data.
Proof.
  intros Hd Hun. set (l := filter (λ kv, reserved_key kv.1 = false) (entries (in_rangeb "" "") all)).
  assert (∀ k v, (k, v) ∈ l ↔ data !! k = Some v) as Hl.
  { intros k v. unfold l. rewrite list_elem_of_filter, elem_of_entries. cbn [fst].
    unfold in_rangeb. rewrite leb_empty, bool_decide_eq_true_2 by done. cbn [andb orb].
    split.
    - intros (Hk & _ & Hv). rewrite <-Hd. apply map_lookup_filter_Some. split; [done|].
      by apply unreserved_user.
    - intros Hv. split_and!; [by eapply Hun | done|].
      rewrite <-Hd in Hv. by apply map_lookup_filter_Some in Hv as [? _]. }
  assert (NoDup l.*1) as Hnd.
  { unfold l. apply NoDup_fmap_2_strong;
      [|apply list.NoDup_filter, (NoDup_fmap_1 fst), entries_nodup].
    intros [k1 v1] [k2 v2] H1 H2 Hk. cbn in Hk. subst k2. apply Hl in H1, H2. congruence. }
  unfold bootstrap_mutations. fold l. split.
  - apply list.Forall_forall. intros m (kv & -> & Hkv)%list_elem_of_fmap.
    apply list_elem_of_filter in Hkv as [Hk _]. by apply unreserved_user.
  - rewrite apply_puts, map_union_empty by done. apply map_eq. intros k. apply option_eq.
    intros v. rewrite <-elem_of_list_to_map by done. apply Hl.
Qed.

Lemma ScanRange_run a b d s :
  on_engine (Engine.ScanRange a b) (d, s) =
  (Ok (entries (in_rangeb a b) (data_ (engine_ s))), (d, s)).
Proof.
  unfold on_engine, zoom. rewrite ScanRange_entries. cbn [fst snd]. by destruct s.
Qed.

Lemma list_find_None_not {A} (P : A → Prop) `{∀ x, Decision (P x)} l :
  (∀ x, x ∈ l → ¬ P x) → list_find P l = None.
Proof. intros Hl. apply list_find_None, list.Forall_forall. done. Qed.

Definition add_store (s : SingleRegionStore) (pid : N) (c : SingleRegionCluster) :
    SingleRegionCluster :=
  set_stores (sc_stores c ++ [s]) (set_peer_ids (sc_peer_ids c ++ [pid]) c).

Lemma add_store_sync c t log data s pid :
  in_sync c t log data → pid ∉ peer_id_ <$> sc_stores c → peer_id_ s = pid →
  caught_up kFollower (sc_region_id c) t log data s → in_sync (add_store s pid c) t log data.
Proof.
  intros [Hall Hnd Hmem Hlog] Hpid Hp Hs. split; cbn.
  - apply list.Forall_app. split; [done|]. apply list.Forall_singleton. unfold phase.
    rewrite decide_False; [done|]. intros Heq. apply Hpid. by rewrite <-Hp, Heq.
  - rewrite fmap_app. apply list.NoDup_app. split_and!; [done| |apply NoDup_singleton].
    intros x Hx ->%list_elem_of_singleton. by rewrite Hp in Hx.
  - rewrite fmap_app, elem_of_app. by left.
  - done.
Qed.

(** Copying the leader's contents into the joined store. *)
Lemma bootstrap_write all d s r t log data :
  disk_ok d → caught_up kFollower r t log ∅ s → user_part all = data → unreserved data →
  let boot := bootstrap_mutations (entries (in_rangeb "" "") all) in
  ∃ d' s', (if decide (boot = []) then mret tt else on_engine (Engine.WriteBatch boot)) (d, s) =
      (Ok tt, (d', s')) ∧ disk_ok d' ∧ same_ids s s' ∧ caught_up kFollower r t log data s'.
Proof.
  intros Hd Hs Hall Hun boot. destruct (bootstrap_contents data all Hall Hun) as [Hub Hcont].
  fold boot in Hub, Hcont. case_decide as Hnil.
  { exists d, s. rewrite Hnil in Hcont. cbn in Hcont. by rewrite <-Hcont. }
  destruct (engine_write_run _ boot d s eq_refl Hd) as (d' & e' & Hrun & Hd' & He').
  exists d', (set_engine e' s). split_and!; [done..|].
  destruct Hs as [Ho Hr Hro Ht Hl Hc Ha Hdata]. split; try done. cbn [engine_ set_engine].
  by rewrite He', user_part_user, Hdata.
Qed.

Lemma fresh_store_id sid c :
  sid ∉ store_id_ <$> sc_stores c → FindByStoreId sid c = None.
Proof.
  intros Hsid. unfold FindByStoreId. rewrite list_find_None_not; [done|].
  intros x Hx Hxs. apply Hsid, list_elem_of_fmap. by exists x.
Qed.

Lemma AddPeer_sync d c t log data sid pid :
  disk_ok d → in_sync c t log data → unreserved data →
  sid ∉ store_id_ <$> sc_stores c → pid ∉ peer_id_ <$> sc_stores c → pid ∉ sc_peer_ids c →
  no_files (sc_data_dir c) sid d →
  ∃ d' s, AddPeer sid pid (d, c) = (Ok tt, (d', add_store s pid c)) ∧ disk_ok d' ∧
    store_id_ s = sid ∧ peer_id_ s = pid ∧ in_sync (add_store s pid c) t log data.
Proof.
  intros Hd Hsync Hun Hsid Hpid Hpids Hno. pose proof Hsync as [Hall Hnd Hmem Hlog].
  destruct (find_peer_member _ _ Hmem) as [i Hi].
  pose proof Hi as (s & Hs & Hp)%find_peer_Some.
  pose proof (list.Forall_lookup_1 _ _ _ _ Hall Hs) as HL. unfold phase in HL.
  rewrite decide_True in HL by done. pose proof HL as [_ _ _ Hst Hsl Hsc Hsa Hsd].
  destruct (Store_Open_fresh (sc_data_dir c) sid pid (sc_region_id c) (sc_peer_ids c ++ [pid])
    d Hd Hno) as (d1 & s1 & Hrun1 & Hd1 & _ & Hid1 & Hraft1 & Ho1 & Hdata1).
  destruct (join_holds (raft_ s) s1 d1 (sc_region_id c) t log)
    as (d2 & s2 & Hrun2 & Hd2 & Hid2 & Hs2); try done.
  { by rewrite Hraft1. }
  { rewrite Hdata1. apply map_filter_empty. }
  destruct (bootstrap_write (data_ (engine_ s)) d2 s2 _ _ _ data Hd2 Hs2 Hsd Hun)
    as (d3 & s3 & Hrun3 & Hd3 & Hid3 & Hs3).
  assert (same_ids (new_store sid pid (sc_region_id c) (sc_peer_ids c ++ [pid])) s3)
    as [Hsid3 Hpid3] by (by do 2 (etrans; [eassumption|])).
  exists d3, s3. split_and!; [|done|done|done|by apply add_store_sync].
  set (boot := bootstrap_mutations _) in *. set (c1 := set_peer_ids (sc_peer_ids c ++ [pid]) c).
  unfold AddPeer, the_cluster, update. run. cbn [snd].
  rewrite fresh_store_id, bool_decide_eq_false_2 by (done || by intros []).
  rewrite decide_False by done. run. cbn [fst snd]. fold c1.
  run_call ltac:(unfold on_new; by rewrite Hrun1). unfold Leader. rewrite Hi.
  run_call ltac:(
    run_call ltac:(apply (at_store_run i _ d1 c1 s); [exact Hs | apply ScanRange_run]);
    rewrite list_insert_id by exact Hs; change (set_stores (sc_stores c1) c1) with c1;
    run_call ltac:(by apply leader_raft_run);
    run_call ltac:(unfold on_new; by rewrite Hrun2); reflexivity).
  run. cbn [fst snd]. fold boot.
  change (set_stores (sc_stores c1 ++ [s2]) c1) with (add_store s2 pid c).
  revert Hrun3. case_decide; [by intros [= <- <-]|]. intros Hrun3.
  assert (sc_stores (add_store s2 pid c) !! length (sc_stores c) = Some s2) as Hlast
    by by apply list_lookup_middle.
  rewrite (at_store_run _ _ _ _ _ _ _ _ Hlast Hrun3).
  unfold add_store. cbn. by rewrite insert_app_r_alt, Nat.sub_diag.
Qed.

(** Removing a peer: the others go on, under a new leader if it led. *)
Definition drop_store (i : nat) (pid : N) (c : SingleRegionCluster) : SingleRegionCluster :=
  set_peer_ids (filter (λ p, p ≠ pid) (sc_peer_ids c)) (set_stores (delete i (sc_stores c)) c).

Lemma drop_store_peers i pid c s :
  NoDup (peer_id_ <$> sc_stores c) → sc_stores c !! i = Some s → peer_id_ s = pid →
  ∀ q, q ∈ peer_id_ <$> sc_stores (drop_store i pid c) ↔
       q ∈ peer_id_ <$> sc_stores c ∧ q ≠ pid.
Proof.
  intros Hnd Hs Hp q. cbn.
  assert ((peer_id_ <$> sc_stores c) !! i = Some pid) as Hi
    by (rewrite list_lookup_fmap, Hs; simpl; by rewrite Hp).
  rewrite list_fmap_delete. pose proof (delete_Permutation _ _ _ Hi) as Hperm.
  remember (delete i (peer_id_ <$> sc_stores c)) as left eqn:Hleft. clear Hleft.
  rewrite Hperm in Hnd |- *. rewrite elem_of_cons. apply list.NoDup_cons in Hnd as [Hnin _].
  split; [|tauto]. intros Hq. split; [by right|]. by intros ->.
Qed.

Lemma drop_store_forall (P : SingleRegionStore → Prop) i pid c :
  Forall P (sc_stores c) → Forall P (sc_stores (drop_store i pid c)).
Proof.
  rewrite !list.Forall_forall. intros Hall s Hs%list_elem_of_delete_inv. by apply Hall.
Qed.

Lemma drop_store_nodup i pid c :
  NoDup (peer_id_ <$> sc_stores c) → NoDup (peer_id_ <$> sc_stores (drop_store i pid c)).
Proof.
  intros Hnd. cbn. rewrite list_fmap_delete. by eapply sublist_NoDup, sublist_delete.
Qed.

Lemma RemovePeer_sync d c t log data pid :
  disk_ok d → in_sync c t log data → pid ∈ peer_id_ <$> sc_stores c →
  1 < length (sc_stores c) → (t + 1 < two64)%N →
  ∃ d' c' t', RemovePeer pid (d, c) = (Ok tt, (d', c')) ∧ disk_ok d' ∧
    in_sync c' t' log data ∧ (t <= t' <= t + 1)%N ∧
    (∀ q, q ∈ peer_id_ <$> sc_stores c' ↔ q ∈ peer_id_ <$> sc_stores c ∧ q ≠ pid).
Proof.
  intros Hd Hsync Hpid Hlen Ht. pose proof Hsync as [Hall Hnd Hmem Hlog].
  destruct (find_peer_member _ _ Hpid) as [i Hi]. pose proof Hi as (s & Hs & Hp)%find_peer_Some.
  pose proof (drop_store_peers i pid c s Hnd Hs Hp) as Hpeers.
  unfold RemovePeer, the_cluster, update. run. cbn [snd]. rewrite decide_False by lia.
  rewrite Hi. run. cbn [fst snd]. fold (drop_store i pid c).
  destruct (decide (sc_leader_peer_id c = pid)) as [Hlead | Hlead]; run; cbn [fst snd].
  - destruct (delete i (sc_stores c)) as [|s1 rest] eqn:Hdel.
    { apply (f_equal length) in Hdel. rewrite length_delete in Hdel by by eexists.
      simpl in Hdel. lia. }
    set (c1 := set_leader 0 (drop_store i pid c)).
    assert (quiet c1 t log data) as Hq.
    { apply in_sync_quiet in Hsync as [Hq _ _].
      split; [by apply drop_store_forall | by apply drop_store_nodup | done]. }
    destruct (ElectLeader_sync c1 t log data Hq Ht (peer_id_ s1)) with (d := d)
      as (d' & c' & Hrun & Hd' & (_ & _ & _ & _ & Hids) & Hsync').
    { cbn. rewrite Hdel. apply list_elem_of_here. }
    { done. }
    exists d', c', (t + 1)%N. split_and!; [exact Hrun | done | done | lia | lia|].
    intros q. rewrite (same_ids_peers _ _ Hids). apply Hpeers.
  - exists d, (drop_store i pid c), t. split_and!; [done | done | | lia | lia | done].
    split; [by apply drop_store_forall | by apply drop_store_nodup | | done].
    by apply Hpeers.
Qed.
