(* ===== verification/Region.v ===== *)
(** The contract of a replicated region: the map its clients see and the set of
    its members, and the proof that the cluster of single_region_cluster.cpp
    implements them. *)

From S2P Require Import Prelude Types Text Engine Raft RaftStorage Keyspace Cluster ClusterSpec.

(** * The specification *)

Record RegionSpec := mkRegionSpec { contents : DataMap; members : gset N }.

Inductive region_op :=
  | DoPut (key value : string)
  | DoDelete (key : string)
  | DoBatch (mutations : list KvMutation)
  | DoTransfer (peer : N)
  | DoRemove (peer : N).

Definition spec_step (op : region_op) (sp : RegionSpec) : RegionSpec :=
  match op with
  | DoPut k v => mkRegionSpec (<[k := v]> (contents sp)) (members sp)
  | DoDelete k => mkRegionSpec (delete k (contents sp)) (members sp)
  | DoBatch ms => mkRegionSpec (apply_batch (contents sp) ms) (members sp)
  | DoTransfer _ => sp
  | DoRemove p => mkRegionSpec (contents sp) (members sp ∖ {[p]})
  end.

(** What a client must respect: keys are not empty and not in the range of the
    Raft state, batches fit into a vector, peers are members and one stays. *)
Definition op_ok (op : region_op) (sp : RegionSpec) : Prop :=
  match op with
  | DoPut k _ => k ≠ "" ∧ user_key k
  | DoDelete k => user_key k
  | DoBatch ms => keys_ok ms ∧ user_batch ms ∧ (N.of_nat (length ms) <= max_mutations)%N
  | DoTransfer p => p ∈ members sp
  | DoRemove p => p ∈ members sp ∧ 1 < size (members sp)
  end.

Fixpoint ops_ok (ops : list region_op) (sp : RegionSpec) : Prop :=
  match ops with [] => True | op :: rest => op_ok op sp ∧ ops_ok rest (spec_step op sp) end.

Definition spec_run (ops : list region_op) (sp : RegionSpec) : RegionSpec :=
  foldl (λ sp op, spec_step op sp) sp ops.

(** * The implementation *)

Definition do_op (op : region_op) : IO ClusterW unit :=
  match op with
  | DoPut k v => Cluster.Put k v
  | DoDelete k => Cluster.Delete k
  | DoBatch ms => Batch ms
  | DoTransfer p => TransferLeader p
  | DoRemove p => RemovePeer p
  end.

Fixpoint do_ops (ops : list region_op) : IO ClusterW unit :=
  match ops with [] => mret tt | op :: rest => _ ← do_op op; do_ops rest end.

(** * The relation, good for [k] more operations *)

Definition implements (k : nat) (c : SingleRegionCluster) (sp : RegionSpec) : Prop :=
  ∃ t log, in_sync c t log (contents sp) ∧
    (∀ q, q ∈ peer_id_ <$> sc_stores c ↔ q ∈ members sp) ∧
    (t + N.of_nat k < two64)%N ∧ (N.of_nat (length log) + N.of_nat k < two64)%N.

Lemma members_length c (X : gset N) :
  NoDup (peer_id_ <$> sc_stores c) → (∀ q, q ∈ peer_id_ <$> sc_stores c ↔ q ∈ X) →
  size X = length (sc_stores c).
Proof.
  intros Hnd HX. assert (X = list_to_set (peer_id_ <$> sc_stores c)) as ->.
  { apply set_eq. intros q. by rewrite elem_of_list_to_set, HX. }
  by rewrite size_list_to_set, length_fmap.
Qed.

Lemma write_implements k c sp cmd ms d :
  ApplyKvCommand cmd = Engine.WriteBatch ms → user_batch ms →
  implements (S k) c sp → disk_ok d →
  ∃ d' c', ProposeAndReplicate cmd (d, c) = (Ok tt, (d', c')) ∧ disk_ok d' ∧
    implements k c' (mkRegionSpec (apply_batch (contents sp) ms) (members sp)).
Proof.
  intros Hcmd Hms (t & log & Hsync & Hmem & Ht & Hlen) Hd.
  destruct (ProposeAndReplicate_sync c t log (contents sp) cmd ms Hsync) with (d := d)
    as (d' & c' & Hrun & Hd' & (_ & _ & _ & _ & Hids) & Hsync'); [lia | done..|].
  exists d', c'. split_and!; [done..|]. eexists t, _. split; [exact Hsync'|].
  rewrite (same_ids_peers _ _ Hids), length_next. split_and!; [done | lia | lia].
Qed.

Lemma transfer_implements k c sp p d :
  p ∈ members sp → implements (S k) c sp → disk_ok d →
  ∃ d' c', TransferLeader p (d, c) = (Ok tt, (d', c')) ∧ disk_ok d' ∧ implements k c' sp.
Proof.
  intros Hp (t & log & Hsync & Hmem & Ht & Hlen) Hd.
  unfold TransferLeader, the_cluster. run. cbn [snd]. case_decide.
  { exists d, c. split_and!; [done..|]. exists t, log. split_and!; [done | done | lia | lia]. }
  destruct (ElectLeader_sync c t log (contents sp)) with (pid := p) (d := d)
    as (d' & c' & Hrun & Hd' & (_ & _ & _ & _ & Hids) & Hsync');
    [by apply in_sync_quiet | lia | by apply Hmem | done|].
  exists d', c'. split_and!; [done..|]. exists (t + 1)%N, log.
  split_and!; [done | | lia | lia]. intros q. rewrite (same_ids_peers _ _ Hids). apply Hmem.
Qed.

Lemma remove_implements k c sp p d :
  p ∈ members sp → 1 < size (members sp) → implements (S k) c sp → disk_ok d →
  ∃ d' c', RemovePeer p (d, c) = (Ok tt, (d', c')) ∧ disk_ok d' ∧
    implements k c' (mkRegionSpec (contents sp) (members sp ∖ {[p]})).
Proof.
  intros Hp Hsize (t & log & Hsync & Hmem & Ht & Hlen) Hd. pose proof Hsync as [_ Hnd _ _].
  rewrite (members_length c) in Hsize by done.
  destruct (RemovePeer_sync d c t log (contents sp) p)
    as (d' & c' & t' & Hrun & Hd' & Hsync' & Ht' & Hpeers); [done|done|by apply Hmem|done|lia|].
  exists d', c'. split_and!; [done..|]. exists t', log. split_and!; [done| |lia|lia].
  intros q. cbn. rewrite Hpeers, Hmem. set_solver.
Qed.

Lemma step_implements k c sp op d :
  op_ok op sp → implements (S k) c sp → disk_ok d →
  ∃ d' c', do_op op (d, c) = (Ok tt, (d', c')) ∧ disk_ok d' ∧ implements k c' (spec_step op sp).
Proof.
  destruct op as [key v|key|ms|p|p]; simpl; intros Hok Himp Hd.
  - destruct Hok. apply (write_implements k c sp _ [mkMutation kPut key v]); try done.
    + by rewrite apply_put_command.
    + by repeat constructor.
  - apply (write_implements k c sp _ [mkMutation kDelete key ""]); try done.
    + by rewrite apply_delete_command.
    + by repeat constructor.
  - destruct Hok as (Hk & Hu & Hlen). unfold Batch. case_decide as Hnil.
    { subst ms. exists d, c. split_and!; [done..|]. destruct Himp as (t & log & ?&?&?&?).
      exists t, log. split_and!; [done|done|lia|lia]. }
    apply (write_implements k c sp _ ms); try done.
    exact (apply_batch_command (S := EngineW) ms Hk Hlen).
  - by apply transfer_implements.
  - destruct Hok. by apply remove_implements.
Qed.

Lemma run_implements ops k c sp d :
  ops_ok ops sp → implements (length ops + k) c sp → disk_ok d →
  ∃ d' c', do_ops ops (d, c) = (Ok tt, (d', c')) ∧ disk_ok d' ∧
    implements k c' (spec_run ops sp).
Proof.
  revert c sp d. induction ops as [|op ops IH]; intros c sp d; simpl.
  { intros _ ??. by exists d, c. }
  intros [Hok Hops] Himp Hd.
  destruct (step_implements _ c sp op d Hok Himp Hd) as (d1 & c1 & Hrun1 & Hd1 & Himp1).
  destruct (IH _ _ _ Hops Himp1 Hd1) as (d2 & c2 & Hrun2 & Hd2 & Himp2).
  exists d2, c2. split_and!; [|done|done]. by run_call ltac:(exact Hrun1).
Qed.

(** * Reads *)

Lemma GetFromStore_run c t log data sid key d :
  in_sync c t log data → sid ∈ store_id_ <$> sc_stores c → user_key key →
  GetFromStore sid key (d, c) =
  (match data !! key with Some v => Ok v | None => Err (key_not_found key) end, (d, c)).
Proof.
  intros Hsync (s & Hsid & Hs)%list_elem_of_fmap Hkey.
  unfold GetFromStore, FindByStoreId.
  destruct (list_find_elem_of (λ s, store_id_ s = sid) (sc_stores c) s Hs (eq_sym Hsid))
    as [[i x] Hf]. rewrite Hf. cbn [fmap option_fmap option_map snd].
  apply list_find_Some in Hf as (Hx & _ & _).
  assert (user_part (data_ (engine_ x)) = data) as <-.
  { pose proof (list.Forall_lookup_1 _ _ _ _ (sync_stores _ _ _ _ Hsync) Hx) as Hall.
    unfold phase in Hall. case_decide; apply Hall. }
  unfold Store_Get, on_engine, zoom. rewrite Get_spec. cbn [fst snd]. do 2 f_equal.
  unfold user_part. destruct (data_ (engine_ x) !! key) as [v|] eqn:Hv.
  - by rewrite (map_lookup_filter_Some_2 _ _ _ _ Hv).
  - by rewrite map_lookup_filter_None_2 by by left.
Qed.

(** C4: A replicated region is one map, for the operations its contract allows:
    puts and batches of keys that are not empty, no key with the prefix [raft/],
    leader transfers to members, and removals of members other than the last. (The
    code returns an error for other transfers and removals, and refuses no key.)
    Bootstrapped on a named directory, which it empties, with any number of stores,
    and then driven through any sequence of such operations, the region returns
    success from every one and every remaining store answers every read of a key
    without that prefix with what the single map of the specification holds. *)
Theorem region_is_one_map dir n r ops d c :
  disk_ok d → dir ≠ "" → n ≠ 0 →
  let start := mkRegionSpec ∅ (list_to_set (first_ids n)) in
  ops_ok ops start → (N.of_nat (length ops) + 1 < two64)%N →
  ∃ d' c',
    (Bootstrap dir n r true ≫= λ _, do_ops ops) (d, c) = (Ok tt, (d', c')) ∧
    (∀ q, q ∈ peer_id_ <$> sc_stores c' ↔ q ∈ members (spec_run ops start)) ∧
    (∀ sid key, sid ∈ store_id_ <$> sc_stores c' → user_key key →
       (GetFromStore sid key (d', c')).1 =
       match contents (spec_run ops start) !! key with
       | Some v => Ok v
       | None => Err (key_not_found key)
       end).
Proof.
  intros Hd Hdir Hn start Hops Hlen.
  destruct (Bootstrap_sync dir n r d c Hd Hdir Hn)
    as (d1 & c1 & Hrun1 & Hd1 & Hsync1 & _ & _ & _ & _ & _ & Hpeers1).
  destruct (run_implements ops 0 c1 start d1 Hops)
    as (d2 & c2 & Hrun2 & Hd2 & (t & log & Hsync & Hmem & _)); [|done|].
  { exists 1%N, []. split_and!; [done| |lia|simpl; lia]. intros q. cbn.
    rewrite elem_of_list_to_set, Hpeers1. done. }
  exists d2, c2. split_and!; [by run_call ltac:(exact Hrun1) | done|].
  intros sid key Hsid Hkey. by rewrite (GetFromStore_run c2 t log _ sid key d2 Hsync).
Qed.

Definition sample_ops : list region_op :=
  [DoPut "a" "1"; DoBatch [mkMutation kPut "b" "2"; mkMutation kDelete "a" ""];
   DoTransfer 2; DoPut "c" ""; DoRemove 2; DoDelete "b"].

Lemma region_is_one_map_witness :
  let start := mkRegionSpec ∅ (list_to_set (first_ids 3)) in
  ∃ d' c',
    (Bootstrap "data" 3 7 true ≫= λ _, do_ops sample_ops) (mkDisk ∅ [], new_cluster) =
      (Ok tt, (d', c')) ∧
    (∀ q, q ∈ peer_id_ <$> sc_stores c' ↔ q ∈ members (spec_run sample_ops start)) ∧
    (∀ sid key, sid ∈ store_id_ <$> sc_stores c' → user_key key →
       (GetFromStore sid key (d', c')).1 =
       match contents (spec_run sample_ops start) !! key with
       | Some v => Ok v
       | None => Err (key_not_found key)
       end).
Proof.
  apply (region_is_one_map "data" 3 7 sample_ops).
  - reflexivity.
  - discriminate.
  - discriminate.
  - split; [split; [discriminate | reflexivity]|].
    split; [split; [repeat constructor; discriminate|]; split; [repeat constructor | discriminate]|].
    split; [cbn [op_ok spec_step members]; apply (bool_decide_unpack _); vm_compute; exact I|].
    split; [split; [discriminate | reflexivity]|].
    split; [cbn [op_ok spec_step members]; split;
            [apply (bool_decide_unpack _); vm_compute; exact I | vm_compute; lia]|].
    split; [reflexivity | exact I].
  - vm_compute. reflexivity.
Defined.

(** * Joining *)

(** C33: Adding a peer. In a led region whose stores agree, adding a store and a
    peer that are new, whose directory holds no files, succeeds: the new store
    gets the log, the term and all contents, follows the leader, and the region
    stays in agreement. The contents must not hold keys with a prefix the
    program reserves. *)
Theorem add_peer_joins d c t log data sid pid :
  disk_ok d → in_sync c t log data → unreserved data →
  sid ∉ store_id_ <$> sc_stores c → pid ∉ peer_id_ <$> sc_stores c → pid ∉ sc_peer_ids c →
  no_files (sc_data_dir c) sid d →
  ∃ d' s, AddPeer sid pid (d, c) = (Ok tt, (d', add_store s pid c)) ∧
    store_id_ s = sid ∧ peer_id_ s = pid ∧ in_sync (add_store s pid c) t log data ∧
    (∀ key, user_key key → (GetFromStore sid key (d', add_store s pid c)).1 =
       match data !! key with Some v => Ok v | None => Err (key_not_found key) end).
Proof.
  intros Hd Hsync Hun Hsid Hpid Hpids Hno.
  destruct (AddPeer_sync d c t log data sid pid Hd Hsync Hun Hsid Hpid Hpids Hno)
    as (d' & s & Hrun & Hd' & Hs & Hp & Hsync').
  exists d', s. split_and!; [done..|]. intros key Hkey.
  rewrite (GetFromStore_run (add_store s pid c) t log data); [done | done| |done].
  cbn. rewrite fmap_app, elem_of_app. right. rewrite <-Hs. apply list_elem_of_here.
Qed.

(** A region of one store, and the same with one key written. *)
Definition run_cluster {A} (m : IO ClusterW A) : Disk * SingleRegionCluster :=
  (m (mkDisk ∅ [], new_cluster)).2.
Definition one_store : Disk * SingleRegionCluster := run_cluster (Bootstrap "data" 1 7 true).

Lemma one_store_sync :
  in_sync one_store.2 1 [] ∅ ∧ disk_ok one_store.1 ∧
  no_files (sc_data_dir one_store.2) 2 one_store.1.
Proof.
  split; [|split; vm_compute; reflexivity].
  destruct (Bootstrap_sync "data" 1 7 (mkDisk ∅ []) new_cluster) as (d & c & Hrun & _ & H & _);
    [done..|].
  unfold one_store, run_cluster. by rewrite Hrun.
Qed.

Lemma add_peer_joins_witness :
  ∃ d' s, AddPeer 2 5 (one_store.1, one_store.2) = (Ok tt, (d', add_store s 5 one_store.2)) ∧
    store_id_ s = 2%N ∧ peer_id_ s = 5%N ∧ in_sync (add_store s 5 one_store.2) 1 [] ∅ ∧
    (∀ key, user_key key → (GetFromStore 2 key (d', add_store s 5 one_store.2)).1 =
       match (∅ : DataMap) !! key with Some v => Ok v | None => Err (key_not_found key) end).
Proof.
  apply (add_peer_joins one_store.1 one_store.2 1 [] ∅ 2 5).
  - apply one_store_sync.
  - apply one_store_sync.
  - intros k v Hk. discriminate Hk.
  - apply (bool_decide_unpack _). vm_compute. exact I.
  - apply (bool_decide_unpack _). vm_compute. exact I.
  - apply (bool_decide_unpack _). vm_compute. exact I.
  - apply one_store_sync.
Defined.

(** A user key with a reserved prefix is lost on the way to a new peer. The
    region accepts a write to pd/x and the first store returns it, but a peer
    added afterwards does not have it, although it reports the same log as
    applied. *)
Lemma add_peer_drops_reserved_keys :
  let w := run_cluster (_ ← Bootstrap "data" 1 7 true; _ ← Cluster.Put "pd/x" "v"; AddPeer 2 2) in
  (GetFromStore 1 "pd/x" w).1 = Ok "v" ∧
  (GetFromStore 2 "pd/x" w).1 = Err (key_not_found "pd/x") ∧
  ((λ s, last_applied_ (raft_ s)) <$> sc_stores w.2) = [1%N; 1%N].
Proof. vm_compute. done. Qed.

(** A restart forgets who was removed: the peers are numbered afresh, and nothing
    on disk says otherwise. A removed store is back with the contents it had, and
    serves them; without the peer that went on, no leader is elected. *)
Lemma restart_forgets_removal :
  let restarted peer := _ ← Bootstrap "data" 3 1 true; _ ← Cluster.Put "a" "1"; _ ← RemovePeer peer;
                        _ ← Cluster.Put "a" "2"; Bootstrap "data" 3 1 false in
  (restarted 1%N (mkDisk ∅ [], new_cluster)).1 = Err (Internal "failed to elect leader") ∧
  let w := run_cluster (restarted 3%N) in
  (GetFromStore 1 "a" w).1 = Ok "2" ∧ (GetFromStore 3 "a" w).1 = Ok "1".
Proof. vm_compute. done. Qed.
