(* ===== verification/RegionRestart.v ===== *)
(** A region whose process stops: every store's engine holds the Raft state and
    the contents that the store has in memory, so that a bootstrap on the same
    directory goes on where the region was. *)

From S2P Require Import Prelude Types Text Engine Raft RaftStorage Keyspace Cluster ClusterSpec Region.

(** * What is on disk *)

(** Nothing but the logs of stores below [dir] differs. *)
Definition outside (dir : string) (d d' : Disk) : Prop :=
  ∀ q, (∀ id, q ≠ store_log dir id) → files d' !! q = files d !! q.

Section saved.
Context (dir : string) (r : N) (d0 : Disk).

(** The engine of a store, opened below [dir], and who the store is: [d0] is the
    disk some steps ago. *)
Record placed (d : Disk) (s : SingleRegionStore) : Prop := {
  pl_outside : outside dir d0 d;
  pl_engine : engine_good (store_dir dir (store_id_ s)) (d, engine_ s);
  pl_opened : opened_ s = true;
  pl_region : region_id_ (raft_ s) = r;
  pl_peer : peer_id_ s = store_id_ s;
  pl_self : self_id_ (raft_ s) = store_id_ s;
  pl_word : (store_id_ s < two64)%N;
  pl_vote : (default 0 (voted_for_ (raft_ s)) < two64)%N;
}.

(** The engine holds the log [log]. *)
Definition kept (log : list LogEntry) (d : Disk) (s : SingleRegionStore) : Prop :=
  placed d s ∧ log_stored r (data_ (engine_ s)) log.

(** The engine holds the hard state the Raft node has. *)
Definition settled (s : SingleRegionStore) : Prop :=
  hard_stored r (data_ (engine_ s)) (hard_state (raft_ s)).

Definition saved (log : list LogEntry) (d : Disk) (s : SingleRegionStore) : Prop :=
  kept log d s ∧ settled s.

Abbreviation takes := (takes (writes dir)).
Abbreviation stable := (stable (writes dir)).

(** ** Stores do not share files *)

Lemma stable_placed : stable placed.
Proof.
  intros p d d' s [Hok Hf] Hp [Ho (Hd & (Hne & Hlp & text & Ht & Hc & Hr) & Hdir) Hop Hreg Hpeer Hself Hw Hv].
  cbn [fst snd] in *. split; try done.
  - intros q Hq. rewrite Hf; [by apply Ho | by apply Hq].
  - split_and!; [by apply Hok | split; [done | split; [done|]] | done]. exists text. cbn [fst snd].
    rewrite Hf; [done|]. rewrite Hlp, Hdir. intros Heq%store_log_inj. congruence.
Qed.

Lemma stable_kept log (F : SingleRegionStore → Prop) : stable (λ d s, F s ∧ kept log d s).
Proof.
  intros p d d' s Hw Hp (HF & Hpl & Hl). split; [done|]. split; [|done].
  by apply (stable_placed p d d' s).
Qed.

Lemma stable_saved log (F : SingleRegionStore → Prop) : stable (λ d s, F s ∧ saved log d s).
Proof.
  intros p d d' s Hw Hp (HF & Hk & Hs). split; [done|]. split; [|done].
  by apply (stable_kept log F p d d' s).
Qed.

(** ** Writes *)

Lemma write_placed ms d s :
  placed d s → keys_ok ms →
  ∃ d' e', Engine.WriteBatch ms (d, engine_ s) = (Ok tt, (d', e')) ∧
    writes dir (peer_id_ s) d d' ∧ placed d' (set_engine e' s) ∧
    data_ e' = apply_batch (data_ (engine_ s)) ms.
Proof.
  intros [Ho He Hop Hreg Hpeer Hself Hw Hv] Hms.
  destruct (write_good _ ms d (engine_ s) He Hms) as (d' & e' & Hrun & He' & Hdata).
  pose proof He as (Hd & (_ & Hlp & _) & Hdir). cbn [fst snd] in *.
  assert (writes dir (peer_id_ s) d d') as Hwr.
  { pose proof (WriteBatch_ok ms d (engine_ s) Hd) as Hrun2. rewrite Hrun in Hrun2.
    injection Hrun2 as -> _. split; [by apply write_disk_ok|]. intros q Hq. unfold write_disk.
    case_decide; [done|]. cbn [files set_files]. unfold append_to. rewrite lookup_insert_ne; [done|].
    rewrite Hlp, Hdir, <-Hpeer. intros Heq. by apply Hq. }
  exists d', e'. split_and!; [done..| |done]. split; try done.
  intros q Hq. destruct Hwr as [_ Hwr]. rewrite Hwr; [by apply Ho | apply Hq].
Qed.

Lemma PersistHardState_takes log d s :
  kept log d s → takes PersistHardState tt (λ d' s', saved log d' s' ∧ raft_ s' = raft_ s) (d, s).
Proof.
  intros [Hpl Hl]. pose proof Hpl as [_ _ Hop Hreg _ _ _ _].
  destruct (write_placed (hard_batch r (hard_state (raft_ s))) d s Hpl)
    as (d' & e' & Hrun & Hw & Hpl' & Hdata); [by repeat constructor|].
  exists d', (set_engine e' s). split; [|split; [exact Hw|split; [done|split; [split; [split; [exact Hpl'|]|]|done]]]].
  - unfold PersistHardState, the_raft. run_call ltac:(by apply storage_ready_ok). run.
    cbn [snd]. rewrite Hreg. by apply on_engine_run.
  - cbn [engine_ set_engine]. rewrite Hdata. eapply log_stored_frame; [|exact Hl].
    intros k Hk. apply hard_batch_frame. by eapply log_not_meta.
  - unfold settled. cbn [engine_ set_engine raft_]. rewrite Hdata. apply hard_batch_stored.
Qed.

Lemma PersistLogEntry_takes log e d s :
  kept log d s → log_ok r (log ++ [e]) →
  takes (PersistLogEntry e) tt
    (λ d' s', kept (log ++ [e]) d' s' ∧ raft_ s' = raft_ s ∧ (settled s → settled s')) (d, s).
Proof.
  intros [Hpl Hl] Hok. pose proof Hpl as [_ _ Hop Hreg _ _ _ _].
  pose proof Hok as (_ & Her & Hei & _)%log_ok_app.
  destruct (write_placed [mkMutation kPut (RaftLogKey (e_region_id e) (e_index e)) (SerializeLogEntry e)]
    d s Hpl) as (d' & e' & Hrun & Hw & Hpl' & Hdata); [by repeat constructor|].
  exists d', (set_engine e' s). split; [|split; [exact Hw|split; [done|split; [split; [exact Hpl'|]|split; [done|]]]]].
  - unfold PersistLogEntry. run_call ltac:(by apply storage_ready_ok). by apply on_engine_run.
  - cbn [engine_ set_engine]. rewrite Hdata, Her. by apply log_stored_put.
  - unfold settled. cbn [engine_ set_engine raft_]. rewrite Hdata.
    intros (?&?&?&?). unfold hard_stored. cbn. by rewrite !lookup_insert_ne by done.
Qed.

Lemma apply_takes cmd log d s :
  kept log d s → command_ok cmd →
  takes (on_engine (ApplyKvCommand cmd)) tt (λ d' s', kept log d' s' ∧ raft_ s' = raft_ s) (d, s).
Proof.
  intros [Hpl Hl] (ms & Hcmd & Hms & Hk).
  destruct (write_placed ms d s Hpl Hk) as (d' & e' & Hrun & Hw & Hpl' & Hdata).
  exists d', (set_engine e' s). split; [|split; [exact Hw|split; [done|split; [split; [exact Hpl'|]|done]]]].
  - apply on_engine_run. by rewrite Hcmd.
  - cbn [engine_ set_engine]. rewrite Hdata. by apply log_stored_user.
Qed.

(** ** Steps of the Raft node *)

Lemma kept_raft log d s s' :
  kept log d s → same_ids s s' → engine_ s' = engine_ s → opened_ s' = opened_ s →
  region_id_ (raft_ s') = r → self_id_ (raft_ s') = self_id_ (raft_ s) →
  (default 0 (voted_for_ (raft_ s')) < two64)%N → kept log d s'.
Proof.
  intros [[Ho He Hop Hreg Hpeer Hself Hw Hv] Hl] [Hid Hp] Hen Hop' Hreg' Hself' Hv'.
  split; [split|]; rewrite ?Hen, ?Hop', ?Hid, ?Hp, ?Hself'; done.
Qed.

Lemma kept_still log d s s' :
  kept log d s → same_ids s s' → still s s' → region_id_ (raft_ s') = r → kept log d s'.
Proof.
  intros Hk Hid (Hen & Hop & Hself & Hv) Hreg. eapply kept_raft; [exact Hk|done..|].
  rewrite Hv. apply Hk.
Qed.

Lemma raft_takes {A} (m : IO RaftNode A) x s' log d s :
  on_raft m (d, s) = (Ok x, (d, s')) → same_ids s s' → kept log d s' →
  takes (on_raft m) x (λ d1 s1, s1 = s' ∧ kept log d1 s') (d, s).
Proof.
  intros Hrun Hid Hk. exists d, s'. split; [done|split; [reflexivity|split; [done|by split]]].
Qed.

Lemma takes_ret {A} (x : A) (F : Disk → SingleRegionStore → Prop) d s :
  F d s → takes (mret x) x F (d, s).
Proof. intros HF. exists d, s. split; [done|split; [reflexivity|by split]]. Qed.

Lemma takes_weaken {A} (m : IO StoreW A) x (F G : Disk → SingleRegionStore → Prop) w :
  takes m x F w → (∀ d s, F d s → G d s) → takes m x G w.
Proof. intros (d & s & ?&?&?&?) HG. exists d, s. split_and!; [done..|by apply HG]. Qed.

(** What a call does to the Raft states and what it does to the disk. *)
Lemma takes_both {A} (m : IO StoreW A) x (F : SingleRegionStore → Prop) K d s :
  (∃ d' s', m (d, s) = (Ok x, (d', s')) ∧ disk_ok d' ∧ same_ids s s' ∧ F s') →
  takes m x K (d, s) → takes m x (λ d s, F s ∧ K d s) (d, s).
Proof.
  intros (d1 & s1 & Hrun1 & _ & _ & HF) (d2 & s2 & Hrun2 & Hw & Hid & HK).
  rewrite Hrun1 in Hrun2. injection Hrun2 as <- <-. by exists d1, s1.
Qed.

Lemma phase_both p F L K (ss : list SingleRegionStore) :
  Forall (phase p (λ s, F s ∧ K s) (λ s, L s ∧ K s)) ss ↔
  Forall (phase p F L) ss ∧ Forall K ss.
Proof.
  rewrite <-list.Forall_and. apply list.Forall_proper; [|done]. intros s. unfold phase. by case_decide.
Qed.

(** * A write *)

Section propose.
Context (c : SingleRegionCluster) (t : N) (log : list LogEntry) (data : DataMap).
Context (cmd : string) (ms : list KvMutation).
Context (Hr : sc_region_id c = r) (Hsync : in_sync c t log data).
Context (Hlen : (N.of_nat (length log) + 1 < two64)%N).
Context (Hcmd : ApplyKvCommand cmd = Engine.WriteBatch ms) (Hms : user_batch ms) (Hk : keys_ok ms).

Abbreviation len := (N.of_nat (length log)).
Abbreviation entry := (next_entry r t log cmd).
Abbreviation log' := (log ++ [entry]).

Context (Hok : log_ok r log').

Lemma log_here : log_from r 0 log.
Proof. rewrite <-Hr. apply Hsync. Qed.

Lemma ApplyCommitted_saved role d s :
  holds s r role t log' (len + 1) len data → kept log' d s →
  takes ApplyCommitted tt (saved log') (d, s).
Proof.
  intros Hs Hkept. pose proof Hs as [Ho Hreg Hro Ht Hl Hc Ha Hdata].
  assert (wf (raft_ s)) as Hwf.
  { eapply holds_wf; [done | apply log_from_next, log_here | rewrite length_next; lia | lia]. }
  set (s1 := set_raft (with_log (len + 1) (len + 1) log' (raft_ s)) s).
  unfold ApplyCommitted. eapply (takes_bind (writes dir)).
  { apply (raft_takes _ [entry] s1 log').
    - apply on_raft_run. rewrite TakeCommittedEntries_spec by done.
      rewrite Hc, Ha, Hl. replace (N.to_nat (len + 1 - len)) with 1 by lia.
      by rewrite Nat2N.id, drop_app_length.
    - done.
    - eapply kept_raft; [exact Hkept | done..|]. apply Hkept. }
  intros d1 s2 _ [-> Hk1]. eapply (takes_bind (writes dir)).
  { cbn [apply_entries e_type next_entry]. rewrite decide_False by done.
    eapply (takes_bind (writes dir)); [eapply apply_takes; [exact Hk1 | by exists ms]|].
    intros d2 s3 _ [Hk2 _]. by apply (takes_ret tt (kept log')). }
  intros d2 s3 _ Hk2. eapply takes_weaken; [by eapply PersistHardState_takes | by intros ?? []].
Qed.

Lemma commit_saved d s :
  holds s r kLeader t log' len len data → kept log' d s →
  takes (on_raft (modify (SetCommitIndex (len + 1))) ≫= λ _, ApplyCommitted) tt (saved log') (d, s).
Proof.
  intros Hs Hkept. pose proof Hs as [Ho Hreg Hro Ht Hl Hc Ha Hdata].
  assert (wf (raft_ s)) as Hwf.
  { eapply holds_wf; [done | apply log_from_next, log_here | rewrite length_next; lia | lia]. }
  eapply (takes_bind (writes dir)).
  { eapply (raft_takes _ _ (set_raft (SetCommitIndex (len + 1) (raft_ s)) s) log');
      [by apply on_raft_run | done |]. eapply kept_raft; [exact Hkept | done..|]. apply Hkept. }
  intros d1 s1 _ [-> Hk1]. apply (ApplyCommitted_saved kLeader); [|done].
  split; try done. cbn. by rewrite wf_last_index, Hl, length_next, N.min_id.
Qed.

Lemma offer_saved n d s k :
  log_ n = log' → current_term_ n = t → commit_index_ n = len →
  peer_id_ s ≠ sc_leader_peer_id c → caught_up kFollower r t log data s → saved log d s →
  takes (offer c entry n k) (S k) (saved log') (d, s).
Proof.
  intros Hn Ht Hc Hp Hs [Hkept _].
  destruct (follower_appends r t log cmd log_here d s data
    (mkAppendRequest (sc_region_id c) (current_term_ n) (sc_leader_peer_id c)
      (u64_sub (e_index entry) 1) (last_log_term (raft_ s)) [entry] (commit_index_ n)))
    as (s1 & Hrun1 & Hid1 & Hstill & Hs1); try done.
  { cbn. rewrite u64_sub_le by lia. lia. }
  { cbn. lia. }
  unfold offer. eapply (takes_bind (writes dir)); [by apply (takes_ret (d, s) (λ d' s', d' = d ∧ s' = s))|].
  intros ?? _ [-> ->]. cbn [snd]. rewrite decide_False by done.
  rewrite (prev_log_term_next r t log cmd n (raft_ s) Hlen Hn) by apply (h_log _ _ _ _ _ _ _ _ Hs).
  eapply (takes_bind (writes dir)); [by apply (takes_ret (last_log_term (raft_ s)) (λ d' s', d' = d ∧ s' = s))|].
  intros ?? _ [-> ->]. eapply (takes_bind (writes dir)).
  { eapply raft_takes; [exact Hrun1 | done |]. eapply kept_still; [exact Hkept | done | done | apply Hs1]. }
  intros d1 ? _ [-> Hk1]. cbn [ae_success]. eapply (takes_bind (writes dir)); [by eapply PersistLogEntry_takes|].
  intros d2 s2 _ (Hk2 & _). eapply (takes_bind (writes dir)); [by eapply PersistHardState_takes|].
  intros d3 s3 _ [Hs3 _]. by apply takes_ret.
Qed.

Lemma tell_saved n d s :
  current_term_ n = t → peer_id_ s ≠ sc_leader_peer_id c →
  holds s r kFollower t log' len len data → saved log' d s →
  takes (tell c n (len + 1) tt) tt (saved log') (d, s).
Proof.
  intros Ht Hp Hs [Hkept _].
  assert (wf (raft_ s)) as Hwf.
  { eapply holds_wf; [done | apply log_from_next, log_here | rewrite length_next; lia | lia]. }
  destruct (follower_commits r t log cmd log_here d s data
    (mkAppendRequest (sc_region_id c) (current_term_ n) (sc_leader_peer_id c)
       (last_log_index (raft_ s)) (last_log_term (raft_ s)) [] (len + 1)))
    as (s1 & Hrun1 & Hid1 & Hstill & Hs1); try done.
  { cbn. rewrite wf_last_index, (h_log _ _ _ _ _ _ _ _ Hs) by done. apply length_next. }
  unfold tell. eapply (takes_bind (writes dir)); [by apply (takes_ret (d, s) (λ d' s', d' = d ∧ s' = s))|].
  intros ?? _ [-> ->]. cbn [snd]. rewrite decide_False by done. eapply (takes_bind (writes dir)).
  { eapply raft_takes; [exact Hrun1 | done |]. eapply kept_still; [exact Hkept | done | done | apply Hs1]. }
  intros d1 ? _ [-> Hk1]. cbn [ae_success negb]. by apply (ApplyCommitted_saved kFollower).
Qed.

Lemma propose_saved d s :
  caught_up kLeader r t log data s → saved log d s →
  takes (on_raft (Propose kNormal cmd)) entry
    (λ d s, holds s r kLeader t log' len len data ∧ kept log d s ∧ settled s) (d, s).
Proof.
  intros Hs [Hkept Hset].
  destruct (Propose_holds r t log cmd d s len len data Hlen Hs)
    as (s' & Hrun & Hid & Hstill & Hs'); [eapply holds_wf; [exact Hs | apply log_here | done | done]|].
  exists d, s'. split; [done|split; [reflexivity|split; [done|split; [done|split]]]].
  - eapply kept_still; [exact Hkept | done | done | apply Hs'].
  - destruct Hstill as (Hen & _ & _ & Hv), Hs as [_ _ _ Ht1 _ Hc1 Ha1 _], Hs' as [_ _ _ Ht2 _ Hc2 Ha2 _].
    unfold settled, hard_state in *. by rewrite Hen, Hv, Ht2, Hc2, Ha2, <-Ht1, <-Hc1, <-Ha1 in *.
Qed.
End propose.

Lemma saved_disk log d s : saved log d s → disk_ok d.
Proof. intros [[Hpl _] _]. apply (pl_engine _ _ Hpl). Qed.
End saved.

Lemma ProposeAndReplicate_saved dir d0 c t log data cmd ms d :
  let r := sc_region_id c in let log' := log ++ [next_entry r t log cmd] in
  in_sync c t log data → (N.of_nat (length log) + 1 < two64)%N →
  ApplyKvCommand cmd = Engine.WriteBatch ms → user_batch ms → keys_ok ms →
  log_ok r log' → Forall (saved dir r d0 log d) (sc_stores c) →
  ∃ d' c', ProposeAndReplicate cmd (d, c) = (Ok tt, (d', c')) ∧ same_shape c c' ∧
    in_sync c' t log' (apply_batch data ms) ∧ Forall (saved dir r d0 log' d') (sc_stores c').
Proof.
  intros r log' Hsync Hlen Hcmd Hms Hk Hok Hsaved. pose proof Hsync as [Hall Hnd Hmem Hlog].
  destruct (find_peer_member _ _ Hmem) as [i Hi]. set (len := N.of_nat (length log)) in *.
  set (at_ (F : SingleRegionStore → Prop) l (d : Disk) s := F s ∧ saved dir r d0 l d s).
  destruct (ProposeAndReplicate_rounds (writes dir)
    (at_ (caught_up kFollower r t log data) log)
    (at_ (λ s, holds s r kFollower t log' len len data) log')
    (at_ (caught_up kFollower r t log' (apply_batch data ms)) log')
    (at_ (caught_up kLeader r t log data) log)
    (λ d s, holds s r kLeader t log' len len data ∧ kept dir r d0 log d s ∧ settled r s)
    (at_ (λ s, holds s r kLeader t log' len len data) log')
    (at_ (caught_up kLeader r t log' (apply_batch data ms)) log')
    cmd (next_entry r t log cmd) i d c)
    as (d' & c' & Hrun & Hsh & Hall'); [apply stable_saved..|exact Hnd|exact Hi| | | | | | |].
  - by apply phase_both.
  - intros d1 s1 _ [Hs1 Hsv1]. by eapply propose_saved.
  - intros d1 s1 _ (Hs1 & Hk1 & Hset1). pose proof (proj1 (pl_engine _ _ _ _ _ (proj1 Hk1))) as Hd1.
    apply takes_both.
    + destruct (PersistLogEntry_holds d1 s1 (next_entry r t log cmd) _ _ _ _ _ _ _ Hd1 Hs1)
        as (d' & s' & ? & ? & ? & _ & ?). by exists d', s'.
    + eapply takes_weaken; [by apply PersistLogEntry_takes|]. intros d2 s2 (?&_&Hset2). split; [done | by apply Hset2].
  - intros k d1 s1 dl l Hp1 [HLl _] [Hs1 Hsv1]. apply takes_both.
    + eapply offer_follower; try done; [apply HLl..|by eapply saved_disk].
    + eapply offer_saved; try done; apply HLl.
  - intros d1 s1 _ [Hs1 Hsv1]. apply takes_both.
    + unfold caught_up. unfold log'. rewrite length_next. eapply leader_commits; try done. by eapply saved_disk.
    + eapply commit_saved; try done. apply Hsv1.
  - intros d1 s1 dl l Hp1 [HLl _] [Hs1 Hsv1]. apply takes_both.
    + eapply tell_follower; try done; [apply HLl|by eapply saved_disk].
    + eapply tell_saved; try done. apply HLl.
  - apply phase_both in Hall' as [Hall' Hsaved']. pose proof Hsh as (H1 & H2 & _ & _ & H5).
    exists d', c'. split_and!; [done..| |done].
    split; rewrite ?H1, ?H2, ?(same_ids_peers _ _ H5); [done..|by apply log_from_next].
Qed.

(** * An election *)

Section elect.
Context (dir : string) (r : N) (d0 : Disk) (log : list LogEntry).
Abbreviation takes := (takes (writes dir)).

(** A change of role, term and vote, saved at once. *)
Lemma change_saved {A} (m : IO RaftNode A) x n' d s :
  m (raft_ s) = (Ok x, n') → kept dir r d0 log d s → region_id_ n' = region_id_ (raft_ s) →
  self_id_ n' = self_id_ (raft_ s) → (default 0 (voted_for_ n') < two64)%N →
  takes (on_raft m ≫= λ y, PersistHardState ≫= λ _, mret y) x (saved dir r d0 log) (d, s).
Proof.
  intros Hm Hk Hreg Hself Hv. eapply (takes_bind (writes dir)).
  { eapply (raft_takes _ _ _ _ _ (set_raft n' s) log); [by apply on_raft_run | done |].
    eapply kept_raft; [exact Hk | done..| |done|done]. cbn. rewrite Hreg. apply Hk. }
  intros d1 ? _ [-> Hk1]. eapply (takes_bind (writes dir)); [by eapply PersistHardState_takes|].
  intros d2 s2 _ [Hs2 _]. by apply takes_ret.
Qed.

Lemma role_saved f d s :
  kept dir r d0 log d s → region_id_ (f (raft_ s)) = region_id_ (raft_ s) →
  self_id_ (f (raft_ s)) = self_id_ (raft_ s) → (default 0 (voted_for_ (f (raft_ s))) < two64)%N →
  takes (on_raft (modify f) ≫= λ _, PersistHardState) tt (saved dir r d0 log) (d, s).
Proof.
  intros Hk Hreg Hself Hv. destruct (change_saved (modify f) tt _ d s eq_refl Hk Hreg Hself Hv)
    as (d' & s' & Hrun & Hrest). exists d', s'. split; [|exact Hrest].
  rewrite <-Hrun. unfold mbind, M_bind. destruct (on_raft _ _) as [[[]| |] ?]; [|done..].
  by destruct (PersistHardState _) as [[[]| |] ?].
Qed.

Lemma solicit_saved c pid n d s k t data role :
  log_ n = log → current_term_ n = (t + 1)%N → peer_id_ s ≠ pid → (pid < two64)%N →
  caught_up role r t log data s → kept dir r d0 log d s →
  takes (solicit c pid n k) (S k) (saved dir r d0 log) (d, s).
Proof.
  intros Hn Hnt Hp Hpid [Ho Hr Hro Hst Hl Hc Ha Hdata] Hk.
  unfold solicit. eapply (takes_bind (writes dir)); [by apply (takes_ret _ (d, s) (λ d' s', d' = d ∧ s' = s))|].
  intros ?? _ [-> ->]. cbn [snd]. rewrite decide_False by done.
  destruct (change_saved (λ m, let '(resp, m') := HandleRequestVote
        (mkVoteRequest (sc_region_id c) (current_term_ n) pid (last_log_index n) (last_log_term n)) m in
        (Ok resp, m')) (mkVoteResponse (t + 1) true)
     (with_term (t + 1) (Some pid) (with_role kFollower (raft_ s))) d s)
    as (d' & s' & Hrun & Hrest); [|done..|].
  { rewrite (vote_next_term _ _ t); [done..|unfold last_log_index; by rewrite Hn, Hl|
      unfold last_log_term; by rewrite Hn, Hl]. }
  exists d', s'. split; [|exact Hrest]. revert Hrun. unfold mbind, M_bind.
  destruct (on_raft _ _) as [[resp| |] ?]; [|done..].
  destruct (PersistHardState _) as [[[]| |] ?]; [|done..]. by intros [= -> ->].
Qed.
End elect.

Lemma ElectLeader_saved dir d0 c t log data pid d :
  let r := sc_region_id c in
  quiet c t log data → (t + 1 < two64)%N → pid ∈ peer_id_ <$> sc_stores c →
  Forall (kept dir r d0 log d) (sc_stores c) →
  ∃ d' c', ElectLeader pid (d, c) = (Ok tt, (d', c')) ∧ same_shape (set_leader pid c) c' ∧
    in_sync c' (t + 1) log data ∧ Forall (saved dir r d0 log d') (sc_stores c').
Proof.
  intros r Hquiet Ht Hpid Hkept. pose proof Hquiet as [Hall0 Hnd Hlog].
  destruct (find_peer_member _ _ Hpid) as [i Hi].
  set (at_ (F : SingleRegionStore → Prop) (d : Disk) s := F s ∧ saved dir r d0 log d s).
  assert (pid < two64)%N as Hword.
  { apply list_elem_of_fmap in Hpid as (s & -> & Hs). rewrite list.Forall_forall in Hkept.
    destruct (Hkept s Hs) as [Hpl _]. rewrite (pl_peer _ _ _ _ _ Hpl). apply Hpl. }
  assert (∀ d s, kept dir r d0 log d s → disk_ok d) as Hdisk by (intros ? ? [Hpl _]; apply (pl_engine _ _ _ _ _ Hpl)).
  destruct (ElectLeader_rounds (writes dir)
    (λ d s, (∃ role, caught_up role r t log data s) ∧ kept dir r d0 log d s)
    (at_ (caught_up kFollower r (t + 1) log data)) (at_ (caught_up kCandidate r (t + 1) log data))
    (at_ (caught_up kLeader r (t + 1) log data)) pid i d c)
    as (d' & c' & Hrun & Hsh & Hall'); [apply stable_kept|apply stable_saved..|exact Hnd|exact Hi| | | | |].
  - apply list.Forall_and. by split.
  - intros d1 s1 Hp1 [[role Hs1] Hk1]. apply takes_both.
    + eapply change_role; [ | by eapply Hdisk | exact Hs1].
      intros n Hn. unfold BecomeCandidate. cbn. rewrite Hn, u64_small by done. done.
    + apply role_saved; [done..|]. cbn. rewrite (pl_self _ _ _ _ _ (proj1 Hk1)). apply Hk1.
  - intros d1 s1 dl l k Hp1 [HCl _] [[role Hs1] Hk1]. apply takes_both.
    + eapply solicit_follower; try done; [apply HCl..|by eapply Hdisk|by exists role].
    + eapply solicit_saved; try done; apply HCl.
  - intros d1 s1 _ [Hs1 [Hk1 _]]. apply takes_both.
    + eapply change_role; [ | by eapply Hdisk | exact Hs1]. by intros n Hn.
    + apply role_saved; [done..|]. apply Hk1.
  - apply phase_both in Hall' as [Hall' Hsaved']. pose proof Hsh as (H1 & H2 & _ & _ & H5).
    cbn [sc_region_id sc_leader_peer_id sc_stores set_leader] in *.
    exists d', c'. split_and!; [done..| |done].
    split; rewrite ?H1, ?H2, ?(same_ids_peers _ _ H5); done.
Qed.

(** * Opening stores again *)

Lemma on_engine_read {A} (m : IO EngineW A) d s x :
  m (d, engine_ s) = (x, (d, engine_ s)) → on_engine m (d, s) = (x, (d, s)).
Proof. intros Hm. rewrite (on_engine_run m d s x d (engine_ s) Hm). by destruct s. Qed.

Section open.
Context (dir : string) (r : N) (d0 : Disk) (t : N) (log : list LogEntry) (data : DataMap).
Context (Hok : log_ok r log) (Ht : (t < two64)%N) (Hlen : (N.of_nat (length log) < two64)%N).

(** The disk holds the store [id] as some object had it in memory. *)
Definition on_file (d : Disk) (id : N) : Prop :=
  ∃ s role, store_id_ s = id ∧ caught_up role r t log data s ∧ saved dir r d0 log d s.

Definition reopened (d : Disk) (s : SingleRegionStore) : Prop :=
  caught_up kFollower r t log data s ∧ saved dir r d0 log d s.

(** The Raft node a store restores. *)
Definition restored (id : N) (ids : list N) (h : HardState) : RaftNode :=
  mkRaft r id ids kFollower (hs_current_term h)
    (if (hs_voted_for h =? 0)%N then None else Some (hs_voted_for h))
    (hs_commit_index h) (hs_last_applied h) log.

Lemma RestoreRaftState_run d s ids h :
  opened_ s = true → raft_ s = new_raft r (store_id_ s) ids →
  hard_stored r (data_ (engine_ s)) h → log_stored r (data_ (engine_ s)) log → hard_ok h →
  (hs_commit_index h <= N.of_nat (length log))%N → (hs_last_applied h <= hs_commit_index h)%N →
  RestoreRaftState (d, s) = (Ok tt, (d, set_raft (restored (store_id_ s) ids h) s)).
Proof.
  intros Ho Hraft Hh Hl Hhok Hc Ha. unfold RestoreRaftState, the_raft.
  run_call ltac:(by apply storage_ready_ok). run. cbn [snd]. rewrite Hraft. cbn [region_id_ new_raft].
  run_call ltac:(eapply status_of_ok, on_engine_read, (LoadHardState_run (S := EngineW) r h); done).
  run_call ltac:(apply on_engine_read, (LoadLog_run (S := EngineW) r log); done).
  erewrite on_raft_run; [|rewrite Hraft; apply Restore_ok; cbn; [apply Hok|done|done]]. done.
Qed.

Lemma Store_Open_saved ids d id :
  on_file d id → takes (writes dir) (Store_Open dir) tt reopened (d, new_store id id r ids).
Proof.
  intros (s & role & <- & [Ho Hreg Hro Hst Hl Hc Ha Hdata] & [[Hpl Hls] Hset]).
  pose proof Hpl as [Hout (Hd & Hdur & Hdir) _ _ Hpeer Hself Hw Hv]. cbn [fst snd] in *.
  destruct (reopen d (engine_ s) Hdur Hd) as (d1 & Hopen & Hd1 & Hdur1). rewrite Hdir in Hopen.
  assert (d1 = set_files (append_to (store_log dir (store_id_ s)) "") d) as Hd1eq.
  { rewrite Open_run in Hopen by (done || apply store_dir_filled). unfold replay_text in Hopen.
    destruct (replay_lines _ _). by injection Hopen as _ <- _. }
  set (h := hard_state (raft_ s)) in *.
  set (s1 := mkStoreNode (store_id_ s) (store_id_ s) (new_raft r (store_id_ s) ids) (engine_ s) true).
  assert (hs_voted_for h = default 0%N (voted_for_ (raft_ s))) as Hvote by done.
  exists d1, (set_raft (restored (store_id_ s) ids h) s1). cbn [fst snd].
  split; [|split; [|split; [done|split; [|split; [split|]]]]].
  - unfold Store_Open. run. cbn [snd store_id_ new_store].
    run_call ltac:(apply on_engine_run; exact Hopen). run. cbn [fst snd].
    apply (RestoreRaftState_run d1 s1 ids h); try done; cbn; rewrite ?Hc, ?Ha; [|done..].
    split_and!; cbn; rewrite ?Hst, ?Hc, ?Ha; done.
  - rewrite Hd1eq. apply append_writes.
  - split; cbn; rewrite ?Hst, ?Hc, ?Ha; done.
  - split; cbn; try done.
    + intros q Hq. rewrite Hd1eq. cbn [files set_files]. unfold append_to.
      rewrite lookup_insert_ne by (intros <-; by eapply Hq). by apply Hout.
    + by case_match.
  - exact Hls.
  - unfold settled, hard_state. cbn [raft_ set_raft engine_ s1 restored current_term_ commit_index_ last_applied_ voted_for_].
    replace (default 0%N (if (hs_voted_for h =? 0)%N then None else Some (hs_voted_for h))) with (hs_voted_for h)
      by (by destruct (N.eqb_spec (hs_voted_for h) 0)).
    exact Hset.
Qed.
End open.

(** * A region and its disk *)

Record saved_region (dir : string) (n : nat) (r : N) (d : Disk) (c : SingleRegionCluster) (t : N)
    (log : list LogEntry) (data : DataMap) : Prop := {
  sr_sync : in_sync c t log data;
  sr_saved : Forall (saved dir r d log d) (sc_stores c);
  sr_log : log_ok r log;
  sr_ids : store_id_ <$> sc_stores c = ids_from 1 n;
  sr_region : sc_region_id c = r;
}.

(** [saved] speaks of the disk at hand. *)
Lemma saved_rebase dir r d0 log d s :
  saved dir r d0 log d s → saved dir r d log d s ∧ outside dir d0 d.
Proof. intros [[[Ho ? ? ? ? ? ? ?] ?] ?]. split; [|done]. by do 3 (split; try done). Qed.

Lemma saved_rebase_all dir r d0 log d ss :
  ss ≠ [] → Forall (saved dir r d0 log d) ss →
  Forall (saved dir r d log d) ss ∧ outside dir d0 d.
Proof.
  intros Hne Hss. split.
  - eapply list.Forall_impl; [exact Hss|]. by intros s [? _]%saved_rebase.
  - destruct Hss as [|s ss Hs _]; [done|]. by apply saved_rebase in Hs as [_ ?].
Qed.

Lemma led_not_empty c t log data : in_sync c t log data → sc_stores c ≠ [].
Proof. intros Hs Hnil. pose proof (sync_leader _ _ _ _ Hs) as Hl. rewrite Hnil in Hl. by apply elem_of_nil in Hl. Qed.

Lemma saved_region_disk dir n r d c t log data : saved_region dir n r d c t log data → disk_ok d.
Proof.
  intros [Hsync Hsaved _ _ _]. pose proof (led_not_empty _ _ _ _ Hsync) as Hne.
  destruct (sc_stores c) as [|s ss]; [done|]. apply list.Forall_cons in Hsaved as [Hs _].
  by eapply saved_disk.
Qed.

(** A region after a step whose stores are saved. *)
Lemma saved_region_after dir n r d d' c c' t log data t' log' data' :
  saved_region dir n r d c t log data → in_sync c' t' log' data' → log_ok r log' →
  sc_region_id c' = sc_region_id c → Forall2 same_ids (sc_stores c) (sc_stores c') →
  Forall (saved dir r d log' d') (sc_stores c') →
  saved_region dir n r d' c' t' log' data' ∧ outside dir d d'.
Proof.
  intros [_ _ _ Hids Hr] Hsync Hlog Hr' Hsame Hsaved.
  destruct (saved_rebase_all _ _ _ _ _ _ (led_not_empty _ _ _ _ Hsync) Hsaved) as [Hsv Hout].
  split; [split; try done|done].
  - by rewrite (same_ids_stores _ _ Hsame).
  - congruence.
Qed.

Lemma saved_region_write dir n r d c t log data cmd ms :
  saved_region dir n r d c t log data → (r < two64)%N → (t < two64)%N →
  (N.of_nat (length log) + 1 < two64)%N → cmd ≠ "" →
  ApplyKvCommand cmd = Engine.WriteBatch ms → user_batch ms → keys_ok ms →
  ∃ d' c', ProposeAndReplicate cmd (d, c) = (Ok tt, (d', c')) ∧
    saved_region dir n r d' c' t (log ++ [next_entry r t log cmd]) (apply_batch data ms) ∧
    outside dir d d'.
Proof.
  intros Hsr Hr Ht Hlen Hne Hcmd Hms Hk. pose proof Hsr as [Hsync Hsaved Hlog Hids <-].
  assert (log_ok (sc_region_id c) (log ++ [next_entry (sc_region_id c) t log cmd])) as Hok
    by (apply log_ok_app; by split_and!).
  destruct (ProposeAndReplicate_saved dir d c t log data cmd ms d)
    as (d' & c' & Hrun & (H1 & _ & _ & _ & H5) & Hsync' & Hsaved'); [done..|].
  exists d', c'. split; [done|]. by eapply saved_region_after.
Qed.

Lemma saved_region_elect dir n r d c t log data pid :
  saved_region dir n r d c t log data → (t + 1 < two64)%N → pid ∈ peer_id_ <$> sc_stores c →
  ∃ d' c', ElectLeader pid (d, c) = (Ok tt, (d', c')) ∧
    saved_region dir n r d' c' (t + 1) log data ∧ outside dir d d'.
Proof.
  intros Hsr Ht Hpid. pose proof Hsr as [Hsync Hsaved Hlog Hids <-].
  destruct (ElectLeader_saved dir d c t log data pid d)
    as (d' & c' & Hrun & (H1 & _ & _ & _ & H5) & Hsync' & Hsaved'); [by apply in_sync_quiet|done..| |].
  { eapply list.Forall_impl; [exact Hsaved|]. by intros s [? _]. }
  exists d', c'. split; [done|]. by eapply saved_region_after.
Qed.

Lemma saved_peers dir r d0 log d ss :
  Forall (saved dir r d0 log d) ss → peer_id_ <$> ss = store_id_ <$> ss.
Proof.
  intros Hss. apply list_fmap_ext. intros i s Hi.
  pose proof (list.Forall_lookup_1 _ _ _ _ Hss Hi) as [[Hpl _] _]. apply Hpl.
Qed.

(** ** Bootstrap on the directory of a saved region *)

Lemma Bootstrap_again dir n r d c t log data c0 :
  dir ≠ "" → saved_region dir n r d c t log data → n ≠ 0 → (t + 1 < two64)%N →
  (N.of_nat (length log) < two64)%N →
  ∃ d' c', Bootstrap dir n r false (d, c0) = (Ok tt, (d', c')) ∧
    saved_region dir n r d' c' (t + 1) log data ∧ outside dir d d'.
Proof.
  intros Hdir Hsr Hn Ht Hlen. pose proof Hsr as [Hsync Hsaved Hlog Hids Hreg].
  pose proof (sync_stores _ _ _ _ Hsync) as Hall.
  set (c1 := mkCluster r (sc_leader_peer_id c0) (first_ids n) [] dir).
  pose proof (saved_region_disk _ _ _ _ _ _ _ _ Hsr) as Hd.
  destruct (open_stores_takes (writes dir) (on_file dir r d t log data) (reopened dir r d t log data)
    n 1 d c1) as (d1 & ss & Hopen & Hss & Hps & Hsids & Hkeep & _).
  - intros p d1 d2 j Hw Hj (s & role & <- & Hs & Hsv). exists s, role. split; [done|].
    eapply (stable_saved dir r d log (caught_up role r t log data)); [exact Hw| |by split].
    rewrite (pl_peer _ _ _ _ _ (proj1 (proj1 Hsv))). exact Hj.
  - apply stable_saved.
  - intros d1 j Hj. eapply Store_Open_saved; [done|lia|done|exact Hj].
  - intros j Hj. rewrite <-Hids in Hj. apply list_elem_of_fmap in Hj as (s & -> & Hs).
    apply list_elem_of_lookup in Hs as [i Hi]. pose proof (list.Forall_lookup_1 _ _ _ _ Hall Hi) as Hp.
    pose proof (list.Forall_lookup_1 _ _ _ _ Hsaved Hi) as Hsv. rewrite Hreg in Hp.
    unfold phase in Hp. case_decide; by eexists s, _.
  - set (c2 := set_stores ss c1).
    destruct (ElectLeader_saved dir d c2 t log data 1 d1)
      as (d2 & c3 & Hrun & (H1 & _ & _ & _ & H5) & Hsync' & Hsaved').
    + split; cbn; [|rewrite Hps; apply ids_from_nodup|by rewrite <-Hreg; apply Hsync].
      eapply list.Forall_impl; [exact Hss|]. intros s [Hs _]. by exists kFollower.
    + done.
    + cbn. rewrite Hps. apply elem_of_ids_from. lia.
    + eapply list.Forall_impl; [exact Hss|]. by intros s [_ [? _]].
    + exists d2, c3. split.
      * eapply (Bootstrap_elects dir n r false d d d1); [done|done|exact Hd|done|exact Hopen| |exact Hrun].
        eapply list.Forall_impl; [exact Hss|]. by intros s [[] _].
      * destruct (saved_rebase_all _ _ _ _ _ _ (led_not_empty _ _ _ _ Hsync') Hsaved') as [Hsv Hout].
        split; [split; try done|done]. by rewrite (same_ids_stores _ _ H5).
Qed.

(** ** The first bootstrap *)

Lemma Store_Open_first dir r d0 ids d id :
  disk_ok d → no_files dir id d → outside dir d0 d → (id < two64)%N →
  takes (writes dir) (Store_Open dir) tt
    (λ d s, caught_up kFollower r 0 [] ∅ s ∧ kept dir r d0 [] d s) (d, new_store id id r ids).
Proof.
  intros Hd Hno Hout Hid.
  destruct (Store_Open_fresh dir id id r ids d Hd Hno)
    as (d1 & s & Hrun & Hd1 & Hd1eq & Hids & Hraft & Ho & Hen).
  pose proof Hids as [Hsid Hpid]. cbn [store_id_ peer_id_ new_store] in *.
  fold (store_log dir id) in *. exists d1, s. split; [exact Hrun|].
  assert (writes dir id d d1) as Hw by (rewrite Hd1eq; apply append_writes).
  split; [exact Hw|split; [done|split; [by split; rewrite ?Hraft, ?Hen|]]].
  split; [|by rewrite Hen]. split; rewrite ?Hraft, ?Hsid, ?Hpid; try done.
  - intros q Hq. destruct Hw as [_ Hw]. rewrite Hw; [by apply Hout | apply Hq].
  - rewrite Hen. split_and!; [done| |done]. split; [apply store_dir_filled|]. split; [done|]. exists "". cbn [fst log_path_].
    rewrite Hd1eq. cbn [files set_files]. unfold append_to. unfold no_files in Hno.
    fold (store_log dir id) in Hno. by rewrite lookup_insert_eq, Hno.
Qed.

(** On a directory without stores, emptied first or not. *)
Lemma Bootstrap_first dir n r reset d c0 :
  disk_ok d → dir ≠ "" → n ≠ 0 → (N.of_nat n < two64)%N →
  (reset = false → ∀ id, no_files dir id d) →
  ∃ d' c', Bootstrap dir n r reset (d, c0) = (Ok tt, (d', c')) ∧
    saved_region dir n r d' c' 1 [] ∅ ∧ (∀ q, below dir q = false → files d' !! q = files d !! q).
Proof.
  intros Hd Hdir Hn Hword Hno.
  set (d1 := if reset then set_files (filter (λ f, below dir f.1 = false)) d else d).
  assert (disk_ok d1) as Hd1 by by destruct reset.
  assert (∀ q, below dir q = false → files d1 !! q = files d !! q) as Hq1.
  { intros q Hq. unfold d1. destruct reset; [|done]. cbn [files set_files].
    apply option_eq. intros v. rewrite map_lookup_filter_Some. cbn. tauto. }
  assert (∀ id, no_files dir id d1) as Hno1.
  { unfold d1. destruct reset; [|by apply Hno]. intros id. apply map_lookup_filter_None. right.
    intros x _. cbn [fst]. fold (store_log dir id). by rewrite store_log_below. }
  set (c1 := mkCluster r (sc_leader_peer_id c0) (first_ids n) [] dir).
  destruct (open_stores_takes (writes dir)
    (λ d j, disk_ok d ∧ no_files dir j d ∧ outside dir d1 d ∧ (j < two64)%N)
    (λ d s, caught_up kFollower r 0 [] ∅ s ∧ kept dir r d1 [] d s) n 1 d1 c1)
    as (d2 & ss & Hopen & Hss & Hps & Hsids & _ & _).
  - intros p d2 d3 j [Hok Hf] Hj (Hd2 & Hno2 & Hout & Hw). split_and!; [by apply Hok| | |done].
    + unfold no_files. fold (store_log dir j). rewrite Hf; [exact Hno2|]. by intros Heq%store_log_inj.
    + intros q Hq. rewrite Hf; [by apply Hout | apply Hq].
  - apply stable_kept.
  - intros d2 j (?&?&?&?). by apply Store_Open_first.
  - intros j Hj%elem_of_ids_from. split_and!; [done | done | done | lia].
  - destruct (ElectLeader_saved dir d1 (set_stores ss c1) 0 [] ∅ 1 d2)
      as (d3 & c3 & Hrun & (H1 & _ & _ & _ & H5) & Hsync' & Hsaved').
    + split; cbn; [|rewrite Hps; apply ids_from_nodup|apply log_from_nil].
      eapply list.Forall_impl; [exact Hss|]. intros s [Hs _]. by exists kFollower.
    + done.
    + cbn. rewrite Hps. apply elem_of_ids_from. lia.
    + eapply list.Forall_impl; [exact Hss|]. by intros s [_ ?].
    + destruct (saved_rebase_all _ _ _ _ _ _ (led_not_empty _ _ _ _ Hsync') Hsaved') as [Hsv Hout].
      exists d3, c3. split_and!.
      * eapply (Bootstrap_elects dir n r reset d d1 d2); [done|done|done| |exact Hopen| |exact Hrun].
        { unfold d1. destruct reset; [by apply remove_all_ok | done]. }
        eapply list.Forall_impl; [exact Hss|]. by intros s [[] _].
      * split; [done|done|split; [apply log_from_nil|constructor]| |done].
        by rewrite (same_ids_stores _ _ H5).
      * intros q Hq. rewrite <-Hq1 by done. apply Hout. intros id ->.
        by rewrite store_log_below in Hq.
Qed.

(** * The region of the specification, on disk *)

(** Good for [k] more operations or restarts. *)
Definition lasts (dir : string) (n : nat) (r : N) (k : nat) (w : ClusterW) (sp : RegionSpec) : Prop :=
  ∃ t log, saved_region dir n r w.1 w.2 t log (contents sp) ∧
    members sp = list_to_set (first_ids n) ∧ n ≠ 0 ∧ (r < two64)%N ∧
    (t + N.of_nat k < two64)%N ∧ (N.of_nat (length log) + N.of_nat k < two64)%N.

Lemma lasts_members dir n r d c t log data q :
  saved_region dir n r d c t log data →
  q ∈ peer_id_ <$> sc_stores c ↔ q ∈ (list_to_set (first_ids n) : gset N).
Proof.
  intros [_ Hsaved _ Hids _]. rewrite (saved_peers _ _ _ _ _ _ Hsaved), Hids, elem_of_list_to_set.
  by rewrite first_ids_from.
Qed.

Lemma lasts_implements dir n r k w sp : lasts dir n r k w sp → implements k w.2 sp.
Proof.
  intros (t & log & Hsr & Hmem & _ & _ & Ht & Hlen). exists t, log. split_and!; [apply Hsr| |done|done].
  intros q. rewrite Hmem. by eapply lasts_members.
Qed.

(** What a client must respect in addition for a restart to find everything: no
    peer is removed, and no key is empty in a delete either. *)
Definition lasting (op : region_op) : Prop :=
  match op with DoDelete k => k ≠ "" | DoRemove _ => False | _ => True end.

Lemma write_lasts dir n r k d c sp cmd ms :
  lasts dir n r (S k) (d, c) sp → cmd ≠ "" →
  ApplyKvCommand cmd = Engine.WriteBatch ms → user_batch ms → keys_ok ms →
  ∃ d' c', ProposeAndReplicate cmd (d, c) = (Ok tt, (d', c')) ∧
    lasts dir n r k (d', c') (mkRegionSpec (apply_batch (contents sp) ms) (members sp)) ∧
    outside dir d d'.
Proof.
  intros (t & log & Hsr & Hmem & Hn & Hr & Ht & Hlen) Hne Hcmd Hms Hk. cbn [fst snd] in *.
  destruct (saved_region_write dir n r d c t log _ cmd ms Hsr)
    as (d' & c' & Hrun & Hsr' & Hout); [done|lia|lia|done..|].
  exists d', c'. split_and!; [done| |done]. eexists t, _. split; [exact Hsr'|].
  rewrite length_next. split_and!; [done|done|done|lia|lia].
Qed.

Lemma lasts_less dir n r k w sp : lasts dir n r (S k) w sp → lasts dir n r k w sp.
Proof. intros (t & log & ?&?&?&?&?&?). exists t, log. split_and!; [done..|lia|lia]. Qed.

Lemma step_lasts dir n r k d c sp op :
  lasts dir n r (S k) (d, c) sp → op_ok op sp → lasting op →
  ∃ d' c', do_op op (d, c) = (Ok tt, (d', c')) ∧ lasts dir n r k (d', c') (spec_step op sp) ∧
    outside dir d d'.
Proof.
  intros Hl Hok Hlast. destruct op as [key v|key|ms|p|p]; cbn [op_ok lasting do_op spec_step] in *.
  - destruct Hok. apply (write_lasts dir n r k d c sp _ [mkMutation kPut key v]); try done.
    + by rewrite apply_put_command.
    + by repeat constructor.
    + by repeat constructor.
  - apply (write_lasts dir n r k d c sp _ [mkMutation kDelete key ""]); try done.
    + by rewrite apply_delete_command.
    + by repeat constructor.
    + by repeat constructor.
  - destruct Hok as (Hk & Hu & Hlen). unfold Batch. case_decide as Hnil.
    { subst ms. exists d, c. split_and!; [done|by apply lasts_less|done]. }
    apply (write_lasts dir n r k d c sp _ ms); try done.
    exact (apply_batch_command (S := EngineW) ms Hk Hlen).
  - unfold TransferLeader, the_cluster. run. cbn [snd]. case_decide.
    { exists d, c. split_and!; [done|by apply lasts_less|done]. }
    destruct Hl as (t & log & Hsr & Hmem & Hn & Hr & Ht & Hlen). cbn [fst snd] in *.
    destruct (saved_region_elect dir n r d c t log _ p Hsr) as (d' & c' & Hrun & Hsr' & Hout);
      [lia|by eapply lasts_members; [exact Hsr|rewrite <-Hmem]|].
    exists d', c'. split_and!; [done| |done]. exists (t + 1)%N, log. split_and!; [done..|lia|lia].
  - done.
Qed.

Lemma restart_lasts dir n r k d c c0 sp :
  dir ≠ "" → lasts dir n r (S k) (d, c) sp →
  ∃ d' c', Bootstrap dir n r false (d, c0) = (Ok tt, (d', c')) ∧ lasts dir n r k (d', c') sp ∧
    outside dir d d'.
Proof.
  intros Hdir (t & log & Hsr & Hmem & Hn & Hr & Ht & Hlen). cbn [fst snd] in *.
  destruct (Bootstrap_again dir n r d c t log _ c0 Hdir Hsr Hn) as (d' & c' & Hrun & Hsr' & Hout); [lia|lia|].
  exists d', c'. split_and!; [done| |done]. exists (t + 1)%N, log. split_and!; [done..|lia|lia].
Qed.

Lemma first_lasts dir n r k reset d c0 :
  disk_ok d → dir ≠ "" → n ≠ 0 → (N.of_nat n < two64)%N → (r < two64)%N →
  (N.of_nat k + 1 < two64)%N → (reset = false → ∀ id, no_files dir id d) →
  ∃ d' c', Bootstrap dir n r reset (d, c0) = (Ok tt, (d', c')) ∧
    lasts dir n r k (d', c') (mkRegionSpec ∅ (list_to_set (first_ids n))) ∧
    (∀ q, below dir q = false → files d' !! q = files d !! q).
Proof.
  intros Hd Hdir Hn Hw Hr Hk Hno.
  destruct (Bootstrap_first dir n r reset d c0) as (d' & c' & Hrun & Hsr & Hq); [done..|].
  exists d', c'. split_and!; [done| |done]. exists 1%N, []. split_and!; [done..|lia|cbn; lia].
Qed.

(** * A region through restarts *)

Inductive region_event :=
  | Asks (op : region_op)
  | Restarts.

(** A restart leaves the disk and nothing of the process. *)
Definition do_event (dir : string) (n : nat) (r : N) (ev : region_event) : IO ClusterW unit :=
  match ev with
  | Asks op => do_op op
  | Restarts => _ ← modify (λ w : ClusterW, (w.1, new_cluster)); Bootstrap dir n r false
  end.

Fixpoint do_events (dir : string) (n : nat) (r : N) (evs : list region_event) : IO ClusterW unit :=
  match evs with [] => mret tt | ev :: rest => _ ← do_event dir n r ev; do_events dir n r rest end.

(** What the events ask for, as operations of the specification. *)
Definition asked (evs : list region_event) : list region_op :=
  omap (λ ev, match ev with Asks op => Some op | Restarts => None end) evs.

Lemma events_last dir n r evs (Hdir : dir ≠ "") : ∀ k d c sp,
  lasts dir n r (length evs + k) (d, c) sp → ops_ok (asked evs) sp → Forall lasting (asked evs) →
  ∃ d' c', do_events dir n r evs (d, c) = (Ok tt, (d', c')) ∧
    lasts dir n r k (d', c') (spec_run (asked evs) sp).
Proof.
  induction evs as [|ev evs IH]; intros k d c sp Hl Hok Hlast; [by exists d, c|].
  destruct ev as [op|]; cbn [asked omap list_omap ops_ok] in Hok, Hlast.
  - destruct Hok as [Hop Hok]. apply list.Forall_cons in Hlast as [Hlop Hlast].
    destruct (step_lasts dir n r _ d c sp op Hl Hop Hlop) as (d1 & c1 & Hrun1 & Hl1 & _).
    destruct (IH k d1 c1 _ Hl1 Hok Hlast) as (d2 & c2 & Hrun2 & Hl2).
    exists d2, c2. split; [|exact Hl2]. cbn [do_events do_event]. by run_call ltac:(exact Hrun1).
  - destruct (restart_lasts dir n r _ d c new_cluster sp Hdir Hl) as (d1 & c1 & Hrun1 & Hl1 & _).
    destruct (IH k d1 c1 _ Hl1 Hok Hlast) as (d2 & c2 & Hrun2 & Hl2).
    exists d2, c2. split; [|exact Hl2]. cbn [do_events do_event]. run. cbn [fst].
    by run_call ltac:(exact Hrun1).
Qed.

(** A replicated region outlives its process. Bootstrapped on an empty
    directory or one it empties, and then driven through any sequence of puts,
    deletes, batches, leader transfers and stops of the process, each followed by
    a start on the same directory, the region returns success from every
    operation and every start, and every store answers every read with what the
    single map of the specification holds, as if it had never stopped. *)
Theorem region_survives_restart dir n r reset evs d c :
  disk_ok d → dir ≠ "" → n ≠ 0 → (N.of_nat n < two64)%N → (r < two64)%N →
  (reset = false → ∀ id, no_files dir id d) →
  let start := mkRegionSpec ∅ (list_to_set (first_ids n)) in
  ops_ok (asked evs) start → Forall lasting (asked evs) → (N.of_nat (length evs) + 1 < two64)%N →
  ∃ d' c',
    (Bootstrap dir n r reset ≫= λ _, do_events dir n r evs) (d, c) = (Ok tt, (d', c')) ∧
    (∀ sid key, (1 <= sid <= N.of_nat n)%N → user_key key →
       (GetFromStore sid key (d', c')).1 =
       match contents (spec_run (asked evs) start) !! key with
       | Some v => Ok v
       | None => Err (key_not_found key)
       end).
Proof.
  intros Hd Hdir Hn Hw Hr Hno start Hok Hlast Hlen.
  destruct (first_lasts dir n r (length evs + 0) reset d c) as (d1 & c1 & Hrun1 & Hl1 & _); [done..|lia|done|].
  destruct (events_last dir n r evs Hdir 0 d1 c1 start Hl1 Hok Hlast) as (d2 & c2 & Hrun2 & t & log & Hsr & _).
  exists d2, c2. split; [by run_call ltac:(exact Hrun1)|]. intros sid key Hsid Hkey. cbn [fst snd] in Hsr.
  rewrite (GetFromStore_run c2 t log _ sid key d2 (sr_sync _ _ _ _ _ _ _ _ Hsr)); [done| |done].
  rewrite (sr_ids _ _ _ _ _ _ _ _ Hsr), elem_of_ids_from. lia.
Qed.

Definition restarting : list region_event :=
  [Asks (DoPut "a" "1"); Restarts; Asks (DoBatch [mkMutation kPut "b" "2"; mkMutation kDelete "a" ""]);
   Asks (DoTransfer 3); Restarts; Restarts; Asks (DoDelete "c")].

Lemma region_survives_restart_witness :
  ∃ d' c',
    (Bootstrap "data" 3 7 false ≫= λ _, do_events "data" 3 7 restarting) (mkDisk ∅ [], new_cluster) =
      (Ok tt, (d', c')) ∧
    (∀ sid key, (1 <= sid <= 3)%N → user_key key →
       (GetFromStore sid key (d', c')).1 =
       match contents (spec_run (asked restarting)
         (mkRegionSpec ∅ (list_to_set (first_ids 3)))) !! key with
       | Some v => Ok v
       | None => Err (key_not_found key)
       end).
Proof.
  apply (region_survives_restart "data" 3 7 false restarting); try (vm_compute; reflexivity); try done.
  - split_and!; try (vm_compute; done). by repeat constructor.
  - by repeat constructor.
Defined.

(** One delete of the empty key ends the region for good: every store applies it
    and logs a line it cannot read, so that no later start opens any of them. *)
Lemma empty_delete_blocks_restart :
  let w := run_cluster (_ ← Bootstrap "data" 3 1 true; _ ← Cluster.Put "a" "1"; Cluster.Delete "") in
  (Cluster.Delete "" (run_cluster (Bootstrap "data" 3 1 true))).1 = Ok tt ∧
  (GetFromStore 1 "a" w).1 = Ok "1" ∧
  (Bootstrap "data" 3 1 false (w.1, new_cluster)).1 = Err (InvalidArgument "hex input has odd length").
Proof. vm_compute. done. Qed.
