(* ===== verification/Pd.v ===== *)
(** The placement driver: the metadata store of src/pd/metadata_store.cpp, the
    server of src/pd/pd_server.cpp that changes it and keeps it in a catalog
    file, and the operator rules of src/pd/scheduler.cpp. *)

From S2P Require Import Prelude Types Text Codec Engine.

(** * Metadata store *)

Record PdMetadataStore := mkMeta {
  next_store_id_ : N;
  next_region_id_ : N;
  next_peer_id_ : N;
  stores_ : gmap N StoreInfo;
  regions_ : gmap N RegionInfo;
  regions_by_start_key_ : gmap string N;
}.

Definition new_metadata : PdMetadataStore := mkMeta 1 1 1 ∅ ∅ ∅.

Definition AllocStoreId : IO PdMetadataStore N := λ m,
  (Ok (next_store_id_ m),
   mkMeta (u64 (next_store_id_ m + 1)) (next_region_id_ m) (next_peer_id_ m)
     (stores_ m) (regions_ m) (regions_by_start_key_ m)).

Definition AllocRegionId : IO PdMetadataStore N := λ m,
  (Ok (next_region_id_ m),
   mkMeta (next_store_id_ m) (u64 (next_region_id_ m + 1)) (next_peer_id_ m)
     (stores_ m) (regions_ m) (regions_by_start_key_ m)).

Definition AllocPeerId : IO PdMetadataStore N := λ m,
  (Ok (next_peer_id_ m),
   mkMeta (next_store_id_ m) (next_region_id_ m) (u64 (next_peer_id_ m + 1))
     (stores_ m) (regions_ m) (regions_by_start_key_ m)).

Definition SetNextIds (s r p : N) (m : PdMetadataStore) : PdMetadataStore :=
  mkMeta s r p (stores_ m) (regions_ m) (regions_by_start_key_ m).

Definition add_store_record (s : StoreInfo) (m : PdMetadataStore) : PdMetadataStore :=
  mkMeta (next_store_id_ m) (next_region_id_ m) (next_peer_id_ m)
    (<[store_id s := s]> (stores_ m)) (regions_ m) (regions_by_start_key_ m).

Definition PutStore (store : StoreInfo) : IO PdMetadataStore unit :=
  if decide (store_id store = 0%N) then fail (InvalidArgument "store_id must be non-zero")
  else modify (add_store_record store).

Definition GetStore (m : PdMetadataStore) (id : N) : option StoreInfo := stores_ m !! id.

Definition ListStores (m : PdMetadataStore) : list StoreInfo := (kvs (stores_ m)).*2.

Definition add_region_record (r : RegionInfo) (m : PdMetadataStore) : PdMetadataStore :=
  mkMeta (next_store_id_ m) (next_region_id_ m) (next_peer_id_ m) (stores_ m)
    (<[region_id r := r]> (regions_ m))
    (<[start_key r := region_id r]> (regions_by_start_key_ m)).

Definition PutRegion (region : RegionInfo) : IO PdMetadataStore unit :=
  if decide (region_id region = 0%N) then fail (InvalidArgument "region_id must be non-zero")
  else modify (add_region_record region).

Definition GetRegion (m : PdMetadataStore) (id : N) : option RegionInfo := regions_ m !! id.

(** [upper_bound(key)], one step back. *)
Definition last_start (m : PdMetadataStore) (key : string) : option (string * N) :=
  last (take_while (λ kv, negb (String.ltb key kv.1)) (kvs (regions_by_start_key_ m))).

Definition GetRegionByKey (m : PdMetadataStore) (key : string) : option RegionInfo :=
  match last_start m key with
  | None => None
  | Some (_, id) =>
      match regions_ m !! id with
      | None => None
      | Some r => if ContainsKey r key then Some r else None
      end
  end.

Definition ListRegions (m : PdMetadataStore) : list RegionInfo := (kvs (regions_ m)).*2.

Definition with_leader (p : N) (r : RegionInfo) : RegionInfo :=
  mkRegion (region_id r) (start_key r) (end_key r) (epoch r) (peers r) p.

Definition UpdateRegionLeader (id leader : N) : IO PdMetadataStore unit :=
  m ← get;
  match regions_ m !! id with
  | None => fail (mkStatus kRegionNotFound "region not found")
  | Some r =>
      if decide (FindPeer r leader = None) then
        fail (InvalidArgument "leader peer is not in region")
      else
        modify (λ m, mkMeta (next_store_id_ m) (next_region_id_ m) (next_peer_id_ m)
                       (stores_ m) (<[id := with_leader leader r]> (regions_ m))
                       (regions_by_start_key_ m))
  end.

(** * Server *)

Record PdServer := mkPd { metadata_ : PdMetadataStore; data_dir_ : string }.

Definition new_pd : PdServer := mkPd new_metadata "".

Abbreviation PdW := (Disk * PdServer)%type.

Definition on_meta {A} (m : IO PdMetadataStore A) : IO PdW A :=
  zoom (λ w : PdW, metadata_ w.2) (λ m (w : PdW), (w.1, mkPd m (data_dir_ w.2))) m.
Definition the_meta : IO PdW PdMetadataStore := gets (λ w, metadata_ w.2).

Definition catalog_path (dir : string) : string := path_join dir "pd.catalog".

Definition catalog_fields (m : PdMetadataStore) : FieldMap :=
  let fields : FieldMap := put_all ∅
    [ ("next_store_id", to_string (next_store_id_ m));
      ("next_region_id", to_string (next_region_id_ m));
      ("next_peer_id", to_string (next_peer_id_ m)) ] in
  let stores := ListStores m in
  let fields := <["store_count" := to_string (N.of_nat (length stores))]> fields in
  let fields := put_indexed PutStoreFields "store" 0 stores fields in
  let regions := ListRegions m in
  let fields := <["region_count" := to_string (N.of_nat (length regions))]> fields in
  put_indexed PutRegionFields "region" 0 regions fields.

Definition Persist : IO PdW unit :=
  w ← get;
  let dir := data_dir_ w.2 in
  if decide (dir = "") then mret tt
  else
    _ ← create_directories_throwing dir;
    _ ← io_or (λ _, IoError "failed to write pd catalog");
    _ ← modify_files (overwrite (catalog_path dir) "");
    write_unchecked (overwrite (catalog_path dir)) (EncodeFields (catalog_fields (metadata_ w.2))).

Fixpoint load_stores (fields : FieldMap) (ids : list N) : IO PdMetadataStore unit :=
  match ids with
  | [] => mret tt
  | i :: rest =>
      _ ← PutStore (GetStoreFields fields (indexed "store" i));
      load_stores fields rest
  end.

Fixpoint load_regions (fields : FieldMap) (ids : list N) : IO PdMetadataStore unit :=
  match ids with
  | [] => mret tt
  | i :: rest =>
      _ ← PutRegion (GetRegionFields fields (indexed "region" i));
      load_regions fields rest
  end.

Definition load_catalog (fields : FieldMap) : IO PdMetadataStore unit :=
  _ ← put new_metadata;
  store_count ← lift (field_u64 fields "store_count");
  _ ← load_stores fields (indices store_count);
  region_count ← lift (field_u64 fields "region_count");
  _ ← load_regions fields (indices region_count);
  s ← lift (field_u64 fields "next_store_id");
  r ← lift (field_u64 fields "next_region_id");
  p ← lift (field_u64 fields "next_peer_id");
  modify (SetNextIds s r p).

Definition Load : IO PdW unit :=
  w ← get;
  _ ← io_or (λ _, IoError "failed to read pd catalog");
  match files w.1 !! catalog_path (data_dir_ w.2) with
  | None => fail (IoError "failed to read pd catalog")
  | Some encoded =>
      fields ← lift (DecodeFields encoded);
      on_meta (load_catalog fields)
  end.

Definition Open (data_dir : string) : IO PdW unit :=
  _ ← modify (λ w : PdW, (w.1, mkPd (metadata_ w.2) data_dir));
  _ ← create_directories_throwing data_dir;
  w ← get;
  if bool_decide (files w.1 !! catalog_path data_dir = None) then Persist else Load.

Definition with_store_id (id : N) (s : StoreInfo) : StoreInfo :=
  mkStore id (raft_endpoint s) (client_endpoint s) (store_state s) (labels s)
    (last_heartbeat_ms s).

Definition RegisterStore (store : StoreInfo) : IO PdW StoreInfo :=
  store ← (if decide (store_id store = 0%N) then
             id ← on_meta AllocStoreId; mret (with_store_id id store)
           else
             m ← the_meta;
             _ ← (if (next_store_id_ m <=? store_id store)%N then
                    on_meta (modify (SetNextIds (u64 (store_id store + 1))
                                       (next_region_id_ m) (next_peer_id_ m)))
                  else mret tt);
             mret store);
  _ ← on_meta (PutStore store);
  _ ← Persist;
  mret store.

Definition StoreHeartbeat (id : N) (now_ms : Z) : IO PdW unit :=
  m ← the_meta;
  match GetStore m id with
  | None => fail (mkStatus kStoreNotFound "store not found")
  | Some s =>
      _ ← on_meta (PutStore (mkStore (store_id s) (raft_endpoint s) (client_endpoint s) "Up"
                               (labels s) now_ms));
      Persist
  end.

(** The peers of the default region, one per store, as far as stores exist. *)
Fixpoint new_peers (store_ids : list N) : IO PdMetadataStore (list Peer) :=
  match store_ids with
  | [] => mret []
  | sid :: rest =>
      m ← get;
      if decide (GetStore m sid = None) then
        fail (mkStatus kStoreNotFound "store not found for default region")
      else
        pid ← AllocPeerId;
        ps ← new_peers rest;
        mret (mkPeer pid sid kVoter :: ps)
  end.

Definition first_peer_id (ps : list Peer) : N :=
  match ps with [] => 0 | p :: _ => peer_id p end.

Definition BootstrapDefaultRegion (store_ids : list N) : IO PdW unit :=
  m ← the_meta;
  if negb (bool_decide (ListRegions m = [])) then mret tt
  else if decide (store_ids = []) then
    fail (InvalidArgument "default region needs at least one store")
  else
    id ← on_meta AllocRegionId;
    ps ← on_meta (new_peers store_ids);
    _ ← on_meta (PutRegion (mkRegion id "" "" (mkEpoch 1 1) ps (first_peer_id ps)));
    Persist.

(** The peers of the right half: the same stores and roles under new ids. *)
Fixpoint copy_peers (ps : list Peer) : IO PdMetadataStore (list Peer) :=
  match ps with
  | [] => mret []
  | p :: rest =>
      pid ← AllocPeerId;
      qs ← copy_peers rest;
      mret (mkPeer pid (peer_store_id p) (peer_role p) :: qs)
  end.

Definition region_of (id : N) : IO PdW RegionInfo :=
  m ← the_meta;
  match GetRegion m id with
  | None => fail (mkStatus kRegionNotFound "region not found")
  | Some r => mret r
  end.

Definition SplitRegion (id : N) (split_key : string) : IO PdW (RegionInfo * RegionInfo) :=
  region ← region_of id;
  if negb (split_key_ok region split_key) then
    fail (InvalidArgument "split key is outside region boundary")
  else
    let v := u64 (version (epoch region) + 1) in
    let left_region := mkRegion (region_id region) (start_key region) split_key
      (mkEpoch (conf_ver (epoch region)) v) (peers region) (leader_peer_id region) in
    right_id ← on_meta AllocRegionId;
    ps ← on_meta (copy_peers (peers region));
    let right_region := mkRegion right_id split_key (end_key region)
      (mkEpoch (conf_ver (epoch region)) v) ps (first_peer_id ps) in
    _ ← on_meta (PutRegion left_region);
    _ ← on_meta (PutRegion right_region);
    _ ← Persist;
    mret (left_region, right_region).

Definition with_peers (ps : list Peer) (leader : N) (r : RegionInfo) : RegionInfo :=
  mkRegion (region_id r) (start_key r) (end_key r)
    (mkEpoch (u64 (conf_ver (epoch r) + 1)) (version (epoch r))) ps leader.

Definition AddPeer (id sid : N) : IO PdW Peer :=
  region ← region_of id;
  m ← the_meta;
  if decide (GetStore m sid = None) then fail (mkStatus kStoreNotFound "store not found")
  else if bool_decide (FindPeerByStore region sid ≠ None) then
    fail (InvalidArgument "store already has peer for region")
  else
    pid ← on_meta AllocPeerId;
    let peer := mkPeer pid sid kVoter in
    _ ← on_meta (PutRegion (with_peers (peers region ++ [peer]) (leader_peer_id region) region));
    _ ← Persist;
    mret peer.

Definition RemovePeer (id pid : N) : IO PdW unit :=
  region ← region_of id;
  let ps := filter (λ p, peer_id p ≠ pid) (peers region) in
  if decide (length ps = length (peers region)) then fail (InvalidArgument "peer not found")
  else if decide (ps = []) then fail (InvalidArgument "cannot remove last peer")
  else
    let leader := if decide (leader_peer_id region = pid) then first_peer_id ps
                  else leader_peer_id region in
    _ ← on_meta (PutRegion (with_peers ps leader region));
    Persist.

Definition TransferLeader (id target : N) : IO PdW unit :=
  region ← region_of id;
  if decide (FindPeer region target = None) then
    fail (InvalidArgument "target leader peer not found")
  else
    _ ← on_meta (PutRegion (with_leader target region));
    Persist.

Definition GetRegionLeaderStore (m : PdMetadataStore) (region : RegionInfo) : option StoreInfo :=
  match FindPeer region (leader_peer_id region) with
  | None => None
  | Some leader => GetStore m (peer_store_id leader)
  end.

(** * Scheduler *)

Inductive OperatorType := kTransferLeader | kAddPeer | kRemovePeer | kSplitRegion.

Record Operator := mkOperator {
  op_type : OperatorType;
  op_region_id : N;
  op_target_store_id : N;
  op_target_peer_id : N;
  op_remove_peer_id : N;
  op_split_key : string;
}.

Section scheduler.
(** [None] is a null metadata pointer. *)
Context (metadata : option PdMetadataStore).

Definition MakeTransferLeaderOperator (id target_store : N) : option Operator :=
  m ← metadata;
  region ← GetRegion m id;
  peer ← FindPeerByStore region target_store;
  if decide (peer_id peer = leader_peer_id region) then None
  else Some (mkOperator kTransferLeader id target_store (peer_id peer) 0 "").

Definition MakeAddPeerOperator (id target_store : N) : option Operator :=
  m ← metadata;
  region ← GetRegion m id;
  _ ← GetStore m target_store;
  if bool_decide (FindPeerByStore region target_store ≠ None) then None
  else Some (mkOperator kAddPeer id target_store 0 0 "").

Definition MakeRemovePeerOperator (id pid : N) : option Operator :=
  m ← metadata;
  region ← GetRegion m id;
  _ ← FindPeer region pid;
  if decide (length (peers region) ≤ 1) then None
  else Some (mkOperator kRemovePeer id 0 0 pid "").
End scheduler.
