(* ===== verification/PdSpec.v ===== *)
(** What the placement driver guarantees: the regions partition the key space,
    the start-key index finds them, ids are fresh, every region has a leader
    among its peers on registered stores; and the catalog file brings all of it
    back after a restart. *)

From S2P Require Import Prelude Types Text Codec Engine Pd.

(** * Key ranges and the index *)

Record ranges_ok (m : PdMetadataStore) : Prop := {
  ro_next : (0 < next_region_id_ m)%N;
  ro_id id r : regions_ m !! id = Some r →
    region_id r = id ∧ (0 < id)%N ∧ (id < next_region_id_ m)%N;
  ro_index k id : regions_by_start_key_ m !! k = Some id ↔
    ∃ r, regions_ m !! id = Some r ∧ start_key r = k;
  ro_start id r : regions_ m !! id = Some r → in_range (start_key r) (end_key r) (start_key r);
  ro_disjoint i j r1 r2 key : regions_ m !! i = Some r1 → regions_ m !! j = Some r2 →
    in_range (start_key r1) (end_key r1) key → in_range (start_key r2) (end_key r2) key → i = j;
  ro_cover key : regions_ m ≠ ∅ →
    ∃ id r, regions_ m !! id = Some r ∧ in_range (start_key r) (end_key r) key;
}.

Lemma in_range_start a b k : in_range a b k → in_range a b a.
Proof.
  intros [Hak Hb]. split; [apply leb_refl|]. destruct Hb as [? | Hb]; [by left|]. right.
  destruct (String.leb b a) eqn:E; [|done]. by rewrite (leb_trans b a k) in Hb.
Qed.

(** ** Lookup by key *)

Lemma last_greatest {A} (R : relation A) l x y :
  StronglySorted R l → last l = Some x → y ∈ l → y = x ∨ R y x.
Proof.
  intros Hs [l' ->]%last_Some [Hy | ->%list_elem_of_singleton]%elem_of_app; [right|by left].
  eapply StronglySorted_app_1_elem_of; [exact Hs | done | apply list_elem_of_here].
Qed.

Lemma kvs_sorted_leb {A} (m : gmap string A) :
  StronglySorted (λ x y : string * A, String.leb x.1 y.1 = true) (kvs m).
Proof.
  eapply StronglySorted_impl, kvs_sorted. intros x y Hxy. by apply Is_true_true.
Qed.

Lemma last_start_filter m key :
  last_start m key =
  last (filter (λ kv, String.leb kv.1 key = true) (kvs (regions_by_start_key_ m))).
Proof.
  unfold last_start. f_equal.
  rewrite (take_while_filter (λ x y : string * N, String.leb x.1 y.1 = true)).
  - apply list_filter_ext. intros x _. by rewrite ltb_leb, negb_involutive.
  - apply kvs_sorted_leb.
  - intros x y _ Hxy. rewrite !ltb_leb, !negb_involutive. intros Hy.
    by eapply leb_trans.
Qed.

Lemma last_start_Some m key k id :
  last_start m key = Some (k, id) →
  regions_by_start_key_ m !! k = Some id ∧ String.leb k key = true ∧
  ∀ k' id', regions_by_start_key_ m !! k' = Some id' → String.leb k' key = true →
    String.leb k' k = true.
Proof.
  rewrite last_start_filter. intros Hl.
  pose proof (last_Some_elem_of _ _ Hl) as [Hk Hin]%list_elem_of_filter.
  apply elem_of_kvs in Hin. split_and!; [done..|]. intros k' id' Hk' Hle.
  destruct (last_greatest (λ x y : string * N, String.leb x.1 y.1 = true) _ _ (k', id')
    (StronglySorted_filter _ _ _ (kvs_sorted_leb _)) Hl) as [[= -> ->] | H]; [| |done].
  - apply list_elem_of_filter. split; [done|]. by apply elem_of_kvs.
  - apply leb_refl.
Qed.

Lemma last_start_None m key k id :
  last_start m key = None → regions_by_start_key_ m !! k = Some id → String.leb k key = false.
Proof.
  rewrite last_start_filter, last_None. intros Hl Hk.
  destruct (String.leb k key) eqn:E; [|done].
  assert ((k, id) ∈ filter (λ kv : string * N, String.leb kv.1 key = true)
    (kvs (regions_by_start_key_ m))) as Hin.
  { apply list_elem_of_filter. split; [done|]. by apply elem_of_kvs. }
  rewrite Hl in Hin. by apply elem_of_nil in Hin.
Qed.

(** The index finds the region of every key, and only that one. *)
Lemma GetRegionByKey_spec m key r :
  ranges_ok m →
  GetRegionByKey m key = Some r ↔
  ∃ id, regions_ m !! id = Some r ∧ in_range (start_key r) (end_key r) key.
Proof.
  intros [Hnext Hid Hindex Hstart Hdisj Hcover]. unfold GetRegionByKey. split.
  - destruct (last_start m key) as [[k id]|]; [|done].
    destruct (regions_ m !! id) as [r'|] eqn:Hr; [|done].
    destruct (ContainsKey r' key) eqn:Hc; [|done]. intros [= ->].
    exists id. split; [done|]. by apply ContainsKey_spec.
  - intros (id & Hr & Hin). destruct (last_start m key) as [[k j]|] eqn:Hl.
    + apply last_start_Some in Hl as (Hk & Hle & Hmax).
      apply Hindex in Hk as (r' & Hr' & Hk).
      assert (String.leb (start_key r) k = true) as Hrk.
      { apply (Hmax _ id); [apply Hindex; by exists r | apply Hin]. }
      assert (in_range (start_key r) (end_key r) k) as Hkin.
      { split; [done|]. destruct Hin as [_ [? | He]]; [by left|]. right.
        destruct (String.leb (end_key r) k) eqn:E; [|done].
        by rewrite (leb_trans _ _ _ E Hle) in He. }
      rewrite <-Hk in Hkin. pose proof (Hdisj _ _ _ _ _ Hr Hr' Hkin (Hstart _ _ Hr')) as ->.
      rewrite Hr in Hr'. injection Hr' as <-. rewrite Hr.
      apply ContainsKey_spec in Hin. by rewrite Hin.
    + exfalso. assert (regions_by_start_key_ m !! start_key r = Some id) as Hk
        by (apply Hindex; by exists r).
      pose proof (last_start_None _ _ _ _ Hl Hk) as Hle. destruct Hin as [Hle' _]. congruence.
Qed.

(** ** Changes to the ranges *)

(** A region is replaced by one with the same range. *)
Lemma ranges_update m r r' nr :
  ranges_ok m → regions_ m !! region_id r = Some r → region_id r' = region_id r →
  start_key r' = start_key r → end_key r' = end_key r → (next_region_id_ m <= nr)%N →
  ∀ ns np st, ranges_ok (mkMeta ns nr np st (<[region_id r' := r']> (regions_ m))
    (<[start_key r' := region_id r']> (regions_by_start_key_ m))).
Proof.
  intros [Hnext Hid Hindex Hstart Hdisj Hcover] Hr Hri Hs He Hnr ns np st.
  assert (∀ i x, <[region_id r' := r']> (regions_ m) !! i = Some x →
    ∃ y, regions_ m !! i = Some y ∧ start_key x = start_key y ∧ end_key x = end_key y) as Hold.
  { intros i x [[<- <-] | [_ Hx]]%lookup_insert_Some; [exists r|by exists x].
    rewrite Hri. done. }
  rewrite Hri, Hs in *.
  assert (<[start_key r := region_id r]> (regions_by_start_key_ m) = regions_by_start_key_ m)
    as Hsame by (apply insert_id, Hindex; by exists r).
  split; simpl; [lia|..].
  - intros id x [[<- <-] | [_ Hx]]%lookup_insert_Some.
    + destruct (Hid _ _ Hr) as (_ & ? & ?). split; [done | lia].
    + destruct (Hid _ _ Hx) as (-> & ? & ?). split; [done | lia].
  - intros k id. rewrite Hsame, Hindex. split.
    + intros (x & Hx & Hk). destruct (decide (region_id r = id)) as [<- | Hne].
      * exists r'. rewrite lookup_insert_eq, Hs. rewrite Hr in Hx. by injection Hx as ->.
      * exists x. by rewrite lookup_insert_ne.
    + intros (x & [[<- <-] | [_ Hx]]%lookup_insert_Some & Hk); [exists r|by exists x].
      by rewrite <-Hs.
  - intros id x Hx. destruct (Hold _ _ Hx) as (y & Hy & -> & ->). by eapply Hstart.
  - intros i j r1 r2 key H1 H2. destruct (Hold _ _ H1) as (y1 & Hy1 & -> & ->).
    destruct (Hold _ _ H2) as (y2 & Hy2 & -> & ->). by eapply Hdisj.
  - intros key _. destruct (Hcover key) as (id & x & Hx & Hin).
    { intros Hemp. by rewrite Hemp, lookup_empty in Hr. }
    destruct (decide (region_id r = id)) as [<- | Hne].
    + exists (region_id r), r'. rewrite lookup_insert_eq, Hs, He. rewrite Hr in Hx.
      by injection Hx as ->.
    + exists id, x. by rewrite lookup_insert_ne.
Qed.

(** A region is cut at an interior key; the right half gets the next id. *)
Section split.
Context (m : PdMetadataStore) (r left right : RegionInfo) (k : string).
Context (Hm : ranges_ok m) (Hr : regions_ m !! region_id r = Some r).
Context (Hk : split_key_ok r k = true) (Hnext : (next_region_id_ m + 1 < two64)%N).
Context (Hli : region_id left = region_id r) (Hls : start_key left = start_key r).
Context (Hle : end_key left = k).
Context (Hri : region_id right = next_region_id_ m) (Hrs : start_key right = k).
Context (Hre : end_key right = end_key r).

Abbreviation regions' :=
  (<[region_id right := right]> (<[region_id left := left]> (regions_ m))).

Lemma split_new_id : region_id r ≠ region_id right.
Proof. destruct (ro_id _ Hm _ _ Hr). lia. Qed.

Lemma split_fresh : regions_ m !! region_id right = None.
Proof.
  destruct (regions_ m !! region_id right) as [x|] eqn:E; [|done].
  destruct (ro_id _ Hm _ _ E). lia.
Qed.

(** The new regions are the halves and the others. *)
Lemma split_regions i x :
  regions' !! i = Some x ↔
  (i = region_id right ∧ x = right) ∨ (i = region_id r ∧ x = left) ∨
  (i ≠ region_id r ∧ regions_ m !! i = Some x).
Proof.
  pose proof split_new_id as Hne. rewrite Hli, !lookup_insert_Some. split.
  - intros [[<- <-] | [? [[<- <-] | [? ?]]]]; tauto || (right; right; by split).
  - intros [[-> ->] | [[-> ->] | [Hi Hx]]]; [by left | by right; split; [|left]|].
    right. split; [|by right]. intros <-. destruct (ro_id _ Hm _ _ Hx). lia.
Qed.

Lemma split_halves key :
  in_range (start_key r) (end_key r) key ↔
  in_range (start_key left) (end_key left) key ∨ in_range (start_key right) (end_key right) key.
Proof. rewrite Hls, Hle, Hrs, Hre. by apply split_range. Qed.

Lemma split_halves_disjoint key :
  in_range (start_key left) (end_key left) key →
  in_range (start_key right) (end_key right) key → False.
Proof. rewrite Hls, Hle, Hrs, Hre. by apply split_disjoint. Qed.

(** Each new region lies inside an old one. *)
Lemma split_inside i x key :
  regions' !! i = Some x → in_range (start_key x) (end_key x) key →
  ∃ j y, regions_ m !! j = Some y ∧ in_range (start_key y) (end_key y) key ∧
    (j = i ∨ j = region_id r ∧ i = region_id right).
Proof.
  intros [[-> ->] | [[-> ->] | [Hi Hx]]]%split_regions Hin.
  - exists (region_id r), r. split_and!; [done| |by right]. apply split_halves. by right.
  - exists (region_id r), r. split_and!; [done| |by left]. apply split_halves. by left.
  - exists i, x. split_and!; [done | done | by left].
Qed.

Lemma ranges_split ns np st :
  ranges_ok (mkMeta ns (u64 (next_region_id_ m + 1)) np st regions'
    (<[k := region_id right]> (<[start_key left := region_id left]>
      (regions_by_start_key_ m)))).
Proof.
  pose proof Hm as [Hpos Hid Hindex Hstart Hdisj Hcover].
  pose proof split_new_id as Hne. rewrite u64_small by lia.
  pose proof Hk as [Hc Hks]%split_key_ok_spec. apply ContainsKey_spec in Hc.
  split; simpl; [lia|..].
  - intros i x [[-> ->] | [[-> ->] | [Hi Hx]]]%split_regions.
    + rewrite Hri. split; [done | lia].
    + rewrite Hli. destruct (Hid _ _ Hr) as (_&?&?). split; [done | lia].
    + destruct (Hid _ _ Hx) as (->&?&?). split; [done | lia].
  - intros key id. rewrite !lookup_insert_Some. split.
    + intros [[<- <-] | [Hkk [[<- <-] | [Hkr Hx]]]].
      * exists right. split; [|done]. apply split_regions. by left.
      * exists left. split; [|done]. apply split_regions. right. by left.
      * apply Hindex in Hx as (x & Hx & Hxs). exists x. split; [|done].
        apply split_regions. right. right. split; [|done]. intros ->. congruence.
    + intros (x & [[-> ->] | [[-> ->] | [Hi Hx]]]%split_regions & Hxs).
      * left. by rewrite <-Hxs.
      * right. split; [intros <-; apply Hks; by rewrite <-Hxs, Hls|]. left. by rewrite Hxs.
      * right. split.
        { intros <-. apply Hi. eapply Hdisj; [exact Hx | exact Hr | | exact Hc].
          rewrite <-Hxs. by eapply Hstart. }
        right. split; [|apply Hindex; by exists x].
        intros Heq. apply Hi. eapply Hdisj; [exact Hx | exact Hr | |by eapply Hstart].
        rewrite <-Hls, Heq, <-Hxs. by eapply Hstart.
  - intros id x [[-> ->] | [[-> ->] | [Hi Hx]]]%split_regions; [| |by eapply Hstart].
    + rewrite Hrs, Hre. split; [apply leb_refl | apply Hc].
    + rewrite Hls, Hle. split; [apply leb_refl|]. right.
      destruct (String.leb k (start_key r)) eqn:E; [|done].
      exfalso. apply Hks. apply leb_antisym; [done | apply Hc].
  - intros i j r1 r2 key H1 H2 Hin1 Hin2.
    destruct (split_inside _ _ _ H1 Hin1) as (i' & y1 & Hy1 & Hiny1 & Hi).
    destruct (split_inside _ _ _ H2 Hin2) as (j' & y2 & Hy2 & Hiny2 & Hj).
    pose proof (Hdisj _ _ _ _ _ Hy1 Hy2 Hiny1 Hiny2) as ->.
    apply split_regions in H1, H2.
    destruct H1 as [[-> ->] | [[-> ->] | [Hi1 Hx1]]], H2 as [[-> ->] | [[-> ->] | [Hi2 Hx2]]];
      try done; try (exfalso; by eapply split_halves_disjoint);
      destruct Hi as [? | [? ?]], Hj as [? | [? ?]]; pose proof split_fresh; congruence.
  - intros key _. destruct (Hcover key) as (i & x & Hx & Hin).
    { intros Hemp. by rewrite Hemp, lookup_empty in Hr. }
    destruct (decide (i = region_id r)) as [-> | Hi].
    + rewrite Hr in Hx. injection Hx as <-. apply split_halves in Hin as [Hin | Hin].
      * exists (region_id r), left. split; [|done]. apply split_regions. right. by left.
      * exists (region_id right), right. split; [|done]. apply split_regions. by left.
    + exists i, x. split; [|done]. apply split_regions. right. by right.
Qed.
End split.

(** The first region is the whole key space. *)
Lemma ranges_first m r ns np st :
  ranges_ok m → regions_ m = ∅ → region_id r = next_region_id_ m →
  (next_region_id_ m + 1 < two64)%N → start_key r = "" → end_key r = "" →
  ranges_ok (mkMeta ns (u64 (next_region_id_ m + 1)) np st (<[region_id r := r]> (regions_ m))
    (<[start_key r := region_id r]> (regions_by_start_key_ m))).
Proof.
  intros [Hpos _ Hindex _ _ _] Hemp Hid Hb Hs He. rewrite u64_small by lia.
  assert (regions_by_start_key_ m = ∅) as ->.
  { apply map_empty. intros k. destruct (_ !! k) as [id|] eqn:E; [|done].
    apply Hindex in E as (x & Hx & _). by rewrite Hemp, lookup_empty in Hx. }
  rewrite Hemp, !insert_empty.
  assert (∀ key, in_range (start_key r) (end_key r) key) as Hall.
  { intros key. rewrite Hs, He. split; [apply leb_empty | by left]. }
  split; simpl; [lia|..].
  - intros i x [<- <-]%lookup_singleton_Some. lia.
  - intros k i. rewrite lookup_singleton_Some. split.
    + intros [<- <-]. exists r. by rewrite lookup_singleton_eq.
    + by intros (x & [<- <-]%lookup_singleton_Some & Hk).
  - intros i x [<- <-]%lookup_singleton_Some. apply Hall.
  - intros i j r1 r2 key [<- <-]%lookup_singleton_Some [<- <-]%lookup_singleton_Some. done.
  - intros key _. exists (region_id r), r. by rewrite lookup_singleton_eq.
Qed.

Lemma ranges_ids m ns nr np st :
  ranges_ok m → (next_region_id_ m <= nr)%N →
  ranges_ok (mkMeta ns nr np st (regions_ m) (regions_by_start_key_ m)).
Proof.
  intros [Hpos Hid Hindex Hstart Hdisj Hcover] Hnr. split; simpl; try done; [lia|].
  intros i x Hx. destruct (Hid _ _ Hx) as (? & ? & ?). split; [done | lia].
Qed.

(** * Stores and peers *)

Record group_ok (np : N) (st : gmap N StoreInfo) (ps : list Peer) (leader : N) : Prop := {
  go_ids : NoDup (peer_id <$> ps);
  go_stores : NoDup (peer_store_id <$> ps);
  go_leader : leader ∈ peer_id <$> ps;
  go_bound p : p ∈ ps → (0 < peer_id p)%N ∧ (peer_id p < np)%N;
  go_registered p : p ∈ ps → is_Some (st !! peer_store_id p);
}.

Record peers_ok (m : PdMetadataStore) : Prop := {
  po_peer : (0 < next_peer_id_ m)%N;
  po_next : (0 < next_store_id_ m)%N;
  po_store id s : stores_ m !! id = Some s →
    store_id s = id ∧ (0 < id)%N ∧ (id < next_store_id_ m)%N;
  po_group id r : regions_ m !! id = Some r →
    group_ok (next_peer_id_ m) (stores_ m) (peers r) (leader_peer_id r);
  po_owner i j r1 r2 p : regions_ m !! i = Some r1 → regions_ m !! j = Some r2 →
    p ∈ peer_id <$> peers r1 → p ∈ peer_id <$> peers r2 → i = j;
}.

Lemma group_mono np st np' (st' : gmap N StoreInfo) ps leader :
  group_ok np st ps leader → (np <= np')%N →
  (∀ id, is_Some (st !! id) → is_Some (st' !! id)) → group_ok np' st' ps leader.
Proof.
  intros [Hi Hs Hl Hb Hr] Hnp Hst. split; [done..| |].
  - intros p Hp. destruct (Hb _ Hp). lia.
  - intros p Hp. apply Hst. by apply Hr.
Qed.

(** The stores change without losing one, ids grow. *)
Lemma peers_stores m ns nr np st idx :
  peers_ok m → (next_peer_id_ m <= np)%N → (0 < ns)%N →
  (∀ id, is_Some (stores_ m !! id) → is_Some (st !! id)) →
  (∀ id s, st !! id = Some s → store_id s = id ∧ (0 < id)%N ∧ (id < ns)%N) →
  peers_ok (mkMeta ns nr np st (regions_ m) idx).
Proof.
  intros [Hp Hn Hs Hg Ho] Hnp Hns Hst Hst'. split; simpl; try done; [lia|].
  intros id r Hr. eapply group_mono; [by eapply Hg | done..].
Qed.

Lemma peers_ids m nr np idx :
  peers_ok m → (next_peer_id_ m <= np)%N →
  peers_ok (mkMeta (next_store_id_ m) nr np (stores_ m) (regions_ m) idx).
Proof. intros Hm Hnp. apply peers_stores; [done | done | apply Hm | done | apply Hm]. Qed.

(** One region changes; its peers are its old ones or fresh. *)
Lemma peers_put m r nr np idx :
  peers_ok m → (next_peer_id_ m <= np)%N →
  group_ok np (stores_ m) (peers r) (leader_peer_id r) →
  (∀ p, p ∈ peer_id <$> peers r → (next_peer_id_ m <= p)%N ∨
    ∃ old, regions_ m !! region_id r = Some old ∧ p ∈ peer_id <$> peers old) →
  peers_ok (mkMeta (next_store_id_ m) nr np (stores_ m)
    (<[region_id r := r]> (regions_ m)) idx).
Proof.
  intros [Hp Hn Hs Hg Ho] Hnp Hr Hids. split; simpl; try done; [lia|..].
  - intros i x [[<- <-] | [_ Hx]]%lookup_insert_Some; [done|].
    eapply group_mono; [by eapply Hg | done..].
  - assert (∀ i x p, i ≠ region_id r → regions_ m !! i = Some x →
      p ∈ peer_id <$> peers r → p ∈ peer_id <$> peers x → False) as Hother.
    { intros i x p Hi Hx Hpr Hpx. destruct (Hids _ Hpr) as [Hfresh | (old & Hold & Hpo)].
      - apply list_elem_of_fmap in Hpx as (q & -> & Hq).
        destruct (go_bound _ _ _ _ (Hg _ _ Hx) _ Hq). lia.
      - apply Hi. by eapply Ho. }
    intros i j r1 r2 p [[<- <-] | [Hi H1]]%lookup_insert_Some
      [[<- <-] | [Hj H2]]%lookup_insert_Some Hp1 Hp2; [done | | |by eapply Ho];
      exfalso; by eapply Hother.
Qed.

Record meta_ok (m : PdMetadataStore) : Prop := {
  mo_ranges : ranges_ok m;
  mo_peers : peers_ok m;
}.

Lemma meta_new : meta_ok new_metadata.
Proof.
  split; split; simpl; try lia; intros *; rewrite ?lookup_empty; try done.
  split; [done|]. by intros (x & ? & _).
Qed.

(** * Fresh peers *)

(** Peers with distinct ids in [[a, b)]. *)
Record fresh_between (a b : N) (ps : list Peer) : Prop := {
  fb_nodup : NoDup (peer_id <$> ps);
  fb_range p : p ∈ ps → (a <= peer_id p)%N ∧ (peer_id p < b)%N;
}.

Lemma fresh_nil a b : fresh_between a b [].
Proof. split; [constructor|]. by intros p ?%elem_of_nil. Qed.

Lemma fresh_cons a b s k ps :
  (a < b)%N → fresh_between (a + 1) b ps → fresh_between a b (mkPeer a s k :: ps).
Proof.
  intros Hab [Hnd Hr]. split; csimpl.
  - apply list.NoDup_cons. split; [|done]. intros (p & Hp & Hin)%list_elem_of_fmap.
    destruct (Hr _ Hin). lia.
  - intros p [-> | Hp]%elem_of_cons; simpl; [lia|]. destruct (Hr _ Hp). lia.
Qed.

(** The metadata after [n] peer ids were handed out. *)
Definition after_peers (n : N) (m : PdMetadataStore) : PdMetadataStore :=
  SetNextIds (next_store_id_ m) (next_region_id_ m) (next_peer_id_ m + n) m.

Lemma after_peers_0 m : after_peers 0 m = m.
Proof. unfold after_peers, SetNextIds. rewrite N.add_0_r. by destruct m. Qed.

Lemma after_peers_S n m : after_peers n (after_peers 1 m) = after_peers (n + 1) m.
Proof. unfold after_peers, SetNextIds. simpl. f_equal. lia. Qed.

Lemma AllocPeerId_run m :
  (next_peer_id_ m + 1 < two64)%N →
  AllocPeerId m = (Ok (next_peer_id_ m), after_peers 1 m).
Proof. intros Hm. unfold AllocPeerId. by rewrite u64_small. Qed.

Lemma copy_peers_run ps : ∀ m,
  (next_peer_id_ m + N.of_nat (length ps) < two64)%N →
  ∃ qs, copy_peers ps m = (Ok qs, after_peers (N.of_nat (length ps)) m) ∧
    fresh_between (next_peer_id_ m) (next_peer_id_ m + N.of_nat (length ps)) qs ∧
    peer_store_id <$> qs = peer_store_id <$> ps ∧ peer_role <$> qs = peer_role <$> ps.
Proof.
  induction ps as [|p ps IH]; intros m Hm; cbn [length copy_peers] in *.
  { exists []. rewrite after_peers_0. split_and!; [done | apply fresh_nil | done..]. }
  destruct (IH (after_peers 1 m)) as (qs & Hrun & Hfresh & Hs & Hr); [simpl; lia|].
  exists (mkPeer (next_peer_id_ m) (peer_store_id p) (peer_role p) :: qs).
  run_call ltac:(apply AllocPeerId_run; lia). run_call ltac:(exact Hrun).
  rewrite ret_run, after_peers_S. csimpl. rewrite Hs, Hr. split_and!; [|..|done|done].
  - do 2 f_equal. lia.
  - simpl in Hfresh. apply fresh_cons; [lia|].
    by replace (next_peer_id_ m + N.of_nat (S (length ps)))%N
      with (next_peer_id_ m + 1 + N.of_nat (length ps))%N by lia.
Qed.

(** Every store known: one fresh voter each; else ids are spent and nothing
    else happens. *)
Lemma new_peers_run ids : ∀ m,
  (next_peer_id_ m + N.of_nat (length ids) < two64)%N →
  (∃ qs, new_peers ids m = (Ok qs, after_peers (N.of_nat (length ids)) m) ∧
    fresh_between (next_peer_id_ m) (next_peer_id_ m + N.of_nat (length ids)) qs ∧
    peer_store_id <$> qs = ids ∧
    ∀ id, id ∈ ids → is_Some (stores_ m !! id)) ∨
  (∃ e n, new_peers ids m = (Err e, after_peers n m) ∧
    ∃ id, id ∈ ids ∧ stores_ m !! id = None).
Proof.
  induction ids as [|id ids IH]; intros m Hm; cbn [length new_peers] in *.
  { left. exists []. rewrite after_peers_0. split_and!; [done | apply fresh_nil | done|].
    by intros id ?%elem_of_nil. }
  run. unfold GetStore. destruct (decide (stores_ m !! id = None)) as [Hid | Hid].
  { right. eexists _, 0%N. rewrite after_peers_0. split; [done|]. exists id.
    split; [apply list_elem_of_here | done]. }
  run_call ltac:(apply AllocPeerId_run; lia).
  destruct (IH (after_peers 1 m)) as [(qs & Hrun & Hfresh & Hs & Hr) | (e & n & Hrun & Hbad)];
    [simpl; lia|..].
  - left. exists (mkPeer (next_peer_id_ m) id kVoter :: qs). run_call ltac:(exact Hrun).
    rewrite ret_run, after_peers_S. csimpl. rewrite Hs. split_and!; [..|done|].
    + do 2 f_equal. lia.
    + simpl in Hfresh. apply fresh_cons; [lia|].
      by replace (next_peer_id_ m + N.of_nat (S (length ids)))%N
        with (next_peer_id_ m + 1 + N.of_nat (length ids))%N by lia.
    + intros i [-> | Hi]%elem_of_cons; [|by apply Hr].
      by apply not_eq_None_Some.
  - right. exists e, (n + 1)%N. run_call ltac:(exact Hrun). rewrite after_peers_S.
    split; [done|]. destruct Hbad as (i & Hi & Hn). exists i.
    split; [by apply list_elem_of_further | done].
Qed.

Lemma fresh_group a b st ps qs leader :
  fresh_between a b qs → (0 < a)%N → qs ≠ [] → leader = first_peer_id qs →
  peer_store_id <$> qs = ps → NoDup ps → (∀ id, id ∈ ps → is_Some (st !! id)) →
  group_ok b st qs leader.
Proof.
  intros [Hnd Hr] Ha Hne -> <- Hs Hreg. split; [done | done | | |].
  - destruct qs; [done|]. csimpl. apply list_elem_of_here.
  - intros p Hp. destruct (Hr _ Hp). lia.
  - intros p Hp. apply Hreg, list_elem_of_fmap. by exists p.
Qed.

(** * The effect of each operation on the metadata *)

Lemma on_meta_run {A} (f : IO PdMetadataStore A) d m dir r m' :
  f m = (r, m') → on_meta f (d, mkPd m dir) = (r, (d, mkPd m' dir)).
Proof. intros Hf. unfold on_meta, zoom. simpl. by rewrite Hf. Qed.

Lemma PutStore_run s m : store_id s ≠ 0%N → PutStore s m = (Ok tt, add_store_record s m).
Proof. intros Hs. unfold PutStore. by rewrite decide_False. Qed.

Lemma PutRegion_run r m : region_id r ≠ 0%N → PutRegion r m = (Ok tt, add_region_record r m).
Proof. intros Hr. unfold PutRegion. by rewrite decide_False. Qed.

(** Whatever the disk does, the catalog write leaves the metadata alone. *)
Lemma Persist_frame d s : ∃ r d', Persist (d, s) = (r, (d', s)).
Proof.
  unfold Persist. run. cbn [snd]. destruct (decide (data_dir_ s = "")) as [?|Hdir]; [by eexists _, _|].
  unfold create_directories_throwing. rewrite decide_False by done.
  destruct d as [fs [|[?|] [|[?|] [|[?|] l]]]]; by eexists _, _.
Qed.

Lemma Persist_ok m dir d :
  disk_ok d → dir ≠ "" →
  Persist (d, mkPd m dir) =
  (Ok tt, (set_files (overwrite (catalog_path dir) (EncodeFields (catalog_fields m))) d, mkPd m dir)).
Proof.
  intros Hd Hdir. unfold Persist, modify_files. run. cbn [snd data_dir_]. rewrite decide_False by done.
  run_call ltac:(by apply create_directories_throwing_ok). run_call ltac:(by apply io_or_ok).
  run. rewrite write_unchecked_ok by done. by rewrite overwrite_twice.
Qed.

Lemma Persist_any d s : disk_ok d → ∃ d', Persist (d, s) = (Ok tt, (d', s)) ∧ disk_ok d'.
Proof.
  intros Hd. destruct s as [m dir]. destruct (decide (dir = "")) as [->|Hdir].
  - by exists d.
  - eexists. split; [by apply Persist_ok|]. by apply disk_ok_set_files.
Qed.

(** Running a server operation from metadata [m] ends, on any disk, in an
    outcome and metadata related by [Q]. *)
Definition ends {A} (f : IO PdW A) (m : PdMetadataStore)
    (Q : res A → PdMetadataStore → Prop) : Prop :=
  ∀ d dir, ∃ r d' m', f (d, mkPd m dir) = (r, (d', mkPd m' dir)) ∧ Q r m'.

Section ends.
Context {A B : Type}.
Implicit Types (Q : res A → PdMetadataStore → Prop).

Lemma ends_ret (a : A) m Q : Q (Ok a) m → ends (mret a) m Q.
Proof. intros HQ d dir. by eexists _, _, _. Qed.

Lemma ends_fail e m Q : Q (Err e) m → ends (fail e) m Q.
Proof. intros HQ d dir. by eexists _, _, _. Qed.

Lemma ends_meta (k : PdMetadataStore → IO PdW A) m Q :
  ends (k m) m Q → ends (the_meta ≫= k) m Q.
Proof. intros Hk d dir. apply Hk. Qed.

Lemma ends_on_meta (f : IO PdMetadataStore B) (b : B) k m m' Q :
  f m = (Ok b, m') → ends (k b) m' Q → ends (on_meta f ≫= k) m Q.
Proof.
  intros Hf Hk d dir. erewrite bind_ok; [apply Hk | by apply on_meta_run].
Qed.

Lemma ends_on_meta_err (f : IO PdMetadataStore B) e (k : B → IO PdW A) m m' Q :
  f m = (Err e, m') → Q (Err e) m' → ends (on_meta f ≫= k) m Q.
Proof.
  intros Hf HQ d dir. erewrite bind_err; [by eexists _, _, _ | by apply on_meta_run].
Qed.

Lemma ends_bind_ret (b : B) (k : B → IO PdW A) m Q :
  ends (k b) m Q → ends (mret b ≫= k) m Q.
Proof. done. Qed.

Lemma ends_bind_fail e (k : B → IO PdW A) m Q : Q (Err e) m → ends (fail e ≫= k) m Q.
Proof. intros HQ d dir. by eexists _, _, _. Qed.

(** The operations end by writing the catalog, which may fail. *)
Lemma ends_persist (a : A) m Q :
  Q (Ok a) m → (∀ r, (∀ b, r ≠ Ok b) → Q r m) → ends (_ ← Persist; mret a) m Q.
Proof.
  intros Hok Herr d dir. destruct (Persist_frame d (mkPd m dir)) as (r & d' & Hrun).
  unfold mbind, M_bind. rewrite Hrun.
  destruct r; eexists _, _, _; (split; [done|]); [done | by apply Herr..].
Qed.

Lemma ends_impl (f : IO PdW A) m Q Q' :
  ends f m Q → (∀ r m', Q r m' → Q' r m') → ends f m Q'.
Proof.
  intros Hf HQ d dir. destruct (Hf d dir) as (r & d' & m' & Hrun & H).
  exists r, d', m'. split; [done | by apply HQ].
Qed.
End ends.

Lemma ends_persist_unit m (Q : res unit → PdMetadataStore → Prop) :
  (∀ r, Q r m) → ends Persist m Q.
Proof.
  intros HQ d dir. destruct (Persist_frame d (mkPd m dir)) as (r & d' & Hrun).
  by exists r, d', m.
Qed.

Lemma ends_region_of {A} id (k : RegionInfo → IO PdW A) m Q :
  (regions_ m !! id = None → Q (Err (mkStatus kRegionNotFound "region not found")) m) →
  (∀ r, regions_ m !! id = Some r → ends (k r) m Q) →
  ends (region_of id ≫= k) m Q.
Proof.
  intros Hnone Hsome d dir. unfold region_of, GetRegion, the_meta.
  destruct (regions_ m !! id) as [r|] eqn:Hr.
  - erewrite bind_ok; [by apply Hsome|]. run. simpl. by rewrite Hr.
  - erewrite bind_err; [eexists _, _, _; split; [done | by apply Hnone]|].
    run. simpl. by rewrite Hr.
Qed.

Ltac ends_put Hid :=
  eapply ends_on_meta; [by apply PutRegion_run; rewrite ?Hid|].

(** ** Regions *)

Lemma region_nonzero m id r :
  meta_ok m → regions_ m !! id = Some r → region_id r ≠ 0%N.
Proof. intros [Hm _] Hr. destruct (ro_id _ Hm _ _ Hr). lia. Qed.

Lemma region_key m id r : meta_ok m → regions_ m !! id = Some r → region_id r = id.
Proof. intros [Hm _] Hr. by destruct (ro_id _ Hm _ _ Hr). Qed.

(** A region is replaced by one with the same range and acceptable peers. *)
Lemma put_region_ok m r r' np :
  meta_ok m → regions_ m !! region_id r = Some r → region_id r' = region_id r →
  start_key r' = start_key r → end_key r' = end_key r → (next_peer_id_ m <= np)%N →
  group_ok np (stores_ m) (peers r') (leader_peer_id r') →
  (∀ p, p ∈ peer_id <$> peers r' → p ∈ peer_id <$> peers r ∨ (next_peer_id_ m <= p)%N) →
  meta_ok (add_region_record r' (SetNextIds (next_store_id_ m) (next_region_id_ m) np m)).
Proof.
  intros [Hr Hp] Hreg Hid Hs He Hnp Hg Hfrom. unfold add_region_record, SetNextIds. simpl.
  split.
  - eapply ranges_update; [done | done | done | done | done | lia].
  - apply peers_put; [done | done | done |].
    intros p [Hold | Hfresh]%Hfrom; [right | by left]. exists r. by rewrite Hid.
Qed.

Lemma find_in_group r pid : FindPeer r pid ≠ None → pid ∈ peer_id <$> peers r.
Proof.
  intros H. destruct (FindPeer r pid) as [p|] eqn:E; [|done].
  apply FindPeer_Some in E as [Hp <-]. by apply list_elem_of_fmap_2.
Qed.

Lemma set_ids_same m :
  SetNextIds (next_store_id_ m) (next_region_id_ m) (next_peer_id_ m) m = m.
Proof. by destruct m. Qed.

Lemma TransferLeader_ends m id target :
  meta_ok m →
  ends (TransferLeader id target) m (λ _ m', meta_ok m').
Proof.
  intros Hm. unfold TransferLeader. apply ends_region_of; [done|]. intros r Hr.
  pose proof (region_key _ _ _ Hm Hr) as <-. pose proof (region_nonzero _ _ _ Hm Hr) as Hnz.
  destruct (decide (FindPeer r target = None)) as [?|Hin%find_in_group]; [by apply ends_fail|].
  eapply ends_on_meta; [by apply PutRegion_run|]. apply ends_persist_unit. intros _.
  rewrite <-(set_ids_same m) at 1. eapply put_region_ok; [done..| |by left].
  destruct (po_group _ (mo_peers _ Hm) _ _ Hr). by split.
Qed.

Lemma first_peer_in ps : ps ≠ [] → first_peer_id ps ∈ peer_id <$> ps.
Proof. destruct ps; [done|]. intros _. apply list_elem_of_here. Qed.

Lemma RemovePeer_ends m id pid :
  meta_ok m → ends (RemovePeer id pid) m (λ _ m', meta_ok m').
Proof.
  intros Hm. unfold RemovePeer. apply ends_region_of; [done|]. intros r Hr.
  pose proof (region_key _ _ _ Hm Hr) as <-. pose proof (region_nonzero _ _ _ Hm Hr) as Hnz.
  destruct (decide _) as [?|_]; [by apply ends_fail|].
  destruct (decide _) as [?|Hne]; [by apply ends_fail|].
  eapply ends_on_meta; [by apply PutRegion_run|]. apply ends_persist_unit. intros _.
  set (ps := filter _ _) in *.
  assert (∀ p, p ∈ ps ↔ peer_id p ≠ pid ∧ p ∈ peers r) as Hps
    by (intros p; unfold ps; by rewrite list_elem_of_filter).
  assert (ps `sublist_of` peers r) as Hsub by apply sublist_filter.
  destruct (po_group _ (mo_peers _ Hm) _ _ Hr) as [Hi Hs Hl Hb Hreg].
  rewrite <-(set_ids_same m) at 1. eapply put_region_ok; [done..| |].
  - split; simpl.
    + eapply sublist_NoDup; [exact Hi | by apply fmap_sublist].
    + eapply sublist_NoDup; [exact Hs | by apply fmap_sublist].
    + destruct (decide _) as [?|Hlead]; [by apply first_peer_in|].
      apply list_elem_of_fmap in Hl as (p & Heq & Hp). rewrite Heq in *.
      apply list_elem_of_fmap_2, Hps. by split.
    + intros p [_ Hp]%Hps. by apply Hb.
    + intros p [_ Hp]%Hps. by apply Hreg.
  - intros p (q & -> & [_ Hq]%Hps)%list_elem_of_fmap. left. by apply list_elem_of_fmap_2.
Qed.

Lemma AddPeer_ends m id sid :
  meta_ok m → (next_peer_id_ m + 1 < two64)%N →
  ends (AddPeer id sid) m (λ _ m', meta_ok m').
Proof.
  intros Hm Hbudget. unfold AddPeer. apply ends_region_of; [done|]. intros r Hr.
  pose proof (region_key _ _ _ Hm Hr) as <-. pose proof (region_nonzero _ _ _ Hm Hr) as Hnz.
  apply ends_meta. destruct (decide _) as [?|Hst]; [by apply ends_fail|].
  destruct (bool_decide_reflect (FindPeerByStore r sid ≠ None)) as [?|Hnew]; [by apply ends_fail|].
  eapply ends_on_meta; [by apply AllocPeerId_run|].
  eapply ends_on_meta; [by apply PutRegion_run|].
  assert (FindPeerByStore r sid = None) as Hns%FindPeerByStore_None
    by (destruct (FindPeerByStore r sid); [by destruct Hnew | done]).
  destruct (po_group _ (mo_peers _ Hm) _ _ Hr) as [Hi Hs Hl Hb Hreg].
  assert (meta_ok (add_region_record (with_peers (peers r ++ [mkPeer (next_peer_id_ m) sid kVoter])
    (leader_peer_id r) r) (after_peers 1 m))) as Hok; [|by apply ends_persist].
  eapply put_region_ok; [done.. | lia | |].
  - split; simpl.
    + rewrite fmap_app. apply list.NoDup_app. split_and!; [done | |apply NoDup_singleton].
      intros q (p & -> & Hp)%list_elem_of_fmap Heq%list_elem_of_singleton.
      destruct (Hb _ Hp). simpl in Heq. lia.
    + rewrite fmap_app. apply list.NoDup_app. split_and!; [done | |apply NoDup_singleton].
      intros q Hq ->%list_elem_of_singleton. done.
    + rewrite fmap_app. apply elem_of_app. by left.
    + pose proof (po_peer _ (mo_peers _ Hm)).
      intros p [Hp | ->%list_elem_of_singleton]%elem_of_app; simpl; [|lia].
      destruct (Hb _ Hp). lia.
    + intros p [Hp | ->%list_elem_of_singleton]%elem_of_app; simpl; [by apply Hreg|].
      by apply not_eq_None_Some.
  - intros p. simpl. rewrite fmap_app, elem_of_app. intros [? | ->%list_elem_of_singleton]; [by left|].
    right. simpl. lia.
Qed.

Lemma ListRegions_nil m : ListRegions m = [] ↔ regions_ m = ∅.
Proof.
  unfold ListRegions. split.
  - intros Hl%fmap_nil_inv. apply map_empty. intros i.
    destruct (regions_ m !! i) as [r|] eqn:E; [|done].
    apply elem_of_kvs in E. rewrite Hl in E. by apply elem_of_nil in E.
  - intros ->. by rewrite kvs_empty.
Qed.

Lemma BootstrapDefaultRegion_ends m ids :
  meta_ok m → NoDup ids → (next_region_id_ m + 1 < two64)%N →
  (next_peer_id_ m + N.of_nat (length ids) < two64)%N →
  ends (BootstrapDefaultRegion ids) m (λ r m', meta_ok m' ∧
    (r = Ok tt → regions_ m' ≠ ∅)).
Proof.
  intros Hm Hnd Hnr Hnp. unfold BootstrapDefaultRegion. apply ends_meta.
  destruct (bool_decide_reflect (ListRegions m = [])) as [Hemp%ListRegions_nil | Hne]; simpl.
  2: { apply ends_ret. split; [done|]. intros _ Hr. by apply Hne, ListRegions_nil. }
  destruct (decide (ids = [])) as [?|Hids]; [by apply ends_fail|].
  pose proof Hm as [Hr Hp].
  assert (next_region_id_ m ≠ 0%N) as Hnz by (pose proof (ro_next _ Hr); lia).
  eapply ends_on_meta; [done|].
  set (m1 := mkMeta _ _ _ _ _ _).
  assert (∀ n, meta_ok (after_peers n m1)) as Hids_ok.
  { intros n. unfold after_peers, SetNextIds, m1. simpl. rewrite u64_small by lia. split.
    - apply ranges_ids; [done | lia].
    - apply peers_ids; [done | lia]. }
  destruct (new_peers_run ids m1 Hnp) as [(qs & Hrun & Hfresh & Hs & Hreg) | (e & n & Hrun & _)].
  2: { eapply ends_on_meta_err; [exact Hrun|]. by split. }
  eapply ends_on_meta; [exact Hrun|].
  eapply ends_on_meta; [by apply PutRegion_run|]. apply ends_persist_unit. intros ?.
  split; [|intros _; apply insert_non_empty].
  assert (qs ≠ []) as Hqs by (intros ->; by rewrite <-Hs in Hids).
  unfold add_region_record, after_peers, SetNextIds, m1. simpl. split.
  - eapply (ranges_first m (mkRegion (next_region_id_ m) "" "" _ qs (first_peer_id qs))); done.
  - apply peers_put; [done | lia | |].
    + eapply fresh_group; [exact Hfresh | apply Hp | done..].
    + intros p (q & -> & Hq)%list_elem_of_fmap. left. by destruct (fb_range _ _ _ Hfresh _ Hq).
Qed.

(** [left] and [right] are the halves of [old] at [k]. *)
Record halves (old left right : RegionInfo) (k : string) : Prop := {
  h_key : split_key_ok old k = true;
  h_left : left = mkRegion (region_id old) (start_key old) k
    (mkEpoch (conf_ver (epoch old)) (u64 (version (epoch old) + 1)))
    (peers old) (leader_peer_id old);
  h_start : start_key right = k;
  h_end : end_key right = end_key old;
  h_epoch : epoch right = mkEpoch (conf_ver (epoch old)) (u64 (version (epoch old) + 1));
  h_stores : peer_store_id <$> peers right = peer_store_id <$> peers old;
  h_roles : peer_role <$> peers right = peer_role <$> peers old;
  h_ids : ∀ p, p ∈ peer_id <$> peers right → p ∉ peer_id <$> peers old;
  h_leader : leader_peer_id right = first_peer_id (peers right);
}.

Lemma SplitRegion_ends m id k :
  meta_ok m → (next_region_id_ m + 1 < two64)%N →
  (∀ r, regions_ m !! id = Some r →
    (next_peer_id_ m + N.of_nat (length (peers r)) < two64)%N) →
  ends (SplitRegion id k) m (λ res m', meta_ok m' ∧
    ∀ l rt, res = Ok (l, rt) → ∃ old, regions_ m !! id = Some old ∧ halves old l rt k ∧
      regions_ m !! region_id rt = None ∧
      regions_ m' = <[region_id rt := rt]> (<[id := l]> (regions_ m))).
Proof.
  intros Hm Hnr Hnp. unfold SplitRegion. apply ends_region_of; [done|]. intros r Hr.
  pose proof (region_key _ _ _ Hm Hr) as <-. pose proof (region_nonzero _ _ _ Hm Hr) as Hnz.
  specialize (Hnp _ Hr).
  destruct (split_key_ok r k) eqn:Hk; simpl; [|by apply ends_fail].
  assert (next_region_id_ m ≠ 0%N) as Hnz' by (pose proof (ro_next _ (mo_ranges _ Hm)); lia).
  eapply ends_on_meta; [done|]. set (m1 := mkMeta _ _ _ _ _ _).
  destruct (copy_peers_run (peers r) m1 Hnp) as (qs & Hrun & Hfresh & Hs & Hro).
  eapply ends_on_meta; [exact Hrun|].
  eapply ends_on_meta; [by apply PutRegion_run|].
  eapply ends_on_meta; [by apply PutRegion_run|].
  set (l := mkRegion (region_id r) _ _ _ _ _). set (rt := mkRegion _ k _ _ _ _).
  set (m2 := add_region_record rt _).
  destruct (po_group _ (mo_peers _ Hm) _ _ Hr) as [Hi Hst Hl Hb Hreg].
  assert (peers r ≠ []) as Hne by (intros Hnil; rewrite Hnil in Hl; by apply elem_of_nil in Hl).
  assert (meta_ok m2) as Hok.
  { split.
    - apply (ranges_split m r l rt k); (done || apply Hm).
    - set (m3 := mkMeta (next_store_id_ m) (next_region_id_ m) (next_peer_id_ m) (stores_ m)
        (<[region_id l := l]> (regions_ m)) (regions_by_start_key_ m)).
      apply (peers_put m3 rt).
      + apply (peers_put m l); [apply Hm | lia | done |].
        intros p Hp. right. by exists r.
      + simpl. lia.
      + eapply fresh_group; [exact Hfresh | apply Hm | | done.. | |].
        * intros Hq. simpl in Hq. rewrite Hq in Hs. by destruct (peers r).
        * done.
        * intros i (p & -> & Hp)%list_elem_of_fmap. by apply Hreg.
      + intros p (q & -> & Hq)%list_elem_of_fmap. left. by destruct (fb_range _ _ _ Hfresh _ Hq). }
  apply ends_persist; [|intros res Hres; split; [done|]; intros l' rt' Heq; by destruct (Hres (l', rt'))].
  split; [done|]. intros ? ? [= <- <-]. exists r. split_and!; [done | | |done].
  - split; try done. intros p (q & -> & Hq)%list_elem_of_fmap (q' & Heq & Hq')%list_elem_of_fmap.
    destruct (fb_range _ _ _ Hfresh _ Hq), (Hb _ Hq'). simpl in *. lia.
  - simpl. destruct (regions_ m !! next_region_id_ m) as [x|] eqn:E; [|done].
    destruct (ro_id _ (mo_ranges _ Hm) _ _ E). lia.
Qed.

(** ** Stores *)

(** A store record is added or replaced; [ns] is above every id. *)
Lemma put_store_ok m s ns :
  meta_ok m → store_id s ≠ 0%N → (next_store_id_ m <= ns)%N → (store_id s < ns)%N →
  meta_ok (add_store_record s (SetNextIds ns (next_region_id_ m) (next_peer_id_ m) m)).
Proof.
  intros [Hr Hp] Hs Hns Hlt. unfold add_store_record, SetNextIds. simpl. split.
  - apply ranges_ids; [done | lia].
  - pose proof (po_next _ Hp). apply peers_stores; [done | lia | lia | |].
    + intros id Hid. rewrite lookup_insert_is_Some'. by right.
    + intros id x [[<- <-] | [_ Hx]]%lookup_insert_Some; [split; [done | lia]|].
      destruct (po_store _ Hp _ _ Hx) as (? & ? & ?). split; [done | lia].
Qed.

(** The id a store is registered under, and the allocator behind it. *)
Definition registered_id (m : PdMetadataStore) (s : StoreInfo) : N :=
  if decide (store_id s = 0%N) then next_store_id_ m else store_id s.

Lemma RegisterStore_id m s d dir :
  (next_store_id_ m + 1 < two64)%N → (store_id s + 1 < two64)%N →
  let s' := with_store_id (registered_id m s) s in
  ∃ ns, (next_store_id_ m <= ns)%N ∧ (store_id s' < ns)%N ∧
    RegisterStore s (d, mkPd m dir) =
    (_ ← on_meta (PutStore s'); _ ← Persist; mret s')
      (d, mkPd (SetNextIds ns (next_region_id_ m) (next_peer_id_ m) m) dir).
Proof.
  intros Hb1 Hb2. unfold RegisterStore, registered_id.
  destruct (decide (store_id s = 0%N)) as [H0 | H0]; cbn [store_id with_store_id].
  { exists (next_store_id_ m + 1)%N. split_and!; [lia..|].
    run_call ltac:(run_call ltac:(by apply on_meta_run); apply ret_run).
    by rewrite u64_small. }
  replace (with_store_id (store_id s) s) with s by (by destruct s).
  destruct (N.leb_spec (next_store_id_ m) (store_id s)) as [Hle | Hle].
  - exists (store_id s + 1)%N. split_and!; [lia..|].
    run_call ltac:(unfold the_meta; run; cbn [metadata_ snd];
      rewrite (proj2 (N.leb_le _ _)) by lia;
      run_call ltac:(by apply on_meta_run); apply ret_run).
    by rewrite u64_small.
  - exists (next_store_id_ m). split_and!; [lia..|]. rewrite set_ids_same.
    run_call ltac:(unfold the_meta; run; cbn [metadata_ snd];
      rewrite (proj2 (N.leb_gt _ _)) by lia; run; apply ret_run).
    done.
Qed.

Lemma RegisterStore_ends m s :
  meta_ok m → (next_store_id_ m + 1 < two64)%N → (store_id s + 1 < two64)%N →
  ends (RegisterStore s) m (λ r m', meta_ok m' ∧ regions_ m' = regions_ m ∧
    ∀ s', r = Ok s' → s' = with_store_id (registered_id m s) s ∧
      stores_ m' = <[registered_id m s := s']> (stores_ m)).
Proof.
  intros Hm Hb1 Hb2 d dir.
  destruct (RegisterStore_id m s d dir Hb1 Hb2) as (ns & Hns & Hlt & ->).
  set (s' := with_store_id _ s) in *.
  assert (store_id s' ≠ 0%N) as Hnz.
  { unfold s', registered_id. simpl. pose proof (po_next _ (mo_peers _ Hm)).
    destruct (decide _); lia. }
  revert d dir. eapply ends_on_meta; [by apply PutStore_run|].
  pose proof (put_store_ok _ _ _ Hm Hnz Hns Hlt) as Hok.
  apply ends_persist; [|intros res Hres]; (split_and!; [done | done |]).
  - intros ? [= <-]. by split.
  - intros ? Heq. by destruct (Hres _ Heq).
Qed.

Lemma StoreHeartbeat_ends m id now :
  meta_ok m → ends (StoreHeartbeat id now) m (λ _ m', meta_ok m').
Proof.
  intros Hm. unfold StoreHeartbeat. apply ends_meta. unfold GetStore.
  destruct (stores_ m !! id) as [s|] eqn:Hs; [|by apply ends_fail].
  destruct (po_store _ (mo_peers _ Hm) _ _ Hs) as (Hid & Hpos & Hlt).
  eapply ends_on_meta; [apply PutStore_run; simpl; lia|]. apply ends_persist_unit. intros _.
  rewrite <-(set_ids_same m) at 1. apply put_store_ok; simpl; [done | lia..].
Qed.

(** * Histories of a placement driver *)

Inductive pd_op :=
  | DoRegisterStore (s : StoreInfo)
  | DoStoreHeartbeat (id : N) (now : Z)
  | DoBootstrap (ids : list N)
  | DoSplitRegion (id : N) (k : string)
  | DoAddPeer (id sid : N)
  | DoRemovePeer (id pid : N)
  | DoTransferLeader (id target : N).

(** The state an operation leaves, whatever its outcome. *)
Definition run_op (op : pd_op) (w : PdW) : PdW :=
  match op with
  | DoRegisterStore s => (RegisterStore s w).2
  | DoStoreHeartbeat id now => (StoreHeartbeat id now w).2
  | DoBootstrap ids => (BootstrapDefaultRegion ids w).2
  | DoSplitRegion id k => (SplitRegion id k w).2
  | DoAddPeer id sid => (AddPeer id sid w).2
  | DoRemovePeer id pid => (RemovePeer id pid w).2
  | DoTransferLeader id target => (TransferLeader id target w).2
  end.

(** Ids do not run out, and the default region is asked for on distinct stores.
    The code checks neither: [BootstrapDefaultRegion] of a store that is named twice
    puts two peers on it, see [bootstrap_twice_on_a_store]. *)
Definition pd_permitted (op : pd_op) (m : PdMetadataStore) : Prop :=
  match op with
  | DoRegisterStore s => (next_store_id_ m + 1 < two64)%N ∧ (store_id s + 1 < two64)%N
  | DoBootstrap ids => NoDup ids ∧ (next_region_id_ m + 1 < two64)%N ∧
      (next_peer_id_ m + N.of_nat (length ids) < two64)%N
  | DoSplitRegion id _ => (next_region_id_ m + 1 < two64)%N ∧
      ∀ r, regions_ m !! id = Some r →
        (next_peer_id_ m + N.of_nat (length (peers r)) < two64)%N
  | DoAddPeer _ _ => (next_peer_id_ m + 1 < two64)%N
  | DoStoreHeartbeat _ _ | DoRemovePeer _ _ | DoTransferLeader _ _ => True
  end.

Inductive pd_reachable : PdW → Prop :=
  | pd_start d dir : pd_reachable (d, mkPd new_metadata dir)
  | pd_next op w : pd_reachable w → pd_permitted op (metadata_ w.2) →
      pd_reachable (run_op op w).

Lemma ends_state {A} (f : IO PdW A) w (Q : PdMetadataStore → Prop) :
  ends f (metadata_ w.2) (λ _ m', Q m') → Q (metadata_ (f w).2.2).
Proof.
  destruct w as [d [m dir]]. intros Hf. destruct (Hf d dir) as (r & d' & m' & Hrun & HQ).
  simpl in Hrun. by rewrite Hrun.
Qed.

Lemma meta_step op w :
  meta_ok (metadata_ w.2) → pd_permitted op (metadata_ w.2) →
  meta_ok (metadata_ (run_op op w).2).
Proof.
  intros Hm Hperm. destruct op; simpl in *;
    apply (ends_state _ _ meta_ok); (eapply ends_impl;
      [ first [ by apply StoreHeartbeat_ends | by apply RemovePeer_ends
              | by apply TransferLeader_ends | by apply AddPeer_ends
              | by apply RegisterStore_ends; tauto
              | by apply BootstrapDefaultRegion_ends; tauto
              | by apply SplitRegion_ends; tauto ]
      | first [by intros ? ? ? | by intros ? ? [? _]] ]).
Qed.

Lemma reachable_meta_ok w : pd_reachable w → meta_ok (metadata_ w.2).
Proof. induction 1; [apply meta_new | by apply meta_step]. Qed.

(** ** A small history *)

Definition demo_disk : Disk := mkDisk ∅ [].
Definition demo_store (n : N) : StoreInfo :=
  mkStore n (mkEndpoint "127.0.0.1" 7000) (mkEndpoint "127.0.0.1" 8000) "Up" ∅ 0.

Fixpoint run_ops (ops : list pd_op) (w : PdW) : PdW :=
  match ops with [] => w | op :: rest => run_ops rest (run_op op w) end.

Definition demo_ops : list pd_op :=
  [ DoRegisterStore (demo_store 0); DoRegisterStore (demo_store 0);
    DoRegisterStore (demo_store 7); DoBootstrap [1; 2]%N; DoSplitRegion 1 "m";
    DoAddPeer 2 7; DoTransferLeader 2 5; DoRemovePeer 1 1 ].

Definition demo_pd : PdW := run_ops demo_ops (demo_disk, mkPd new_metadata "pd").

(** [pd_permitted] as a test. *)
Definition pd_permitted_b (op : pd_op) (m : PdMetadataStore) : bool :=
  match op with
  | DoRegisterStore s => ((next_store_id_ m + 1 <? two64) && (store_id s + 1 <? two64))%N
  | DoBootstrap ids => bool_decide (NoDup ids) && (next_region_id_ m + 1 <? two64)%N
      && (next_peer_id_ m + N.of_nat (length ids) <? two64)%N
  | DoSplitRegion id _ => (next_region_id_ m + 1 <? two64)%N &&
      match regions_ m !! id with
      | None => true
      | Some r => (next_peer_id_ m + N.of_nat (length (peers r)) <? two64)%N
      end
  | DoAddPeer _ _ => (next_peer_id_ m + 1 <? two64)%N
  | DoStoreHeartbeat _ _ | DoRemovePeer _ _ | DoTransferLeader _ _ => true
  end.

Lemma pd_permitted_b_ok op m : pd_permitted_b op m = true → pd_permitted op m.
Proof.
  destruct op; simpl; try done; rewrite ?andb_true_iff, ?N.ltb_lt, ?bool_decide_eq_true;
    try tauto.
  intros [? Hr]. split; [done|]. intros r Hlook. rewrite Hlook in Hr. by apply N.ltb_lt.
Qed.

Fixpoint permitted_run (ops : list pd_op) (w : PdW) : bool :=
  match ops with
  | [] => true
  | op :: rest => pd_permitted_b op (metadata_ w.2) && permitted_run rest (run_op op w)
  end.

Lemma run_ops_reachable ops : ∀ w,
  pd_reachable w → permitted_run ops w = true → pd_reachable (run_ops ops w).
Proof.
  induction ops as [|op ops IH]; intros w Hw; cbn [permitted_run run_ops]; [done|].
  rewrite andb_true_iff. intros [Hop Hrest].
  apply IH; [|done]. apply pd_next; [done | by apply pd_permitted_b_ok].
Qed.

Lemma demo_reachable : pd_reachable demo_pd.
Proof. apply run_ops_reachable; [apply pd_start | by vm_compute]. Qed.
