(* ===== verification/PdSafety.v ===== *)
(** The placement driver's guarantees, for every history of operations on any
    disk: a well-formed catalog, routing of every key to one region, splits
    that divide exactly one range, and operators the server will accept. *)

From S2P Require Import Prelude Types Text Codec Engine Pd PdSpec.

(** C17: As long as ids stay below 2^64 and a bootstrap names each store once
    (the code checks neither: asked with a store twice it puts two peers of the
    region on it), whatever operations the placement driver runs and whatever its
    disk does to the catalog, its metadata stays well formed: region ids are below
    the allocator, the start-key index names exactly the regions, ranges are
    non-empty, disjoint and cover every key once a region exists; peer ids are
    unique in the cluster and below the allocator, a region has at most one
    peer per store, only on registered stores, and its leader is one of its
    peers. *)
Theorem pd_invariant w : pd_reachable w → meta_ok (metadata_ w.2).
Proof. apply reachable_meta_ok. Qed.

Lemma pd_invariant_witness : meta_ok (metadata_ demo_pd.2).
Proof. apply (pd_invariant demo_pd), demo_reachable. Defined.

Lemma elem_of_ListRegions m r :
  meta_ok m → r ∈ ListRegions m ↔ regions_ m !! region_id r = Some r.
Proof.
  intros Hm. unfold ListRegions. rewrite list_elem_of_fmap. split.
  - intros ([id x] & -> & Hx%elem_of_kvs). simpl in *. by rewrite (region_key _ _ _ Hm Hx).
  - intros Hr. exists (region_id r, r). split; [done | by apply elem_of_kvs].
Qed.

Lemma GetRegionByKey_ListRegions m key r :
  meta_ok m → GetRegionByKey m key = Some r ↔ r ∈ ListRegions m ∧ ContainsKey r key = true.
Proof.
  intros Hm. rewrite GetRegionByKey_spec by apply Hm. rewrite elem_of_ListRegions, ContainsKey_spec by done.
  split; [|by intros [? ?]; eexists].
  intros (id & Hr & Hin). by rewrite (region_key _ _ _ Hm Hr).
Qed.

(** The leader of a region is registered with the driver. *)
Lemma leader_store_known m r :
  meta_ok m → r ∈ ListRegions m →
  ∃ p s, FindPeer r (leader_peer_id r) = Some p ∧ GetRegionLeaderStore m r = Some s ∧
    store_id s = peer_store_id p.
Proof.
  intros Hm Hr%elem_of_ListRegions; [|done].
  destruct (po_group _ (mo_peers _ Hm) _ _ Hr) as [_ _ Hl _ Hreg].
  unfold GetRegionLeaderStore. destruct (FindPeer r (leader_peer_id r)) as [p|] eqn:Hp.
  - pose proof (FindPeer_Some _ _ _ Hp) as [Hin _]. destruct (Hreg _ Hin) as [s Hs].
    exists p, s. split_and!; [done | done|]. by destruct (po_store _ (mo_peers _ Hm) _ _ Hs).
  - by apply FindPeer_None in Hp.
Qed.

(** The index has a region for every key. *)
Lemma key_has_region m key :
  meta_ok m → ListRegions m ≠ [] →
  ∃ r, GetRegionByKey m key = Some r ∧ r ∈ ListRegions m ∧ ContainsKey r key = true.
Proof.
  intros Hm Hne. destruct (ro_cover _ (mo_ranges _ Hm) key) as (id & r & Hr & Hin).
  { intros Hemp. by apply Hne, ListRegions_nil. }
  assert (GetRegionByKey m key = Some r) as Hget
    by (apply GetRegionByKey_spec; [apply Hm | by exists id]).
  exists r. split; [done|]. by apply GetRegionByKey_ListRegions.
Qed.

(** C18: Once the default region exists, every key is routed: [GetRegionByKey]
    returns the one listed region whose range holds the key, and the leader
    store a client is sent to is a registered store on which that region has
    its leader peer. *)
Theorem pd_routes_every_key w key :
  pd_reachable w → ListRegions (metadata_ w.2) ≠ [] →
  ∃ r, GetRegionByKey (metadata_ w.2) key = Some r ∧
    (∀ r', r' ∈ ListRegions (metadata_ w.2) → ContainsKey r' key = true ↔ r' = r) ∧
    ∃ p s, FindPeer r (leader_peer_id r) = Some p ∧
      GetRegionLeaderStore (metadata_ w.2) r = Some s ∧ store_id s = peer_store_id p.
Proof.
  intros Hm%reachable_meta_ok Hne.
  destruct (key_has_region _ key Hm Hne) as (r & Hget & Hl & Hc).
  exists r. split_and!; [done | |by apply leader_store_known].
  intros r' Hr'. split; [|by intros ->]. intros Hc'.
  assert (GetRegionByKey (metadata_ w.2) key = Some r') as Hget'
    by (by apply GetRegionByKey_ListRegions).
  congruence.
Qed.

Lemma pd_routes_every_key_witness :
  ListRegions (metadata_ demo_pd.2) ≠ [] ∧
  ∃ r, GetRegionByKey (metadata_ demo_pd.2) "zebra" = Some r ∧
    (∀ r', r' ∈ ListRegions (metadata_ demo_pd.2) → ContainsKey r' "zebra" = true ↔ r' = r) ∧
    ∃ p s, FindPeer r (leader_peer_id r) = Some p ∧
      GetRegionLeaderStore (metadata_ demo_pd.2) r = Some s ∧ store_id s = peer_store_id p.
Proof.
  assert (ListRegions (metadata_ demo_pd.2) ≠ []) as Hne by (by vm_compute).
  split; [exact Hne|]. apply (pd_routes_every_key demo_pd "zebra"); [apply demo_reachable | exact Hne].
Defined.

Section halves.
Context (m m' : PdMetadataStore) (old l rt : RegionInfo) (k : string).
Context (Hm : meta_ok m) (Hm' : meta_ok m') (Hh : halves old l rt k).
Context (Hold : regions_ m !! region_id old = Some old) (Hl : region_id l = region_id old).
Context (Hfresh : regions_ m !! region_id rt = None).
Context (Hregs : regions_ m' = <[region_id rt := rt]> (<[region_id old := l]> (regions_ m))).

Lemma halves_left : regions_ m' !! region_id old = Some l.
Proof.
  rewrite Hregs, lookup_insert_ne, lookup_insert_eq; [done|]. intros Heq. congruence.
Qed.

Lemma halves_right : regions_ m' !! region_id rt = Some rt.
Proof. by rewrite Hregs, lookup_insert_eq. Qed.

Lemma halves_other i r :
  i ≠ region_id old → regions_ m !! i = Some r → regions_ m' !! i = Some r.
Proof.
  intros Hi Hr. rewrite Hregs, !lookup_insert_ne; congruence.
Qed.

Lemma halves_cover key :
  in_range (start_key old) (end_key old) key ↔
  in_range (start_key l) (end_key l) key ∨ in_range (start_key rt) (end_key rt) key.
Proof.
  destruct Hh as [Hk -> Hs He _ _ _ _ _]. rewrite Hs, He. exact (split_range old k key Hk).
Qed.

Lemma halves_route_outside key :
  ContainsKey old key = false → GetRegionByKey m' key = GetRegionByKey m key.
Proof.
  intros Hout. assert (¬ in_range (start_key old) (end_key old) key) as Hno
    by (rewrite <-ContainsKey_spec; congruence).
  apply option_eq. intros r. rewrite !GetRegionByKey_spec by (apply Hm || apply Hm').
  rewrite Hregs. split.
  - intros (i & Hi & Hin). exists i. split; [|done].
    rewrite !lookup_insert_Some in Hi.
    destruct Hi as [[_ <-] | [_ [[_ <-] | [_ Hi]]]]; [| |done]; exfalso; apply Hno, halves_cover; auto.
  - intros (i & Hi & Hin). exists i. split; [|done]. rewrite <-Hregs.
    apply halves_other; [|done]. intros ->. rewrite Hold in Hi. by injection Hi as ->.
Qed.

Lemma halves_route_inside key :
  ContainsKey old key = true →
  GetRegionByKey m' key = if String.ltb key k then Some l else Some rt.
Proof.
  intros Hc%ContainsKey_spec. pose proof Hc as Hor%halves_cover. destruct Hh as [Hk Hleft Hs He _ _ _ _ _].
  rewrite ltb_leb. destruct (String.leb k key) eqn:Hkk; simpl;
    apply GetRegionByKey_spec; try apply Hm'.
  - exists (region_id rt). split; [apply halves_right|]. rewrite Hs, He. split; [done | apply Hc].
  - exists (region_id old). split; [apply halves_left|]. rewrite Hleft. simpl.
    split; [apply Hc | by right].
Qed.

Lemma halves_new_ids r p :
  r ∈ ListRegions m → p ∈ peer_id <$> peers r → p ∉ peer_id <$> peers rt.
Proof.
  intros Hr%elem_of_ListRegions Hp Hpr; [|done].
  destruct (decide (region_id r = region_id old)) as [Heq | Hne].
  - rewrite Heq, Hold in Hr. injection Hr as <-. by eapply h_ids.
  - pose proof (halves_other _ _ Hne Hr) as Hr'.
    pose proof (po_owner _ (mo_peers _ Hm') _ _ _ _ _ Hr' halves_right Hp Hpr). congruence.
Qed.
End halves.

(** C19: A successful split cuts one region at an interior key and touches no
    other: the two halves hold exactly its keys, at the old start and end, the
    right half on the same stores under peer ids used nowhere else; the region
    list is the old one with the halves in place of the region; every key
    outside it routes as before, every key inside to its half; and the epoch of
    the old region is stale at both halves. *)
Theorem split_divides_one_region w id k l rt w' :
  pd_reachable w → pd_permitted (DoSplitRegion id k) (metadata_ w.2) →
  SplitRegion id k w = (Ok (l, rt), w') →
  ∃ old, GetRegion (metadata_ w.2) id = Some old ∧
    start_key l = start_key old ∧ end_key l = k ∧ start_key rt = k ∧ end_key rt = end_key old ∧
    peers l = peers old ∧ peer_store_id <$> peers rt = peer_store_id <$> peers old ∧
    (∀ r p, r ∈ ListRegions (metadata_ w.2) → p ∈ peer_id <$> peers r →
       p ∉ peer_id <$> peers rt) ∧
    (∀ key, GetRegionByKey (metadata_ w'.2) key =
       if negb (ContainsKey old key) then GetRegionByKey (metadata_ w.2) key
       else if String.ltb key k then Some l else Some rt) ∧
    ((version (epoch old) + 1 < two64)%N →
       EpochStale (epoch old) (epoch l) = true ∧ EpochStale (epoch old) (epoch rt) = true).
Proof.
  intros Hm%reachable_meta_ok [Hb1 Hb2] Hrun. destruct w as [d [m dir]]. simpl in *.
  destruct (SplitRegion_ends m id k Hm Hb1 Hb2 d dir) as (r & d' & m' & Hrun' & Hm' & Hok).
  rewrite Hrun in Hrun'. injection Hrun' as <- ->. simpl.
  destruct (Hok _ _ eq_refl) as (old & Hold & Hh & Hfresh & Hregs).
  pose proof (region_key _ _ _ Hm Hold) as Hid.
  subst id. pose proof Hh as [Hk Hl Hs He Hep Hst _ _ _]. exists old.
  assert (region_id l = region_id old) as Hli by (by rewrite Hl).
  split_and!; try done; try (by rewrite Hl).
  - intros r p. by eapply halves_new_ids.
  - intros key. destruct (ContainsKey old key) eqn:Hc; simpl.
    + by eapply halves_route_inside.
    + by eapply halves_route_outside.
  - intros Hv. rewrite Hep, Hl. unfold EpochStale. simpl. rewrite u64_small by done.
    rewrite (proj2 (N.ltb_lt (version _) _)) by lia. by rewrite orb_true_r.
Qed.

Definition split_demo : PdW := run_ops (take 4 demo_ops) (demo_disk, mkPd new_metadata "pd").
Definition split_demo_left : RegionInfo :=
  mkRegion 1 "" "m" (mkEpoch 1 2) [mkPeer 1 1 kVoter; mkPeer 2 2 kVoter] 1.
Definition split_demo_right : RegionInfo :=
  mkRegion 2 "m" "" (mkEpoch 1 2) [mkPeer 3 1 kVoter; mkPeer 4 2 kVoter] 3.

Lemma split_demo_reachable : pd_reachable split_demo.
Proof. apply run_ops_reachable; [apply pd_start | by vm_compute]. Qed.

Lemma split_divides_one_region_witness :
  ∃ w', SplitRegion 1 "m" split_demo = (Ok (split_demo_left, split_demo_right), w') ∧
    GetRegionByKey (metadata_ w'.2) "apple" = Some split_demo_left.
Proof.
  assert (SplitRegion 1 "m" split_demo =
    (Ok (split_demo_left, split_demo_right), (SplitRegion 1 "m" split_demo).2)) as Hrun
    by (by vm_compute).
  eexists. split; [exact Hrun|].
  assert (pd_permitted (DoSplitRegion 1 "m") (metadata_ split_demo.2)) as Hperm
    by (apply pd_permitted_b_ok; by vm_compute).
  destruct (split_divides_one_region _ _ _ _ _ _ split_demo_reachable Hperm Hrun)
    as (old & Hold & _ & _ & _ & _ & _ & _ & _ & Hroute & _).
  rewrite Hroute. assert (GetRegion (metadata_ split_demo.2) 1 =
    Some (mkRegion 1 "" "" (mkEpoch 1 1) [mkPeer 1 1 kVoter; mkPeer 2 2 kVoter] 1)) as H1
    by (by vm_compute).
  rewrite H1 in Hold. injection Hold as <-. by vm_compute.
Defined.

(** ** A bootstrap that names a store twice *)

(** The code gives the region two peers on the store, so the invariant asks for
    distinct stores. *)
Lemma bootstrap_twice_on_a_store :
  let w := run_ops (take 1 demo_ops ++ [DoBootstrap [1; 1]%N]) (demo_disk, mkPd new_metadata "pd") in
  (λ r, peer_store_id <$> peers r) <$> GetRegion (metadata_ w.2) 1 = Some [1; 1]%N ∧
  ¬ meta_ok (metadata_ w.2).
Proof.
  intros w. assert (∃ r, GetRegion (metadata_ w.2) 1 = Some r ∧ peer_store_id <$> peers r = [1; 1]%N)
    as (r & Hr & Hps) by (eexists; split; vm_compute; reflexivity).
  split; [by rewrite Hr; cbn; rewrite Hps|]. intros Hm.
  destruct (po_group _ (mo_peers _ Hm) _ _ Hr) as [_ Hst _ _ _]. rewrite Hps in Hst.
  apply list.NoDup_cons in Hst as [Hin _]. by apply Hin, list_elem_of_here.
Qed.

(** ** Operators *)

Lemma length_remove_peer ps pid :
  NoDup (peer_id <$> ps) →
  if decide (pid ∈ peer_id <$> ps)
  then S (length (filter (λ p, peer_id p ≠ pid) ps)) = length ps
  else length (filter (λ p, peer_id p ≠ pid) ps) = length ps.
Proof.
  induction ps as [|p ps IH]; intros Hnd; [destruct (decide _) as [Hin|]; [by apply elem_of_nil in Hin | done]|]; csimpl in *.
  apply list.NoDup_cons in Hnd as [Hp Hnd]. specialize (IH Hnd). rewrite filter_cons.
  destruct (decide (peer_id p ≠ pid)) as [Hne | Heq]; simpl.
  - destruct (decide (pid ∈ peer_id <$> ps)) as [Hin | Hout].
    + rewrite decide_True by (by apply list_elem_of_further). lia.
    + rewrite decide_False by (by intros [?|?]%elem_of_cons). lia.
  - assert (peer_id p = pid) as <- by (by apply dec_stable).
    rewrite decide_False in IH by done.
    rewrite decide_True by apply list_elem_of_here. lia.
Qed.

(** Where the images are distinct, the image tells the elements apart. *)
Lemma nodup_image {A B} (f : A → B) l x y : NoDup (f <$> l) → x ∈ l → y ∈ l → f x = f y → x = y.
Proof.
  intros Hnd (i & Hi)%list_elem_of_lookup (j & Hj)%list_elem_of_lookup Hf.
  assert (i = j) as ->; [|congruence].
  apply (NoDup_lookup (f <$> l) i j (f x) Hnd); rewrite list_lookup_fmap; [by rewrite Hi | by rewrite Hj, Hf].
Qed.

Lemma find_peer_nodup r p :
  NoDup (peer_id <$> peers r) → p ∈ peers r → FindPeer r (peer_id p) = Some p.
Proof.
  unfold FindPeer. generalize (peers r). intros ps. induction ps as [|q ps IH]; csimpl;
    intros Hnd Hp; [by apply elem_of_nil in Hp|].
  apply list.NoDup_cons in Hnd as [Hq Hnd].
  apply elem_of_cons in Hp as [-> | Hp]; [by rewrite N.eqb_refl|].
  destruct (N.eqb_spec (peer_id q) (peer_id p)) as [Heq | _]; [|by apply IH].
  rewrite Heq in Hq. destruct Hq. by apply list_elem_of_fmap_2.
Qed.

(** The store that leads a region. *)
Definition leader_store_of (m : PdMetadataStore) (id : N) : option N :=
  r ← GetRegion m id;
  p ← FindPeer r (leader_peer_id r);
  Some (peer_store_id p).

Section operators.
Context (m : PdMetadataStore) (d : Disk) (dir : string) (Hm : meta_ok m) (Hd : disk_ok d).
Abbreviation w := (d, mkPd m dir).

Lemma region_of_run id : region_of id w =
  (match GetRegion m id with
   | None => Err (mkStatus kRegionNotFound "region not found")
   | Some r => Ok r
   end, w).
Proof. unfold region_of, the_meta. run. simpl. by destruct (GetRegion m id). Qed.

(** The end of an operation that writes one region. *)
Lemma put_region_run id r r' m' :
  GetRegion m id = Some r → region_id r' = region_id r →
  ∃ d', (_ ← on_meta (PutRegion r'); Persist) (d, mkPd m' dir) =
    (Ok tt, (d', mkPd (add_region_record r' m') dir)).
Proof.
  intros Hr Hid. destruct (Persist_any d (mkPd (add_region_record r' m') dir) Hd) as (d' & Hp & _).
  exists d'. erewrite bind_ok; [exact Hp|]. apply on_meta_run, PutRegion_run.
  rewrite Hid. by eapply region_nonzero.
Qed.

Lemma AddPeer_accepts id sid :
  is_Some (MakeAddPeerOperator (Some m) id sid) ↔ ∃ p, (AddPeer id sid w).1 = Ok p.
Proof.
  unfold MakeAddPeerOperator, AddPeer. cbn [mbind option_bind].
  destruct (GetRegion m id) as [r|] eqn:Hr; cbn [mbind option_bind].
  2: { run_call ltac:(rewrite region_of_run, Hr; reflexivity). split; [by intros []|by intros []]. }
  run_call ltac:(rewrite region_of_run, Hr; reflexivity).
  unfold the_meta. run. cbn [metadata_ snd].
  destruct (GetStore m sid) as [s|] eqn:Hs; cbn [mbind option_bind].
  2: { rewrite decide_True by done. split; [by intros []|by intros []]. }
  rewrite decide_False by done.
  destruct (bool_decide _); [split; [by intros []|by intros []]|].
  split; [intros _|by eexists]. eexists.
  run_call ltac:(by apply on_meta_run).
  erewrite bind_ok; [|by apply on_meta_run, PutRegion_run; simpl; eapply region_nonzero].
  edestruct (Persist_any d) as (d' & Hp & _); [exact Hd|].
  erewrite bind_ok; [|exact Hp]. done.
Qed.

Lemma RemovePeer_accepts id pid :
  is_Some (MakeRemovePeerOperator (Some m) id pid) ↔ (RemovePeer id pid w).1 = Ok tt.
Proof.
  unfold MakeRemovePeerOperator, RemovePeer. cbn [mbind option_bind].
  destruct (GetRegion m id) as [r|] eqn:Hr; cbn [mbind option_bind].
  2: { run_call ltac:(rewrite region_of_run, Hr; reflexivity). split; [by intros []|done]. }
  run_call ltac:(rewrite region_of_run, Hr; reflexivity).
  pose proof (region_key _ _ _ Hm Hr) as Hid.
  destruct (po_group _ (mo_peers _ Hm) _ _ Hr) as [Hi _ _ _ _].
  pose proof (length_remove_peer _ pid Hi) as Hlen.
  destruct (FindPeer r pid) as [p|] eqn:Hp; cbn [mbind option_bind].
  2: { apply FindPeer_None in Hp. rewrite decide_False in Hlen by done.
    rewrite (decide_True _ _ Hlen). split; [by intros []|done]. }
  assert (pid ∈ peer_id <$> peers r) as Hin by (apply find_in_group; by rewrite Hp).
  rewrite decide_True in Hlen by done.
  rewrite (decide_False (P := length _ = length _)) by lia.
  destruct (filter _ (peers r)) as [|q ps] eqn:Hps; cbn [length] in Hlen.
  - rewrite !decide_True by (lia || done). split; [by intros []|done].
  - rewrite !decide_False by (lia || done). split; [intros _|by eexists].
    edestruct put_region_run as (d' & ->); [exact Hr | done | done].
Qed.

(** The target is accepted and leads; the other regions' leaders stay. *)
Lemma TransferLeader_run id r target p :
  GetRegion m id = Some r → FindPeer r target = Some p →
  ∃ d' m', TransferLeader id target w = (Ok tt, (d', mkPd m' dir)) ∧
    leader_store_of m' id = Some (peer_store_id p) ∧
    ∀ id', id' ≠ id → leader_store_of m' id' = leader_store_of m id'.
Proof.
  intros Hr Hp. pose proof (region_key _ _ _ Hm Hr) as Hid.
  destruct (put_region_run id r (with_leader target r) m Hr eq_refl) as (d' & Hrun).
  exists d', (add_region_record (with_leader target r) m). split_and!.
  - unfold TransferLeader. run_call ltac:(rewrite region_of_run, Hr; reflexivity).
    by rewrite decide_False by (by rewrite Hp).
  - unfold leader_store_of, GetRegion. simpl. rewrite Hid, lookup_insert_eq. simpl.
    change (FindPeer (with_leader target r) target) with (FindPeer r target). by rewrite Hp.
  - intros id' Hne. unfold leader_store_of, GetRegion. simpl.
    by rewrite lookup_insert_ne by (by rewrite Hid).
Qed.

(** A leader to transfer to is another peer than the one that leads. *)
Lemma transfer_proposed id sid :
  is_Some (MakeTransferLeaderOperator (Some m) id sid) ↔
  leader_store_of m id ≠ Some sid ∧
  ∃ r p, GetRegion m id = Some r ∧ p ∈ peers r ∧ peer_store_id p = sid.
Proof.
  unfold MakeTransferLeaderOperator, leader_store_of. cbn [mbind option_bind].
  destruct (GetRegion m id) as [r|] eqn:Hr; cbn [mbind option_bind].
  2: { split; [by intros [] | by intros (_ & ? & ? & ? & _)]. }
  destruct (po_group _ (mo_peers _ Hm) _ _ Hr) as [Hi Hst _ _ _].
  destruct (FindPeerByStore r sid) as [p|] eqn:Hp; cbn [mbind option_bind].
  2: { apply FindPeerByStore_None in Hp. split; [by intros []|].
       intros (_ & r' & p & [= <-] & Hin & <-). destruct Hp. by apply list_elem_of_fmap_2. }
  apply FindPeerByStore_Some in Hp as [Hin Hsid].
  destruct (decide (peer_id p = leader_peer_id r)) as [Heq | Hne].
  - rewrite <-Heq, (find_peer_nodup _ _ Hi Hin). cbn. rewrite Hsid. split; [by intros [] | by intros [? _]].
  - split; [intros _ | intros _; by eexists]. split; [|by exists r, p].
    intros Hl. apply bind_Some in Hl as (q & [Hq Hqid]%FindPeer_Some & [= Hqs]). destruct Hne.
    rewrite <-Hqid. f_equal. symmetry. eapply (nodup_image peer_store_id); [exact Hst | exact Hq | exact Hin | congruence].
Qed.
End operators.

(** C29: The scheduler proposes an operator exactly when the server will carry
    it out. On a driver with any history, with or without a catalog, whose disk
    takes the write: an add-peer (remove-peer) operator is produced if and only if
    [AddPeer] ([RemovePeer]) with its arguments succeeds. A transfer-leader operator
    is produced if and only if another store than the target leads the region and
    [TransferLeader] to some peer succeeds and makes the target lead; the peer that
    the operator names is such a peer, and the leaders of other regions stay. (To the
    store that leads already the server transfers without complaint, and the
    scheduler proposes nothing.) *)
Theorem scheduler_operators_apply m d dir id sid pid :
  pd_reachable (d, mkPd m dir) → disk_ok d →
  (is_Some (MakeAddPeerOperator (Some m) id sid) ↔
     ∃ p, (AddPeer id sid (d, mkPd m dir)).1 = Ok p) ∧
  (is_Some (MakeRemovePeerOperator (Some m) id pid) ↔
     (RemovePeer id pid (d, mkPd m dir)).1 = Ok tt) ∧
  (is_Some (MakeTransferLeaderOperator (Some m) id sid) ↔
     leader_store_of m id ≠ Some sid ∧
     ∃ target w', TransferLeader id target (d, mkPd m dir) = (Ok tt, w') ∧
       leader_store_of (metadata_ w'.2) id = Some sid) ∧
  (∀ op, MakeTransferLeaderOperator (Some m) id sid = Some op →
     ∃ w', TransferLeader id (op_target_peer_id op) (d, mkPd m dir) = (Ok tt, w') ∧
       leader_store_of (metadata_ w'.2) id = Some sid ∧
       ∀ id', id' ≠ id → leader_store_of (metadata_ w'.2) id' = leader_store_of m id').
Proof.
  intros Hm%reachable_meta_ok Hd. split_and!.
  - by apply AddPeer_accepts.
  - by apply RemovePeer_accepts.
  - rewrite (transfer_proposed m Hm). apply and_iff_compat_l. split.
    + intros (r & p & Hr & Hin & <-). exists (peer_id p).
      destruct (TransferLeader_run m d dir Hm Hd id r (peer_id p) p Hr) as (d' & m' & Hrun & Hl & _);
        [|by exists (d', mkPd m' dir)].
      apply find_peer_nodup; [|exact Hin]. by destruct (po_group _ (mo_peers _ Hm) _ _ Hr).
    + intros (target & w' & Hrun & Hl). destruct (GetRegion m id) as [r|] eqn:Hr.
      2: { unfold TransferLeader in Hrun.
           by erewrite bind_err in Hrun by (rewrite region_of_run, Hr; reflexivity). }
      destruct (FindPeer r target) as [p|] eqn:Hp.
      * destruct (TransferLeader_run m d dir Hm Hd id r target p Hr Hp) as (d' & m' & Hrun' & Hl' & _).
        rewrite Hrun in Hrun'. injection Hrun' as ->. cbn in Hl. exists r, p.
        apply FindPeer_Some in Hp as [Hin _]. split_and!; [done | done | congruence].
      * unfold TransferLeader in Hrun. erewrite bind_ok in Hrun by (rewrite region_of_run, Hr; reflexivity).
        by rewrite decide_True in Hrun.
  - intros op Hop. unfold MakeTransferLeaderOperator in Hop. cbn [mbind option_bind] in Hop.
    apply bind_Some in Hop as (r & Hr & (p & [Hin <-]%FindPeerByStore_Some & Hop)%bind_Some).
    case_decide; [done|]. injection Hop as <-. cbn [op_target_peer_id].
    destruct (TransferLeader_run m d dir Hm Hd id r (peer_id p) p Hr) as (d' & m' & Hrun & Hl);
      [|by exists (d', mkPd m' dir)].
    apply find_peer_nodup; [|exact Hin]. by destruct (po_group _ (mo_peers _ Hm) _ _ Hr).
Qed.

Definition memory_demo : PdW := run_ops demo_ops (demo_disk, mkPd new_metadata "").

(** The demo driver: a peer of region 1 can be added on store 7, and region 2 can
    be led from store 2. *)
Lemma scheduler_operators_apply_witness :
  (∃ p, (AddPeer 1 7 (memory_demo.1, mkPd (metadata_ memory_demo.2) "")).1 = Ok p) ∧
  (∃ target w', TransferLeader 2 target (memory_demo.1, mkPd (metadata_ memory_demo.2) "") = (Ok tt, w') ∧
     leader_store_of (metadata_ w'.2) 2 = Some 2%N).
Proof.
  assert (is_Some (MakeAddPeerOperator (Some (metadata_ memory_demo.2)) 1 7)) as Hadd
    by (apply (bool_decide_unpack _); vm_compute; exact I).
  assert (is_Some (MakeTransferLeaderOperator (Some (metadata_ memory_demo.2)) 2 2)) as Hmove
    by (apply (bool_decide_unpack _); vm_compute; exact I).
  assert (pd_reachable (memory_demo.1, mkPd (metadata_ memory_demo.2) "")) as Hreach.
  { assert (memory_demo = (memory_demo.1, mkPd (metadata_ memory_demo.2) "")) as <- by (by vm_compute).
    apply run_ops_reachable; [apply pd_start | by vm_compute]. }
  assert (disk_ok memory_demo.1) as Hd by (vm_compute; reflexivity).
  split.
  - by apply (scheduler_operators_apply _ _ _ 1 7 1 Hreach Hd).
  - by apply (scheduler_operators_apply _ _ _ 2 2 1 Hreach Hd) in Hmove as [_ ?].
Defined.
