(* ===== verification/PdCatalog.v ===== *)
(** The catalog file of the placement driver: what [Persist] writes, [Open]
    reads back. *)

From S2P Require Import Prelude Types Text Codec Engine Pd PdSpec.

(** * Rebuilding a map from a list of records *)

Section rebuild.
Context {K A B : Type} `{Countable K} (f : A → K) (g : A → B).

Definition insert_all (l : list A) (m : gmap K B) : gmap K B :=
  foldl (λ m x, <[f x := g x]> m) m l.

Lemma insert_all_lookup l : ∀ m k v, NoDup (f <$> l) →
  insert_all l m !! k = Some v ↔
  (∃ x, x ∈ l ∧ f x = k ∧ g x = v) ∨ (k ∉ f <$> l ∧ m !! k = Some v).
Proof.
  induction l as [|x l IH]; intros m k v Hnd; cbn [insert_all foldl].
  { split; [intros Hk; right; split; [apply not_elem_of_nil | done]|].
    intros [(x & Hx & _) | [_ Hk]]; [by apply elem_of_nil in Hx | done]. }
  csimpl in Hnd. apply list.NoDup_cons in Hnd as [Hx Hnd].
  change (foldl _ _ l) with (insert_all l (<[f x := g x]> m)).
  rewrite IH by done. csimpl. rewrite lookup_insert_Some, not_elem_of_cons. split.
  - intros [(y & Hy & <- & <-) | [Hk [[<- <-] | [Hne Hm]]]].
    + left. exists y. split; [by apply list_elem_of_further | done].
    + left. exists x. split; [apply list_elem_of_here | done].
    + right. by split_and!.
  - intros [(y & [-> | Hy]%elem_of_cons & <- & <-) | [[Hne Hk] Hm]].
    + right. split; [done | by left].
    + left. by exists y.
    + right. split; [done|]. right. by split.
Qed.

(** The records of a map, each under its own key. *)
Lemma insert_all_kvs `{!KeyOrder K} (m : gmap K A) :
  (∀ k x, m !! k = Some x → f x = k) → insert_all (kvs m).*2 ∅ = g <$> m.
Proof.
  intros Hkey. apply map_eq. intros k. apply option_eq. intros v.
  assert (f <$> (kvs m).*2 = (kvs m).*1) as Hids.
  { rewrite <-list_fmap_compose. apply list_fmap_ext. intros i [k' x] Hi.
    apply list_elem_of_lookup_2, elem_of_kvs in Hi. by apply Hkey. }
  rewrite insert_all_lookup by (rewrite Hids; apply kvs_nodup).
  rewrite lookup_fmap, fmap_Some, lookup_empty. split.
  - intros [(x & ([k' y] & -> & Hx%elem_of_kvs)%list_elem_of_fmap & <- & <-) | [_ ?]]; [|done].
    exists y. simpl. by rewrite (Hkey _ _ Hx).
  - intros (x & Hx & ->). left. exists x. split_and!; [|by apply Hkey|done].
    apply list_elem_of_fmap. exists (k, x). split; [done | by apply elem_of_kvs].
Qed.
End rebuild.

(** * Loading *)

Definition load_store (m : PdMetadataStore) (s : StoreInfo) : PdMetadataStore :=
  add_store_record (wire_store s) m.
Definition load_region (m : PdMetadataStore) (r : RegionInfo) : PdMetadataStore :=
  add_region_record r m.

Lemma load_stores_run f l : ∀ i m,
  (∀ j s, l !! j = Some s → agrees f (indexed "store" (N.of_nat (i + j))) (store_fields s)) →
  Forall (λ s, store_ok s ∧ store_id s ≠ 0%N) l →
  load_stores f (N.of_nat <$> seq i (length l)) m = (Ok tt, foldl load_store m l).
Proof.
  induction l as [|s l IH]; intros i m Hf Hl; [done|].
  apply list.Forall_cons in Hl as [[Hs Hnz] Hl]. cbn [length seq fmap list_fmap load_stores foldl].
  pose proof (Hf 0 s eq_refl) as H0. rewrite Nat.add_0_r in H0.
  rewrite (GetStoreFields_agrees _ _ s H0 Hs). run_call ltac:(by apply PutStore_run).
  apply IH; [|done]. intros j x Hj. specialize (Hf (S j) x Hj).
  by rewrite Nat.add_succ_comm.
Qed.

Lemma load_regions_run f l : ∀ i m,
  (∀ j r, l !! j = Some r → agrees f (indexed "region" (N.of_nat (i + j))) (region_fields r)) →
  Forall (λ r, region_ok r ∧ region_id r ≠ 0%N) l →
  load_regions f (N.of_nat <$> seq i (length l)) m = (Ok tt, foldl load_region m l).
Proof.
  induction l as [|r l IH]; intros i m Hf Hl; [done|].
  apply list.Forall_cons in Hl as [[Hr Hnz] Hl]. cbn [length seq fmap list_fmap load_regions foldl].
  pose proof (Hf 0 r eq_refl) as H0. rewrite Nat.add_0_r in H0.
  rewrite (GetRegionFields_agrees _ _ r H0 Hr). run_call ltac:(by apply PutRegion_run).
  apply IH; [|done]. intros j x Hj. specialize (Hf (S j) x Hj).
  by rewrite Nat.add_succ_comm.
Qed.

Lemma foldl_load_store l m :
  foldl load_store m l =
  mkMeta (next_store_id_ m) (next_region_id_ m) (next_peer_id_ m)
    (insert_all store_id wire_store l (stores_ m)) (regions_ m) (regions_by_start_key_ m).
Proof. revert m. induction l as [|s l IH]; intros m; [by destruct m | apply IH]. Qed.

Lemma foldl_load_region l m :
  foldl load_region m l =
  mkMeta (next_store_id_ m) (next_region_id_ m) (next_peer_id_ m) (stores_ m)
    (insert_all region_id id l (regions_ m))
    (insert_all start_key region_id l (regions_by_start_key_ m)).
Proof. revert m. induction l as [|s l IH]; intros m; [by destruct m | apply IH]. Qed.

(** ** The catalog's fields *)

Section catalog.
Context (m : PdMetadataStore).
Abbreviation f := (catalog_fields m).

Lemma catalog_plain k :
  str_all (λ c, negb (Ascii.eqb c ".")) k = true →
  f !! k = (<["region_count" := to_string (N.of_nat (length (ListRegions m)))]>
    (<["store_count" := to_string (N.of_nat (length (ListStores m)))]> (put_all ∅
      [ ("next_store_id", to_string (next_store_id_ m));
        ("next_region_id", to_string (next_region_id_ m));
        ("next_peer_id", to_string (next_peer_id_ m)) ])) : FieldMap) !! k.
Proof.
  intros Hk. unfold catalog_fields. cbv zeta.
  rewrite (put_indexed_notin _ region_fields) by (done || by intros; apply plain_not_indexed).
  destruct (decide (k = "region_count")) as [-> | Hne]; [by rewrite !lookup_insert_eq|].
  rewrite !(lookup_insert_ne _ "region_count") by done.
  by rewrite (put_indexed_notin _ store_fields) by (done || by intros; apply plain_not_indexed).
Qed.

Lemma catalog_stores j s :
  ListStores m !! j = Some s → agrees f (indexed "store" (N.of_nat j)) (store_fields s).
Proof.
  intros Hj. unfold catalog_fields. cbv zeta.
  eapply agrees_ext; [|eapply (put_indexed_agrees PutStoreFields store_fields "store") with (i := 0%N)].
  - intros n _. rewrite (put_indexed_notin _ region_fields); [|done|].
    + apply lookup_insert_ne. by apply plain_not_indexed.
    + intros i n' _. by rewrite !Key_prefix by apply indexed_not_empty.
  - done.
  - apply store_fields_nodup.
  - done.
Qed.

Lemma catalog_regions j r :
  ListRegions m !! j = Some r → agrees f (indexed "region" (N.of_nat j)) (region_fields r).
Proof.
  intros Hj. unfold catalog_fields. cbv zeta.
  eapply (put_indexed_agrees PutRegionFields region_fields "region") with (i := 0%N);
    [done | apply region_fields_nodup | done].
Qed.
End catalog.

(** * The round trip *)

(** The catalog's numbers fit their 64- and 32-bit fields. *)
Record catalog_ok (m : PdMetadataStore) : Prop := {
  co_ids : (next_store_id_ m < two64 ∧ next_region_id_ m < two64 ∧ next_peer_id_ m < two64)%N;
  co_sizes : (N.of_nat (size (stores_ m)) < two64 ∧ N.of_nat (size (regions_ m)) < two64)%N;
  co_stores id s : stores_ m !! id = Some s → store_ok s;
  co_regions id r : regions_ m !! id = Some r → region_ok r;
}.

(** The catalog does not hold store labels. *)
Definition wire_metadata (m : PdMetadataStore) : PdMetadataStore :=
  mkMeta (next_store_id_ m) (next_region_id_ m) (next_peer_id_ m)
    (wire_store <$> stores_ m) (regions_ m) (regions_by_start_key_ m).

Lemma rebuild_index m :
  meta_ok m → insert_all start_key region_id (ListRegions m) ∅ = regions_by_start_key_ m.
Proof.
  intros Hm. pose proof Hm as [Hr _].
  assert (∀ r, r ∈ ListRegions m ↔ regions_ m !! region_id r = Some r) as Hin.
  { intros r. unfold ListRegions. rewrite list_elem_of_fmap. split.
    - intros ([id x] & -> & Hx%elem_of_kvs). simpl in *. by rewrite (region_key _ _ _ Hm Hx).
    - intros Hx. exists (region_id r, r). split; [done | by apply elem_of_kvs]. }
  apply map_eq. intros k. apply option_eq. intros id.
  rewrite insert_all_lookup, lookup_empty, (ro_index _ Hr).
  - split.
    + intros [(x & Hx%Hin & Hk & <-) | [_ ?]]; [by exists x | done].
    + intros (x & Hx & Hk). left. exists x. pose proof (region_key _ _ _ Hm Hx) as Hid.
      split_and!; [|done|done]. apply Hin. by rewrite Hid.
  - apply NoDup_fmap_2_strong.
    + intros x y Hx%Hin Hy%Hin Heq. pose proof (ro_start _ Hr _ _ Hx) as Hs.
      assert (region_id x = region_id y) as Hid.
      { eapply (ro_disjoint _ Hr); [exact Hx | exact Hy | exact Hs|].
        rewrite Heq. by eapply ro_start. }
      rewrite Hid in Hx. congruence.
    + unfold ListRegions. apply NoDup_fmap_2_strong; [|apply (NoDup_fmap_1 fst), kvs_nodup].
      intros [i x] [j y] Hx%elem_of_kvs Hy%elem_of_kvs Heq. simpl in Heq. subst y.
      by rewrite <-(region_key _ _ _ Hm Hx), <-(region_key _ _ _ Hm Hy).
Qed.

Lemma catalog_u64 m k n :
  str_all (λ c, negb (Ascii.eqb c ".")) k = true →
  (<["region_count" := to_string (N.of_nat (length (ListRegions m)))]>
    (<["store_count" := to_string (N.of_nat (length (ListStores m)))]> (put_all ∅
      [ ("next_store_id", to_string (next_store_id_ m));
        ("next_region_id", to_string (next_region_id_ m));
        ("next_peer_id", to_string (next_peer_id_ m)) ])) : FieldMap) !! k = Some (to_string n) →
  (n < two64)%N → field_u64 (E := Status) (catalog_fields m) k = Ok n.
Proof.
  intros Hk Hn Hlt. unfold field_u64, field. rewrite catalog_plain, Hn by done.
  by apply stoull_to_string.
Qed.

Ltac catalog_number := unfold put_all; cbn [foldl fst snd]; by simplify_map_eq.

Lemma stores_loadable m s :
  meta_ok m → catalog_ok m → s ∈ ListStores m → store_ok s ∧ store_id s ≠ 0%N.
Proof.
  intros Hm Hc ([id x] & -> & Hx%elem_of_kvs)%list_elem_of_fmap. simpl.
  split; [by eapply co_stores|]. destruct (po_store _ (mo_peers _ Hm) _ _ Hx). lia.
Qed.

Lemma regions_loadable m r :
  meta_ok m → catalog_ok m → r ∈ ListRegions m → region_ok r ∧ region_id r ≠ 0%N.
Proof.
  intros Hm Hc ([id x] & -> & Hx%elem_of_kvs)%list_elem_of_fmap. simpl.
  split; [by eapply co_regions | by eapply region_nonzero].
Qed.

Lemma load_catalog_run m m0 :
  meta_ok m → catalog_ok m →
  load_catalog (catalog_fields m) m0 = (Ok tt, wire_metadata m).
Proof.
  intros Hm Hc. pose proof Hc as [[Hns [Hnr Hnp]] [Hss Hsr] Hst Hre]. unfold load_catalog.
  assert (length (ListStores m) = size (stores_ m)) as Hls
    by (unfold ListStores; by rewrite length_fmap, kvs_length).
  assert (length (ListRegions m) = size (regions_ m)) as Hlr
    by (unfold ListRegions; by rewrite length_fmap, kvs_length).
  run_call ltac:(reflexivity).
  rewrite (catalog_u64 m "store_count" (N.of_nat (length (ListStores m))));
    [|done | catalog_number | by rewrite Hls].
  rewrite lift_ok_bind. unfold indices. rewrite Nat2N.id.
  run_call ltac:(apply load_stores_run; [intros j s Hj; by apply catalog_stores|];
    apply list.Forall_forall; intros s Hs; by apply (stores_loadable m)).
  rewrite (catalog_u64 m "region_count" (N.of_nat (length (ListRegions m))));
    [|done | catalog_number | by rewrite Hlr].
  rewrite lift_ok_bind, Nat2N.id.
  run_call ltac:(apply load_regions_run; [intros j r Hj; by apply catalog_regions|];
    apply list.Forall_forall; intros r Hr; by apply (regions_loadable m)).
  rewrite (catalog_u64 m "next_store_id" (next_store_id_ m));
    [|done | catalog_number | done].
  rewrite lift_ok_bind, (catalog_u64 m "next_region_id" (next_region_id_ m));
    [|done | catalog_number | done].
  rewrite lift_ok_bind, (catalog_u64 m "next_peer_id" (next_peer_id_ m));
    [|done | catalog_number | done].
  rewrite lift_ok_bind, foldl_load_region, foldl_load_store. unfold modify, SetNextIds, wire_metadata.
  cbn [stores_ regions_ regions_by_start_key_ new_metadata]. rewrite rebuild_index by done.
  unfold ListStores, ListRegions. rewrite (insert_all_kvs store_id), (insert_all_kvs region_id).
  - by rewrite map_fmap_id.
  - intros id r Hr. by eapply region_key.
  - intros id s Hs. by destruct (po_store _ (mo_peers _ Hm) _ _ Hs).
Qed.

Lemma Open_catalog dir d m :
  disk_ok d → dir ≠ "" → meta_ok m → catalog_ok m →
  files d !! catalog_path dir = Some (EncodeFields (catalog_fields m)) →
  ∀ s, Open dir (d, s) = (Ok tt, (d, mkPd (wire_metadata m) dir)).
Proof.
  intros Hd Hdir Hm Hc Hfile [m0 dir0]. unfold Open. run. cbn [fst snd metadata_ data_dir_].
  run_call ltac:(by apply create_directories_throwing_ok).
  run. cbn [fst snd]. rewrite Hfile. cbn [bool_decide decide_rel]. rewrite bool_decide_false by done.
  unfold Load. run. cbn [fst snd data_dir_]. run_call ltac:(by apply io_or_ok).
  rewrite Hfile, DecodeFields_encode, lift_ok_bind.
  by apply on_meta_run, load_catalog_run.
Qed.

(** C20: Stopping and reopening the placement driver loses nothing: after any
    history, if the catalog is written and a new server opens the directory,
    the open succeeds and the new server has the same id allocators, the same
    regions with their peers, epochs and leaders, the same start-key index, and
    the same stores up to their labels, which the catalog does not hold; so
    every key is routed as before. *)
Theorem pd_restart w dir :
  pd_reachable w → data_dir_ w.2 = dir → dir ≠ "" → disk_ok w.1 → catalog_ok (metadata_ w.2) →
  ∃ d', Persist w = (Ok tt, (d', w.2)) ∧
    Open dir (d', new_pd) = (Ok tt, (d', mkPd (wire_metadata (metadata_ w.2)) dir)) ∧
    ∀ key, GetRegionByKey (wire_metadata (metadata_ w.2)) key =
      GetRegionByKey (metadata_ w.2) key.
Proof.
  intros Hm%reachable_meta_ok Hdir Hne Hd Hc. destruct w as [d [m dir0]]. simpl in *. subst dir0.
  eexists. split; [by apply Persist_ok|]. split; [|done].
  apply Open_catalog; [done.. |]. apply lookup_insert_eq.
Qed.

Lemma catalog_ok_demo : catalog_ok (metadata_ demo_pd.2).
Proof.
  assert (map_Forall (λ _ s, store_ok s) (stores_ (metadata_ demo_pd.2))) as Hs
    by (apply (bool_decide_unpack _); vm_compute; exact I).
  assert (map_Forall (λ _ r, region_ok r) (regions_ (metadata_ demo_pd.2))) as Hr
    by (apply (bool_decide_unpack _); vm_compute; exact I).
  split; [by vm_compute | by vm_compute | exact Hs | exact Hr].
Qed.

Lemma pd_restart_witness :
  GetRegionByKey (metadata_ demo_pd.2) "zebra" ≠ None ∧
  ∃ d', Persist demo_pd = (Ok tt, (d', demo_pd.2)) ∧
    Open "pd" (d', new_pd) = (Ok tt, (d', mkPd (wire_metadata (metadata_ demo_pd.2)) "pd")).
Proof.
  split; [by vm_compute|].
  destruct (pd_restart demo_pd "pd" demo_reachable) as (d' & H1 & H2 & _);
    [by vm_compute | done | by vm_compute | exact catalog_ok_demo|].
  exists d'. split; [exact H1 | exact H2].
Defined.
