(* ===== verification/Multi.v ===== *)
(** Several regions in one process, src/store/multi_region_cluster.cpp: a table
    of regions kept in a catalog file, one replicated cluster per region under
    its own directory, requests routed by key, and the split of a region by
    moving the upper half of its contents to a new cluster. *)

From S2P Require Import Prelude Types Text Codec Engine Raft Cluster.

Record MultiRegionCluster := mkMulti {
  mc_regions : list RegionInfo;
  mc_clusters : gmap N SingleRegionCluster;
  mc_data_dir : string;
  mc_store_count : nat;
}.

Definition new_multi : MultiRegionCluster := mkMulti [] ∅ "" 0.

Abbreviation MultiW := (Disk * MultiRegionCluster)%type.

Definition set_regions (rs : list RegionInfo) (m : MultiRegionCluster) : MultiRegionCluster :=
  mkMulti rs (mc_clusters m) (mc_data_dir m) (mc_store_count m).
Definition set_clusters (cs : gmap N SingleRegionCluster) (m : MultiRegionCluster) :
    MultiRegionCluster :=
  mkMulti (mc_regions m) cs (mc_data_dir m) (mc_store_count m).

Definition the_multi : IO MultiW MultiRegionCluster := gets snd.
Definition update_multi (f : MultiRegionCluster → MultiRegionCluster) : IO MultiW unit :=
  modify (λ w : MultiW, (w.1, f w.2)).

Definition FindRegionCluster (id : N) (m : MultiRegionCluster) : option SingleRegionCluster :=
  mc_clusters m !! id.
Definition FindRegionByKey (key : string) (m : MultiRegionCluster) : option RegionInfo :=
  List.find (λ r, ContainsKey r key) (mc_regions m).

(** A call on [clusters_.at(id)]. *)
Definition on_cluster {A} (id : N) (f : IO ClusterW A) : IO MultiW A := λ '(d, m),
  match mc_clusters m !! id with
  | None => (Fault ExnOutOfRange, (d, m))
  | Some c =>
      let '(r, (d', c')) := f (d, c) in
      (r, (d', set_clusters (<[id := c']> (mc_clusters m)) m))
  end.

(** A call on a cluster object that is not yet in the table. *)
Definition on_new_cluster (c : SingleRegionCluster) (f : IO ClusterW unit) :
    IO MultiW SingleRegionCluster := λ '(d, m),
  let '(r, (d', c')) := f (d, c) in
  (match r with Ok _ => Ok c' | Err st => Err st | Fault x => Fault x end, (d', m)).

(** * The catalog *)

Definition region_catalog_path (dir : string) : string := path_join dir "regions.catalog".

Definition region_catalog_fields (regions : list RegionInfo) : FieldMap :=
  put_indexed PutRegionFields "region" 0 regions
    (<["region_count" := to_string (N.of_nat (length regions))]> (∅ : FieldMap)).

Definition PersistRegionCatalog : IO MultiW unit :=
  m ← the_multi;
  _ ← create_directories_throwing (mc_data_dir m);
  let path := region_catalog_path (mc_data_dir m) in
  _ ← io_or (λ _, IoError "failed to write region catalog");
  _ ← modify_files (overwrite path "");
  write_unchecked (overwrite path) (EncodeFields (region_catalog_fields (mc_regions m))).

(** [LoadRegionCatalog(&regions_)]. *)
Definition LoadRegionCatalog : IO MultiW unit :=
  w ← get;
  _ ← io_or (λ _, IoError "failed to read region catalog");
  match files w.1 !! region_catalog_path (mc_data_dir w.2) with
  | None => fail (IoError "failed to read region catalog")
  | Some encoded =>
      fields ← lift (DecodeFields encoded);
      count ← lift (field_u64 fields "region_count");
      update_multi (set_regions
        ((λ i, GetRegionFields fields (indexed "region" i)) <$> indices count))
  end.

Definition RegionCatalogExists : IO MultiW bool :=
  _ ← io_throwing;
  gets (λ w : MultiW,
    bool_decide (files w.1 !! region_catalog_path (mc_data_dir w.2) ≠ None)).

(** * Operations *)

Definition region_dir (data_dir : string) (id : N) : string :=
  data_dir +:+ "/region-" +:+ to_string id.

Fixpoint bootstrap_regions (store_count : nat) (reset_data : bool) (rs : list RegionInfo) :
    IO MultiW unit :=
  match rs with
  | [] => mret tt
  | r :: rest =>
      m ← the_multi;
      c ← on_new_cluster new_cluster
            (Cluster.Bootstrap (region_dir (mc_data_dir m) (region_id r)) store_count
               (region_id r) reset_data);
      _ ← update_multi (λ m, set_clusters (<[region_id r := c]> (mc_clusters m)) m);
      bootstrap_regions store_count reset_data rest
  end.

Definition Bootstrap (data_dir : string) (store_count : nat) (regions : list RegionInfo)
    (reset_data : bool) : IO MultiW unit :=
  if decide (regions = []) then fail (InvalidArgument "regions must not be empty")
  else
    _ ← update_multi (λ m, mkMulti (mc_regions m) (mc_clusters m) data_dir store_count);
    _ ← (if reset_data then remove_all data_dir else mret tt);
    _ ← create_directories_throwing data_dir;
    exists_ ← (if reset_data then mret false else RegionCatalogExists);
    _ ← (if (exists_ : bool) then LoadRegionCatalog else update_multi (set_regions regions));
    _ ← update_multi (set_clusters ∅);
    m ← the_multi;
    _ ← bootstrap_regions store_count reset_data (mc_regions m);
    PersistRegionCatalog.

Definition route (key : string) : IO MultiW N :=
  m ← the_multi;
  match FindRegionByKey key m with
  | None => fail (mkStatus kRegionNotFound "region not found for key")
  | Some r => mret (region_id r)
  end.

Definition Put (key value : string) : IO MultiW unit :=
  id ← route key; on_cluster id (Cluster.Put key value).

Definition Delete (key : string) : IO MultiW unit :=
  id ← route key; on_cluster id (Cluster.Delete key).

(** Some mutation of the batch belongs to another region than [id]. *)
Definition crosses_regions (m : MultiRegionCluster) (id : N) (ms : list KvMutation) : bool :=
  existsb (λ x, match FindRegionByKey (mut_key x) m with
                | None => true
                | Some r => negb (region_id r =? id)%N
                end) ms.

Definition Batch (mutations : list KvMutation) : IO MultiW unit :=
  match mutations with
  | [] => mret tt
  | first :: _ =>
      id ← route (mut_key first);
      m ← the_multi;
      if crosses_regions m id mutations then
        fail (InvalidArgument "batch must target a single region")
      else on_cluster id (Cluster.Batch mutations)
  end.

Definition Get (key : string) (consistency : Consistency) : IO MultiW string :=
  id ← route key;
  m ← the_multi;
  match FindRegionCluster id m with
  | None => fail (mkStatus kRegionNotFound "region cluster not found")
  | Some c =>
      if decide (consistency = kLinearizable) then
        match Leader c with
        | None => fail (mkStatus kNotLeader "no leader")
        | Some leader => on_cluster id (at_store leader (Store_Get key))
        end
      else if decide (sc_stores c = []) then fail (Internal "no stores")
      else on_cluster id (at_store 0 (Store_Get key))
  end.

(** [std::find_if] by region id, as an index. *)
Definition find_region (id : N) (rs : list RegionInfo) : option (nat * RegionInfo) :=
  list_find (λ r, region_id r = id) rs.

Definition next_free_region_id (rs : list RegionInfo) : N :=
  foldl (λ next r, N.max next (u64 (region_id r + 1))) 1%N rs.

Definition left_half (r : RegionInfo) (split_key : string) : RegionInfo :=
  mkRegion (region_id r) (start_key r) split_key
    (mkEpoch (conf_ver (epoch r)) (u64 (version (epoch r) + 1))) (peers r) (leader_peer_id r).

Definition right_half (r : RegionInfo) (split_key : string) (id : N) : RegionInfo :=
  let ps := (λ p, mkPeer (u64 (peer_id p + id * 1000)) (peer_store_id p) (peer_role p))
              <$> peers r in
  mkRegion id split_key (end_key r)
    (mkEpoch (conf_ver (epoch r)) (u64 (version (epoch r) + 1))) ps
    (match ps with [] => leader_peer_id r | p :: _ => peer_id p end).

Definition migrated_deletes (records : list (string * string)) : list KvMutation :=
  (λ kv : string * string, mkMutation kDelete kv.1 "") <$>
    filter (λ kv, reserved_key kv.1 = false) records.

Definition SplitRegion (id : N) (split_key : string) : IO MultiW (RegionInfo * RegionInfo) :=
  m ← the_multi;
  match find_region id (mc_regions m) with
  | None => fail (mkStatus kRegionNotFound "region not found")
  | Some (i, r) =>
      if negb (split_key_ok r split_key) then
        fail (InvalidArgument "split key is outside region boundary")
      else if decide (FindRegionCluster id m = None) then
        fail (mkStatus kRegionNotFound "source region cluster not found")
      else
        let right_id := next_free_region_id (mc_regions m) in
        let left_region := left_half r split_key in
        let right_region := right_half r split_key right_id in
        right_cluster ← on_new_cluster new_cluster
          (Cluster.Bootstrap (region_dir (mc_data_dir m) right_id) (mc_store_count m)
             right_id true);
        migrated ← on_cluster id (ExportRangeFromLeader split_key (end_key r));
        right_cluster ← on_new_cluster right_cluster
          (Cluster.Batch (bootstrap_mutations migrated));
        _ ← on_cluster id (Cluster.Batch (migrated_deletes migrated));
        _ ← update_multi (λ m, set_regions (<[i := left_region]> (mc_regions m)
                                  ++ [right_region])
                                (set_clusters (<[right_id := right_cluster]>
                                  (mc_clusters m)) m));
        _ ← PersistRegionCatalog;
        mret (left_region, right_region)
  end.

(** The first region with the id is changed in place. *)
Fixpoint change_region (id : N) (f : RegionInfo → RegionInfo) (rs : list RegionInfo) :
    list RegionInfo :=
  match rs with
  | [] => []
  | r :: rest => if decide (region_id r = id) then f r :: rest else r :: change_region id f rest
  end.

(** The cluster's change, then the same in the region table. *)
Definition change_member (id : N) (call : IO ClusterW unit) (f : RegionInfo → RegionInfo) :
    IO MultiW unit :=
  m ← the_multi;
  if decide (FindRegionCluster id m = None) then
    fail (mkStatus kRegionNotFound "region cluster not found")
  else
    _ ← on_cluster id call;
    _ ← update_multi (λ m, set_regions (change_region id f (mc_regions m)) m);
    PersistRegionCatalog.

Definition led_by (p : N) (r : RegionInfo) : RegionInfo :=
  mkRegion (region_id r) (start_key r) (end_key r) (epoch r) (peers r) p.

Definition next_conf (ps : list Peer) (leader : N) (r : RegionInfo) : RegionInfo :=
  mkRegion (region_id r) (start_key r) (end_key r)
    (mkEpoch (u64 (conf_ver (epoch r) + 1)) (version (epoch r))) ps leader.

Definition with_peer (sid pid : N) (r : RegionInfo) : RegionInfo :=
  next_conf (peers r ++ [mkPeer pid sid kVoter]) (leader_peer_id r) r.

Definition without_peer (pid : N) (r : RegionInfo) : RegionInfo :=
  let ps := filter (λ p, peer_id p ≠ pid) (peers r) in
  next_conf ps (match ps with
                | [] => leader_peer_id r
                | p :: _ => if decide (leader_peer_id r = pid) then peer_id p
                            else leader_peer_id r
                end) r.

Definition TransferLeader (id pid : N) : IO MultiW unit :=
  change_member id (Cluster.TransferLeader pid) (led_by pid).

Definition AddPeer (id sid pid : N) : IO MultiW unit :=
  change_member id (Cluster.AddPeer sid pid) (with_peer sid pid).

Definition RemovePeer (id pid : N) : IO MultiW unit :=
  change_member id (Cluster.RemovePeer pid) (without_peer pid).
