(* ===== verification/MultiSpec.v ===== *)
(** The contract of several regions in one process: the regions partition the
    key space and together serve one map, each its own shard, through writes,
    leader transfers, removals of peers and splits.  The writes of a region are used
    through the contract of a replicated region only. *)

From S2P Require Import Prelude Types Text Codec Engine Raft RaftStorage Keyspace Cluster ClusterSpec Region Multi.

(** * Shards *)

Definition shard (r : RegionInfo) (g : DataMap) : DataMap :=
  filter (λ kv, ContainsKey r kv.1 = true) g.

Lemma shard_lookup r g k :
  shard r g !! k = if ContainsKey r k then g !! k else None.
Proof.
  unfold shard. apply option_eq. intros v. rewrite map_lookup_filter_Some. cbn [fst].
  destruct (ContainsKey r k); split; try tauto; try done. by intros [??].
Qed.

Definition batch_in (r : RegionInfo) (ms : list KvMutation) : Prop :=
  Forall (λ x, ContainsKey r (mut_key x) = true) ms.

Lemma apply_batch_cons g x ms : apply_batch g (x :: ms) = apply_batch (apply_mutation g x) ms.
Proof. done. Qed.

Lemma shard_batch r g ms :
  batch_in r ms → shard r (apply_batch g ms) = apply_batch (shard r g) ms.
Proof.
  intros Hms. revert g. induction Hms as [|x ms Hx Hms IH]; intros g; [done|].
  rewrite !apply_batch_cons, IH. f_equal. unfold shard, apply_mutation. destruct (mut_type x).
  - by apply map_filter_insert_True.
  - apply map_filter_delete.
Qed.

Lemma shard_batch_other r g ms :
  Forall (λ x, ContainsKey r (mut_key x) = false) ms → shard r (apply_batch g ms) = shard r g.
Proof.
  intros Hms. revert g. induction Hms as [|x ms Hx Hms IH]; intros g; [done|].
  rewrite apply_batch_cons, IH. apply map_eq. intros k. rewrite !shard_lookup.
  destruct (ContainsKey r k) eqn:Hk; [|done].
  assert (mut_key x ≠ k) by congruence. unfold apply_mutation.
  destruct (mut_type x); [by rewrite lookup_insert_ne | by rewrite lookup_delete_ne].
Qed.

(** * The relation, good for [k] more operations *)

Definition region_serves (k : nat) (m : MultiRegionCluster) (g : DataMap) (r : RegionInfo) :
    Prop :=
  ∃ c X, mc_clusters m !! region_id r = Some c ∧ implements k c (mkRegionSpec (shard r g) X).

Record partition (rs : list RegionInfo) : Prop := {
  pa_cover key : ∃ r, r ∈ rs ∧ ContainsKey r key = true;
  pa_disjoint r1 r2 key : r1 ∈ rs → r2 ∈ rs →
    ContainsKey r1 key = true → ContainsKey r2 key = true → r1 = r2;
  pa_ids : NoDup (region_id <$> rs);
}.

Record serves (k : nat) (m : MultiRegionCluster) (g : DataMap) : Prop := {
  sv_partition : partition (mc_regions m);
  sv_regions r : r ∈ mc_regions m → region_serves k m g r;
  sv_contents : unreserved g;
  sv_count : mc_store_count m ≠ 0;
  sv_dir : mc_data_dir m ≠ "";
}.

Lemma implements_less k c sp : implements (S k) c sp → implements k c sp.
Proof. intros (t & log & ?&?&?&?). exists t, log. split_and!; [done|done|lia|lia]. Qed.

Lemma serves_less k m g : serves (S k) m g → serves k m g.
Proof.
  intros [Hp Hr Hg Hc Hd]. split; [done| |done..]. intros r Hin.
  destruct (Hr r Hin) as (c & X & Hl & Hi). exists c, X. split; [done | by apply implements_less].
Qed.

Lemma same_id rs r1 r2 :
  partition rs → r1 ∈ rs → r2 ∈ rs → region_id r1 = region_id r2 → r1 = r2.
Proof.
  intros [_ _ Hnd] H1 H2 Heq. apply list_elem_of_lookup in H1 as [i Hi], H2 as [j Hj].
  assert (i = j) as ->; [|congruence].
  eapply (NoDup_lookup (region_id <$> rs)); [done|..]; rewrite list_lookup_fmap;
    [by rewrite Hi | by rewrite Hj, Heq].
Qed.

(** ** Routing *)

Lemma FindRegionByKey_ok m key r :
  partition (mc_regions m) → r ∈ mc_regions m → ContainsKey r key = true →
  FindRegionByKey key m = Some r.
Proof.
  intros Hp Hr Hc. unfold FindRegionByKey. destruct (List.find _ _) as [r'|] eqn:Hf.
  - apply find_Some_spec in Hf as [Hr' Hc']. f_equal. by eapply pa_disjoint.
  - eapply List.find_none in Hf; [|by apply list_elem_of_In]. congruence.
Qed.

Lemma route_ok m key r d :
  partition (mc_regions m) → r ∈ mc_regions m → ContainsKey r key = true →
  route key (d, m) = (Ok (region_id r), (d, m)).
Proof.
  intros Hp Hr Hc. unfold route, the_multi. run. cbn [snd].
  by rewrite (FindRegionByKey_ok m key r).
Qed.

(** ** Calls on one region *)

Lemma on_cluster_run {A} id (f : IO ClusterW A) d m c r d' c' :
  mc_clusters m !! id = Some c → f (d, c) = (r, (d', c')) →
  on_cluster id f (d, m) = (r, (d', set_clusters (<[id := c']> (mc_clusters m)) m)).
Proof. intros Hc Hf. unfold on_cluster. by rewrite Hc, Hf. Qed.

(** One region takes a step that changes no other shard. *)
Lemma serves_update k m g g' r c' X :
  serves (S k) m g → r ∈ mc_regions m → unreserved g' →
  implements k c' (mkRegionSpec (shard r g') X) →
  (∀ r', r' ∈ mc_regions m → r' ≠ r → shard r' g' = shard r' g) →
  serves k (set_clusters (<[region_id r := c']> (mc_clusters m)) m) g'.
Proof.
  intros Hs Hr Hg' Hc' Hother. pose proof (sv_partition _ _ _ Hs) as Hp.
  apply serves_less in Hs. destruct Hs as [_ Hregs _ Hcount Hdir]. split; [done| |done..].
  intros r' Hr'. unfold region_serves. cbn [mc_clusters set_clusters].
  destruct (decide (r' = r)) as [-> | Hne].
  - exists c', X. by rewrite lookup_insert_eq.
  - destruct (Hregs r' Hr') as (c & Y & Hc & Hi). exists c, Y.
    rewrite lookup_insert_ne by (intros Heq; apply Hne; by eapply same_id).
    by rewrite Hother.
Qed.

Lemma region_step k m g r op sp' d :
  serves (S k) m g → r ∈ mc_regions m → disk_ok d →
  (∀ c X, mc_clusters m !! region_id r = Some c →
    implements (S k) c (mkRegionSpec (shard r g) X) → op_ok op (mkRegionSpec (shard r g) X)) →
  (∀ X, contents (spec_step op (mkRegionSpec (shard r g) X)) = shard r sp') →
  unreserved sp' →
  (∀ r', r' ∈ mc_regions m → r' ≠ r → shard r' sp' = shard r' g) →
  ∃ d' m', on_cluster (region_id r) (do_op op) (d, m) = (Ok tt, (d', m')) ∧ disk_ok d' ∧
    mc_regions m' = mc_regions m ∧ mc_data_dir m' = mc_data_dir m ∧ serves k m' sp'.
Proof.
  intros Hs Hr Hd Hok Hsp Hun Hother. destruct (sv_regions _ _ _ Hs r Hr) as (c & X & Hc & Hi).
  destruct (step_implements _ _ _ _ d (Hok _ _ Hc Hi) Hi Hd) as (d' & c' & Hrun & Hd' & Hi').
  pose proof (Hsp X) as Hdata. destruct (spec_step op _) as [data Y].
  cbn in Hdata. subst data. eexists d', _. split; [by eapply on_cluster_run|].
  split_and!; [done..|]. by eapply serves_update.
Qed.

(** ** Writes *)

Lemma unreserved_batch g ms :
  unreserved g → Forall (λ x, reserved_key (mut_key x) = false) ms → unreserved (apply_batch g ms).
Proof.
  intros Hg Hms. revert g Hg. induction Hms as [|x ms Hx Hms IH]; intros g Hg; [done|].
  rewrite apply_batch_cons. apply IH. intros k v. unfold apply_mutation.
  destruct (mut_type x).
  - intros [[<- _] | [_ Hk]]%lookup_insert_Some; [done | by eapply Hg].
  - intros [_ Hk]%lookup_delete_Some. by eapply Hg.
Qed.

Lemma other_region_keys m r r' ms :
  partition (mc_regions m) → r ∈ mc_regions m → r' ∈ mc_regions m → r' ≠ r → batch_in r ms →
  Forall (λ x, ContainsKey r' (mut_key x) = false) ms.
Proof.
  intros Hp Hr Hr' Hne Hms. eapply list.Forall_impl; [exact Hms|]. intros x Hx.
  destruct (ContainsKey r' (mut_key x)) eqn:E; [|done]. destruct Hne. by eapply pa_disjoint.
Qed.

(** A region operation that is the batch [ms] on its contents. *)
Lemma write_step k m g r op ms d :
  serves (S k) m g → r ∈ mc_regions m → disk_ok d → batch_in r ms →
  Forall (λ x, reserved_key (mut_key x) = false) ms →
  (∀ sp, op_ok op sp) → (∀ sp, contents (spec_step op sp) = apply_batch (contents sp) ms) →
  ∃ d' m', on_cluster (region_id r) (do_op op) (d, m) = (Ok tt, (d', m')) ∧ disk_ok d' ∧
    mc_regions m' = mc_regions m ∧ mc_data_dir m' = mc_data_dir m ∧ serves k m' (apply_batch g ms).
Proof.
  intros Hs Hr Hd Hin Hms Hok Hsp. pose proof Hs as [Hp _ Hun _].
  eapply region_step; [exact Hs | done | done | by intros | | |].
  - intros X. by rewrite Hsp, shard_batch.
  - by apply unreserved_batch.
  - intros r' Hr' Hne. apply shard_batch_other. by apply (other_region_keys m r r' ms).
Qed.

Lemma region_of_key m key : partition (mc_regions m) →
  ∃ r, r ∈ mc_regions m ∧ ContainsKey r key = true.
Proof. intros [Hc _ _]. apply Hc. Qed.

Lemma Put_serves k m g key v d :
  serves (S k) m g → disk_ok d → key ≠ "" → reserved_key key = false →
  ∃ d' m', Put key v (d, m) = (Ok tt, (d', m')) ∧ disk_ok d' ∧ serves k m' (<[key := v]> g).
Proof.
  intros Hs Hd Hne Hk. destruct (region_of_key m key) as (r & Hr & Hc); [apply Hs|].
  destruct (write_step k m g r (DoPut key v) [mkMutation kPut key v] d)
    as (d' & m' & Hrun & Hd' & _ & _ & Hs'); try done; try by repeat constructor.
  { intros sp. split; [done | by apply unreserved_user]. }
  exists d', m'. split_and!; [|done|done]. unfold Put.
  by run_call ltac:(apply (route_ok m key r d); [apply Hs | done | done]).
Qed.

Lemma Delete_serves k m g key d :
  serves (S k) m g → disk_ok d → reserved_key key = false →
  ∃ d' m', Delete key (d, m) = (Ok tt, (d', m')) ∧ disk_ok d' ∧ serves k m' (delete key g).
Proof.
  intros Hs Hd Hk. destruct (region_of_key m key) as (r & Hr & Hc); [apply Hs|].
  destruct (write_step k m g r (DoDelete key) [mkMutation kDelete key ""] d)
    as (d' & m' & Hrun & Hd' & _ & _ & Hs'); try done; try by repeat constructor.
  { intros sp. by apply unreserved_user. }
  exists d', m'. split_and!; [|done|done]. unfold Delete.
  by run_call ltac:(apply (route_ok m key r d); [apply Hs | done | done]).
Qed.

Lemma crosses_regions_false m r ms :
  partition (mc_regions m) → r ∈ mc_regions m → batch_in r ms →
  crosses_regions m (region_id r) ms = false.
Proof.
  intros Hp Hr Hms. unfold crosses_regions. apply not_true_iff_false.
  intros (x & Hx & Hc)%existsb_exists. apply list_elem_of_In in Hx.
  pose proof (proj1 (list.Forall_forall _ _) Hms x Hx) as Hin. cbn in Hin.
  rewrite (FindRegionByKey_ok m (mut_key x) r) in Hc by done.
  by rewrite N.eqb_refl in Hc.
Qed.

Definition batch_allowed (ms : list KvMutation) : Prop :=
  keys_ok ms ∧ Forall (λ x, reserved_key (mut_key x) = false) ms ∧
  (N.of_nat (length ms) <= max_mutations)%N.

Lemma batch_op_ok ms sp : batch_allowed ms → op_ok (DoBatch ms) sp.
Proof.
  intros (Hk & Hr & Hl). split_and!; [done| |done].
  eapply list.Forall_impl; [exact Hr|]. intros x. apply unreserved_user.
Qed.

Lemma Batch_serves k m g ms r d :
  serves (S k) m g → disk_ok d → batch_allowed ms → r ∈ mc_regions m → batch_in r ms →
  ∃ d' m', Batch ms (d, m) = (Ok tt, (d', m')) ∧ disk_ok d' ∧ serves k m' (apply_batch g ms).
Proof.
  intros Hs Hd Hok Hr Hin. destruct ms as [|x ms].
  { exists d, m. split_and!; [done|done|]. by apply serves_less. }
  destruct (write_step k m g r (DoBatch (x :: ms)) (x :: ms) d)
    as (d' & m' & Hrun & Hd' & _ & _ & Hs'); try done.
  { apply Hok. }
  { intros sp. by apply batch_op_ok. }
  exists d', m'. split_and!; [|done|done]. unfold Batch, the_multi.
  pose proof Hin as [Hx _]%list.Forall_cons.
  run_call ltac:(apply (route_ok m (mut_key x) r d); [apply Hs | done | done]).
  run. cbn [snd]. by rewrite crosses_regions_false by (done || apply Hs).
Qed.

(** ** Reads *)

Lemma in_sync_data c t log data i s :
  in_sync c t log data → sc_stores c !! i = Some s → user_part (data_ (engine_ s)) = data.
Proof.
  intros Hsync Hs.
  pose proof (list.Forall_lookup_1 _ _ _ _ (sync_stores _ _ _ _ Hsync) Hs) as Hall.
  unfold phase in Hall. case_decide; apply Hall.
Qed.

Lemma user_part_lookup data k : user_key k → user_part data !! k = data !! k.
Proof.
  intros Hk. unfold user_part. destruct (data !! k) as [v|] eqn:Hv.
  - by rewrite (map_lookup_filter_Some_2 _ _ _ _ Hv).
  - by rewrite map_lookup_filter_None_2 by by left.
Qed.

Lemma read_store c t log data i s key d :
  in_sync c t log data → sc_stores c !! i = Some s → user_key key →
  at_store i (Store_Get key) (d, c) =
  (match data !! key with Some v => Ok v | None => Err (key_not_found key) end, (d, c)).
Proof.
  intros Hsync Hs Hk.
  replace c with (set_stores (<[i := s]> (sc_stores c)) c) at 2
    by (rewrite list_insert_id by done; by destruct c).
  apply (at_store_run i _ d c s); [done|].
  unfold Store_Get, on_engine, zoom. rewrite Get_spec. cbn [fst snd].
  rewrite <-(in_sync_data _ _ _ _ _ _ Hsync Hs), user_part_lookup by done. by destruct s.
Qed.

Lemma leader_index c t log data :
  in_sync c t log data → ∃ i s, Leader c = Some i ∧ sc_stores c !! i = Some s.
Proof.
  intros [_ _ Hl _]. destruct (find_peer_member _ _ Hl) as [i Hi].
  pose proof Hi as (s & Hs & _)%find_peer_Some. by exists i, s.
Qed.

Lemma Get_serves k m g key consistency d :
  serves k m g → reserved_key key = false →
  Get key consistency (d, m) =
  (match g !! key with Some v => Ok v | None => Err (key_not_found key) end, (d, m)).
Proof.
  intros Hs Hk%unreserved_user. destruct (region_of_key m key) as (r & Hr & Hc); [apply Hs|].
  destruct (sv_regions _ _ _ Hs r Hr) as (c & X & Hcl & t & log & Hsync & _).
  unfold Get, FindRegionCluster, the_multi.
  run_call ltac:(apply (route_ok m key r d); [apply Hs | done | done]).
  run. cbn [snd]. rewrite Hcl. cbn [contents] in Hsync.
  destruct (leader_index _ _ _ _ Hsync) as (i & s & Hi & Hst).
  assert (shard r g !! key = g !! key) as <- by (by rewrite shard_lookup, Hc).
  assert (set_clusters (<[region_id r := c]> (mc_clusters m)) m = m) as Hsame
    by (rewrite insert_id by done; by destruct m).
  destruct (decide (consistency = kLinearizable)).
  - rewrite Hi. erewrite on_cluster_run; [by rewrite Hsame | done | by eapply read_store].
  - destruct (sc_stores c) as [|s0 rest] eqn:Hss; [done|].
    rewrite decide_False by done. erewrite on_cluster_run; [by rewrite Hsame | done |].
    eapply read_store; [done | by rewrite Hss | done].
Qed.

(** ** Membership *)

Lemma PersistRegionCatalog_run d m :
  mc_data_dir m ≠ "" → disk_ok d →
  PersistRegionCatalog (d, m) =
  (Ok tt, (set_files (overwrite (region_catalog_path (mc_data_dir m))
             (EncodeFields (region_catalog_fields (mc_regions m)))) d, m)).
Proof.
  intros Hne Hd. unfold PersistRegionCatalog, the_multi, modify_files. run. cbn [snd].
  run_call ltac:(by apply create_directories_throwing_ok).
  run_call ltac:(by apply io_or_ok). run. rewrite write_unchecked_ok by done. by rewrite overwrite_twice.
Qed.

Lemma change_region_in id f rs r' :
  (∀ r, region_id (f r) = region_id r) → NoDup (region_id <$> rs) →
  r' ∈ change_region id f rs ↔
  (r' ∈ rs ∧ region_id r' ≠ id) ∨ ∃ r, r ∈ rs ∧ region_id r = id ∧ r' = f r.
Proof.
  intros Hf. induction rs as [|r rs IH]; intros Hnd.
  { cbn. split; [by intros ?%elem_of_nil|]. by intros [[?%elem_of_nil _] | (r & ?%elem_of_nil & _)]. }
  csimpl in Hnd. apply list.NoDup_cons in Hnd as [Hr Hnd]. specialize (IH Hnd). cbn [change_region].
  assert (region_id r = id → ∀ x, x ∈ rs → region_id x ≠ id) as Hother.
  { intros <- x Hx Heq. apply Hr. rewrite <-Heq. by apply list_elem_of_fmap_2. }
  destruct (decide (region_id r = id)) as [Hid | Hid]; rewrite elem_of_cons.
  - split.
    + intros [-> | Hx]; [right; exists r; split; [apply list_elem_of_here | done]|].
      left. split; [by apply list_elem_of_further | by apply Hother].
    + intros [[[-> | Hx]%elem_of_cons Hne] | (x & [-> | Hx]%elem_of_cons & Hxid & ->)];
        [done | by right | by left | by destruct (Hother Hid _ Hx)].
  - rewrite IH. split.
    + intros [-> | [[Hx Hne] | (x & Hx & Hxid & ->)]].
      * left. split; [apply list_elem_of_here | done].
      * left. split; [by apply list_elem_of_further | done].
      * right. exists x. split; [by apply list_elem_of_further | done].
    + intros [[[-> | Hx]%elem_of_cons Hne] | (x & [-> | Hx]%elem_of_cons & Hxid & ->)];
        [by left | right; by left | done | right; right; by exists x].
Qed.

(** The region table may change in peers, epochs and leaders. *)
Definition same_range (r r' : RegionInfo) : Prop :=
  region_id r' = region_id r ∧ start_key r' = start_key r ∧ end_key r' = end_key r.

Lemma same_range_contains r r' key : same_range r r' → ContainsKey r' key = ContainsKey r key.
Proof. intros (_ & Hs & He). unfold ContainsKey. by rewrite Hs, He. Qed.

Lemma same_range_shard r r' g : same_range r r' → shard r' g = shard r g.
Proof.
  intros Hr. apply map_eq. intros k. by rewrite !shard_lookup, (same_range_contains r r').
Qed.

Lemma change_region_ids id f rs :
  (∀ r, region_id (f r) = region_id r) → region_id <$> change_region id f rs = region_id <$> rs.
Proof.
  intros Hf. induction rs as [|r rs IH]; [done|]. cbn [change_region].
  destruct (decide _); csimpl; [by rewrite Hf | by rewrite IH].
Qed.

Lemma serves_relabel k m g id f :
  (∀ r, same_range r (f r)) → serves k m g →
  serves k (set_regions (change_region id f (mc_regions m)) m) g.
Proof.
  intros Hf [[Hcov Hdisj Hnd] Hregs Hg Hcount Hdir].
  assert (∀ r, region_id (f r) = region_id r) as Hid by (intros r; apply Hf).
  assert (∀ r', r' ∈ change_region id f (mc_regions m) →
    ∃ r, r ∈ mc_regions m ∧ same_range r r' ∧ (r' = r ∧ region_id r ≠ id ∨ r' = f r ∧ region_id r = id))
    as Hfrom.
  { intros r' [[Hr Hne] | (r & Hr & Hrid & ->)]%change_region_in; [| |done|done].
    - exists r'. split_and!; [done | done | by left].
    - exists r. split_and!; [done | apply Hf | by right]. }
  split; [split| |done..]; cbn [mc_regions set_regions].
  - intros key. destruct (Hcov key) as (r & Hr & Hc). destruct (decide (region_id r = id)).
    + exists (f r). rewrite (same_range_contains r) by apply Hf. split; [|done].
      apply change_region_in; [done..|]. right. by exists r.
    + exists r. split; [|done]. apply change_region_in; [done..|]. by left.
  - intros r1 r2 key (s1 & Hs1 & Hr1 & H1)%Hfrom (s2 & Hs2 & Hr2 & H2)%Hfrom.
    rewrite (same_range_contains _ _ _ Hr1), (same_range_contains _ _ _ Hr2). intros Hc1 Hc2.
    pose proof (Hdisj _ _ _ Hs1 Hs2 Hc1 Hc2) as ->. destruct H1 as [[??]|[??]], H2 as [[??]|[??]];
      congruence.
  - by rewrite change_region_ids.
  - intros r' (r & Hr & Hsame & _)%Hfrom. destruct (Hregs r Hr) as (c & X & Hc & Hi).
    exists c, X. cbn [mc_clusters set_regions]. rewrite (same_range_shard r) by done.
    by destruct Hsame as [-> _].
Qed.

Definition member (m : MultiRegionCluster) (id p : N) : Prop :=
  ∃ c, mc_clusters m !! id = Some c ∧ p ∈ peer_id_ <$> sc_stores c.
Definition removable (m : MultiRegionCluster) (id p : N) : Prop :=
  ∃ c, mc_clusters m !! id = Some c ∧ p ∈ peer_id_ <$> sc_stores c ∧ 1 < length (sc_stores c).

(** A change of members or leader of one region. *)
Lemma change_member_serves k m g r op f d :
  serves (S k) m g → disk_ok d → r ∈ mc_regions m → (∀ r, same_range r (f r)) →
  (∀ c X, mc_clusters m !! region_id r = Some c →
    implements (S k) c (mkRegionSpec (shard r g) X) → op_ok op (mkRegionSpec (shard r g) X)) →
  (∀ sp, contents (spec_step op sp) = contents sp) →
  ∃ d' m', change_member (region_id r) (do_op op) f (d, m) = (Ok tt, (d', m')) ∧ disk_ok d' ∧
    serves k m' g.
Proof.
  intros Hs Hd Hr Hf Hok Hsp. destruct (region_step k m g r op g d)
    as (d1 & m1 & Hrun & Hd1 & Hregs & Hdir & Hs1); try done.
  { apply Hs. }
  pose proof (PersistRegionCatalog_run d1
    (set_regions (change_region (region_id r) f (mc_regions m1)) m1) (sv_dir _ _ _ Hs1) Hd1) as Hrun2.
  do 2 eexists. split_and!; [| |by apply serves_relabel]; [|by apply disk_ok_set_files].
  unfold change_member, the_multi, FindRegionCluster. run. cbn [snd].
  destruct (sv_regions _ _ _ Hs r Hr) as (c & X & -> & _). rewrite decide_False by done.
  run_call ltac:(exact Hrun). unfold update_multi. run. cbn [fst snd]. exact Hrun2.
Qed.

Lemma TransferLeader_serves k m g r p d :
  serves (S k) m g → disk_ok d → r ∈ mc_regions m → member m (region_id r) p →
  ∃ d' m', TransferLeader (region_id r) p (d, m) = (Ok tt, (d', m')) ∧ disk_ok d' ∧ serves k m' g.
Proof.
  intros Hs Hd Hr (c & Hc & Hp). apply (change_member_serves k m g r (DoTransfer p)); try done.
  intros c' X Hc' (t & log & _ & Hm & _). rewrite Hc in Hc'. injection Hc' as <-. by apply Hm.
Qed.

Lemma RemovePeer_serves k m g r p d :
  serves (S k) m g → disk_ok d → r ∈ mc_regions m → removable m (region_id r) p →
  ∃ d' m', RemovePeer (region_id r) p (d, m) = (Ok tt, (d', m')) ∧ disk_ok d' ∧ serves k m' g.
Proof.
  intros Hs Hd Hr (c & Hc & Hp & Hlen).
  apply (change_member_serves k m g r (DoRemove p)); try done.
  intros c' X Hc' (t & log & Hsync & Hm & _). rewrite Hc in Hc'. injection Hc' as <-.
  split; [by apply Hm|]. cbn [members] in *. by rewrite (members_length c) by (done || apply Hsync).
Qed.

(** ** Splits *)

(** The records of the upper half, as exported from the leader's engine. *)
Lemma export_records all data a b :
  user_part all = data → unreserved data →
  let l := filter (λ kv, reserved_key kv.1 = false) (entries (in_rangeb a b) all) in
  NoDup l.*1 ∧ ∀ k v, (k, v) ∈ l ↔ data !! k = Some v ∧ in_rangeb a b k = true.
Proof.
  intros Hd Hun l. assert (∀ k v, (k, v) ∈ l ↔ data !! k = Some v ∧ in_rangeb a b k = true) as Hl.
  { intros k v. unfold l. rewrite list_elem_of_filter, elem_of_entries. cbn [fst]. rewrite <-Hd.
    split.
    - intros (Hk & Hin & Hv). split; [|done]. apply map_lookup_filter_Some. split; [done|].
      by apply unreserved_user.
    - intros [Hv Hin]. rewrite <-Hd in Hun. split; [by eapply Hun|]. split; [done|].
      by apply map_lookup_filter_Some in Hv as [? _]. }
  split; [|done]. apply NoDup_fmap_2_strong;
    [|apply list.NoDup_filter, (NoDup_fmap_1 fst), entries_nodup].
  intros [k1 v1] [k2 v2] H1 H2 Hk. cbn in Hk. subst k2. apply Hl in H1, H2.
  destruct H1, H2. congruence.
Qed.

Lemma in_rangeb_spec a b k : in_rangeb a b k = true ↔ in_range a b k.
Proof.
  unfold in_rangeb, in_range.
  by rewrite ltb_leb, andb_true_iff, orb_true_iff, bool_decide_eq_true, negb_true_iff.
Qed.

Lemma next_free_above rs r :
  (∀ x, x ∈ rs → (region_id x + 1 < two64)%N) → r ∈ rs →
  (region_id r < next_free_region_id rs)%N.
Proof.
  intros Hb Hr. unfold next_free_region_id.
  assert (∀ l next, (∀ x, x ∈ l → (region_id x + 1 < two64)%N) →
    (next <= foldl (λ next r, N.max next (u64 (region_id r + 1))) next l)%N ∧
    ∀ x, x ∈ l → (region_id x < foldl (λ next r, N.max next (u64 (region_id r + 1))) next l)%N)
    as Hfold.
  { induction l as [|x l IH]; intros next Hl; cbn [foldl].
    { split; [done|]. by intros x ?%elem_of_nil. }
    pose proof (Hl x (list_elem_of_here _ _)) as Hx.
    destruct (IH (N.max next (u64 (region_id x + 1)))) as [Hle Hall].
    { intros y Hy. by apply Hl, list_elem_of_further. }
    rewrite u64_small in * by done. split; [lia|].
    intros y [-> | Hy]%elem_of_cons; [lia | by apply Hall]. }
  by apply Hfold.
Qed.

Lemma export_run k m g r c X a b d :
  serves k m g → r ∈ mc_regions m → mc_clusters m !! region_id r = Some c →
  implements k c (mkRegionSpec (shard r g) X) →
  ∃ l, on_cluster (region_id r) (ExportRangeFromLeader a b) (d, m) = (Ok l, (d, m)) ∧
    let l' := filter (λ kv, reserved_key kv.1 = false) l in
    NoDup l'.*1 ∧ ∀ key v, (key, v) ∈ l' ↔ shard r g !! key = Some v ∧ in_range a b key.
Proof.
  intros Hs Hr Hc (t & log & Hsync & _). cbn [contents] in Hsync.
  destruct (leader_index _ _ _ _ Hsync) as (i & s & Hi & Hst).
  exists (entries (in_rangeb a b) (data_ (engine_ s))). split.
  - assert (set_clusters (<[region_id r := c]> (mc_clusters m)) m = m) as Hm
      by (rewrite insert_id by done; by destruct m).
    rewrite <-Hm at 2. eapply on_cluster_run; [exact Hc|].
    unfold ExportRangeFromLeader, the_cluster. run. cbn [snd]. rewrite Hi.
    rewrite (at_store_run i _ d c s _ d s Hst (ScanRange_run a b d s)).
    rewrite list_insert_id by done. by destruct c.
  - pose proof (export_records (data_ (engine_ s)) (shard r g) a b
      (in_sync_data _ _ _ _ _ _ Hsync Hst)) as Hl.
    destruct Hl as [Hnd Hin].
    { intros key v Hv. rewrite shard_lookup in Hv. destruct (ContainsKey r key); [|done].
      by eapply (sv_contents _ _ _ Hs). }
    split; [exact Hnd|]. intros key v. by rewrite Hin, in_rangeb_spec.
Qed.

Lemma apply_migrated_deletes l data key :
  apply_batch data ((λ kv : string * string, mkMutation kDelete kv.1 "") <$> l) !! key =
  if decide (key ∈ l.*1) then None else data !! key.
Proof. rewrite <-apply_deletes. by rewrite <-list_fmap_compose. Qed.

Section split_table.
Context (rs : list RegionInfo) (i : nat) (r : RegionInfo) (sk : string) (rid : N).
Context (Hp : partition rs) (Hi : rs !! i = Some r) (Hk : split_key_ok r sk = true).
Context (Hrid : ∀ x, x ∈ rs → (region_id x < rid)%N).

Abbreviation left_region := (left_half r sk).
Abbreviation right_region := (right_half r sk rid).
Abbreviation rs' := (<[i := left_region]> rs ++ [right_region]).

Lemma split_table_in x :
  x ∈ rs' ↔ x = right_region ∨ x = left_region ∨ (x ∈ rs ∧ x ≠ r).
Proof.
  rewrite elem_of_app, list_elem_of_singleton.
  assert (x ∈ <[i := left_region]> rs ↔ x = left_region ∨ (x ∈ rs ∧ x ≠ r)) as ->; [|tauto].
  pose proof (lookup_lt_Some _ _ _ Hi) as Hlt. split.
  - intros [j Hj]%list_elem_of_lookup. apply list_lookup_insert_Some in Hj.
    destruct Hj as [(-> & <- & _) | [Hne Hj]]; [by left|]. right.
    split; [by eapply list_elem_of_lookup_2|]. intros ->. apply Hne.
    eapply (NoDup_lookup (region_id <$> rs)); [apply Hp|..]; rewrite list_lookup_fmap;
      [by rewrite Hi | by rewrite Hj].
  - intros [-> | [[j Hj]%list_elem_of_lookup Hne]].
    + eapply list_elem_of_lookup_2, list_lookup_insert_eq. done.
    + apply (list_elem_of_lookup_2 _ j). rewrite list_lookup_insert_ne; [done|].
      intros ->. congruence.
Qed.

Lemma left_range key :
  ContainsKey left_region key = true ↔ ContainsKey r key = true ∧ ¬ in_range sk (end_key r) key.
Proof.
  rewrite !ContainsKey_spec. cbn. rewrite (split_range r sk key Hk). split.
  - intros Hl. split; [by left|]. intros Hr. by eapply split_disjoint.
  - intros [[Hl | Hr] Hno]; [done | by destruct Hno].
Qed.

Lemma right_range key :
  ContainsKey right_region key = true ↔ ContainsKey r key = true ∧ in_range sk (end_key r) key.
Proof.
  rewrite !ContainsKey_spec. cbn. rewrite (split_range r sk key Hk). tauto.
Qed.

Lemma split_table_partition : partition rs'.
Proof.
  pose proof (list_elem_of_lookup_2 _ _ _ Hi) as Hr. destruct Hp as [Hcov Hdisj Hnd]. split.
  - intros key. destruct (Hcov key) as (x & Hx & Hc). destruct (decide (x = r)) as [-> | Hne].
    + destruct (ContainsKey left_region key) eqn:Hl.
      * exists left_region. split; [apply split_table_in; auto | done].
      * exists right_region. split; [apply split_table_in; auto|]. apply right_range.
        split; [done|]. apply not_true_iff_false in Hl. rewrite left_range in Hl.
        pose proof Hc as Hc'. rewrite ContainsKey_spec, (split_range r sk key Hk) in Hc'.
        destruct Hc' as [Hin | Hin]; [|done]. destruct Hl. split; [done|].
        intros Hno. by eapply split_disjoint.
    + exists x. split; [apply split_table_in; auto | done].
  - assert (∀ x key, x ∈ rs' → ContainsKey x key = true →
      ∃ y, y ∈ rs ∧ ContainsKey y key = true ∧ (y = r ∨ x = y ∧ y ≠ r)) as Hfrom.
    { intros x key [-> | [-> | [Hx Hne]]]%split_table_in Hc.
      - exists r. apply right_range in Hc as [? _]. auto.
      - exists r. apply left_range in Hc as [? _]. auto.
      - exists x. auto. }
    intros r1 r2 key H1 H2 Hc1 Hc2. pose proof H1 as H1'. pose proof H2 as H2'.
    apply split_table_in in H1', H2'.
    destruct (Hfrom _ _ H1 Hc1) as (y1 & Hy1 & Hcy1 & Hor1).
    destruct (Hfrom _ _ H2 Hc2) as (y2 & Hy2 & Hcy2 & Hor2).
    pose proof (Hdisj _ _ _ Hy1 Hy2 Hcy1 Hcy2) as ->.
    destruct H1' as [-> | [-> | [Hx1 Hne1]]], H2' as [-> | [-> | [Hx2 Hne2]]]; try done.
    + apply right_range in Hc1 as [_ Hc1]. by apply left_range in Hc2 as [_ ?].
    + apply right_range in Hc1 as [Hc1 _]. destruct Hne2. by eapply Hdisj.
    + apply right_range in Hc2 as [_ Hc2]. by apply left_range in Hc1 as [_ ?].
    + apply left_range in Hc1 as [Hc1 _]. destruct Hne2. by eapply Hdisj.
    + apply right_range in Hc2 as [Hc2 _]. destruct Hne1. by eapply Hdisj.
    + apply left_range in Hc2 as [Hc2 _]. destruct Hne1. by eapply Hdisj.
    + by eapply Hdisj.
  - rewrite fmap_app, list_fmap_insert. cbn.
    rewrite list_insert_id by (rewrite list_lookup_fmap; by rewrite Hi).
    apply list.NoDup_app. split_and!; [done | |apply NoDup_singleton].
    intros id (x & -> & Hx)%list_elem_of_fmap Heq%list_elem_of_singleton.
    specialize (Hrid x Hx). lia.
Qed.
End split_table.

(** A fresh cluster for a region, good for any number of operations that ids
    allow. *)
Lemma fresh_cluster k dir n rid d :
  disk_ok d → dir ≠ "" → n ≠ 0 → (N.of_nat k + 1 < two64)%N →
  ∃ d' c, (∀ m, on_new_cluster new_cluster (Cluster.Bootstrap dir n rid true) (d, m) =
      (Ok c, (d', m))) ∧ disk_ok d' ∧
    implements k c (mkRegionSpec ∅ (list_to_set (first_ids n))).
Proof.
  intros Hd Hdir Hn Hk.
  destruct (Bootstrap_sync dir n rid d new_cluster Hd Hdir Hn)
    as (d' & c & Hrun & Hd' & Hsync & _ & _ & _ & _ & _ & Hpeers).
  exists d', c. split_and!; [|done|].
  - intros m. unfold on_new_cluster. by rewrite Hrun.
  - exists 1%N, []. split_and!; [done| |lia|cbn; lia]. intros q. cbn.
    by rewrite elem_of_list_to_set, Hpeers.
Qed.

Lemma region_dir_not_empty dir id : region_dir dir id ≠ "".
Proof. unfold region_dir. by destruct dir. Qed.

(** The records moved: the upper half of the shard. *)
Section moved.
Context (g : DataMap) (r : RegionInfo) (sk : string) (rid : N) (l : list (string * string)).
Context (Hk : split_key_ok r sk = true) (Hun : unreserved g) (Hnd : NoDup l.*1).
Context (Hl : ∀ key v, (key, v) ∈ l ↔ shard r g !! key = Some v ∧ in_range sk (end_key r) key).

Lemma moved_keys key : key ∈ l.*1 → in_range sk (end_key r) key ∧ is_Some (shard r g !! key).
Proof. intros ([k' v] & -> & [Hv Hin]%Hl)%list_elem_of_fmap. cbn. by rewrite Hv. Qed.

Lemma moved_right : apply_batch ∅ (kv_mutation <$> l) = shard (right_half r sk rid) g.
Proof.
  rewrite apply_puts, (right_id_L ∅ (∪)) by done. apply map_eq. intros key.
  apply option_eq. intros v. rewrite <-elem_of_list_to_map, Hl, !shard_lookup by done.
  pose proof (right_range r sk rid Hk key) as Hr.
  destruct (ContainsKey (right_half r sk rid) key).
  - destruct (proj1 Hr eq_refl) as [-> Hin]. split; [by intros [? _] | done].
  - split; [|done]. destruct (ContainsKey r key); [|by intros [? _]].
    intros [_ Hin]. by discriminate (proj2 Hr (conj eq_refl Hin)).
Qed.

Lemma moved_left :
  apply_batch (shard r g) ((λ kv : string * string, mkMutation kDelete kv.1 "") <$> l) =
  shard (left_half r sk) g.
Proof.
  apply map_eq. intros key. rewrite apply_migrated_deletes, !shard_lookup.
  destruct (decide (key ∈ l.*1)) as [[Hin _]%moved_keys | Hout].
  - destruct (ContainsKey (left_half r sk) key) eqn:Hc; [|done].
    by apply left_range in Hc as [_ ?].
  - destruct (ContainsKey (left_half r sk) key) eqn:Hc.
    + apply left_range in Hc as [-> _]; done.
    + destruct (ContainsKey r key) eqn:Hcr; [|done].
      destruct (g !! key) as [v|] eqn:Hv; [|done]. destruct Hout.
      apply list_elem_of_fmap. exists (key, v). split; [done|]. apply Hl.
      rewrite shard_lookup, Hcr. split; [done|].
      apply not_true_iff_false in Hc. rewrite left_range in Hc by done.
      pose proof Hcr as Hcr'. rewrite ContainsKey_spec, (split_range r sk key Hk) in Hcr'.
      destruct Hcr' as [Hin | Hin]; [|done]. destruct Hc. split; [done|].
      intros Hno. by eapply split_disjoint.
Qed.

Lemma moved_batches_ok sp :
  (N.of_nat (size g) <= max_mutations)%N →
  op_ok (DoBatch (kv_mutation <$> l)) sp ∧
  op_ok (DoBatch ((λ kv : string * string, mkMutation kDelete kv.1 "") <$> l)) sp.
Proof.
  intros Hsize.
  assert (∀ kv, kv ∈ l → kv.1 ≠ "" ∧ reserved_key kv.1 = false) as Hkeys.
  { intros [key v] [Hv Hin]%Hl. cbn. rewrite shard_lookup in Hv.
    destruct (ContainsKey r key); [|done]. split; [|by eapply Hun]. intros ->.
    destruct Hin as [Hle _]. apply split_key_ok_spec in Hk as [[Hst _]%ContainsKey_spec Hne].
    assert (sk = "") as -> by (apply leb_antisym; [done | apply leb_empty]).
    apply Hne. symmetry. apply leb_antisym; [done | apply leb_empty]. }
  assert (N.of_nat (length l) <= max_mutations)%N as Hlen.
  { assert (length l ≤ size g); [|lia].
    rewrite <-(length_fmap fst l), <-(size_list_to_set (C := gset string) l.*1) by done.
    rewrite <-size_dom. apply subseteq_size. intros key Hkey%elem_of_list_to_set.
    apply moved_keys in Hkey as [_ [v Hv]]. rewrite shard_lookup in Hv.
    destruct (ContainsKey r key); [|done]. by apply elem_of_dom_2 in Hv. }
  split; (apply batch_op_ok; split_and!; [| |by rewrite length_fmap]);
    apply list.Forall_forall; intros x (kv & -> & Hkv)%list_elem_of_fmap; by apply Hkeys.
Qed.
End moved.

Lemma find_region_ok rs r :
  partition rs → r ∈ rs → ∃ i, find_region (region_id r) rs = Some (i, r) ∧ rs !! i = Some r.
Proof.
  intros Hp Hr. unfold find_region.
  destruct (list_find_elem_of (λ x, region_id x = region_id r) rs r Hr eq_refl) as [[i x] Hf].
  pose proof Hf as (Hx & Hid & _)%list_find_Some. exists i.
  assert (x = r) as -> by (eapply same_id; [done | by eapply list_elem_of_lookup_2 | done | done]).
  done.
Qed.

(** The table after a split, when both halves are served. *)
Lemma serves_split k m g i r sk rid c' Y rc X :
  serves (S k) m g → mc_regions m !! i = Some r → split_key_ok r sk = true →
  (∀ x, x ∈ mc_regions m → (region_id x < rid)%N) →
  implements k c' (mkRegionSpec (shard (left_half r sk) g) Y) →
  implements k rc (mkRegionSpec (shard (right_half r sk rid) g) X) →
  serves k (mkMulti (<[i := left_half r sk]> (mc_regions m) ++ [right_half r sk rid])
    (<[rid := rc]> (<[region_id r := c']> (mc_clusters m))) (mc_data_dir m)
    (mc_store_count m)) g.
Proof.
  intros Hs Hi Hk Hrid Hc' Hrc. pose proof (sv_partition _ _ _ Hs) as Hp.
  pose proof (list_elem_of_lookup_2 _ _ _ Hi) as Hr.
  apply serves_less in Hs. destruct Hs as [_ Hregs Hun Hcount Hdir].
  split; cbn [mc_regions mc_store_count mc_data_dir]; [by apply split_table_partition | | done..].
  intros x [-> | [-> | [Hx Hne]]]%split_table_in; [..|done|done]; unfold region_serves;
    cbn [mc_clusters].
  - exists rc, X. by rewrite lookup_insert_eq.
  - exists c', Y. split; [|done]. cbn [left_half region_id].
    rewrite lookup_insert_ne by (specialize (Hrid r Hr); lia). by rewrite lookup_insert_eq.
  - destruct (Hregs x Hx) as (cx & Z & Hcx & Himpl). exists cx, Z. split; [|done].
    rewrite lookup_insert_ne by (specialize (Hrid x Hx); lia).
    rewrite lookup_insert_ne; [done|]. intros Heq. apply Hne. by eapply same_id.
Qed.

Lemma on_new_cluster_run (f : IO ClusterW unit) d c d' c' (m : MultiRegionCluster) :
  f (d, c) = (Ok tt, (d', c')) → on_new_cluster c f (d, m) = (Ok c', (d', m)).
Proof. intros Hf. unfold on_new_cluster. by rewrite Hf. Qed.

Definition split_allowed (m : MultiRegionCluster) (g : DataMap) (r : RegionInfo) (sk : string) :
    Prop :=
  split_key_ok r sk = true ∧ (N.of_nat (size g) <= max_mutations)%N ∧
  ∀ x, x ∈ mc_regions m → (region_id x + 1 < two64)%N.

Lemma SplitRegion_serves k m g r sk d :
  serves (S k) m g → disk_ok d → r ∈ mc_regions m → split_allowed m g r sk →
  (N.of_nat k + 2 < two64)%N →
  ∃ d' m' rt, SplitRegion (region_id r) sk (d, m) = (Ok (left_half r sk, rt), (d', m')) ∧
    disk_ok d' ∧ serves k m' g.
Proof.
  intros Hs Hd Hr (Hk & Hsize & Hids) Hbudget. pose proof Hs as [Hp _ Hun Hcount Hdir].
  destruct (find_region_ok _ _ Hp Hr) as (i & Hfind & Hi).
  destruct (sv_regions _ _ _ Hs r Hr) as (c & X & Hc & Himpl).
  set (rid := next_free_region_id (mc_regions m)).
  assert (∀ x, x ∈ mc_regions m → (region_id x < rid)%N) as Hrid
    by (intros x Hx; by apply next_free_above).
  destruct (fresh_cluster (S k) (region_dir (mc_data_dir m) rid) (mc_store_count m) rid d Hd)
    as (d1 & rc & Hboot & Hd1 & Hrc); [apply region_dir_not_empty | done | lia|].
  destruct (export_run (S k) m g r c X sk (end_key r) d1 Hs Hr Hc Himpl)
    as (l & Hexp & Hnd & Hl).
  pose proof (moved_batches_ok g r sk _ Hk Hun Hnd Hl) as Hok.
  destruct (step_implements k rc _ _ d1 (proj1 (Hok _ Hsize)) Hrc Hd1)
    as (d2 & rc' & Hput & Hd2 & Hrc').
  destruct (step_implements k c _ _ d2 (proj2 (Hok _ Hsize)) Himpl Hd2)
    as (d3 & c' & Hdel & Hd3 & Hc').
  cbn [do_op spec_step contents members] in *.
  rewrite (moved_right g r sk rid) in Hrc' by done.
  rewrite (moved_left g r sk) in Hc' by done.
  pose proof (serves_split k m g i r sk rid c' _ rc' _ Hs Hi Hk Hrid Hc' Hrc') as Hs'.
  set (m' := mkMulti _ _ _ _) in Hs'.
  pose proof (PersistRegionCatalog_run d3 m' (sv_dir _ _ _ Hs) Hd3) as Hpersist.
  eexists _, m', (right_half r sk rid). split_and!; [| |exact Hs'].
  unfold SplitRegion, the_multi, FindRegionCluster. run. cbn [snd]. rewrite Hfind, Hk.
  cbn [negb]. rewrite Hc, decide_False by done.
  run_call ltac:(apply Hboot). run_call ltac:(exact Hexp).
  run_call ltac:(by apply on_new_cluster_run, Hput).
  run_call ltac:(by eapply on_cluster_run, Hdel).
  unfold update_multi. run. cbn [fst snd].
  run_call ltac:(exact Hpersist). reflexivity.
  done.
Qed.

(** ** Bootstrap *)

Lemma bootstrap_regions_run k n rs : ∀ m d,
  NoDup (region_id <$> rs) → disk_ok d → n ≠ 0 → (N.of_nat k + 1 < two64)%N →
  ∃ d' cs, bootstrap_regions n true rs (d, m) = (Ok tt, (d', set_clusters cs m)) ∧ disk_ok d' ∧
    (∀ r, r ∈ rs → ∃ c, cs !! region_id r = Some c ∧
      implements k c (mkRegionSpec ∅ (list_to_set (first_ids n)))) ∧
    (∀ id, id ∉ region_id <$> rs → cs !! id = mc_clusters m !! id).
Proof.
  induction rs as [|r rs IH]; intros m d Hnd Hd Hn Hk; cbn [bootstrap_regions].
  { exists d, (mc_clusters m). split_and!; [by destruct m|done| |done].
    by intros r ?%elem_of_nil. }
  csimpl in Hnd. apply list.NoDup_cons in Hnd as [Hr Hnd].
  destruct (fresh_cluster k (region_dir (mc_data_dir m) (region_id r)) n (region_id r) d Hd)
    as (d1 & c & Hboot & Hd1 & Hc); [apply region_dir_not_empty | done | done|].
  destruct (IH (set_clusters (<[region_id r := c]> (mc_clusters m)) m) d1 Hnd Hd1 Hn Hk)
    as (d2 & cs & Hrun & Hd2 & Hin & Hout).
  exists d2, cs. split_and!; [|done| |].
  - unfold the_multi. run. cbn [snd]. run_call ltac:(apply Hboot).
    unfold update_multi. run. cbn [fst snd]. exact Hrun.
  - intros x [-> | Hx]%elem_of_cons; [|by apply Hin]. exists c. split; [|done].
    rewrite Hout by done. cbn. by rewrite lookup_insert_eq.
  - intros id Hid. csimpl in Hid. apply not_elem_of_cons in Hid as [Hne Hid].
    rewrite Hout by done. cbn. by rewrite lookup_insert_ne.
Qed.

Lemma shard_empty r : shard r ∅ = ∅.
Proof. apply map_eq. intros k. rewrite shard_lookup, lookup_empty. by case_match. Qed.

Lemma Bootstrap_serves k dir n rs d m :
  partition rs → dir ≠ "" → disk_ok d → n ≠ 0 → (N.of_nat k + 1 < two64)%N →
  ∃ d' m', Bootstrap dir n rs true (d, m) = (Ok tt, (d', m')) ∧ disk_ok d' ∧ serves k m' ∅ ∧
    mc_regions m' = rs.
Proof.
  intros Hp Hdir Hd Hn Hk. assert (rs ≠ []) as Hne.
  { intros ->. destruct (pa_cover _ Hp "") as (r & ?%elem_of_nil & _). done. }
  set (d1 := set_files (filter (λ f, below dir f.1 = false)) d).
  set (m1 := mkMulti rs ∅ dir n).
  destruct (bootstrap_regions_run k n rs m1 d1 (pa_ids _ Hp)) as (d2 & cs & Hrun & Hd2 & Hin & _);
    [done..|].
  pose proof (PersistRegionCatalog_run d2 (set_clusters cs m1) Hdir Hd2) as Hpersist.
  eexists _, (set_clusters cs m1). split; [|split; [|split; [|done]]].
  - unfold Bootstrap, update_multi, the_multi. rewrite decide_False by done. run. cbn [fst snd].
    run_call ltac:(by apply remove_all_ok). run_call ltac:(by apply create_directories_throwing_ok).
    run. cbn [fst snd mc_regions mc_data_dir mc_store_count set_regions set_clusters].
    run_call ltac:(exact Hrun). exact Hpersist.
  - done.
  - split; [done| |by intros ? ?|done|done]. intros r Hr. destruct (Hin r Hr) as (c & Hc & Himpl).
    exists c. eexists. split; [exact Hc|]. rewrite shard_empty. exact Himpl.
Qed.

(** * Histories *)

Inductive multi_op :=
  | MPut (key value : string)
  | MDelete (key : string)
  | MBatch (ms : list KvMutation)
  | MSplit (id : N) (split_key : string)
  | MTransferLeader (id peer : N)
  | MRemovePeer (id peer : N).

Definition do_multi (op : multi_op) : IO MultiW unit :=
  match op with
  | MPut k v => Put k v
  | MDelete k => Delete k
  | MBatch ms => Batch ms
  | MSplit id sk => _ ← SplitRegion id sk; mret tt
  | MTransferLeader id p => TransferLeader id p
  | MRemovePeer id p => RemovePeer id p
  end.

(** What an operation does to the one map. *)
Definition multi_effect (op : multi_op) (g : DataMap) : DataMap :=
  match op with
  | MPut k v => <[k := v]> g
  | MDelete k => delete k g
  | MBatch ms => apply_batch g ms
  | MSplit _ _ | MTransferLeader _ _ | MRemovePeer _ _ => g
  end.

Definition multi_allowed (op : multi_op) (m : MultiRegionCluster) (g : DataMap) : Prop :=
  match op with
  | MPut k _ => k ≠ "" ∧ reserved_key k = false
  | MDelete k => reserved_key k = false
  | MBatch ms => batch_allowed ms ∧ ∃ r, r ∈ mc_regions m ∧ batch_in r ms
  | MSplit id sk => ∃ r, r ∈ mc_regions m ∧ region_id r = id ∧ split_allowed m g r sk
  | MTransferLeader id p => (∃ r, r ∈ mc_regions m ∧ region_id r = id) ∧ member m id p
  | MRemovePeer id p => (∃ r, r ∈ mc_regions m ∧ region_id r = id) ∧ removable m id p
  end.

Lemma multi_step k op m g d :
  serves (S k) m g → disk_ok d → multi_allowed op m g → (N.of_nat k + 2 < two64)%N →
  ∃ d' m', do_multi op (d, m) = (Ok tt, (d', m')) ∧ disk_ok d' ∧ serves k m' (multi_effect op g).
Proof.
  intros Hs Hd Hok Hk. destruct op as [key v|key|ms|id sk|id p|id p]; cbn in *.
  - destruct Hok. by apply Put_serves.
  - by apply Delete_serves.
  - destruct Hok as (Hok & r & Hr & Hin). by eapply Batch_serves.
  - destruct Hok as (r & Hr & <- & Hok).
    destruct (SplitRegion_serves k m g r sk d Hs Hd Hr Hok Hk) as (d' & m' & rt & Hrun & ? & ?).
    exists d', m'. split; [by run_call ltac:(exact Hrun) | done].
  - destruct Hok as [(r & Hr & <-) Hmem]. by apply TransferLeader_serves.
  - destruct Hok as [(r & Hr & <-) Hmem]. by apply RemovePeer_serves.
Qed.

(** The states and maps after [n] allowed operations. *)
Inductive history (start : MultiW) : nat → MultiW → DataMap → Prop :=
  | history_start : history start 0 start ∅
  | history_step n w g op : history start n w g → multi_allowed op w.2 g →
      history start (S n) (do_multi op w).2 (multi_effect op g).

Lemma history_serves start n w g : ∀ k,
  history start n w g → disk_ok start.1 → serves (n + k) start.2 ∅ →
  (N.of_nat (n + k) + 2 < two64)%N → disk_ok w.1 ∧ serves k w.2 g.
Proof.
  intros k Hh. revert k. induction Hh as [|n w g op Hh IH Hok]; intros k Hd Hs Hk; [done|].
  destruct (IH (S k) Hd) as [Hd1 Hs1]; [by rewrite Nat.add_succ_r | lia|].
  destruct w as [d m]. cbn [fst snd] in *.
  destruct (multi_step k op m g d Hs1 Hd1 Hok) as (d' & m' & -> & ? & ?); [lia|]. done.
Qed.
