(* ===== verification/MultiRegion.v ===== *)
(** What several regions promise together: one map behind any number of
    shards, exact shards on every store, batches confined to one region, a
    catalog that reads back; and where a split leaves the region table at odds
    with the cluster. *)

From S2P Require Import Prelude Types Text Codec Engine Raft RaftStorage Keyspace Cluster ClusterSpec Region Multi.
From S2P Require Import MultiSpec.

(** C5: Sharding is invisible. Bootstrapped on a named directory with any regions
    that partition the key space, and after any history of allowed operations
    ([multi_allowed]: puts, deletes and single-region batches of keys the program
    does not use itself, no put of the empty key, splits, leader transfers to
    members and removals of members other than the last), every read of an
    unreserved key, linearizable or eventual, answers from the one map the
    writes describe; splits, transfers and removals do not change it; the
    regions still partition the key space; and every further allowed operation
    succeeds. *)
Theorem regions_are_one_map dir n rs d m0 j w g :
  partition rs → dir ≠ "" → disk_ok d → n ≠ 0 → (N.of_nat j + 3 < two64)%N →
  let boot := Bootstrap dir n rs true (d, m0) in
  history boot.2 j w g →
  boot.1 = Ok tt ∧
  (∀ key consistency, reserved_key key = false →
     (Get key consistency w).1 =
     match g !! key with Some v => Ok v | None => Err (key_not_found key) end) ∧
  (∀ op, multi_allowed op w.2 g → (do_multi op w).1 = Ok tt) ∧
  partition (mc_regions w.2).
Proof.
  intros Hp Hdir Hd Hn Hj boot Hh. destruct w as [dw mw].
  destruct (Bootstrap_serves (j + 1) dir n rs d m0 Hp Hdir Hd Hn) as (d' & m' & Hrun & Hd' & Hs & _);
    [lia|].
  unfold boot in *. rewrite Hrun in *. cbn [fst snd] in *.
  destruct (history_serves _ _ _ _ 1 Hh Hd' Hs) as [Hdw Hsw]; [lia|]. cbn [fst snd] in *.
  split_and!; [done| | |apply Hsw].
  - intros key consistency Hk. by rewrite (Get_serves 1 mw g).
  - intros op Hok. destruct (multi_step 0 op mw g dw Hsw Hdw Hok) as (? & ? & -> & _); [lia|done].
Qed.

(** C21: Every store holds exactly its shard. After any history of allowed
    operations ([multi_allowed]) each region
    has its cluster, and each of the cluster's stores holds, of the user keys,
    the keys of the region with the values of the one map and no others: a
    split leaves no record of the upper half behind and loses none. *)
Theorem stores_hold_their_shard dir n rs d m0 j w g r :
  partition rs → dir ≠ "" → disk_ok d → n ≠ 0 → (N.of_nat j + 3 < two64)%N →
  history (Bootstrap dir n rs true (d, m0)).2 j w g → r ∈ mc_regions w.2 →
  ∃ c, FindRegionCluster (region_id r) w.2 = Some c ∧ sc_stores c ≠ [] ∧
    ∀ s key, s ∈ sc_stores c → user_key key →
      data_ (engine_ s) !! key = if ContainsKey r key then g !! key else None.
Proof.
  intros Hp Hdir Hd Hn Hj Hh Hr. destruct w as [dw mw].
  destruct (Bootstrap_serves (j + 1) dir n rs d m0 Hp Hdir Hd Hn) as (d' & m' & Hrun & Hd' & Hs & _);
    [lia|].
  rewrite Hrun in *. destruct (history_serves _ _ _ _ 1 Hh Hd' Hs) as [_ Hsw]; [lia|].
  destruct (sv_regions _ _ _ Hsw r Hr) as (c & X & Hc & t & log & Hsync & _).
  exists c. cbn [contents] in Hsync. split_and!; [done| |].
  - intros Hnil. destruct (leader_index _ _ _ _ Hsync) as (i & s & _ & Hst).
    by rewrite Hnil in Hst.
  - intros s key [i Hi]%list_elem_of_lookup Hk.
    rewrite <-(user_part_lookup (data_ _)), (in_sync_data _ _ _ _ _ _ Hsync Hi) by done.
    apply shard_lookup.
Qed.

(** ** A small history *)

Definition whole_space : RegionInfo :=
  mkRegion 1 "" "" (mkEpoch 1 1) [mkPeer 1 1 kVoter; mkPeer 2 2 kVoter; mkPeer 3 3 kVoter] 1.

Lemma whole_space_partition : partition [whole_space].
Proof.
  split.
  - intros key. exists whole_space. split; [apply list_elem_of_here|].
    apply ContainsKey_spec. split; [apply leb_empty | by left].
  - by intros r1 r2 key ->%list_elem_of_singleton ->%list_elem_of_singleton.
  - apply NoDup_singleton.
Qed.

Definition demo_boot : MultiW := (Bootstrap "data" 3 [whole_space] true (mkDisk ∅ [], new_multi)).2.
Definition demo_history : list multi_op :=
  [MPut "apple" "1"; MPut "pear" "2"; MSplit 1 "m"; MPut "melon" "3"; MDelete "pear"].
Fixpoint run_multi (ops : list multi_op) (w : MultiW) : MultiW :=
  match ops with [] => w | op :: rest => run_multi rest (do_multi op w).2 end.
Fixpoint effects (ops : list multi_op) (g : DataMap) : DataMap :=
  match ops with [] => g | op :: rest => effects rest (multi_effect op g) end.
Fixpoint all_allowed (ops : list multi_op) (w : MultiW) (g : DataMap) : Prop :=
  match ops with
  | [] => True
  | op :: rest => multi_allowed op w.2 g ∧
      all_allowed rest (do_multi op w).2 (multi_effect op g)
  end.

Lemma run_multi_history start ops : ∀ n w g,
  history start n w g → all_allowed ops w g →
  history start (n + length ops) (run_multi ops w) (effects ops g).
Proof.
  induction ops as [|op ops IH]; intros n w g Hh Hok; cbn [length run_multi effects].
  { by rewrite Nat.add_0_r. }
  destruct Hok as [Hop Hrest]. rewrite Nat.add_succ_r. apply (IH (S n)); [|done].
  by apply history_step.
Qed.

Definition demo_multi : MultiW := run_multi demo_history demo_boot.
Definition demo_map : DataMap := effects demo_history ∅.

Lemma split_whole_space sk (w : MultiW) g :
  mc_regions w.2 = [whole_space] → sk ≠ "" → size g ≤ 2 → multi_allowed (MSplit 1 sk) w.2 g.
Proof.
  intros Hregs Hsk Hsize. exists whole_space. rewrite Hregs.
  split; [apply list_elem_of_here|]. split; [done|].
  split_and!; [|unfold max_mutations; lia|].
  - apply split_key_ok_spec. split; [|done].
    apply ContainsKey_spec. split; [apply leb_empty | by left].
  - rewrite Hregs. by intros x ->%list_elem_of_singleton.
Qed.

Lemma demo_multi_history : history demo_boot 5 demo_multi demo_map.
Proof.
  apply (run_multi_history demo_boot demo_history 0); [apply history_start|].
  split; [split; [discriminate | reflexivity]|].
  split; [split; [discriminate | reflexivity]|].
  split; [apply split_whole_space; [vm_compute; reflexivity | discriminate | vm_compute; lia]|].
  split; [split; [discriminate | reflexivity]|].
  split; [reflexivity | exact I].
Qed.

Lemma regions_are_one_map_witness :
  (Get "melon" kEventual demo_multi).1 = Ok "3" ∧
  (Get "pear" kLinearizable demo_multi).1 = Err (key_not_found "pear").
Proof.
  destruct (regions_are_one_map "data" 3 [whole_space] (mkDisk ∅ []) new_multi 5 demo_multi
    demo_map whole_space_partition) as (_ & Hget & _);
    [discriminate | reflexivity | discriminate | reflexivity | exact demo_multi_history|].
  split; [rewrite (Hget "melon" kEventual eq_refl) | rewrite (Hget "pear" kLinearizable eq_refl)];
    vm_compute; reflexivity.
Defined.

Lemma stores_hold_their_shard_witness :
  ∃ c, FindRegionCluster 2 demo_multi.2 = Some c ∧ sc_stores c ≠ [] ∧
    ∀ s key, s ∈ sc_stores c → user_key key →
      data_ (engine_ s) !! key = if String.leb "m" key then demo_map !! key else None.
Proof.
  destruct (stores_hold_their_shard "data" 3 [whole_space] (mkDisk ∅ []) new_multi 5 demo_multi
    demo_map (right_half whole_space "m" 2) whole_space_partition) as (c & Hc & Hne & Hs);
    [discriminate | reflexivity | discriminate | reflexivity | exact demo_multi_history | |].
  - apply (bool_decide_unpack _). vm_compute. exact I.
  - exists c. split; [exact Hc|]. split; [exact Hne|]. intros s key Hin Hk.
    rewrite (Hs s key Hin Hk). unfold ContainsKey. cbn.
    by rewrite andb_true_r.
Defined.

(** * Batches *)

(** A batch is applied to one region or not at all. If the keys of a
    non-empty batch do not all lie in the region of the first, the batch is
    refused, whatever the disk and the clusters hold, and nothing changes;
    otherwise the call is the region's own batch. *)
Lemma batch_stays_in_one_region d m x ms r :
  FindRegionByKey (mut_key x) m = Some r →
  Batch (x :: ms) (d, m) =
  if decide (Forall (λ y, region_id <$> FindRegionByKey (mut_key y) m = Some (region_id r)) ms)
  then on_cluster (region_id r) (Cluster.Batch (x :: ms)) (d, m)
  else (Err (InvalidArgument "batch must target a single region"), (d, m)).
Proof.
  intros Hr. unfold Batch, route, the_multi. run_call ltac:(run; cbn [snd]; by rewrite Hr).
  run. cbn [snd]. unfold crosses_regions. cbn [existsb]. rewrite Hr, N.eqb_refl. cbn [negb orb].
  destruct (decide _) as [Hall | Hno].
  - assert (existsb _ ms = false) as ->; [|done]. apply not_true_iff_false.
    intros (y & Hy%list_elem_of_In & Hc)%existsb_exists.
    pose proof (proj1 (list.Forall_forall _ _) Hall y Hy) as Hid. cbn in Hid.
    destruct (FindRegionByKey (mut_key y) m); [|done]. injection Hid as Hid.
    by rewrite Hid, N.eqb_refl in Hc.
  - assert (existsb _ ms = true) as ->; [|done]. apply existsb_exists.
    apply (not_Forall_Exists _ _) in Hno. apply Exists_exists in Hno as (y & Hy & Hid).
    exists y. split; [by apply list_elem_of_In|]. cbn in Hid.
    destruct (FindRegionByKey (mut_key y) m) as [r'|]; [|done].
    destruct (N.eqb_spec (region_id r') (region_id r)) as [Heq | _]; [|done].
    destruct Hid. cbn. by rewrite Heq.
Qed.

Lemma batch_stays_in_one_region_witness :
  FindRegionByKey "apple" demo_multi.2 = Some (left_half whole_space "m") ∧
  Batch [mkMutation kPut "apple" "1"; mkMutation kPut "zebra" "2"] (demo_multi.1, demo_multi.2) =
    (Err (InvalidArgument "batch must target a single region"), (demo_multi.1, demo_multi.2)).
Proof.
  assert (FindRegionByKey "apple" demo_multi.2 = Some (left_half whole_space "m")) as Hr
    by (vm_compute; reflexivity).
  assert (¬ Forall (λ y, region_id <$> FindRegionByKey (mut_key y) demo_multi.2 =
    Some (region_id (left_half whole_space "m"))) [mkMutation kPut "zebra" "2"]) as Hno.
  { apply (bool_decide_unpack _). vm_compute. exact I. }
  split; [exact Hr|].
  rewrite (batch_stays_in_one_region demo_multi.1 demo_multi.2 (mkMutation kPut "apple" "1")
    [mkMutation kPut "zebra" "2"] _ Hr).
  rewrite (decide_False _ _ Hno). reflexivity.
Defined.

(** * The catalog *)

Lemma region_catalog_agrees rs j r :
  rs !! j = Some r →
  agrees (region_catalog_fields rs) (indexed "region" (N.of_nat j)) (region_fields r).
Proof.
  intros Hj. eapply (put_indexed_agrees PutRegionFields region_fields "region") with (i := 0%N);
    [done | apply region_fields_nodup | done].
Qed.

Lemma read_regions f rs : ∀ i,
  (∀ j r, rs !! j = Some r → agrees f (indexed "region" (N.of_nat (i + j))) (region_fields r)) →
  Forall region_ok rs →
  (λ i, GetRegionFields f (indexed "region" i)) <$> (N.of_nat <$> seq i (length rs)) = rs.
Proof.
  induction rs as [|r rs IH]; intros i Hf Hrs; [done|].
  apply list.Forall_cons in Hrs as [Hr Hrs]. cbn [length seq fmap list_fmap]. f_equal.
  - pose proof (Hf 0 r eq_refl) as H0. rewrite Nat.add_0_r in H0.
    by apply GetRegionFields_agrees.
  - apply IH; [|done]. intros j x Hj. specialize (Hf (S j) x Hj). by rewrite Nat.add_succ_comm.
Qed.

Lemma region_count_field rs :
  (N.of_nat (length rs) < two64)%N →
  field_u64 (E := Status) (region_catalog_fields rs) "region_count" = Ok (N.of_nat (length rs)).
Proof.
  intros Hlen. unfold field_u64, field, region_catalog_fields.
  rewrite (put_indexed_notin _ region_fields) by (done || by intros; apply plain_not_indexed).
  rewrite lookup_insert_eq. by apply stoull_to_string.
Qed.

(** The region table survives a restart: what [PersistRegionCatalog]
    writes, [RegionCatalogExists] finds and [LoadRegionCatalog] reads back into
    any object opened on the same directory, region for region with peers,
    epochs and leaders. *)
Lemma region_catalog_roundtrip d m m2 :
  mc_data_dir m ≠ "" → disk_ok d →
  Forall region_ok (mc_regions m) → (N.of_nat (length (mc_regions m)) < two64)%N →
  mc_data_dir m2 = mc_data_dir m →
  ∃ d', PersistRegionCatalog (d, m) = (Ok tt, (d', m)) ∧
    RegionCatalogExists (d', m2) = (Ok true, (d', m2)) ∧
    LoadRegionCatalog (d', m2) = (Ok tt, (d', set_regions (mc_regions m) m2)).
Proof.
  intros Hne Hd Hok Hlen Hdir. eexists. split_and!.
  - by apply PersistRegionCatalog_run.
  - unfold RegionCatalogExists. run_call ltac:(by apply io_throwing_ok).
    unfold gets, overwrite. cbn [fst snd files set_files]. by rewrite Hdir, lookup_insert_eq.
  - unfold LoadRegionCatalog, update_multi. run. cbn [fst snd].
    run_call ltac:(by apply io_or_ok). rewrite Hdir. unfold overwrite. cbn [fst snd files set_files].
    rewrite lookup_insert_eq, DecodeFields_encode, lift_ok_bind, region_count_field by done.
    rewrite lift_ok_bind. unfold indices, modify. rewrite Nat2N.id, (read_regions _ _ 0); [done| |done].
    intros j r Hj. by apply region_catalog_agrees.
Qed.

Lemma region_catalog_roundtrip_witness :
  ∃ d', PersistRegionCatalog (demo_multi.1, demo_multi.2) = (Ok tt, (d', demo_multi.2)) ∧
    RegionCatalogExists (d', set_regions [] demo_multi.2) =
      (Ok true, (d', set_regions [] demo_multi.2)) ∧
    LoadRegionCatalog (d', set_regions [] demo_multi.2) =
      (Ok tt, (d', set_regions (mc_regions demo_multi.2) (set_regions [] demo_multi.2))).
Proof.
  apply (region_catalog_roundtrip demo_multi.1 demo_multi.2).
  - vm_compute. discriminate.
  - vm_compute. reflexivity.
  - apply (bool_decide_unpack _). vm_compute. exact I.
  - vm_compute. reflexivity.
  - vm_compute. reflexivity.
Defined.

(** The peers a split lists for the right half do not exist. The table gives
    the right region peers numbered [peer_id + 1000 * region_id], the first of
    them its leader, but its cluster is bootstrapped with peers 1, 2 and 3, so
    neither a transfer to a listed peer nor the removal of one succeeds. *)
Lemma split_lists_unknown_peers :
  let w := run_multi [MSplit 1 "m"] demo_boot in
  (peer_id <$> (mc_regions w.2 ≫= λ r, if (region_id r =? 2)%N then peers r else []))
    = [2001; 2002; 2003]%N ∧
  (sc_peer_ids <$> FindRegionCluster 2 w.2) = Some [1; 2; 3]%N ∧
  (TransferLeader 2 2002 w).1 = Err (InvalidArgument "leader peer not found") ∧
  (RemovePeer 2 2003 w).1 = Err (InvalidArgument "peer not found").
Proof. vm_compute. done. Qed.
