(* ===== verification/MultiRestart.v ===== *)
(** Several regions whose process stops: the regions' logs and the catalog on
    disk are what the process has in memory, through writes, splits and leader
    transfers, so that a bootstrap on the same directory serves the same map. *)

From S2P Require Import Prelude Types Text Codec Engine Raft RaftStorage Keyspace Cluster ClusterSpec Region.
From S2P Require Import RegionRestart Multi MultiSpec MultiRegion.

(** * The files of a region *)

(** A step of the region [id] below [dir]. *)
Definition touches (dir : string) (id : N) (d d' : Disk) : Prop :=
  (disk_ok d → disk_ok d') ∧
  ∀ q, below (region_dir dir id) q = false → files d' !! q = files d !! q.

#[export] Instance touches_preorder dir id : PreOrder (touches dir id).
Proof.
  split; [by intros d; split|]. intros a b c [H1 H2] [H3 H4].
  split; [tauto | intros q Hq; by rewrite H4, H2].
Qed.

Lemma region_path_inj dir i j s t :
  ends_class is_digit s → ends_class is_digit t →
  region_dir dir i +:+ s = region_dir dir j +:+ t → i = j ∧ s = t.
Proof.
  unfold region_dir. rewrite !sapp_assoc. intros Hs Ht H%sapp_inj_l%sapp_inj_l.
  apply (f_equal scan_number) in H. rewrite !scan_to_string in H by done. by injection H as -> ->.
Qed.

Lemma region_dir_slash dir i : ends_with_slash (region_dir dir i) = false.
Proof.
  unfold region_dir. destruct (to_string_spec i) as (Hd & Hne & _).
  rewrite !ends_with_slash_app by (done || by destruct (to_string i)). by apply digits_no_slash.
Qed.

Lemma below_region dir i q :
  below (region_dir dir i) q = true → ∃ s, q = region_dir dir i +:+ s ∧ ends_class is_digit s.
Proof.
  unfold below, path_join. rewrite region_dir_slash.
  rewrite decide_False by apply region_dir_not_empty.
  intros [_ [->%bool_decide_eq_true | (s & ->)%starts_with_split]%orb_true_iff]%andb_true_iff.
  - exists "". by rewrite sapp_nil_r.
  - exists ("/" +:+ s). split; [by snorm | done].
Qed.

Lemma other_region_log dir i j s :
  i ≠ j → below (region_dir dir j) (store_log (region_dir dir i) s) = false.
Proof.
  intros Hne. apply not_true_iff_false. intros (x & Hx & Hends)%below_region.
  rewrite store_log_eq in Hx. apply region_path_inj in Hx as [? _]; [done | done | done].
Qed.

Lemma catalog_apart dir i : below (region_dir dir i) (region_catalog_path dir) = false.
Proof.
  apply not_true_iff_false. intros (x & Hx & _)%below_region.
  unfold region_catalog_path, path_join, region_dir in Hx. case_decide as Hdir.
  { subst dir. discriminate. }
  destruct (ends_with_slash dir); rewrite sapp_assoc in Hx; apply sapp_inj_l in Hx; discriminate.
Qed.

Lemma outside_touches dir i d d' : outside (region_dir dir i) d d' → disk_ok d' → touches dir i d d'.
Proof.
  intros Ho Hd. split; [done|]. intros q Hq. apply Ho. intros id ->.
  by rewrite store_log_below in Hq by apply region_dir_not_empty.
Qed.

Lemma lasts_disk dir n r k w sp : lasts dir n r k w sp → disk_ok w.1.
Proof. intros (t & log & Hsr & _). by eapply saved_region_disk. Qed.

(** Steps of other regions leave a region where it was. *)
Lemma saved_apart dir r log d d' s :
  disk_ok d' → (∀ id, files d' !! store_log dir id = files d !! store_log dir id) →
  saved dir r d log d s → saved dir r d' log d' s.
Proof.
  intros Hd' Hf [[[_ (Hd & (Hne & Hlp & text & Ht & Hc & Hr) & Hdir) Hop Hreg Hpeer Hself Hw Hv] Hl] Hs].
  cbn [fst snd] in *. split; [split; [|done]|done]. split; try done.
  split_and!; [done | split; [done | split; [done|]] | done]. exists text. cbn [fst snd].
  pose proof (Hf (store_id_ s)) as Hfs. unfold store_log in Hfs. rewrite Hlp, Hdir in *. by rewrite Hfs.
Qed.

Lemma lasts_frame dir n r k d d' c sp :
  disk_ok d' → (∀ id, files d' !! store_log dir id = files d !! store_log dir id) →
  lasts dir n r k (d, c) sp → lasts dir n r k (d', c) sp.
Proof.
  intros Hok Hf (t & log & [Hsync Hsaved Hlog Hids Hreg] & Hrest). exists t, log.
  split; [|exact Hrest]. cbn [fst snd] in *. split; try done.
  eapply list.Forall_impl; [exact Hsaved|]. intros s Hs. by eapply saved_apart.
Qed.

Lemma lasts_apart dir i j n k d d' c sp :
  touches dir j d d' → i ≠ j → lasts (region_dir dir i) n i k (d, c) sp →
  lasts (region_dir dir i) n i k (d', c) sp.
Proof.
  intros [Hok Hf] Hne Hl. eapply lasts_frame; [| |exact Hl].
  - apply Hok, (lasts_disk _ _ _ _ _ _ Hl).
  - intros id. by apply Hf, other_region_log.
Qed.

(** * The regions on disk *)

Definition everyone (n : nat) : gset N := list_to_set (first_ids n).

(** The region [r] of a table, by its cluster [c]. *)
Definition region_lasts (dir : string) (n k : nat) (d : Disk) (c : SingleRegionCluster)
    (g : DataMap) (r : RegionInfo) : Prop :=
  lasts (region_dir dir (region_id r)) n (region_id r) k (d, c) (mkRegionSpec (shard r g) (everyone n)).

(** Good for [k] more operations or restarts, as [serves]. *)
Record stored (k : nat) (w : MultiW) (g : DataMap) : Prop := {
  st_serves : serves k w.2 g;
  st_disk : disk_ok w.1;
  st_regions r : r ∈ mc_regions w.2 → ∃ c, mc_clusters w.2 !! region_id r = Some c ∧
    region_lasts (mc_data_dir w.2) (mc_store_count w.2) k w.1 c g r;
  st_catalog : files w.1 !! region_catalog_path (mc_data_dir w.2) =
    Some (EncodeFields (region_catalog_fields (mc_regions w.2)));
  st_words : Forall region_ok (mc_regions w.2);
  st_length : (N.of_nat (length (mc_regions w.2)) < two64)%N;
  st_stores : (N.of_nat (mc_store_count w.2) < two64)%N;
}.

Lemma region_lasts_implements dir n k d c g r :
  region_lasts dir n k d c g r → implements k c (mkRegionSpec (shard r g) (everyone n)).
Proof. apply (lasts_implements _ _ _ _ (d, c)). Qed.

Lemma region_lasts_less dir n k d c g r : region_lasts dir n (S k) d c g r → region_lasts dir n k d c g r.
Proof. apply lasts_less. Qed.

Lemma region_lasts_apart dir n k j d d' c g r :
  touches dir j d d' → region_id r ≠ j → region_lasts dir n k d c g r → region_lasts dir n k d' c g r.
Proof. intros Ht Hne. by apply lasts_apart with (j := j). Qed.

Lemma region_lasts_map dir n k d c g g' r :
  shard r g' = shard r g → region_lasts dir n k d c g r → region_lasts dir n k d c g' r.
Proof. unfold region_lasts. by intros ->. Qed.

Lemma region_lasts_range dir n k d c g r r' :
  same_range r r' → region_lasts dir n k d c g r → region_lasts dir n k d c g r'.
Proof. intros Hr. unfold region_lasts. rewrite (same_range_shard r r') by done. by destruct Hr as [-> _]. Qed.

Lemma stored_less k w g : stored (S k) w g → stored k w g.
Proof.
  intros [Hs Hd Hr Hc Hw Hl Hn]. split; try done; [by apply serves_less|].
  intros r Hin. destruct (Hr r Hin) as (c & Hcl & Hlast). exists c. split; [done|].
  by apply region_lasts_less.
Qed.

(** One region takes a step. *)
Lemma region_step_lasts k d m g g' r op :
  stored (S k) (d, m) g → r ∈ mc_regions m →
  op_ok op (mkRegionSpec (shard r g) (everyone (mc_store_count m))) → lasting op →
  spec_step op (mkRegionSpec (shard r g) (everyone (mc_store_count m))) =
    mkRegionSpec (shard r g') (everyone (mc_store_count m)) →
  ∃ d' c', on_cluster (region_id r) (do_op op) (d, m) =
      (Ok tt, (d', set_clusters (<[region_id r := c']> (mc_clusters m)) m)) ∧ disk_ok d' ∧
    region_lasts (mc_data_dir m) (mc_store_count m) k d' c' g' r ∧
    touches (mc_data_dir m) (region_id r) d d'.
Proof.
  intros Hst Hr Hok Hlast Hsp. destruct (st_regions _ _ _ Hst r Hr) as (c & Hc & Hl). cbn [fst snd] in *.
  destruct (step_lasts _ _ _ k d c _ op Hl Hok Hlast) as (d' & c' & Hrun & Hl' & Hout).
  rewrite Hsp in Hl'. pose proof (lasts_disk _ _ _ _ _ _ Hl') as Hd'.
  exists d', c'. split_and!; [by apply on_cluster_run with (c := c)|done|done|by apply outside_touches].
Qed.

(** Everything but the region that took a step is where it was. *)
Lemma stored_update k d m g g' r d' c' :
  stored (S k) (d, m) g → r ∈ mc_regions m → touches (mc_data_dir m) (region_id r) d d' →
  region_lasts (mc_data_dir m) (mc_store_count m) k d' c' g' r →
  (∀ r', r' ∈ mc_regions m → r' ≠ r → shard r' g' = shard r' g) → unreserved g' →
  stored k (d', set_clusters (<[region_id r := c']> (mc_clusters m)) m) g'.
Proof.
  intros Hst Hr Ht Hl Hother Hun. pose proof Hst as [Hs Hd Hregs Hcat Hw Hlen Hn]. cbn [fst snd] in *.
  split; cbn [fst snd mc_regions mc_clusters mc_data_dir mc_store_count set_clusters]; try done.
  - eapply serves_update; [exact Hs|done|done|by eapply region_lasts_implements|done].
  - by apply Ht.
  - intros r' Hr'. destruct (decide (r' = r)) as [-> | Hne].
    { exists c'. by rewrite lookup_insert_eq. }
    assert (region_id r' ≠ region_id r) as Hid by (intros Heq; apply Hne; eapply same_id; [apply Hs|done..]).
    destruct (Hregs r' Hr') as (c & Hc & Hl'). exists c. rewrite lookup_insert_ne by done. split; [done|].
    eapply region_lasts_apart; [exact Ht|done|]. eapply region_lasts_map; [by apply Hother|].
    by apply region_lasts_less.
  - destruct Ht as [_ Ht]. by rewrite Ht by apply catalog_apart.
Qed.

(** ** Writes *)

Lemma write_stored k d m g r op ms :
  stored (S k) (d, m) g → r ∈ mc_regions m → batch_in r ms →
  Forall (λ x, reserved_key (mut_key x) = false) ms → (∀ sp, op_ok op sp) → lasting op →
  (∀ data X, spec_step op (mkRegionSpec data X) = mkRegionSpec (apply_batch data ms) X) →
  ∃ w', on_cluster (region_id r) (do_op op) (d, m) = (Ok tt, w') ∧ stored k w' (apply_batch g ms).
Proof.
  intros Hst Hr Hin Hms Hok Hlast Hsp. pose proof (st_serves _ _ _ Hst) as [Hp _ Hun _].
  destruct (region_step_lasts k d m g (apply_batch g ms) r op)
    as (d' & c' & Hrun & Hd' & Hl & Ht); [done|done|apply Hok|done|by rewrite Hsp, shard_batch|].
  eexists. split; [exact Hrun|]. eapply stored_update; [done|done|exact Ht|exact Hl| |by apply unreserved_batch].
  intros r' Hr' Hne. apply shard_batch_other. by apply (other_region_keys m r r' ms).
Qed.

(** What [regions_survive_restart] admits: no peer is removed and no key is empty. *)
Definition lasting_multi (op : multi_op) (m : MultiRegionCluster) : Prop :=
  match op with
  | MDelete k => k ≠ ""
  | MSplit id sk => (N.of_nat (length (mc_regions m)) + 1 < two64)%N
  | MRemovePeer _ _ => False
  | _ => True
  end.

Lemma Put_stored k d m g key v :
  stored (S k) (d, m) g → key ≠ "" → reserved_key key = false →
  ∃ w', Put key v (d, m) = (Ok tt, w') ∧ stored k w' (<[key := v]> g).
Proof.
  intros Hst Hne Hk. pose proof (st_serves _ _ _ Hst) as [Hp _ _ _]. cbn [snd] in Hp.
  destruct (region_of_key m key Hp) as (r & Hr & Hc).
  destruct (write_stored k d m g r (DoPut key v) [mkMutation kPut key v])
    as (w' & Hrun & Hst'); try done; try by repeat constructor.
  { intros sp. split; [done | by apply unreserved_user]. }
  exists w'. split; [|exact Hst']. unfold Put. by run_call ltac:(by apply (route_ok m key r d)).
Qed.

Lemma Delete_stored k d m g key :
  stored (S k) (d, m) g → key ≠ "" → reserved_key key = false →
  ∃ w', Delete key (d, m) = (Ok tt, w') ∧ stored k w' (delete key g).
Proof.
  intros Hst Hne Hk. pose proof (st_serves _ _ _ Hst) as [Hp _ _ _]. cbn [snd] in Hp.
  destruct (region_of_key m key Hp) as (r & Hr & Hc).
  destruct (write_stored k d m g r (DoDelete key) [mkMutation kDelete key ""])
    as (w' & Hrun & Hst'); try done; try by repeat constructor.
  { intros sp. by apply unreserved_user. }
  exists w'. split; [|exact Hst']. unfold Delete. by run_call ltac:(by apply (route_ok m key r d)).
Qed.

Lemma Batch_stored k d m g ms r :
  stored (S k) (d, m) g → batch_allowed ms → r ∈ mc_regions m → batch_in r ms →
  ∃ w', Batch ms (d, m) = (Ok tt, w') ∧ stored k w' (apply_batch g ms).
Proof.
  intros Hst Hok Hr Hin. pose proof (st_serves _ _ _ Hst) as [Hp _ _ _]. cbn [snd] in Hp.
  destruct ms as [|x ms]; [exists (d, m); split; [done | by apply stored_less]|].
  destruct (write_stored k d m g r (DoBatch (x :: ms)) (x :: ms)) as (w' & Hrun & Hst'); try done.
  { apply Hok. }
  { intros sp. by apply batch_op_ok. }
  exists w'. split; [|exact Hst']. unfold Batch, the_multi. pose proof Hin as [Hx _]%list.Forall_cons.
  run_call ltac:(by apply (route_ok m (mut_key x) r d)).
  run. cbn [snd]. by rewrite crosses_regions_false.
Qed.

(** ** The region table *)

(** Once the catalog is written, what the table says is on disk. *)
Lemma stored_persist k d m g :
  serves k m g → disk_ok d →
  (∀ r, r ∈ mc_regions m → ∃ c, mc_clusters m !! region_id r = Some c ∧
    region_lasts (mc_data_dir m) (mc_store_count m) k d c g r) →
  Forall region_ok (mc_regions m) → (N.of_nat (length (mc_regions m)) < two64)%N →
  (N.of_nat (mc_store_count m) < two64)%N →
  ∃ d', PersistRegionCatalog (d, m) = (Ok tt, (d', m)) ∧ stored k (d', m) g.
Proof.
  intros Hs Hd Hregs Hw Hlen Hn. eexists. split.
  - apply PersistRegionCatalog_run; [apply Hs | done].
  - split; cbn [fst snd]; try done; [|by cbn [files set_files]; unfold overwrite; rewrite lookup_insert_eq].
    intros r Hr. destruct (Hregs r Hr) as (c & Hc & Hl). exists c. split; [done|].
    eapply lasts_frame; [done| |exact Hl]. intros id. cbn [fst files set_files].
    unfold overwrite. rewrite lookup_insert_ne; [done|]. intros Heq. pose proof (catalog_apart (mc_data_dir m) (region_id r)) as Ha.
    rewrite Heq, store_log_below in Ha by apply region_dir_not_empty. done.
Qed.

Lemma change_region_forall (P : RegionInfo → Prop) id f rs :
  (∀ r, P r → P (f r)) → Forall P rs → Forall P (change_region id f rs).
Proof.
  intros Hf Hrs. induction Hrs as [|r rs Hr Hrs IH]; [constructor|]. cbn [change_region].
  case_decide; constructor; auto.
Qed.

Lemma change_region_length id f rs : length (change_region id f rs) = length rs.
Proof. induction rs as [|r rs IH]; [done|]. cbn [change_region]. case_decide; cbn [length]; congruence. Qed.

Lemma TransferLeader_stored k d m g r p :
  stored (S k) (d, m) g → r ∈ mc_regions m → member m (region_id r) p →
  ∃ w', TransferLeader (region_id r) p (d, m) = (Ok tt, w') ∧ stored k w' g.
Proof.
  intros Hst Hr (c0 & Hc0 & Hp). destruct (st_regions _ _ _ Hst r Hr) as (c & Hc & Hl). cbn [fst snd] in *.
  rewrite Hc in Hc0. injection Hc0 as <-.
  assert (p ∈ everyone (mc_store_count m)) as Hmem.
  { destruct Hl as (t & log & Hsr & _). by eapply lasts_members in Hp; [|exact Hsr]. }
  destruct (region_step_lasts k d m g g r (DoTransfer p)) as (d1 & c1 & Hrun & Hd1 & Hl1 & Ht); [done..|].
  pose proof (stored_update k d m g g r d1 c1 Hst Hr Ht Hl1) as [Hs1 _ Hregs1 _ Hw1 Hlen1 Hn1];
    [done|apply Hst|]. cbn [fst snd] in *.
  set (m1 := set_clusters _ m) in *. set (m2 := set_regions (change_region (region_id r) (led_by p) (mc_regions m1)) m1).
  destruct (stored_persist k d1 m2 g) as (d2 & Hrun2 & Hst2); cbn [m2 set_regions mc_regions mc_clusters mc_data_dir mc_store_count].
  - by apply serves_relabel.
  - done.
  - intros r' Hr'. apply change_region_in in Hr' as [[Hr' _]|(x & Hx & _ & ->)];
      [by apply Hregs1| |done|apply Hs1]. destruct (Hregs1 x Hx) as (cx & Hcx & Hlx).
    exists cx. split; [done|]. by eapply region_lasts_range.
  - apply change_region_forall; [|done]. intros x (?&?&?&_&?&?). split_and!; try done.
    unfold everyone in Hmem. rewrite elem_of_list_to_set, first_ids_from, elem_of_ids_from in Hmem.
    change (mc_store_count m1) with (mc_store_count m) in Hn1. cbn [led_by leader_peer_id]. lia.
  - by rewrite change_region_length.
  - done.
  - exists (d2, m2). split; [|exact Hst2]. unfold TransferLeader, change_member, the_multi, FindRegionCluster.
    run. cbn [snd]. rewrite Hc, decide_False by done. run_call ltac:(exact Hrun).
    unfold update_multi. run. cbn [fst snd]. exact Hrun2.
Qed.

(** ** Splits *)

Lemma next_free_fits rs :
  (∀ r, r ∈ rs → (region_id r + 1 < two64)%N) → (next_free_region_id rs < two64)%N.
Proof.
  intros Hrs. unfold next_free_region_id.
  assert (∀ l next, (next < two64)%N → (∀ x, x ∈ l → (region_id x + 1 < two64)%N) →
    (foldl (λ next r, N.max next (u64 (region_id r + 1))) next l < two64)%N) as Hfold; [|by apply Hfold].
  induction l as [|x l IH]; intros next Hn Hl; [done|]. cbn [foldl].
  pose proof (Hl x (list_elem_of_here _ _)) as Hx. rewrite u64_small by done.
  apply IH; [lia|]. intros y Hy. by apply Hl, list_elem_of_further.
Qed.

Lemma left_half_ok r sk : region_ok r → region_ok (left_half r sk).
Proof. intros (?&?&?&?&?&?). split_and!; try done. apply u64_lt. Qed.

Lemma right_half_ok r sk rid : region_ok r → (rid < two64)%N → region_ok (right_half r sk rid).
Proof.
  intros (?&?&?&?&Hlen&Hps) Hrid. unfold right_half. split_and!; cbn; try done.
  - apply u64_lt.
  - destruct (peers r); cbn; [done | apply u64_lt].
  - by rewrite length_fmap.
  - apply list.Forall_fmap. eapply list.Forall_impl; [exact Hps|]. intros p [_ ?]. split; [apply u64_lt | done].
Qed.

(** The new cluster of a split. *)
Lemma new_region_lasts k d m rid :
  disk_ok d → mc_store_count m ≠ 0 → (N.of_nat (mc_store_count m) < two64)%N → (rid < two64)%N →
  (N.of_nat k + 1 < two64)%N →
  ∃ d' c, on_new_cluster new_cluster (Cluster.Bootstrap (region_dir (mc_data_dir m) rid)
      (mc_store_count m) rid true) (d, m) = (Ok c, (d', m)) ∧
    lasts (region_dir (mc_data_dir m) rid) (mc_store_count m) rid k (d', c)
      (mkRegionSpec ∅ (everyone (mc_store_count m))) ∧
    touches (mc_data_dir m) rid d d'.
Proof.
  intros Hd Hn Hw Hrid Hk.
  destruct (first_lasts (region_dir (mc_data_dir m) rid) (mc_store_count m) rid k true d new_cluster)
    as (d' & c & Hrun & Hl & Hq); [done|apply region_dir_not_empty|done..|].
  exists d', c. split_and!; [by apply on_new_cluster_run|done|].
  split; [intros _; apply (lasts_disk _ _ _ _ _ _ Hl) | exact Hq].
Qed.

(** The two halves of a split, on disk. *)
Lemma halves_on_disk k d m g r sk rid :
  stored (S k) (d, m) g → r ∈ mc_regions m → split_key_ok r sk = true →
  (N.of_nat (size g) <= max_mutations)%N → (rid < two64)%N → region_id r ≠ rid →
  (N.of_nat k + 2 < two64)%N →
  ∃ d1 rc l d2 rc' d3 c',
    on_new_cluster new_cluster (Cluster.Bootstrap (region_dir (mc_data_dir m) rid)
      (mc_store_count m) rid true) (d, m) = (Ok rc, (d1, m)) ∧
    on_cluster (region_id r) (ExportRangeFromLeader sk (end_key r)) (d1, m) = (Ok l, (d1, m)) ∧
    on_new_cluster rc (Cluster.Batch (bootstrap_mutations l)) (d1, m) = (Ok rc', (d2, m)) ∧
    on_cluster (region_id r) (Cluster.Batch (migrated_deletes l)) (d2, m) =
      (Ok tt, (d3, set_clusters (<[region_id r := c']> (mc_clusters m)) m)) ∧
    region_lasts (mc_data_dir m) (mc_store_count m) k d3 rc' g (right_half r sk rid) ∧
    region_lasts (mc_data_dir m) (mc_store_count m) k d3 c' g (left_half r sk) ∧
    touches (mc_data_dir m) rid d d2 ∧ touches (mc_data_dir m) (region_id r) d2 d3.
Proof.
  intros Hst Hr Hk Hsize Hrid Hne Hbudget. destruct (st_regions _ _ _ Hst r Hr) as (c & Hc & Hl).
  pose proof Hst as [Hs Hd _ _ _ _ Hn]. cbn [fst snd] in *. pose proof Hs as [_ _ Hun Hcount].
  destruct (new_region_lasts (S k) d m rid) as (d1 & rc & Hboot & Hrc & Ht1); [done..|lia|].
  pose proof (region_lasts_apart _ _ _ _ _ _ _ _ _ Ht1 Hne Hl) as Hl1.
  destruct (export_run (S k) m g r c _ sk (end_key r) d1 Hs Hr Hc (region_lasts_implements _ _ _ _ _ _ _ Hl1))
    as (l & Hexp & Hnd & Hin).
  pose proof (λ sp, moved_batches_ok g r sk _ Hk Hun Hnd Hin sp Hsize) as Hok.
  destruct (step_lasts _ _ _ k d1 rc _ _ Hrc (proj1 (Hok _)) I) as (d2 & rc' & Hput & Hrc' & Ho2).
  pose proof (outside_touches _ _ _ _ Ho2 (lasts_disk _ _ _ _ _ _ Hrc')) as Ht2.
  pose proof (region_lasts_apart _ _ _ _ _ _ _ _ _ Ht2 Hne Hl1) as Hl2.
  destruct (step_lasts _ _ _ k d2 c _ _ Hl2 (proj2 (Hok _)) I) as (d3 & c' & Hdel & Hc' & Ho3).
  pose proof (outside_touches _ _ _ _ Ho3 (lasts_disk _ _ _ _ _ _ Hc')) as Ht3.
  cbn [do_op spec_step contents members] in *.
  rewrite (moved_right g r sk rid) in Hrc' by done. rewrite (moved_left g r sk) in Hc' by done.
  exists d1, rc, l, d2, rc', d3, c'. split_and!; [exact Hboot|exact Hexp| | | | | |exact Ht3].
  - by apply on_new_cluster_run, Hput.
  - by eapply on_cluster_run, Hdel.
  - eapply region_lasts_apart; [exact Ht3|by apply not_eq_sym|exact Hrc'].
  - exact Hc'.
  - etrans; [exact Ht1|exact Ht2].
Qed.

Lemma SplitRegion_stored k d m g r sk :
  stored (S k) (d, m) g → r ∈ mc_regions m → split_allowed m g r sk →
  (N.of_nat (length (mc_regions m)) + 1 < two64)%N → (N.of_nat k + 2 < two64)%N →
  ∃ halves w', SplitRegion (region_id r) sk (d, m) = (Ok halves, w') ∧ stored k w' g.
Proof.
  intros Hst Hr (Hk & Hsize & Hids) Hroom Hbudget. pose proof Hst as [Hs Hd Hregs _ Hw _ Hn].
  cbn [fst snd] in *. pose proof Hs as [Hp _ Hun Hcount].
  destruct (find_region_ok _ _ Hp Hr) as (i & Hfind & Hi).
  set (rid := next_free_region_id (mc_regions m)).
  assert (∀ x, x ∈ mc_regions m → (region_id x < rid)%N) as Hrid by (intros x Hx; by apply next_free_above).
  pose proof (next_free_fits _ Hids) as Hridw. fold rid in Hridw.
  destruct (halves_on_disk k d m g r sk rid) as
    (d1 & rc & l & d2 & rc' & d3 & c' & Hboot & Hexp & Hput & Hdel & Hright & Hleft & Ht2 & Ht3);
    [done..|by intros Heq; specialize (Hrid r Hr); lia|done|].
  set (m' := mkMulti (<[i := left_half r sk]> (mc_regions m) ++ [right_half r sk rid])
    (<[rid := rc']> (<[region_id r := c']> (mc_clusters m))) (mc_data_dir m) (mc_store_count m)).
  destruct (stored_persist k d3 m' g) as (d4 & Hpersist & Hst4); cbn [m' mc_regions mc_clusters mc_data_dir mc_store_count].
  - eapply serves_split; [exact Hs|exact Hi|exact Hk|exact Hrid|by eapply region_lasts_implements..].
  - by apply Ht3, Ht2.
  - intros x [-> | [-> | [Hx Hne]]]%split_table_in; [| | |done|done].
    + exists rc'. by rewrite lookup_insert_eq.
    + exists c'. cbn [left_half region_id]. rewrite lookup_insert_ne by (specialize (Hrid r Hr); lia).
      by rewrite lookup_insert_eq.
    + destruct (Hregs x Hx) as (cx & Hcx & Hlx). exists cx.
      assert (region_id x ≠ region_id r) as Hxr by (intros Heq; apply Hne; by eapply same_id).
      assert (region_id x ≠ rid) as Hxrid by (specialize (Hrid x Hx); lia).
      rewrite !lookup_insert_ne by congruence. split; [done|].
      eapply region_lasts_apart; [exact Ht3|done|]. eapply region_lasts_apart; [exact Ht2|done|].
      by apply region_lasts_less.
  - rewrite list.Forall_forall in Hw. apply list.Forall_app. split.
    + apply list.Forall_insert; [by apply list.Forall_forall|]. by apply left_half_ok, Hw.
    + apply list.Forall_singleton, right_half_ok; [by apply Hw|done].
  - rewrite length_app, length_insert. cbn [length]. lia.
  - done.
  - exists (left_half r sk, right_half r sk rid), (d4, m'). split; [|exact Hst4].
    unfold SplitRegion, the_multi, FindRegionCluster. run. cbn [snd]. rewrite Hfind, Hk. cbn [negb].
    destruct (Hregs r Hr) as (c & -> & _). rewrite decide_False by done. fold rid.
    run_call ltac:(exact Hboot). run_call ltac:(exact Hexp). run_call ltac:(exact Hput).
    run_call ltac:(exact Hdel). unfold update_multi. run. cbn [fst snd]. by run_call ltac:(exact Hpersist).
Qed.

Lemma multi_step_stored k op d m g :
  stored (S k) (d, m) g → multi_allowed op m g → lasting_multi op m → (N.of_nat k + 2 < two64)%N →
  ∃ w', do_multi op (d, m) = (Ok tt, w') ∧ stored k w' (multi_effect op g).
Proof.
  intros Hst Hok Hlast Hk. destruct op as [key v|key|ms|id sk|id p|id p]; cbn in Hok, Hlast |- *.
  - destruct Hok. by apply Put_stored.
  - by apply Delete_stored.
  - destruct Hok as (Hok & r & Hr & Hin). by eapply Batch_stored.
  - destruct Hok as (r & Hr & <- & Hok).
    destruct (SplitRegion_stored k d m g r sk Hst Hr Hok Hlast Hk) as (halves & w' & Hrun & Hst').
    exists w'. split; [by run_call ltac:(exact Hrun) | done].
  - destruct Hok as [(r & Hr & <-) Hmem]. by apply TransferLeader_stored.
  - done.
Qed.

(** * Starts *)

(** The clusters of a table are bootstrapped one after the other, each from what
    [P] says of its region on the disk to a state of [Q]. *)
Lemma bootstrap_regions_takes dir n reset (P : Disk → RegionInfo → Prop)
    (Q : Disk → SingleRegionCluster → RegionInfo → Prop) rs :
  (∀ j d d' r, touches dir j d d' → region_id r ≠ j → P d r → P d' r) →
  (∀ j d d' c r, touches dir j d d' → region_id r ≠ j → Q d c r → Q d' c r) →
  (∀ d r, P d r → ∃ d' c, Cluster.Bootstrap (region_dir dir (region_id r)) n (region_id r) reset
     (d, new_cluster) = (Ok tt, (d', c)) ∧ Q d' c r ∧ touches dir (region_id r) d d') →
  ∀ m d, mc_data_dir m = dir → NoDup (region_id <$> rs) → (∀ r, r ∈ rs → P d r) →
  ∃ d' cs, bootstrap_regions n reset rs (d, m) = (Ok tt, (d', set_clusters cs m)) ∧
    (∀ r, r ∈ rs → ∃ c, cs !! region_id r = Some c ∧ Q d' c r) ∧
    (∀ id, id ∉ region_id <$> rs → cs !! id = mc_clusters m !! id) ∧
    (∀ c r, region_id r ∉ region_id <$> rs → Q d c r → Q d' c r) ∧ (disk_ok d → disk_ok d').
Proof.
  intros HP HQ Hboot. induction rs as [|r rs IH]; intros m d Hdir Hnd Hrs; cbn [bootstrap_regions].
  { exists d, (mc_clusters m). split_and!; [by destruct m| |done|done|done]. by intros r ?%elem_of_nil. }
  csimpl in Hnd. apply list.NoDup_cons in Hnd as [Hr Hnd].
  destruct (Hboot d r (Hrs r (list_elem_of_here _ _))) as (d1 & c & Hrun & Hc & Ht).
  destruct (IH (set_clusters (<[region_id r := c]> (mc_clusters m)) m) d1)
    as (d2 & cs & Hrun2 & Hin & Hout & Hkeep & Hok); [done|done| |].
  { intros x Hx. eapply HP; [exact Ht| |by apply Hrs, list_elem_of_further].
    intros Heq. apply Hr. rewrite <-Heq. by apply list_elem_of_fmap_2. }
  exists d2, cs. split_and!.
  - unfold the_multi. run. cbn [snd]. rewrite Hdir. run_call ltac:(by apply on_new_cluster_run).
    unfold update_multi. run. cbn [fst snd]. exact Hrun2.
  - intros x [-> | Hx]%elem_of_cons; [|by apply Hin]. exists c. split; [|by apply Hkeep].
    rewrite Hout by done. cbn. by rewrite lookup_insert_eq.
  - intros id Hid. csimpl in Hid. apply not_elem_of_cons in Hid as [Hne Hid].
    rewrite Hout by done. cbn. by rewrite lookup_insert_ne.
  - intros c' x Hx HQx. csimpl in Hx. apply not_elem_of_cons in Hx as [Hne Hx].
    apply Hkeep; [done|]. by eapply HQ.
  - intros Hd. by apply Hok, Ht.
Qed.

(** The table of a start once its clusters are up. *)
Lemma stored_booted k d1 d2 rs cs dir n g :
  partition rs → dir ≠ "" → unreserved g → n ≠ 0 → (N.of_nat n < two64)%N →
  Forall region_ok rs → (N.of_nat (length rs) < two64)%N → disk_ok d1 → (disk_ok d1 → disk_ok d2) →
  (∀ r, r ∈ rs → ∃ c, cs !! region_id r = Some c ∧ region_lasts dir n k d2 c g r) →
  ∃ d', PersistRegionCatalog (d2, mkMulti rs cs dir n) = (Ok tt, (d', mkMulti rs cs dir n)) ∧
    stored k (d', mkMulti rs cs dir n) g.
Proof.
  intros Hp Hdir Hun Hn Hw Hok Hlen Hd1 Hd2 Hregs. apply stored_persist; try done; [|by apply Hd2].
  split; try done. intros r Hr. destruct (Hregs r Hr) as (c & Hc & Hl). exists c, (everyone n).
  split; [done | by eapply region_lasts_implements].
Qed.

(** A start on the directory of regions that are stored: the catalog tells the
    regions, whatever the caller says. *)
Lemma Bootstrap_stored_again k d m g rs0 m0 :
  stored (S k) (d, m) g → rs0 ≠ [] →
  ∃ w', Bootstrap (mc_data_dir m) (mc_store_count m) rs0 false (d, m0) = (Ok tt, w') ∧
    stored k w' g ∧ mc_data_dir w'.2 = mc_data_dir m ∧ mc_store_count w'.2 = mc_store_count m.
Proof.
  intros [Hs Hd Hregs Hcat Hw Hlen Hn] Hne. cbn [fst snd] in *. pose proof Hs as [Hp _ Hun Hcount Hdir].
  set (dir := mc_data_dir m) in *. set (n := mc_store_count m) in *.
  set (m1 := mkMulti (mc_regions m0) (mc_clusters m0) dir n).
  destruct (region_catalog_roundtrip d m m1 Hdir Hd Hw Hlen eq_refl) as (d0 & Hpersist & Hexists & Hload).
  assert (d0 = d) as ->.
  { rewrite PersistRegionCatalog_run in Hpersist by done.
    injection Hpersist as <-. unfold overwrite. destruct d as [fs faults]. unfold set_files. cbn [fst files] in *.
    f_equal. by apply insert_id. }
  set (m2 := mkMulti (mc_regions m) ∅ dir n).
  destruct (bootstrap_regions_takes dir n false (λ d r, ∃ c, region_lasts dir n (S k) d c g r)
    (λ d c r, region_lasts dir n k d c g r) (mc_regions m)) with (m := m2) (d := d)
    as (d2 & cs & Hrun & Hin & _ & _ & Hok).
  - intros j d1 d2 r Ht Hr (c & Hl). exists c. by eapply region_lasts_apart.
  - intros j d1 d2 c r Ht Hr. exact (region_lasts_apart _ _ _ _ _ _ _ _ _ Ht Hr).
  - intros d1 r (c & Hl). destruct (restart_lasts _ _ _ k d1 c new_cluster _ (region_dir_not_empty _ _) Hl)
      as (d2 & c' & Hrun & Hl' & Hout). exists d2, c'. split_and!; [done|done|].
    apply outside_touches; [exact Hout|]. apply (lasts_disk _ _ _ _ _ _ Hl').
  - done.
  - apply Hp.
  - intros r Hr. destruct (Hregs r Hr) as (c & _ & Hl). by exists c.
  - destruct (stored_booted k d d2 (mc_regions m) cs dir n g) as (d3 & Hrun3 & Hst3); [done..|].
    exists (d3, mkMulti (mc_regions m) cs dir n). split_and!; [|done|done|done].
    unfold Bootstrap, update_multi, the_multi. rewrite decide_False by done. run. cbn [fst snd].
    fold m1. run_call ltac:(by apply create_directories_throwing_ok). run_call ltac:(exact Hexists).
    run_call ltac:(exact Hload). run. cbn [fst snd set_regions set_clusters mc_regions mc_data_dir mc_store_count m1].
    run_call ltac:(exact Hrun). exact Hrun3.
Qed.

(** The first start, on a directory that is emptied or holds nothing. *)
Lemma Bootstrap_stored_first k dir n rs reset d m0 :
  partition rs → dir ≠ "" → Forall region_ok rs → (N.of_nat (length rs) < two64)%N → disk_ok d → n ≠ 0 →
  (N.of_nat n < two64)%N → (N.of_nat k + 1 < two64)%N →
  (reset = false → files d !! region_catalog_path dir = None ∧
     ∀ i id, no_files (region_dir dir i) id d) →
  ∃ w', Bootstrap dir n rs reset (d, m0) = (Ok tt, w') ∧ stored k w' ∅ ∧
    mc_data_dir w'.2 = dir ∧ mc_store_count w'.2 = n.
Proof.
  intros Hp Hdir Hok Hlen Hd Hn Hw Hk Hempty.
  assert (rs ≠ []) as Hne by (intros ->; destruct (pa_cover _ Hp "") as (r & ?%elem_of_nil & _); done).
  set (d1 := if reset then set_files (filter (λ f, below dir f.1 = false)) d else d).
  assert (disk_ok d1) as Hd1 by by destruct reset.
  destruct (bootstrap_regions_takes dir n reset
    (λ d r, disk_ok d ∧ (region_id r < two64)%N ∧ (reset = false → ∀ id, no_files (region_dir dir (region_id r)) id d))
    (λ d c r, region_lasts dir n k d c ∅ r) rs) with (m := mkMulti rs ∅ dir n) (d := d1)
    as (d2 & cs & Hrun & Hin & _ & _ & Hok2).
  - intros j d2 d3 r [Hdk Hf] Hj (Hd2 & Hrw & Hno). split_and!; [by apply Hdk|done|].
    intros Hreset id. unfold no_files. fold (store_log (region_dir dir (region_id r)) id).
    rewrite Hf by by apply other_region_log. by apply Hno.
  - intros j d2 d3 c r Ht Hr. exact (region_lasts_apart _ _ _ _ _ _ _ _ _ Ht Hr).
  - intros d2 r (Hd2 & Hrw & Hno).
    destruct (first_lasts (region_dir dir (region_id r)) n (region_id r) k reset d2 new_cluster)
      as (d3 & c & Hrun & Hl & Hq); [done|apply region_dir_not_empty|done..|].
    exists d3, c. split_and!; [done|by unfold region_lasts; rewrite shard_empty|].
    split; [intros _; apply (lasts_disk _ _ _ _ _ _ Hl)|exact Hq].
  - done.
  - apply Hp.
  - intros r Hr. rewrite list.Forall_forall in Hok. split_and!; [done|by apply Hok|].
    intros Hreset. unfold d1. rewrite Hreset. by apply Hempty.
  - destruct (stored_booted k d1 d2 rs cs dir n ∅) as (d3 & Hrun3 & Hst3); try done.
    exists (d3, mkMulti rs cs dir n). split_and!; [|done|done|done].
    unfold Bootstrap, update_multi, the_multi. rewrite decide_False by done. run. cbn [fst snd].
    assert ((if reset then remove_all dir else mret tt) (d, mkMulti (mc_regions m0) (mc_clusters m0) dir n) =
      (Ok tt, (d1, mkMulti (mc_regions m0) (mc_clusters m0) dir n))) as Hremove
      by (unfold d1; destruct reset; [by apply remove_all_ok|done]).
    run_call ltac:(exact Hremove). run_call ltac:(by apply create_directories_throwing_ok).
    assert ((if reset then mret false else RegionCatalogExists) (d1, mkMulti (mc_regions m0) (mc_clusters m0) dir n) =
      (Ok false, (d1, mkMulti (mc_regions m0) (mc_clusters m0) dir n))) as Hexists.
    { unfold d1. destruct reset; [done|]. unfold RegionCatalogExists.
      run_call ltac:(by apply io_throwing_ok). unfold gets. cbn [fst snd mc_data_dir].
      by rewrite (proj1 (Hempty eq_refl)). }
    run_call ltac:(exact Hexists). run. cbn [fst snd set_regions set_clusters mc_regions mc_data_dir mc_store_count].
    run_call ltac:(exact Hrun). exact Hrun3.
Qed.

(** * Regions through restarts *)

(** The directory and the number of stores of the process, which its operations
    leave alone. *)
Definition place (w : MultiW) : string * nat := (mc_data_dir w.2, mc_store_count w.2).
Definition stays {A} (f : IO MultiW A) : Prop := ∀ w, place (f w).2 = place w.

Create HintDb stays.

Lemma stays_bind {A B} (m : IO MultiW A) (f : A → IO MultiW B) :
  stays m → (∀ a, stays (f a)) → stays (m ≫= f).
Proof.
  intros Hm Hf w. unfold mbind, M_bind. specialize (Hm w).
  destruct (m w) as [[a| |] w']; [|done..]. cbn [snd] in Hm. by rewrite Hf.
Qed.

Lemma stays_ret {A} (a : A) : stays (mret a).
Proof. by intros w. Qed.
Lemma stays_fail {A} st : stays (fail st : IO MultiW A).
Proof. by intros w. Qed.
Lemma stays_gets {A} (f : MultiW → A) : stays (gets f).
Proof. by intros w. Qed.
Lemma stays_on_cluster {A} id (f : IO ClusterW A) : stays (on_cluster id f).
Proof. intros [d m]. unfold on_cluster. case_match; [|done]. by destruct (f _) as [? []]. Qed.
Lemma stays_on_new_cluster c f : stays (on_new_cluster c f).
Proof. intros [d m]. unfold on_new_cluster. by destruct (f _) as [? []]. Qed.
Lemma stays_set_regions f : stays (update_multi (λ m, set_regions (f m) m)).
Proof. by intros w. Qed.
Lemma stays_set_both f h : stays (update_multi (λ m, set_regions (f m) (set_clusters (h m) m))).
Proof. by intros w. Qed.

#[export] Hint Resolve stays_bind stays_ret stays_fail stays_gets stays_on_cluster
  stays_on_new_cluster stays_set_regions stays_set_both : stays.

Lemma stays_io : stays io.
Proof. intros [d m]. unfold io. by case_match. Qed.
Lemma stays_throw {A} f : stays (throw f : IO MultiW A).
Proof. by intros w. Qed.
Lemma stays_files f : stays (modify_files f).
Proof. by intros [d m]. Qed.

#[export] Hint Resolve stays_io stays_throw stays_files : stays.

(** Walks through the steps of an operation. *)
Ltac stays := repeat (intros; first [solve [auto 2 with stays] | apply stays_bind | case_match]).

Lemma stays_do_multi op : stays (do_multi op).
Proof.
  assert (stays PersistRegionCatalog)
    by (unfold PersistRegionCatalog, the_multi, create_directories_throwing, io_throwing, io_or,
          write_unchecked, write_text; stays).
  assert (∀ key, stays (route key)) by (unfold route, the_multi; stays).
  destruct op; cbn [do_multi]; unfold Put, Delete, Batch, SplitRegion, TransferLeader, RemovePeer,
    change_member, the_multi; stays.
Qed.

(** The states and maps after [j] operations and restarts; the table [rs] a
    restart is given is the caller's guess. *)
Inductive life (dir : string) (n : nat) (start : MultiW) : nat → MultiW → DataMap → Prop :=
  | life_start : life dir n start 0 start ∅
  | life_step j w g op : life dir n start j w g → multi_allowed op w.2 g → lasting_multi op w.2 →
      life dir n start (S j) (do_multi op w).2 (multi_effect op g)
  | life_restart j w g rs : life dir n start j w g → rs ≠ [] →
      life dir n start (S j) (Bootstrap dir n rs false (w.1, new_multi)).2 g.

Lemma life_stored dir n start j w g : ∀ k,
  life dir n start j w g → stored (j + k) start ∅ →
  mc_data_dir start.2 = dir → mc_store_count start.2 = n → (N.of_nat (j + k) + 2 < two64)%N →
  stored k w g ∧ mc_data_dir w.2 = dir ∧ mc_store_count w.2 = n.
Proof.
  intros k Hl. revert k. induction Hl as [|j w g op Hl IH Hok Hlast|j w g rs Hl IH Hne];
    intros k Hst Hdir Hn Hk; [done| |].
  - destruct (IH (S k)) as (Hst1 & Hdir1 & Hn1); [by rewrite Nat.add_succ_r|done|done|lia|].
    destruct w as [d m]. cbn [fst snd] in *.
    destruct (multi_step_stored k op d m g Hst1 Hok Hlast) as (w' & Hrun & Hst'); [lia|].
    pose proof (stays_do_multi op (d, m)) as Hplace. rewrite Hrun in *.
    injection Hplace as Hd Hc. cbn [snd] in *. by rewrite Hd, Hc.
  - destruct (IH (S k)) as (Hst1 & Hdir1 & Hn1); [by rewrite Nat.add_succ_r|done|done|lia|].
    destruct w as [d m]. cbn [fst snd] in *.
    destruct (Bootstrap_stored_again k d m g rs new_multi Hst1 Hne) as (w' & Hrun & Hst' & Hd & Hc).
    rewrite Hdir1, Hn1 in *. by rewrite Hrun.
Qed.

(** C6: Restarts are invisible. Bootstrapped on a named directory that is empty or
    that it empties, with any regions that partition the key space, and after any
    history of allowed operations that last ([multi_allowed], [lasting_multi]: puts,
    deletes and single-region batches of non-empty keys the program does not use
    itself, splits, leader transfers) and of stops of the process, each followed by a start on the same directory with whatever
    region table the caller has: every read of an unreserved key, linearizable or
    eventual, answers from the one map the writes describe, the regions, those
    made by splits included, still partition the key space, every further allowed
    operation succeeds, and so does a further start. *)
Theorem regions_survive_restart dir n rs reset d m0 j w g :
  partition rs → dir ≠ "" → Forall region_ok rs → (N.of_nat (length rs) < two64)%N → disk_ok d → n ≠ 0 →
  (N.of_nat n < two64)%N → (N.of_nat j + 3 < two64)%N →
  (reset = false → files d !! region_catalog_path dir = None ∧
     ∀ i id, no_files (region_dir dir i) id d) →
  let boot := Bootstrap dir n rs reset (d, m0) in
  life dir n boot.2 j w g →
  boot.1 = Ok tt ∧
  (∀ key consistency, reserved_key key = false →
     (Get key consistency w).1 =
     match g !! key with Some v => Ok v | None => Err (key_not_found key) end) ∧
  partition (mc_regions w.2) ∧
  (∀ op, multi_allowed op w.2 g → lasting_multi op w.2 → (do_multi op w).1 = Ok tt) ∧
  (∀ rs', rs' ≠ [] → (Bootstrap dir n rs' false (w.1, new_multi)).1 = Ok tt).
Proof.
  intros Hp Hne Hok Hlen Hd Hn Hw Hj Hempty boot Hlife.
  destruct (Bootstrap_stored_first (j + 1) dir n rs reset d m0) as (w0 & Hrun & Hst & Hdir & Hcount);
    [done..|lia|done|].
  unfold boot in *. rewrite Hrun in *. cbn [fst snd] in *.
  destruct (life_stored dir n w0 j w g 1 Hlife Hst Hdir Hcount) as (Hst' & <- & <-); [lia|].
  destruct w as [dw mw]. cbn [fst snd] in *. split_and!; [done| | | |].
  - intros key consistency Hk. by rewrite (Get_serves 1 mw g) by (done || apply Hst').
  - apply Hst'.
  - intros op Hop Hlast. by destruct (multi_step_stored 0 op dw mw g Hst' Hop Hlast) as (w' & -> & _).
  - intros rs' Hrs'. by destruct (Bootstrap_stored_again 0 dw mw g rs' new_multi Hst' Hrs') as (w' & -> & _).
Qed.

(** A history with a restart behind every second step. *)
Fixpoint live_on (ops : list multi_op) (w : MultiW) : MultiW :=
  match ops with
  | [] => w
  | op :: rest => live_on rest (Bootstrap "data" 3 [whole_space] false ((do_multi op w).2.1, new_multi)).2
  end.
Fixpoint all_lasting (ops : list multi_op) (w : MultiW) (g : DataMap) : Prop :=
  match ops with
  | [] => True
  | op :: rest => multi_allowed op w.2 g ∧ lasting_multi op w.2 ∧
      all_lasting rest (live_on [op] w) (multi_effect op g)
  end.

Lemma live_on_life start ops : ∀ n w g,
  life "data" 3 start n w g → all_lasting ops w g →
  life "data" 3 start (n + 2 * length ops) (live_on ops w) (effects ops g).
Proof.
  induction ops as [|op ops IH]; intros n w g Hh Hok; cbn [length live_on effects].
  { by rewrite Nat.add_0_r. }
  destruct Hok as (Hop & Hlast & Hrest).
  replace (n + 2 * S (length ops)) with (S (S n) + 2 * length ops) by lia.
  apply IH; [|exact Hrest]. apply life_restart; [|done]. by apply life_step.
Qed.

Definition first_boot : MultiW := (Bootstrap "data" 3 [whole_space] false (mkDisk ∅ [], new_multi)).2.
Definition restarted_multi : MultiW := live_on demo_history first_boot.

Lemma restarted_multi_life : life "data" 3 first_boot 10 restarted_multi demo_map.
Proof.
  apply (live_on_life first_boot demo_history 0); [apply life_start|].
  split; [split; [discriminate | reflexivity]|split; [exact I|]].
  split; [split; [discriminate | reflexivity]|split; [exact I|]].
  split; [apply split_whole_space; [vm_compute; reflexivity | discriminate | vm_compute; lia]|].
  split; [vm_compute; reflexivity|].
  split; [split; [discriminate | reflexivity]|split; [exact I|]].
  split; [reflexivity | split; [discriminate | exact I]].
Qed.

Lemma regions_survive_restart_witness :
  (Get "melon" kLinearizable restarted_multi).1 = Ok "3" ∧
  (Get "pear" kEventual restarted_multi).1 = Err (key_not_found "pear") ∧
  (Bootstrap "data" 3 [whole_space] false (restarted_multi.1, new_multi)).1 = Ok tt.
Proof.
  destruct (regions_survive_restart "data" 3 [whole_space] false (mkDisk ∅ []) new_multi 10 restarted_multi
    demo_map whole_space_partition) as (_ & Hget & _ & _ & Hboot);
    [discriminate | by repeat constructor | reflexivity | reflexivity | discriminate | reflexivity | reflexivity
    | intros _; split; [reflexivity | intros i id; apply lookup_empty] | exact restarted_multi_life |].
  split_and!; [rewrite (Hget "melon" kLinearizable eq_refl) | rewrite (Hget "pear" kEventual eq_refl)
    | by apply Hboot]; vm_compute; reflexivity.
Defined.
