(* ===== verification/Gateway.v ===== *)
(** The in-process front end: the route cache of src/gateway/route_cache.cpp,
    the gateway of src/gateway/gateway_server.cpp over a placement driver and
    one or several regions, and the client of src/client/rstone_client.cpp. *)

From S2P Require Import Prelude Types Text Codec Engine Raft Cluster Multi Pd.

(** * Route cache *)

Record RouteEntry := mkRoute {
  re_region : RegionInfo;
  re_leader_store : StoreInfo;
  re_last_update_ms : Z;
}.

Definition RouteCache : Type := gmap N RouteEntry.

Definition cache_put (entry : RouteEntry) (cache : RouteCache) : RouteCache :=
  <[region_id (re_region entry) := entry]> cache.
Definition cache_get (key : string) (cache : RouteCache) : option RouteEntry :=
  snd <$> List.find (λ kv : N * RouteEntry, ContainsKey (re_region kv.2) key) (kvs cache).
Definition Invalidate (id : N) (cache : RouteCache) : RouteCache := delete id cache.
Definition cache_clear : RouteCache := ∅.

(** * Gateway *)

(** The objects behind the three pointers, [None] for a null one. *)
Record GatewayServer := mkGateway {
  gw_pd : option PdServer;
  gw_cluster : option SingleRegionCluster;
  gw_multi : option MultiRegionCluster;
  gw_cache : RouteCache;
}.

Definition gateway_over_cluster (pd : option PdServer) (c : option SingleRegionCluster) :
    GatewayServer := mkGateway pd c None ∅.
Definition gateway_over_regions (pd : option PdServer) (m : option MultiRegionCluster) :
    GatewayServer := mkGateway pd None m ∅.

Abbreviation GatewayW := (Disk * GatewayServer)%type.

Definition the_gateway : IO GatewayW GatewayServer := gets snd.
Definition set_cache (cache : RouteCache) (w : GatewayW) : GatewayW :=
  (w.1, mkGateway (gw_pd w.2) (gw_cluster w.2) (gw_multi w.2) cache).

(** Calls through [cluster_] and [multi_cluster_]. *)
Definition on_single {A} (f : IO ClusterW A) : IO GatewayW A := λ '(d, g),
  match gw_cluster g with
  | None => (Fault Undefined, (d, g))
  | Some c =>
      let '(r, (d', c')) := f (d, c) in
      (r, (d', mkGateway (gw_pd g) (Some c') (gw_multi g) (gw_cache g)))
  end.
Definition on_regions {A} (m : MultiRegionCluster) (f : IO MultiW A) : IO GatewayW A :=
  λ '(d, g),
  let '(r, (d', m')) := f (d, m) in
  (r, (d', mkGateway (gw_pd g) (gw_cluster g) (Some m') (gw_cache g))).

Definition ResolveRoute (key : string) : IO GatewayW RouteEntry :=
  g ← the_gateway;
  match gw_pd g, gw_cluster g, gw_multi g with
  | None, _, _ | _, None, None => fail (InvalidArgument "gateway is not initialized")
  | Some pd, _, _ =>
      match cache_get key (gw_cache g) with
      | Some cached => mret cached
      | None =>
          match GetRegionByKey (metadata_ pd) key with
          | None => fail (mkStatus kRegionNotFound "region not found for key")
          | Some region =>
              match GetRegionLeaderStore (metadata_ pd) region with
              | None => fail (mkStatus kNotLeader "region leader store not found")
              | Some leader_store =>
                  let entry := mkRoute region leader_store 0 in
                  _ ← modify (set_cache (cache_put entry (gw_cache g)));
                  mret entry
              end
          end
      end
  end.

(** [multi_cluster_] when it is set, else [cluster_]. *)
Definition on_backend {A} (single : IO ClusterW A) (multi : IO MultiW A) : IO GatewayW A :=
  g ← the_gateway;
  match gw_multi g with
  | Some m => on_regions m multi
  | None => on_single single
  end.

Definition Put (key value : string) : IO GatewayW unit :=
  _ ← ResolveRoute key;
  on_backend (Cluster.Put key value) (Multi.Put key value).

Definition Delete (key : string) : IO GatewayW unit :=
  _ ← ResolveRoute key;
  on_backend (Cluster.Delete key) (Multi.Delete key).

(** The routes of the batch's keys, each in the region [id]. *)
Fixpoint same_route (id : N) (ms : list KvMutation) : IO GatewayW unit :=
  match ms with
  | [] => mret tt
  | m :: rest =>
      route ← ResolveRoute (mut_key m);
      if decide (region_id (re_region route) = id) then same_route id rest
      else fail (InvalidArgument "batch must target a single region")
  end.

Definition Batch (mutations : list KvMutation) : IO GatewayW unit :=
  match mutations with
  | [] => mret tt
  | first :: _ =>
      route ← ResolveRoute (mut_key first);
      _ ← same_route (region_id (re_region route)) mutations;
      on_backend (Cluster.Batch mutations) (Multi.Batch mutations)
  end.

(** The read of a single region, as in [MultiRegionCluster::Get]. *)
Definition single_get (key : string) (consistency : Consistency) : IO ClusterW string :=
  c ← the_cluster;
  if decide (consistency = kLinearizable) then
    match Leader c with
    | None => fail (mkStatus kNotLeader "no leader")
    | Some leader => at_store leader (Store_Get key)
    end
  else if decide (sc_stores c = []) then fail (Internal "no stores")
  else at_store 0 (Store_Get key).

Definition Get (key : string) (consistency : Consistency) : IO GatewayW string :=
  _ ← ResolveRoute key;
  on_backend (single_get key consistency) (Multi.Get key consistency).

(** * Client *)

(** [RStoneClient]: [None] is a null gateway. *)
Definition client_call {A} (f : IO GatewayW A) :
    Disk * option GatewayServer → res A * (Disk * option GatewayServer) := λ '(d, g),
  match g with
  | None => (Err (InvalidArgument "client has no gateway"), (d, g))
  | Some g => let '(r, (d', g')) := f (d, g) in (r, (d', Some g'))
  end.

Definition Client_Put (key value : string) := client_call (Put key value).
Definition Client_Delete (key : string) := client_call (Delete key).
Definition Client_Batch (mutations : list KvMutation) := client_call (Batch mutations).
Definition Client_GetAt (key : string) (consistency : Consistency) :=
  client_call (Get key consistency).
Definition Client_Get (key : string) := Client_GetAt key kLinearizable.
