(* ===== verification/GatewaySpec.v ===== *)
(** What a client of the in-process gateway can rely on: with a placement
    driver that knows the key space and regions that serve one map, reads return
    the last write, whatever routes the cache happens to hold. *)

From S2P Require Import Prelude Types Text Codec Engine Raft RaftStorage Keyspace Cluster ClusterSpec Region.
From S2P Require Import Multi MultiSpec MultiRegion Pd PdSpec PdSafety Gateway.

(** The cache answers with an entry whose region holds the key. *)
Lemma cache_get_sound key cache e :
  cache_get key cache = Some e →
  ContainsKey (re_region e) key = true ∧ ∃ id, cache !! id = Some e.
Proof.
  unfold cache_get. intros ([id x] & [Hx Hc]%find_Some_spec & ->)%fmap_Some. split; [done|].
  exists id. by apply elem_of_kvs.
Qed.

Section gateway.
Context (pd : PdServer) (Hpd : meta_ok (metadata_ pd)) (Hboot : ListRegions (metadata_ pd) ≠ []).

Lemma ResolveRoute_ok key d m cache :
  ∃ e cache', ResolveRoute key (d, mkGateway (Some pd) None (Some m) cache) =
    (Ok e, (d, mkGateway (Some pd) None (Some m) cache')) ∧ ContainsKey (re_region e) key = true.
Proof.
  unfold ResolveRoute, the_gateway. run. cbn [snd gw_pd gw_cluster gw_multi gw_cache].
  destruct (cache_get key cache) as [e|] eqn:Hget.
  { exists e, cache. split; [done|]. by apply cache_get_sound in Hget as [? _]. }
  destruct (key_has_region _ key Hpd Hboot) as (r & -> & Hr & Hc).
  destruct (leader_store_known _ _ Hpd Hr) as (p & s & _ & -> & _). run.
  by eexists _, _.
Qed.

Lemma on_backend_multi {A} (single : IO ClusterW A) (multi : IO MultiW A) d m cache r d' m' :
  multi (d, m) = (r, (d', m')) →
  on_backend single multi (d, mkGateway (Some pd) None (Some m) cache) =
  (r, (d', mkGateway (Some pd) None (Some m') cache)).
Proof.
  intros Hrun. unfold on_backend, the_gateway. run. cbn [snd gw_multi].
  unfold on_regions. by rewrite Hrun.
Qed.
End gateway.

(** * Client sessions *)

Inductive client_op :=
  | CPut (key value : string)
  | CDelete (key : string)
  | CGet (key : string) (consistency : Consistency).

(** The operations of the sessions below: no key is the program's own and no put
    is of the empty key. Nothing in the client, the gateway or the store refuses
    the others: a reserved key reads and overwrites the program's own records, and a
    put of the empty key stores its value as a key (see
    [empty_key_put_stores_value_as_key]). *)
Definition session_ok (op : client_op) : Prop :=
  match op with
  | CPut k _ => k ≠ "" ∧ reserved_key k = false
  | CDelete k => reserved_key k = false
  | CGet k _ => reserved_key k = false
  end.

(** What the client sees: the value of a read, nothing of a write. *)
Definition observe {A} (f : A → option string) (r : res A) : res (option string) := f <$> r.

Definition client_step (op : client_op) (w : Disk * option GatewayServer) :
    res (option string) * (Disk * option GatewayServer) :=
  match op with
  | CPut k v => let '(r, w') := Client_Put k v w in (observe (λ _, None) r, w')
  | CDelete k => let '(r, w') := Client_Delete k w in (observe (λ _, None) r, w')
  | CGet k c => let '(r, w') := Client_GetAt k c w in (observe Some r, w')
  end.

Fixpoint session (ops : list client_op) (w : Disk * option GatewayServer) :
    list (res (option string)) :=
  match ops with
  | [] => []
  | op :: rest => let '(r, w') := client_step op w in r :: session rest w'
  end.

(** The same on one map. *)
Definition spec_client_step (op : client_op) (g : DataMap) : res (option string) * DataMap :=
  match op with
  | CPut k v => (Ok None, <[k := v]> g)
  | CDelete k => (Ok None, delete k g)
  | CGet k _ =>
      (match g !! k with Some v => Ok (Some v) | None => Err (key_not_found k) end, g)
  end.

Fixpoint spec_session (ops : list client_op) (g : DataMap) : list (res (option string)) :=
  match ops with
  | [] => []
  | op :: rest => let '(r, g') := spec_client_step op g in r :: spec_session rest g'
  end.

(** One step of a client over regions that serve [g]. *)
Lemma client_step_serves pd op k d m cache g :
  meta_ok (metadata_ pd) → ListRegions (metadata_ pd) ≠ [] → session_ok op →
  serves (S k) m g → disk_ok d →
  ∃ d' m' cache',
    client_step op (d, Some (mkGateway (Some pd) None (Some m) cache)) =
      ((spec_client_step op g).1, (d', Some (mkGateway (Some pd) None (Some m') cache'))) ∧
    disk_ok d' ∧ serves k m' (spec_client_step op g).2.
Proof.
  intros Hpd Hboot Hok Hs Hd.
  set (key := match op with CPut k _ => k | CDelete k => k | CGet k _ => k end).
  destruct (ResolveRoute_ok pd Hpd Hboot key d m cache) as (e & cache' & Hroute & _).
  destruct op as [key' v|key'|key' c]; cbn [session_ok key spec_client_step fst snd client_step] in *.
  - destruct Hok as [Hne Hk].
    destruct (Put_serves k m g key' v d Hs Hd Hne Hk) as (d' & m' & Hrun & Hd' & Hs').
    exists d', m', cache'. split; [|done]. unfold Client_Put, client_call, Put.
    run_call ltac:(exact Hroute). by rewrite (on_backend_multi pd _ _ _ _ _ _ _ _ Hrun).
  - destruct (Delete_serves k m g key' d Hs Hd Hok) as (d' & m' & Hrun & Hd' & Hs').
    exists d', m', cache'. split; [|done]. unfold Client_Delete, client_call, Delete.
    run_call ltac:(exact Hroute). by rewrite (on_backend_multi pd _ _ _ _ _ _ _ _ Hrun).
  - pose proof (Get_serves (S k) m g key' c d Hs Hok) as Hrun.
    exists d, m, cache'. split_and!; [|done|by apply serves_less].
    unfold Client_GetAt, client_call, Get. run_call ltac:(exact Hroute).
    rewrite (on_backend_multi pd _ _ _ _ _ _ _ _ Hrun). by destruct (g !! key').
Qed.

Lemma session_serves pd ops : ∀ k d m cache g,
  meta_ok (metadata_ pd) → ListRegions (metadata_ pd) ≠ [] → Forall session_ok ops →
  serves (length ops + k) m g → disk_ok d →
  session ops (d, Some (mkGateway (Some pd) None (Some m) cache)) = spec_session ops g.
Proof.
  induction ops as [|op ops IH]; intros k d m cache g Hpd Hboot Hok Hs Hd; [done|].
  apply list.Forall_cons in Hok as [Hop Hok]. cbn [session spec_session length] in *.
  destruct (client_step_serves pd op (length ops + k) d m cache g Hpd Hboot Hop Hs Hd)
    as (d' & m' & cache' & -> & Hd' & Hs').
  destruct (spec_client_step op g) as [r g']. f_equal. by eapply IH.
Qed.

(** C28: A client reads what it wrote, as long as it keeps off the program's own
    keys (no prefix [raft/], [region/], [pd/] or [local/]) and does not put the empty
    key. Over a placement driver with any history that has bootstrapped, and regions
    with any history, a session of such puts, deletes and reads through the gateway
    returns, operation by operation, what a single map returns, for any contents of
    the route cache: a stale route never changes an answer. *)
Theorem client_session_is_one_map wpd dir n rs d m0 j w g cache ops :
  pd_reachable wpd → ListRegions (metadata_ wpd.2) ≠ [] →
  partition rs → dir ≠ "" → disk_ok d → n ≠ 0 → (N.of_nat (j + length ops) + 2 < two64)%N →
  history (Multi.Bootstrap dir n rs true (d, m0)).2 j w g → Forall session_ok ops →
  session ops (w.1, Some (mkGateway (Some wpd.2) None (Some w.2) cache)) = spec_session ops g.
Proof.
  intros Hpd%reachable_meta_ok Hboot Hp Hdir Hd Hn Hj Hh Hok. destruct w as [dw mw].
  destruct (Bootstrap_serves (j + length ops) dir n rs d m0 Hp Hdir Hd Hn)
    as (d' & m' & Hrun & Hd' & Hs & _); [lia|].
  rewrite Hrun in Hh. destruct (history_serves _ _ _ _ (length ops) Hh Hd' Hs) as [Hdw Hsw]; [lia|].
  apply (session_serves wpd.2 ops 0); try done. by rewrite Nat.add_0_r.
Qed.

(** A cache that sends every key to a region and a store long gone. *)
Definition stale_cache : RouteCache := {[ 9%N := mkRoute
  (mkRegion 9 "" "" (mkEpoch 1 1) [] 7) default_store 0 ]}.
Definition demo_session : list client_op :=
  [CGet "melon" kEventual; CPut "kiwi" "4"; CGet "kiwi" kLinearizable; CDelete "melon";
   CGet "melon" kLinearizable].

Lemma client_session_is_one_map_witness :
  session demo_session (demo_multi.1,
    Some (mkGateway (Some demo_pd.2) None (Some demo_multi.2) stale_cache)) =
  [Ok (Some "3"); Ok None; Ok (Some "4"); Ok None; Err (key_not_found "melon")].
Proof.
  assert (ListRegions (metadata_ demo_pd.2) ≠ []) as Hboot by (by vm_compute).
  rewrite (client_session_is_one_map demo_pd "data" 3 [whole_space] (mkDisk ∅ []) new_multi 5
    demo_multi demo_map stale_cache demo_session demo_reachable Hboot whole_space_partition).
  - vm_compute. reflexivity.
  - discriminate.
  - reflexivity.
  - discriminate.
  - reflexivity.
  - exact demo_multi_history.
  - repeat constructor; discriminate.
Defined.
