(* ===== verification/PdService.v ===== *)
(** The RPC face of the placement driver, src/pd/pd_service.cpp: every handler
    decodes the payload, calls the server, and encodes the answer. *)

From S2P Require Import Prelude Types Text Codec Service Engine Pd PdSpec PdSafety PdCatalog.

(** Where a call has two arguments read by [std::stoull], the first one read
    decides which exception is thrown. *)

Definition HandleRegisterStore : RpcHandler PdW := λ request, respond request (
  fields ← payload_fields request;
  store ← RegisterStore (GetStoreFields fields "");
  mret (EncodeFields (PutStoreFields ∅ store ""))).

Definition HandleStoreHeartbeat : RpcHandler PdW := λ request, respond request (
  fields ← payload_fields request;
  store_id ← lift (field_u64 fields "store_id");
  now_ms ← lift (stoll (field fields "now_ms"));
  _ ← StoreHeartbeat store_id now_ms;
  mret "").

(** [std::stoull(fields["store" + std::to_string(i)])] for every index. *)
Fixpoint read_store_ids (fields : FieldMap) (ids : list N) : res (list N) :=
  match ids with
  | [] => Ok []
  | i :: rest =>
      id ← field_u64 fields (indexed "store" i);
      others ← read_store_ids fields rest;
      Ok (id :: others)
  end.

Definition HandleBootstrapDefaultRegion : RpcHandler PdW := λ request, respond request (
  fields ← payload_fields request;
  count ← lift (field_u64 fields "store_count");
  store_ids ← lift (read_store_ids fields (indices count));
  _ ← BootstrapDefaultRegion store_ids;
  mret "").

Definition HandleSplitRegion : RpcHandler PdW := λ request, respond request (
  fields ← payload_fields request;
  region_id ← lift (field_u64 fields "region_id");
  halves ← SplitRegion region_id (field fields "split_key");
  mret (EncodeFields (PutRegionFields (PutRegionFields ∅ halves.1 "left") halves.2 "right"))).

Definition HandleTransferLeader : RpcHandler PdW := λ request, respond request (
  fields ← payload_fields request;
  region_id ← lift (field_u64 fields "region_id");
  target ← lift (field_u64 fields "target_peer_id");
  _ ← TransferLeader region_id target;
  mret "").

Definition HandleAddPeer : RpcHandler PdW := λ request, respond request (
  fields ← payload_fields request;
  region_id ← lift (field_u64 fields "region_id");
  store_id ← lift (field_u64 fields "store_id");
  peer ← AddPeer region_id store_id;
  mret (EncodeFields (<["store_id" := to_string (peer_store_id peer)]>
    (<["peer_id" := to_string (peer_id peer)]> (∅ : FieldMap))))).

Definition HandleRemovePeer : RpcHandler PdW := λ request, respond request (
  fields ← payload_fields request;
  region_id ← lift (field_u64 fields "region_id");
  peer_id ← lift (field_u64 fields "peer_id");
  _ ← RemovePeer region_id peer_id;
  mret "").

Definition HandleGetRegionByKey : RpcHandler PdW := λ request, respond request (
  fields ← payload_fields request;
  m ← the_meta;
  match GetRegionByKey m (field fields "key") with
  | None => fail (mkStatus kRegionNotFound "region not found")
  | Some region =>
      let response_fields := PutRegionFields ∅ region "region" in
      mret (EncodeFields
        match GetRegionLeaderStore m region with
        | None => response_fields
        | Some leader_store => PutStoreFields response_fields leader_store "leader_store"
        end)
  end).

Definition HandleGetStore : RpcHandler PdW := λ request, respond request (
  fields ← payload_fields request;
  store_id ← lift (field_u64 fields "store_id");
  m ← the_meta;
  match GetStore m store_id with
  | None => fail (mkStatus kStoreNotFound "store not found")
  | Some store => mret (EncodeFields (PutStoreFields ∅ store ""))
  end).

Definition status_fields (m : PdMetadataStore) : FieldMap :=
  let stores := ListStores m in
  let regions := ListRegions m in
  let fields := <["store_count" := to_string (N.of_nat (length stores))]> (∅ : FieldMap) in
  let fields := <["region_count" := to_string (N.of_nat (length regions))]> fields in
  put_indexed PutRegionFields "region" 0 regions
    (put_indexed PutStoreFields "store" 0 stores fields).

Definition HandleStatus : RpcHandler PdW := λ request, respond request (
  m ← the_meta;
  mret (EncodeFields (status_fields m))).

Definition pd_handlers : list (string * RpcHandler PdW) :=
  [ ("pd.RegisterStore", HandleRegisterStore);
    ("pd.StoreHeartbeat", HandleStoreHeartbeat);
    ("pd.BootstrapDefaultRegion", HandleBootstrapDefaultRegion);
    ("pd.SplitRegion", HandleSplitRegion);
    ("pd.TransferLeader", HandleTransferLeader);
    ("pd.AddPeer", HandleAddPeer);
    ("pd.RemovePeer", HandleRemovePeer);
    ("pd.GetRegionByKey", HandleGetRegionByKey);
    ("pd.GetStore", HandleGetStore);
    ("pd.Status", HandleStatus) ].

(** [None] is a null server. *)
Definition RegisterHandlers (server : option (RpcServer PdW)) : res (RpcServer PdW) :=
  match server with
  | None => Err (InvalidArgument "rpc server must not be null")
  | Some srv => register_all pd_handlers srv
  end.

Definition pd_rpc_server : RpcServer PdW := mkServer (list_to_map (reverse pd_handlers)).

(** * The wire carries the calls *)

Lemma RegisterHandlers_fresh : RegisterHandlers (Some (mkServer ∅)) = Ok pd_rpc_server.
Proof. reflexivity. Qed.

(** The numbered fields of a bootstrap request. *)
Definition id_fields (ids : list N) : list (string * string) :=
  imap (λ i id, (indexed "store" (N.of_nat i), to_string id)) ids.

(** The request a client sends for an operation. *)
Definition op_request (op : pd_op) : string * FieldMap :=
  match op with
  | DoRegisterStore s => ("pd.RegisterStore", PutStoreFields ∅ s "")
  | DoStoreHeartbeat id now => ("pd.StoreHeartbeat",
      put_all ∅ [("store_id", to_string id); ("now_ms", to_string_Z now)])
  | DoBootstrap ids => ("pd.BootstrapDefaultRegion",
      put_all ∅ (("store_count", to_string (N.of_nat (length ids))) ::
        id_fields ids))
  | DoSplitRegion id k => ("pd.SplitRegion",
      put_all ∅ [("region_id", to_string id); ("split_key", k)])
  | DoAddPeer id sid => ("pd.AddPeer",
      put_all ∅ [("region_id", to_string id); ("store_id", to_string sid)])
  | DoRemovePeer id pid => ("pd.RemovePeer",
      put_all ∅ [("region_id", to_string id); ("peer_id", to_string pid)])
  | DoTransferLeader id target => ("pd.TransferLeader",
      put_all ∅ [("region_id", to_string id); ("target_peer_id", to_string target)])
  end.

(** Numbers fit the wire; store labels do not travel. *)
Definition op_fits (op : pd_op) : Prop :=
  match op with
  | DoRegisterStore s => store_ok s ∧ labels s = ∅
  | DoStoreHeartbeat id now => (id < two64)%N ∧ (- two63 <= now < two63)%Z
  | DoBootstrap ids => (N.of_nat (length ids) < two64)%N ∧ Forall (λ id, id < two64)%N ids
  | DoSplitRegion id _ => (id < two64)%N
  | DoAddPeer id x | DoRemovePeer id x | DoTransferLeader id x => (id < two64)%N ∧ (x < two64)%N
  end.

(** The server call itself, its value dropped. *)
Definition op_call (op : pd_op) : IO PdW unit :=
  match op with
  | DoRegisterStore s => _ ← RegisterStore s; mret tt
  | DoStoreHeartbeat id now => StoreHeartbeat id now
  | DoBootstrap ids => BootstrapDefaultRegion ids
  | DoSplitRegion id k => _ ← SplitRegion id k; mret tt
  | DoAddPeer id sid => _ ← AddPeer id sid; mret tt
  | DoRemovePeer id pid => RemovePeer id pid
  | DoTransferLeader id target => TransferLeader id target
  end.

Lemma id_fields_lookup ids k : id_fields ids !! k =
  (λ id, (indexed "store" (N.of_nat k), to_string id)) <$> ids !! k.
Proof. apply list_lookup_imap. Qed.

Lemma count_not_indexed i : "store_count" ≠ indexed "store" i.
Proof.
  unfold indexed. intros Heq. destruct (to_string_spec i) as (Hd & _).
  assert (to_string i = "_count") as Hi by (by injection Heq).
  rewrite Hi in Hd. discriminate Hd.
Qed.

Lemma bootstrap_fields_nodup ids c : NoDup (("store_count", c) :: id_fields ids).*1.
Proof.
  csimpl. apply list.NoDup_cons. split.
  - intros ([k v] & Heq & [i Hi]%list_elem_of_lookup)%list_elem_of_fmap.
    rewrite id_fields_lookup in Hi. destruct (ids !! i); [|done]. cbn in *.
    injection Hi as <- <-. by apply count_not_indexed in Heq.
  - apply NoDup_alt. intros i j k Hi Hj.
    rewrite list_lookup_fmap, id_fields_lookup in Hi, Hj.
    destruct (ids !! i), (ids !! j); try done. cbn [fmap option_fmap option_map fst] in *.
    assert (indexed "store" (N.of_nat i) = indexed "store" (N.of_nat j)) as Heq by congruence.
    unfold indexed in Heq. apply (inj (String.app "store")) in Heq.
    apply to_string_inj in Heq. lia.
Qed.

Lemma read_store_ids_run f ids : ∀ i,
  (∀ j id, ids !! j = Some id → f !! indexed "store" (N.of_nat (i + j)) = Some (to_string id)) →
  Forall (λ id, id < two64)%N ids →
  read_store_ids f (N.of_nat <$> seq i (length ids)) = Ok ids.
Proof.
  induction ids as [|id ids IH]; intros i Hf Hids; [done|].
  apply list.Forall_cons in Hids as [Hid Hids]. cbn [length seq fmap list_fmap read_store_ids].
  pose proof (Hf 0 id eq_refl) as H0. rewrite Nat.add_0_r in H0.
  rewrite (field_u64_some _ _ id) by done. cbn [mbind result_bind].
  rewrite IH; [done| |done]. intros j x Hj. specialize (Hf (S j) x Hj).
  by rewrite Nat.add_succ_comm.
Qed.

Lemma wire_store_id s : labels s = ∅ → wire_store s = s.
Proof. intros Hl. destruct s. cbn in Hl. by subst. Qed.

(** The handlers of the two requests a starting store sends. *)
Lemma register_handled s request w :
  store_ok s → labels s = ∅ →
  rq_method request = "pd.RegisterStore" → rq_payload request = EncodeFields (PutStoreFields ∅ s "") →
  Handle pd_rpc_server request w =
    respond request (s ← RegisterStore s; mret (EncodeFields (PutStoreFields ∅ s ""))) w.
Proof.
  intros Hs Hl Hm Hp. dispatch Hm HandleRegisterStore. unfold respond.
  run_call ltac:(by apply payload_run).
  rewrite (GetStoreFields_agrees _ _ s); [by rewrite wire_store_id | apply agrees_put_all, store_fields_nodup | done].
Qed.

Lemma bootstrap_handled ids request w :
  (N.of_nat (length ids) < two64)%N → Forall (λ id, id < two64)%N ids →
  rq_method request = "pd.BootstrapDefaultRegion" →
  rq_payload request = EncodeFields (op_request (DoBootstrap ids)).2 →
  Handle pd_rpc_server request w =
    respond request (_ ← BootstrapDefaultRegion ids; mret "") w.
Proof.
  intros Hlen Hids Hm Hp. dispatch Hm HandleBootstrapDefaultRegion. unfold respond.
  run_call ltac:(by apply payload_run).
  rewrite (field_u64_some _ _ (N.of_nat (length ids)));
    [|apply put_all_in; [apply bootstrap_fields_nodup | apply list_elem_of_here] | done].
  rewrite lift_ok_bind. unfold indices. rewrite Nat2N.id, (read_store_ids_run _ ids 0);
    [by rewrite lift_ok_bind| |done].
  intros j id Hj. apply put_all_in; [apply bootstrap_fields_nodup|].
  apply list_elem_of_further, (list_elem_of_lookup_2 _ j). by rewrite id_fields_lookup, Hj.
Qed.

(** C22: Calling the placement driver over RPC is calling it. For every
    operation whose numbers fit their wire formats, the request a client
    builds, dispatched by the server the handlers were registered with, leaves
    the very state the direct call leaves, and its response is success exactly
    when the call succeeds, the call's error code and message when it fails,
    and an exception when it throws. *)
Theorem pd_rpc_is_the_call op request w :
  op_fits op →
  rq_method request = (op_request op).1 → rq_payload request = EncodeFields (op_request op).2 →
  answers request (op_call op w).1 (Handle pd_rpc_server request w).1 ∧
  (op_call op w).2 = (Handle pd_rpc_server request w).2.
Proof.
  intros Hok Hm Hp.
  destruct op as [s|sid now|ids|rid k|rid sid|rid pid|rid target];
    cbn [op_request op_call fst snd op_fits] in *.
  - rewrite (register_handled s request w (proj1 Hok) (proj2 Hok) Hm Hp).
    apply (respond_answers _ (RegisterStore s) (λ s, EncodeFields (PutStoreFields ∅ s ""))). reflexivity.
  - dispatch Hm HandleStoreHeartbeat.
    apply respond_answers_unit. run_call ltac:(by apply payload_run).
    rewrite (field_u64_some _ "store_id" sid); [|wire_field | exact (proj1 Hok)]. rewrite lift_ok_bind.
    rewrite (field_some _ _ (to_string_Z now)) by wire_field.
    unfold stoll. rewrite sto_signed_to_string by apply Hok. by rewrite lift_ok_bind.
  - rewrite (bootstrap_handled ids request w (proj1 Hok) (proj2 Hok) Hm Hp).
    apply respond_answers_unit. reflexivity.
  - dispatch Hm HandleSplitRegion.
    apply (respond_answers _ (SplitRegion rid k) (λ h, EncodeFields
      (PutRegionFields (PutRegionFields ∅ h.1 "left") h.2 "right"))).
    run_call ltac:(by apply payload_run).
    rewrite (field_u64_some _ "region_id" rid); [|wire_field | exact Hok]. rewrite lift_ok_bind.
    rewrite (field_some _ _ k) by wire_field. reflexivity.
  - dispatch Hm HandleAddPeer.
    apply (respond_answers _ (AddPeer rid sid) (λ p, EncodeFields
      (<["store_id" := to_string (peer_store_id p)]>
        (<["peer_id" := to_string (peer_id p)]> (∅ : FieldMap))))).
    run_call ltac:(by apply payload_run).
    rewrite (field_u64_some _ "region_id" rid); [|wire_field | exact (proj1 Hok)]. rewrite lift_ok_bind.
    rewrite (field_u64_some _ "store_id" sid); [|wire_field | exact (proj2 Hok)]. by rewrite lift_ok_bind.
  - dispatch Hm HandleRemovePeer.
    apply respond_answers_unit. run_call ltac:(by apply payload_run).
    rewrite (field_u64_some _ "region_id" rid); [|wire_field | exact (proj1 Hok)]. rewrite lift_ok_bind.
    rewrite (field_u64_some _ "peer_id" pid); [|wire_field | exact (proj2 Hok)]. by rewrite lift_ok_bind.
  - dispatch Hm HandleTransferLeader.
    apply respond_answers_unit. run_call ltac:(by apply payload_run).
    rewrite (field_u64_some _ "region_id" rid); [|wire_field | exact (proj1 Hok)]. rewrite lift_ok_bind.
    rewrite (field_u64_some _ "target_peer_id" target); [|wire_field | exact (proj2 Hok)]. by rewrite lift_ok_bind.
Qed.

Definition sample_request (method : string) (fields : FieldMap) : RpcRequest :=
  mkRequest "r1" method "gateway" "pd" 3000 (EncodeFields fields) ∅.

Lemma pd_rpc_is_the_call_witness :
  let request := sample_request "pd.SplitRegion"
    (put_all ∅ [("region_id", to_string 1); ("split_key", "c")]) in
  answers request (op_call (DoSplitRegion 1 "c") demo_pd).1 (Handle pd_rpc_server request demo_pd).1 ∧
  (op_call (DoSplitRegion 1 "c") demo_pd).2 = (Handle pd_rpc_server request demo_pd).2.
Proof.
  apply (pd_rpc_is_the_call (DoSplitRegion 1 "c")); reflexivity.
Defined.

(** ** Routing *)

(** What a client decodes from the answer to [pd.GetRegionByKey]. *)
Definition decoded_route (response : RpcResponse) : res (RegionInfo * StoreInfo) :=
  fields ← DecodeFields (rs_payload response);
  Ok (GetRegionFields fields "region", GetStoreFields fields "leader_store").

Lemma route_fields_agree r s :
  agrees (PutStoreFields (PutRegionFields ∅ r "region") s "leader_store") "region"
    (region_fields r) ∧
  agrees (PutStoreFields (PutRegionFields ∅ r "region") s "leader_store") "leader_store"
    (store_fields s).
Proof.
  split.
  - eapply agrees_ext; [|apply (agrees_put_all ∅), region_fields_nodup].
    intros n _. unfold PutStoreFields. apply put_all_notin. rewrite prefixed_fst.
    by intros (n' & Heq & _)%list_elem_of_fmap.
  - apply agrees_put_all, store_fields_nodup.
Qed.

(** A route travels intact: a request for the route of a key is answered with
    success and changes nothing, and the answer decodes to the region that holds
    the key and to the registered store of its leader, labels excepted. *)
Lemma route_answer w key request :
  meta_ok (metadata_ w.2) → catalog_ok (metadata_ w.2) → ListRegions (metadata_ w.2) ≠ [] →
  rq_method request = "pd.GetRegionByKey" →
  rq_payload request = EncodeFields {["key" := key]} →
  ∃ response r s,
    Handle pd_rpc_server request w = (Ok response, w) ∧ rs_ok response = true ∧
    GetRegionByKey (metadata_ w.2) key = Some r ∧
    GetRegionLeaderStore (metadata_ w.2) r = Some s ∧
    decoded_route response = Ok (r, wire_store s).
Proof.
  intros Hm Hc Hne Hmethod Hp.
  destruct (key_has_region _ key Hm Hne) as (r & Hr & Hin & _).
  destruct (leader_store_known _ _ Hm Hin) as (p & s & Hfind & Hs & _).
  assert (region_ok r) as Hrok.
  { apply (elem_of_ListRegions _ _ Hm) in Hin. by eapply co_regions. }
  assert (store_ok s) as Hsok.
  { unfold GetRegionLeaderStore in Hs. rewrite Hfind in Hs. by eapply co_stores. }
  destruct (route_fields_agree r s) as [Hra Hsa].
  set (f := PutStoreFields (PutRegionFields ∅ r "region") s "leader_store") in *.
  exists (MakeRpcOk request (EncodeFields f)), r, s.
  split_and!; [|reflexivity|exact Hr|exact Hs|].
  - dispatch Hmethod HandleGetRegionByKey. apply respond_run.
    run_call ltac:(by apply payload_run). unfold the_meta. run. cbn [snd metadata_].
    rewrite (field_some _ _ key) by apply lookup_singleton_eq. rewrite Hr, Hs. reflexivity.
  - unfold decoded_route. cbn [rs_payload MakeRpcOk]. rewrite DecodeFields_encode. cbn.
    by rewrite (GetRegionFields_agrees _ _ r), (GetStoreFields_agrees _ _ s).
Qed.
