(* ===== verification/RaftWire.v ===== *)
(** Raft messages between stores, the field encoders and decoders at the end of
    src/store/distributed_region_node.cpp. Missing keys of a message are
    exceptions of [map::at] that nothing catches; the two flags and the keys of
    other records are optional. *)

From S2P Require Import Prelude Types Text Codec Raft RaftStorage.

(** [fields.at(key)] and [std::stoull(fields.at(key))]. *)
Definition field_at (fields : FieldMap) (key : string) : res string :=
  match fields !! key with None => Fault ExnOutOfRange | Some v => Ok v end.
Definition u64_at (fields : FieldMap) (key : string) : res N :=
  v ← field_at fields key; stoull v.

Definition flag (b : bool) : string := if b then "1" else "0".

(** * RequestVote *)

Definition vote_request_fields (request : RequestVoteRequest) : list (string * string) :=
  [ ("region_id", to_string (rv_region_id request));
    ("term", to_string (rv_term request));
    ("candidate_id", to_string (rv_candidate_id request));
    ("last_log_index", to_string (rv_last_log_index request));
    ("last_log_term", to_string (rv_last_log_term request)) ].

Definition PutRequestVoteFields (fields : FieldMap) (request : RequestVoteRequest) : FieldMap :=
  put_all fields (vote_request_fields request).

Definition GetRequestVoteFields (fields : FieldMap) : res RequestVoteRequest :=
  region_id ← u64_at fields "region_id";
  term ← u64_at fields "term";
  candidate_id ← u64_at fields "candidate_id";
  last_log_index ← u64_at fields "last_log_index";
  last_log_term ← u64_at fields "last_log_term";
  Ok (mkVoteRequest region_id term candidate_id last_log_index last_log_term).

Definition vote_response_fields (response : RequestVoteResponse) : list (string * string) :=
  [ ("term", to_string (rv_resp_term response));
    ("vote_granted", flag (rv_granted response)) ].

Definition PutRequestVoteResponseFields (fields : FieldMap) (response : RequestVoteResponse) :
    FieldMap := put_all fields (vote_response_fields response).

Definition GetRequestVoteResponseFields (fields : FieldMap) : res RequestVoteResponse :=
  term ← u64_at fields "term";
  Ok (mkVoteResponse term (bool_decide (GetOr fields "vote_granted" "0" = "1"))).

(** * AppendEntries *)

Definition entry_fields (entry : LogEntry) : list (string * string) :=
  [ ("region_id", to_string (e_region_id entry));
    ("index", to_string (e_index entry));
    ("term", to_string (e_term entry));
    ("type", to_string (EntryTypeToInt (e_type entry)));
    ("command", HexEncode (e_command entry)) ].

Definition put_entry (fields : FieldMap) (entry : LogEntry) (prefix : string) : FieldMap :=
  put_all fields (prefixed prefix (entry_fields entry)).

Definition append_request_fields (request : AppendEntriesRequest) : list (string * string) :=
  [ ("region_id", to_string (ae_region_id request));
    ("term", to_string (ae_term request));
    ("leader_id", to_string (ae_leader_id request));
    ("prev_log_index", to_string (ae_prev_log_index request));
    ("prev_log_term", to_string (ae_prev_log_term request));
    ("leader_commit", to_string (ae_leader_commit request));
    ("entry_count", to_string (N.of_nat (length (ae_entries request)))) ].

Definition PutAppendEntriesFields (fields : FieldMap) (request : AppendEntriesRequest) :
    FieldMap :=
  put_indexed put_entry "entry" 0 (ae_entries request)
    (put_all fields (append_request_fields request)).

Definition get_entry (fields : FieldMap) (prefix : string) : res LogEntry :=
  region_id ← u64_at fields (Key prefix "region_id");
  index ← u64_at fields (Key prefix "index");
  term ← u64_at fields (Key prefix "term");
  type ← field_at fields (Key prefix "type") ≫= stoi;
  command ← field_at fields (Key prefix "command") ≫= HexDecode;
  Ok (mkEntry region_id index term (EntryTypeFromInt type) command).

(** The loop over [entry0.], [entry1.], … *)
Fixpoint get_entries (fields : FieldMap) (ids : list N) : res (list LogEntry) :=
  match ids with
  | [] => Ok []
  | i :: rest =>
      entry ← get_entry fields (indexed "entry" i);
      entries ← get_entries fields rest;
      Ok (entry :: entries)
  end.

Definition GetAppendEntriesFields (fields : FieldMap) : res AppendEntriesRequest :=
  region_id ← u64_at fields "region_id";
  term ← u64_at fields "term";
  leader_id ← u64_at fields "leader_id";
  prev_log_index ← u64_at fields "prev_log_index";
  prev_log_term ← u64_at fields "prev_log_term";
  leader_commit ← u64_at fields "leader_commit";
  entry_count ← u64_at fields "entry_count";
  entries ← get_entries fields (indices entry_count);
  Ok (mkAppendRequest region_id term leader_id prev_log_index prev_log_term entries
        leader_commit).

Definition append_response_fields (response : AppendEntriesResponse) : list (string * string) :=
  [ ("term", to_string (ae_resp_term response));
    ("success", flag (ae_success response));
    ("match_index", to_string (ae_match_index response)) ].

Definition PutAppendEntriesResponseFields (fields : FieldMap)
    (response : AppendEntriesResponse) : FieldMap :=
  put_all fields (append_response_fields response).

Definition GetAppendEntriesResponseFields (fields : FieldMap) : res AppendEntriesResponse :=
  term ← u64_at fields "term";
  match_index ← u64_at fields "match_index";
  Ok (mkAppendResponse term (bool_decide (GetOr fields "success" "0" = "1")) match_index).

(** * Facts *)

Lemma u64_at_some fields key n :
  fields !! key = Some (to_string n) → (n < two64)%N → u64_at fields key = Ok n.
Proof.
  intros Hk Hn. unfold u64_at, field_at. rewrite Hk. cbn. by apply stoull_to_string.
Qed.

Lemma flag_decode b : bool_decide (flag b = "1") = b.
Proof. by destruct b. Qed.

(** Read the literal keys just written by [put_all]. *)
Ltac read_back :=
  repeat first
    [ erewrite u64_at_some; [cbn [mbind result_bind] | lookup_put_all; reflexivity | eassumption] ].

Definition vote_request_ok (r : RequestVoteRequest) : Prop :=
  (rv_region_id r < two64)%N ∧ (rv_term r < two64)%N ∧ (rv_candidate_id r < two64)%N ∧
  (rv_last_log_index r < two64)%N ∧ (rv_last_log_term r < two64)%N.

Lemma vote_request_roundtrip f r :
  vote_request_ok r → GetRequestVoteFields (PutRequestVoteFields f r) = Ok r.
Proof.
  intros (? & ? & ? & ? & ?). unfold GetRequestVoteFields, PutRequestVoteFields, vote_request_fields.
  read_back. by destruct r.
Qed.

Lemma vote_response_roundtrip f r :
  (rv_resp_term r < two64)%N →
  GetRequestVoteResponseFields (PutRequestVoteResponseFields f r) = Ok r.
Proof.
  intros ?. unfold GetRequestVoteResponseFields, PutRequestVoteResponseFields, vote_response_fields.
  read_back. unfold GetOr. lookup_put_all. rewrite flag_decode. by destruct r.
Qed.

Lemma append_response_roundtrip f r :
  (ae_resp_term r < two64)%N → (ae_match_index r < two64)%N →
  GetAppendEntriesResponseFields (PutAppendEntriesResponseFields f r) = Ok r.
Proof.
  intros ??. unfold GetAppendEntriesResponseFields, PutAppendEntriesResponseFields,
    append_response_fields.
  read_back. unfold GetOr. lookup_put_all. rewrite flag_decode. by destruct r.
Qed.

(** ** Entries *)

Definition wire_entry_ok (e : LogEntry) : Prop :=
  (e_region_id e < two64)%N ∧ (e_index e < two64)%N ∧ (e_term e < two64)%N.

Definition append_request_ok (r : AppendEntriesRequest) : Prop :=
  ((ae_region_id r < two64)%N ∧ (ae_term r < two64)%N ∧ (ae_leader_id r < two64)%N) ∧
  ((ae_prev_log_index r < two64)%N ∧ (ae_prev_log_term r < two64)%N ∧
   (ae_leader_commit r < two64)%N) ∧
  (N.of_nat (length (ae_entries r)) < two64)%N ∧ Forall wire_entry_ok (ae_entries r).

#[export] Instance vote_request_ok_dec r : Decision (vote_request_ok r).
Proof. unfold vote_request_ok. apply _. Defined.
#[export] Instance wire_entry_ok_dec e : Decision (wire_entry_ok e).
Proof. unfold wire_entry_ok. apply _. Defined.
#[export] Instance append_request_ok_dec r : Decision (append_request_ok r).
Proof. unfold append_request_ok. apply _. Defined.

Lemma entry_fields_nodup e : NoDup (entry_fields e).*1.
Proof. simpl. solve_nodup. Qed.

Lemma get_entry_agrees f p e :
  agrees f p (entry_fields e) → wire_entry_ok e → get_entry f p = Ok e.
Proof.
  intros Hf (Hr & Hi & Ht). unfold get_entry. unfold entry_fields in Hf.
  rewrite (u64_at_some _ (Key p "region_id") (e_region_id e)) by (done || record_field Hf).
  rewrite (u64_at_some _ (Key p "index") (e_index e)) by (done || record_field Hf).
  rewrite (u64_at_some _ (Key p "term") (e_term e)) by (done || record_field Hf).
  unfold field_at.
  assert (f !! Key p "type" = Some (to_string (EntryTypeToInt (e_type e)))) as -> by record_field Hf.
  assert (f !! Key p "command" = Some (HexEncode (e_command e))) as -> by record_field Hf.
  cbn [mbind result_bind]. rewrite HexDecode_encode.
  unfold stoi. rewrite <-to_string_Z_nonneg, sto_signed_to_string by by destruct (e_type e).
  cbn. rewrite EntryType_roundtrip. by destruct e.
Qed.

Lemma get_entries_agrees f es i :
  (∀ j e, es !! j = Some e → agrees f (indexed "entry" (N.of_nat i + N.of_nat j)) (entry_fields e)) →
  Forall wire_entry_ok es →
  get_entries f (N.of_nat <$> seq i (length es)) = Ok es.
Proof.
  revert i. induction es as [|e es IH]; intros i Hf Hok; [done|].
  apply list.Forall_cons in Hok as [He Hok]. cbn [length seq fmap list_fmap get_entries].
  rewrite (get_entry_agrees _ _ e); [|specialize (Hf 0 e eq_refl); by rewrite N.add_0_r in Hf|done].
  cbn [mbind result_bind]. rewrite (IH (S i)); [done| |done].
  intros j x Hj. specialize (Hf (S j) x Hj).
  by replace (N.of_nat (S i) + N.of_nat j)%N with (N.of_nat i + N.of_nat (S j))%N by lia.
Qed.

(** The plain keys of a request are not touched by its entries. *)
Lemma put_entries_plain es f k :
  str_all (λ c, negb (Ascii.eqb c ".")) k = true →
  put_indexed put_entry "entry" 0 es f !! k = f !! k.
Proof.
  intros Hk. apply (put_indexed_notin put_entry entry_fields "entry" (λ _ _ _, eq_refl)).
  intros j n _. by apply plain_not_indexed.
Qed.

(** Membership in a literal list. *)
Ltac listed := solve [repeat (first [apply list_elem_of_here | apply list_elem_of_further])].

Lemma append_request_roundtrip f r :
  append_request_ok r → GetAppendEntriesFields (PutAppendEntriesFields f r) = Ok r.
Proof.
  intros ((? & ? & ?) & (? & ? & ?) & ? & Hes). unfold GetAppendEntriesFields.
  assert (∀ k n, (k, to_string n) ∈ append_request_fields r → (n < two64)%N →
    str_all (λ c, negb (Ascii.eqb c ".")) k = true →
    u64_at (PutAppendEntriesFields f r) k = Ok n) as Hread.
  { intros k n Hin Hn Hk. apply u64_at_some; [|done]. unfold PutAppendEntriesFields.
    rewrite put_entries_plain by done. apply put_all_in; [simpl; solve_nodup | done]. }
  rewrite (Hread "region_id" (ae_region_id r)) by (listed || done || reflexivity). cbn [mbind result_bind].
  rewrite (Hread "term" (ae_term r)) by (listed || done || reflexivity). cbn [mbind result_bind].
  rewrite (Hread "leader_id" (ae_leader_id r)) by (listed || done || reflexivity). cbn [mbind result_bind].
  rewrite (Hread "prev_log_index" (ae_prev_log_index r)) by (listed || done || reflexivity). cbn [mbind result_bind].
  rewrite (Hread "prev_log_term" (ae_prev_log_term r)) by (listed || done || reflexivity). cbn [mbind result_bind].
  rewrite (Hread "leader_commit" (ae_leader_commit r)) by (listed || done || reflexivity). cbn [mbind result_bind].
  rewrite (Hread "entry_count" (N.of_nat (length (ae_entries r)))) by (listed || done || reflexivity).
  cbn [mbind result_bind]. unfold indices. rewrite Nat2N.id, get_entries_agrees; [|..|done].
  - by destruct r.
  - intros j e Hj. apply (put_indexed_agrees put_entry entry_fields); [done|apply entry_fields_nodup|done].
Qed.

(** The Raft messages cross the wire. Each of the four messages, encoded as
    the payload of a call, decodes to itself: term, indexes, votes and, for an
    append, every entry with its command, whatever bytes the command has. *)
Lemma raft_messages_roundtrip vote vote_reply append append_reply :
  vote_request_ok vote → (rv_resp_term vote_reply < two64)%N →
  append_request_ok append →
  (ae_resp_term append_reply < two64)%N → (ae_match_index append_reply < two64)%N →
  (DecodeFields (EncodeFields (PutRequestVoteFields ∅ vote)) ≫= GetRequestVoteFields) = Ok vote ∧
  (DecodeFields (EncodeFields (PutRequestVoteResponseFields ∅ vote_reply))
     ≫= GetRequestVoteResponseFields) = Ok vote_reply ∧
  (DecodeFields (EncodeFields (PutAppendEntriesFields ∅ append)) ≫= GetAppendEntriesFields) =
    Ok append ∧
  (DecodeFields (EncodeFields (PutAppendEntriesResponseFields ∅ append_reply))
     ≫= GetAppendEntriesResponseFields) = Ok append_reply.
Proof.
  intros Hv Hvr Ha Har Ham. rewrite !DecodeFields_encode. cbn [mbind result_bind].
  split_and!; [by apply vote_request_roundtrip | by apply vote_response_roundtrip
    | by apply append_request_roundtrip | by apply append_response_roundtrip].
Qed.

Definition sample_append : AppendEntriesRequest :=
  mkAppendRequest 5 3 11 7 2 [mkEntry 5 8 3 kNormal "PUT 6b 76"; mkEntry 5 9 3 kNoop ""] 7.

Lemma raft_messages_roundtrip_witness :
  append_request_ok sample_append ∧
  (DecodeFields (EncodeFields (PutAppendEntriesFields ∅ sample_append)) ≫= GetAppendEntriesFields) =
    Ok sample_append.
Proof.
  assert (append_request_ok sample_append) as Ha by (apply (bool_decide_unpack _); reflexivity).
  split; [exact Ha|].
  apply (raft_messages_roundtrip (mkVoteRequest 5 3 11 7 2) (mkVoteResponse 3 true) sample_append
    (mkAppendResponse 3 true 9)); [split_and!; reflexivity | reflexivity | exact Ha
    | reflexivity | reflexivity].
Defined.
