(* ===== verification/Distributed.v ===== *)
(** One replica of a region in a process of its own,
    src/store/distributed_region_node.cpp: the node couples a Raft node with an
    engine and replicates by calling the other stores over RPC. What the node
    needs of the network is one operation, [tcp_call]. *)

From S2P Require Import Prelude Types Text Codec Service Engine Raft RaftStorage RaftWire.

(** * The node *)

Record DistributedRegionNode := mkNode {
  dn_local_store : StoreInfo;
  dn_stores : list StoreInfo;
  dn_region : RegionInfo;
  dn_local_peer : Peer;
  dn_raft : option RaftNode;            (* [raft_] *)
  dn_engine : FileKvEngine;
  dn_storage : bool;                    (* [raft_storage_] has been created *)
  dn_next_request_id : N;
}.

Definition new_node : DistributedRegionNode :=
  mkNode default_store [] default_region (mkPeer 0 0 kVoter) None new_engine false 1.

Abbreviation LocalW := (Disk * DistributedRegionNode)%type.

Definition with_raft (r : option RaftNode) (n : DistributedRegionNode) : DistributedRegionNode :=
  mkNode (dn_local_store n) (dn_stores n) (dn_region n) (dn_local_peer n) r (dn_engine n)
    (dn_storage n) (dn_next_request_id n).
Definition with_engine (e : FileKvEngine) (n : DistributedRegionNode) : DistributedRegionNode :=
  mkNode (dn_local_store n) (dn_stores n) (dn_region n) (dn_local_peer n) (dn_raft n) e
    (dn_storage n) (dn_next_request_id n).
Definition with_storage (n : DistributedRegionNode) : DistributedRegionNode :=
  mkNode (dn_local_store n) (dn_stores n) (dn_region n) (dn_local_peer n) (dn_raft n)
    (dn_engine n) true (dn_next_request_id n).
Definition with_request_id (i : N) (n : DistributedRegionNode) : DistributedRegionNode :=
  mkNode (dn_local_store n) (dn_stores n) (dn_region n) (dn_local_peer n) (dn_raft n)
    (dn_engine n) (dn_storage n) i.
Definition with_region (r : RegionInfo) (n : DistributedRegionNode) : DistributedRegionNode :=
  mkNode (dn_local_store n) (dn_stores n) r (dn_local_peer n) (dn_raft n) (dn_engine n)
    (dn_storage n) (dn_next_request_id n).
Definition with_local_peer (p : Peer) (n : DistributedRegionNode) : DistributedRegionNode :=
  mkNode (dn_local_store n) (dn_stores n) (dn_region n) p (dn_raft n) (dn_engine n)
    (dn_storage n) (dn_next_request_id n).

Definition the_node : IO LocalW DistributedRegionNode := gets snd.
Definition update_node (f : DistributedRegionNode → DistributedRegionNode) : IO LocalW unit :=
  modify (λ w : LocalW, (w.1, f w.2)).

(** Calls on the engine, and through [raft_]. *)
Definition on_engine {A} (m : IO EngineW A) : IO LocalW A :=
  zoom (λ w : LocalW, (w.1, dn_engine w.2))
       (λ (w' : EngineW) (w : LocalW), (w'.1, with_engine w'.2 w.2)) m.
Definition on_raft {A} (m : IO RaftNode A) : IO LocalW A := λ '(d, n),
  match dn_raft n with
  | None => (Fault Undefined, (d, n))
  | Some raft => let '(r, raft') := m raft in (r, (d, with_raft (Some raft') n))
  end.
Definition the_raft : IO LocalW RaftNode := on_raft get.

Definition FindLocalPeer (n : DistributedRegionNode) : option Peer :=
  List.find (λ p, (peer_store_id p =? store_id (dn_local_store n))%N) (peers (dn_region n)).

Definition FindStoreByPeer (peer : N) (n : DistributedRegionNode) : option StoreInfo :=
  match List.find (λ p, (peer_id p =? peer)%N) (peers (dn_region n)) with
  | None => None
  | Some target => List.find (λ s, (store_id s =? peer_store_id target)%N) (dn_stores n)
  end.

(** * Persistence *)

Definition hard_state (n : RaftNode) : HardState :=
  mkHard (current_term_ n) (default 0%N (voted_for_ n)) (commit_index_ n) (last_applied_ n).

(** The guard both functions below start with. *)
Definition storage_ready : IO LocalW RaftNode :=
  n ← the_node;
  match dn_storage n, dn_raft n with
  | true, Some raft => mret raft
  | _, _ => fail (InvalidArgument "raft storage is not initialized")
  end.

Definition PersistHardState : IO LocalW unit :=
  raft ← storage_ready;
  n ← the_node;
  on_engine (SaveHardState (region_id (dn_region n)) (hard_state raft)).

(** The loop over [raft_->log()] with its condition [index >= first_index]. *)
Fixpoint append_from (first_index : N) (log : list LogEntry) : IO EngineW unit :=
  match log with
  | [] => mret tt
  | entry :: rest =>
      _ ← (if (first_index <=? e_index entry)%N then AppendLog entry else mret tt);
      append_from first_index rest
  end.

Definition PersistLogFrom (first_index : N) : IO LocalW unit :=
  raft ← storage_ready;
  n ← the_node;
  on_engine (_ ← DeleteLogsFrom (region_id (dn_region n)) first_index;
             append_from first_index (log_ raft)).

Fixpoint apply_entries (entries : list LogEntry) : IO EngineW unit :=
  match entries with
  | [] => mret tt
  | entry :: rest =>
      if decide (e_type entry = kNoop) then apply_entries rest
      else _ ← ApplyKvCommand (e_command entry); apply_entries rest
  end.

Definition ApplyCommitted : IO LocalW unit :=
  entries ← on_raft TakeCommittedEntries;
  on_engine (apply_entries entries).

Definition voted (h : HardState) : option N :=
  if (hs_voted_for h =? 0)%N then None else Some (hs_voted_for h).

Definition Bootstrap (data_dir : string) (local_store : StoreInfo) (stores : list StoreInfo)
    (region : RegionInfo) : IO LocalW unit :=
  _ ← update_node (λ n, mkNode local_store stores region (dn_local_peer n) (dn_raft n)
                          (dn_engine n) (dn_storage n) (dn_next_request_id n));
  n ← the_node;
  match FindLocalPeer n with
  | None => fail (InvalidArgument "local store does not host a peer for region")
  | Some local_peer =>
      _ ← update_node (with_local_peer local_peer);
      _ ← update_node (with_raft (Some (new_raft (region_id region) (peer_id local_peer)
                                          (peer_id <$> peers region))));
      _ ← on_engine (Engine.Open
            (path_join data_dir ("region-" +:+ to_string (region_id region))));
      _ ← update_node with_storage;
      loaded ← status_of (on_engine (LoadHardState (region_id region)));
      match loaded with
      | inr st => if decide (code_ st = kKeyNotFound) then mret tt else fail st
      | inl h =>
          entries ← on_engine (LoadLog (region_id region));
          on_raft (Raft.Restore (hs_current_term h) (voted h) (hs_commit_index h)
                     (hs_last_applied h) entries)
      end
  end.

(** * Raft messages from other stores *)

Definition HandleRequestVote (request : RequestVoteRequest) : IO LocalW RequestVoteResponse :=
  n ← the_node;
  match dn_raft n with
  | None => mret (mkVoteResponse 0 false)
  | Some _ =>
      response ← on_raft (λ m,
        let '(resp, m') := Raft.HandleRequestVote request m in (Ok resp, m'));
      _ ← ignore PersistHardState;
      mret response
  end.

Definition HandleAppendEntries (request : AppendEntriesRequest) :
    IO LocalW AppendEntriesResponse :=
  n ← the_node;
  match dn_raft n with
  | None => mret (mkAppendResponse 0 false 0)
  | Some _ =>
      let first_new_index :=
        match ae_entries request with [] => 0%N | e :: _ => e_index e end in
      response ← on_raft (Raft.HandleAppendEntries request);
      if negb (ae_success response) then
        _ ← ignore PersistHardState;
        mret response
      else
        _ ← (if negb (first_new_index =? 0)%N then ignore (PersistLogFrom first_new_index)
             else mret tt);
        _ ← ignore ApplyCommitted;
        _ ← ignore PersistHardState;
        mret response
  end.

Definition Get (key : string) (consistency : Consistency) : IO LocalW string :=
  on_engine (Engine.Get key).

(** * Calls on other stores *)

Section network.
Context {Net : Type} `{!Transport Net}.

Abbreviation NodeW := (Net * LocalW)%type.

(** What touches no other store. *)
Definition local {A} (m : IO LocalW A) : IO NodeW A :=
  zoom snd (λ (w' : LocalW) (w : NodeW), (w.1, w')) m.

Definition CallStore (store : StoreInfo) (method : string) (fields : FieldMap) :
    IO NodeW RpcResponse := λ '(net, (d, n)),
  let request := mkRequest
    ("store-raft-" +:+ to_string (dn_next_request_id n)) method
    ("store-" +:+ to_string (store_id (dn_local_store n)))
    ("store-" +:+ to_string (store_id store)) 3000 (EncodeFields fields) ∅ in
  let '(response, net') := tcp_call (client_endpoint store) request net in
  (Ok response, (net', (d, with_request_id (u64 (dn_next_request_id n + 1)) n))).

(** The loop of [EnsureLeader] over the region's peers. *)
Fixpoint request_votes (request : RequestVoteRequest) (ps : list Peer) (votes : nat) :
    IO NodeW nat :=
  match ps with
  | [] => mret votes
  | peer :: rest =>
      n ← local the_node;
      if decide (peer_id peer = peer_id (dn_local_peer n)) then request_votes request rest votes
      else match FindStoreByPeer (peer_id peer) n with
      | None => request_votes request rest votes
      | Some store =>
          rpc_response ← CallStore store "store.RaftRequestVote" (PutRequestVoteFields ∅ request);
          if negb (rs_ok rpc_response) then request_votes request rest votes
          else
            response_fields ← lift (DecodeFields (rs_payload rpc_response));
            vote_response ← lift (GetRequestVoteResponseFields response_fields);
            request_votes request rest (if rv_granted vote_response then S votes else votes)
      end
  end.

Definition EnsureLeader : IO NodeW unit :=
  n ← local the_node;
  match dn_raft n with
  | None => fail (InvalidArgument "raft node is not initialized")
  | Some raft =>
      if decide (role_ raft = kLeader) then mret tt
      else if negb (peer_id (dn_local_peer n) =? leader_peer_id (dn_region n))%N then
        fail (mkStatus kNotLeader "request must be sent to region leader")
      else
        _ ← local (on_raft (modify BecomeCandidate));
        _ ← local PersistHardState;
        raft ← local the_raft;
        votes ← request_votes
          (mkVoteRequest (region_id (dn_region n)) (current_term_ raft)
             (peer_id (dn_local_peer n)) (last_log_index raft) (last_log_term raft))
          (peers (dn_region n)) 1;
        if decide (votes ≤ length (peers (dn_region n)) `div` 2) then
          fail (Internal "failed to elect distributed region leader")
        else
          _ ← local (on_raft (modify BecomeLeader));
          local PersistHardState
  end.

(** The request of one attempt; [log()[prev - 1]] is not checked. *)
Definition append_request (n : DistributedRegionNode) (raft : RaftNode)
    (next_index leader_commit : N) : res AppendEntriesRequest :=
  let prev := if (next_index =? 0)%N then 0%N else (next_index - 1)%N in
  prev_term ←
    (if (prev =? 0)%N then Ok 0%N
     else match log_ raft !! N.to_nat (prev - 1) with
          | None => Fault Undefined
          | Some e => Ok (e_term e)
          end);
  Ok (mkAppendRequest (region_id (dn_region n)) (current_term_ raft)
        (peer_id (dn_local_peer n)) prev prev_term
        (filter (λ e, next_index ≤ e_index e)%N (log_ raft)) leader_commit).

(** The attempt loop; the result says whether the store holds the suffix. *)
Fixpoint replicate (attempts : nat) (store : StoreInfo) (next_index leader_commit : N) :
    IO NodeW bool :=
  match attempts with
  | O => mret false
  | S attempts =>
      n ← local the_node;
      raft ← local the_raft;
      request ← lift (append_request n raft next_index leader_commit);
      rpc_response ← CallStore store "store.RaftAppendEntries" (PutAppendEntriesFields ∅ request);
      if negb (rs_ok rpc_response) then mret false
      else
        response_fields ← lift (DecodeFields (rs_payload rpc_response));
        append_response ← lift (GetAppendEntriesResponseFields response_fields);
        if ae_success append_response then mret true
        else replicate attempts store
               (if (ae_match_index append_response =? 0)%N then 1%N
                else ae_match_index append_response) leader_commit
  end.

Definition ReplicateToStore (store : StoreInfo) (first_index leader_commit : N) :
    IO NodeW bool :=
  n ← local the_node;
  match dn_raft n with
  | None => fail (InvalidArgument "raft node is not initialized")
  | Some _ => replicate 8 store first_index leader_commit
  end.

Fixpoint broadcast (ps : list Peer) (commit_index : N) : IO NodeW unit :=
  match ps with
  | [] => mret tt
  | peer :: rest =>
      n ← local the_node;
      if decide (peer_id peer = peer_id (dn_local_peer n)) then broadcast rest commit_index
      else match FindStoreByPeer (peer_id peer) n with
      | None => broadcast rest commit_index
      | Some store =>
          raft ← local the_raft;
          _ ← ignore (ReplicateToStore store (u64 (last_log_index raft + 1)) commit_index);
          broadcast rest commit_index
      end
  end.

Definition BroadcastCommit (commit_index : N) : IO NodeW unit :=
  n ← local the_node;
  broadcast (peers (dn_region n)) commit_index.

(** The loop of [ProposeAndReplicate] over the region's peers. *)
Fixpoint replicate_all (ps : list Peer) (index : N) (replicated : nat) : IO NodeW nat :=
  match ps with
  | [] => mret replicated
  | peer :: rest =>
      n ← local the_node;
      if decide (peer_id peer = peer_id (dn_local_peer n)) then
        replicate_all rest index replicated
      else match FindStoreByPeer (peer_id peer) n with
      | None => replicate_all rest index replicated
      | Some store =>
          raft ← local the_raft;
          done ← ReplicateToStore store index (commit_index_ raft);
          replicate_all rest index (if (done : bool) then S replicated else replicated)
      end
  end.

(** [raft_storage_->AppendLog(entry)]. *)
Definition append_to_storage (entry : LogEntry) : IO LocalW unit :=
  n ← the_node;
  if dn_storage n then on_engine (AppendLog entry) else throw Undefined.

Definition ProposeAndReplicate (command : string) : IO NodeW unit :=
  _ ← EnsureLeader;
  entry ← local (on_raft (Propose kNormal command));
  _ ← local (append_to_storage entry);
  n ← local the_node;
  replicated ← replicate_all (peers (dn_region n)) (e_index entry) 1;
  if decide (replicated ≤ length (peers (dn_region n)) `div` 2) then
    fail (Internal "failed to replicate entry to majority")
  else
    _ ← local (on_raft (modify (SetCommitIndex (e_index entry))));
    _ ← local ApplyCommitted;
    _ ← local PersistHardState;
    BroadcastCommit (e_index entry).

Definition Put (key value : string) : IO NodeW unit :=
  ProposeAndReplicate (EncodePutCommand key value).

Definition Delete (key : string) : IO NodeW unit :=
  ProposeAndReplicate (EncodeDeleteCommand key).

Definition Batch (mutations : list KvMutation) : IO NodeW unit :=
  if decide (mutations = []) then mret tt
  else ProposeAndReplicate (EncodeBatchCommand mutations).

Definition TransferLeader (target_peer_id : N) : IO NodeW unit :=
  n ← local the_node;
  if negb (target_peer_id =? peer_id (dn_local_peer n))%N then
    fail (mkStatus kNotLeader "transfer request must be sent to target peer")
  else
    _ ← local (update_node (λ n,
          let r := dn_region n in
          with_region (mkRegion (region_id r) (start_key r) (end_key r) (epoch r) (peers r)
                         target_peer_id) n));
    EnsureLeader.
End network.
