(* ===== verification/Tcp.v ===== *)
(** RPC over TCP, src/rpc/tcp_rpc.cpp: a message is a frame of a four-byte
    big-endian length and the encoded bytes; the kernel moves any part of what is
    asked for at a time. The system calls are the environment: how many bytes
    each transfer moves, whether sockets can be made and connected, and what the
    other end sends back. *)

From S2P Require Import Prelude Types Text Codec Service.

(** * Sockets *)

(** What one end of a connection sees: the bytes that will still arrive before
    the other end closes, the bytes sent so far, and the most the coming
    [send] and [recv] calls will move, an exhausted list meaning that a call
    moves all it can. Zero is an error or the end of the stream. *)
Record Socket := mkSocket {
  incoming : string;
  outgoing : string;
  transfers : list N;
}.

Fixpoint str_take (n : nat) (s : string) : string :=
  match n, s with
  | S n, String c s => String c (str_take n s)
  | _, _ => ""
  end.
Fixpoint str_drop (n : nat) (s : string) : string :=
  match n, s with
  | S n, String _ s => str_drop n s
  | _, _ => s
  end.

(** The next transfer of at most [size] bytes. *)
Definition moved (size : nat) (s : Socket) : nat :=
  match transfers s with [] => size | t :: _ => Nat.min (N.to_nat t) size end.

Definition send (data : string) : IO Socket nat := λ s,
  let n := moved (String.length data) s in
  (Ok n, mkSocket (incoming s) (outgoing s +:+ str_take n data) (tail (transfers s))).

Definition recv (size : nat) : IO Socket string := λ s,
  let n := moved (Nat.min size (String.length (incoming s))) s in
  (Ok (str_take n (incoming s)),
   mkSocket (str_drop n (incoming s)) (outgoing s) (tail (transfers s))).

(** The loops; every round moves at least one byte, so [fuel] bytes need at most
    [fuel] rounds. *)
Fixpoint write_all (fuel : nat) (data : string) : IO Socket unit :=
  match fuel with
  | O => mret tt
  | S fuel =>
      if decide (data = "") then mret tt
      else
        written ← send data;
        if decide (written = 0) then fail (IoError "socket write failed")
        else write_all fuel (str_drop written data)
  end.
Definition WriteAll (data : string) : IO Socket unit := write_all (String.length data) data.

Fixpoint read_all (fuel size : nat) : IO Socket string :=
  match fuel with
  | O => mret ""
  | S fuel =>
      if decide (size = 0) then mret ""
      else
        chunk ← recv size;
        if decide (chunk = "") then fail (IoError "socket read failed")
        else
          rest ← read_all fuel (size - String.length chunk);
          mret (chunk +:+ rest)
  end.
Definition ReadAll (size : nat) : IO Socket string := read_all size size.

(** * Frames *)

Definition two32 : N := 4294967296.

(** The bytes of [htonl(n)] in memory, and back. *)
Definition byte_at (n shift : N) : ascii := Ascii.ascii_of_N (N.shiftr n shift `mod` 256).
Definition be32 (n : N) : string :=
  String (byte_at n 24) (String (byte_at n 16) (String (byte_at n 8) (String (byte_at n 0) ""))).
Fixpoint be_value (acc : N) (s : string) : N :=
  match s with
  | "" => acc
  | String c rest => be_value (256 * acc + Ascii.N_of_ascii c)%N rest
  end.

Definition max_frame : N := 67108864.   (* 64 * 1024 * 1024 *)

Definition size_of (s : string) : N := N.of_nat (String.length s).

Definition WriteFrame (payload : string) : IO Socket unit :=
  _ ← WriteAll (be32 (size_of payload `mod` two32));
  WriteAll payload.

Definition ReadFrame : IO Socket string :=
  header ← ReadAll 4;
  let length := be_value 0 header in
  if (max_frame <? length)%N then fail (InvalidArgument "rpc frame is too large")
  else ReadAll (N.to_nat length).

Definition ErrorResponse (request : RpcRequest) (st : Status) : RpcResponse :=
  MakeRpcError request (ErrorCodeName (code_ st)) (message_ st).

(** * The server's side of one connection *)

Definition default_request : RpcRequest := mkRequest "" "" "" "" 3000 "" ∅.

Section server.
Context {S : Type} (server_ : RpcServer S).

Definition on_socket {A} (m : IO Socket A) : IO (Socket * S) A :=
  zoom fst (λ s' (w : Socket * S), (s', w.2)) m.

(** An exception of a handler leaves the thread and ends the process. *)
Definition HandleClient : IO (Socket * S) unit :=
  received ← status_of (on_socket (encoded ← ReadFrame; lift (DecodeRpcRequest encoded)));
  response ← match received with
    | inl request => zoom snd (λ s' (w : Socket * S), (w.1, s')) (Handle server_ request)
    | inr st => mret (ErrorResponse default_request st)
    end;
  ignore (on_socket (WriteFrame (EncodeRpcResponse response))).
End server.

(** ** Opening the port *)

(** The kernel's answers to a server that opens a port: [socket()], [inet_pton],
    [bind], the port [getsockname] reports, if it does, and [listen]. *)
Record Kernel := mkKernel {
  kernel_socket : bool;
  kernel_pton : string → bool;
  kernel_bind : string → N → bool;
  kernel_sockname : string → N → option N;
  kernel_listen : bool;
}.

Definition uint16 (port : Z) : N := Z.to_N (port `mod` 65536).

(** [TcpRpcServer::Start] up to the thread that accepts connections: the bound
    port. The server pointer may be null. *)
Definition Start {S} (k : Kernel) (server : option (RpcServer S)) (host : string) (port : Z) : res Z :=
  match server with
  | None => Err (InvalidArgument "rpc server must not be null")
  | Some _ =>
      if negb (kernel_socket k) then Err (IoError "failed to create socket")
      else if negb (kernel_pton k host) then Err (InvalidArgument ("invalid tcp host: " +:+ host))
      else if negb (kernel_bind k host (uint16 port)) then
        Err (IoError "failed to bind tcp rpc server")
      else
        let bound_port := match kernel_sockname k host (uint16 port) with
                          | Some bound => Z.of_N bound
                          | None => port
                          end in
        if negb (kernel_listen k) then Err (IoError "failed to listen tcp rpc server")
        else Ok bound_port
  end.

(** * The client's side *)

(** The system calls of a client: [socket()] succeeds, [inet_pton] accepts the
    host, [connect()] gives the transfers of the two directions, and the other
    end answers what was written with bytes of its own. *)
Class Network (N' : Type) := {
  net_socket : N' → bool;
  net_pton : string → bool;
  net_connect : string → N → N' → option (list N * list N);
  net_exchange : string → N → string → N' → string * N';
}.

Section client.
Context {N' : Type} `{Network N'}.

(** [TcpRpcClient::Call]. *)
Definition Call (endpoint : Endpoint) (request : RpcRequest) (net : N') : RpcResponse * N' :=
  let address := host endpoint in
  let port := uint16 (port endpoint) in
  if negb (net_socket net) then
    (MakeRpcError request (ErrorCodeName kRpcError) "failed to create socket", net)
  else if negb (net_pton address) then
    (MakeRpcError request (ErrorCodeName kInvalidArgument) "invalid tcp host", net)
  else match net_connect address port net with
  | None =>
      (MakeRpcError request (ErrorCodeName kRpcError) "failed to connect tcp rpc server", net)
  | Some (sends, receives) =>
      let '(status, socket) := WriteFrame (EncodeRpcRequest request) (mkSocket "" "" sends) in
      let '(reply, net') := net_exchange address port (outgoing socket) net in
      match (_ ← status; (ReadFrame (mkSocket reply "" receives)).1) ≫= DecodeRpcResponse with
      | Ok response => (response, net')
      | Err st => (ErrorResponse request st, net')
      | Fault _ => (ErrorResponse request (Internal ""), net')   (* no step throws *)
      end
  end.

#[export] Instance tcp_transport : Transport N' := Call.
End client.

(** The network of a process that calls nobody. *)
#[export] Instance no_network : Transport unit := λ _ request net,
  (ErrorResponse request (Internal "failed to connect"), net).

(** * Transfers *)

Lemma take_drop_str n s : str_take n s +:+ str_drop n s = s.
Proof.
  revert s. induction n as [|n IH]; intros [|c s]; try done. cbn [str_take str_drop].
  by rewrite sapp_cons, IH.
Qed.

Lemma str_take_length n s : String.length (str_take n s) = Nat.min n (String.length s).
Proof. revert s. induction n as [|n IH]; intros [|c s]; cbn; [done..|]. by rewrite IH. Qed.

Lemma str_drop_length n s : String.length (str_drop n s) = String.length s - n.
Proof. revert s. induction n as [|n IH]; intros [|c s]; cbn; [done..|]. by rewrite IH. Qed.

Lemma str_take_add a b s : str_take (a + b) s = str_take a s +:+ str_take b (str_drop a s).
Proof.
  revert s. induction a as [|a IH]; intros [|c s]; cbn; [done..| |].
  - by destruct b.
  - by rewrite IH, sapp_cons.
Qed.

Lemma str_drop_add a b s : str_drop (a + b) s = str_drop b (str_drop a s).
Proof. revert s. induction a as [|a IH]; intros [|c s]; cbn; [done..| |done]. by destruct b. Qed.

Lemma str_take_app s t : str_take (String.length s) (s +:+ t) = s.
Proof.
  induction s as [|c s IH]; [by destruct t|]. rewrite sapp_cons. cbn [String.length str_take].
  by rewrite IH.
Qed.

Lemma str_drop_app s t : str_drop (String.length s) (s +:+ t) = t.
Proof. by induction s. Qed.

Lemma length_zero s : String.length s = 0 → s = "".
Proof. by destruct s. Qed.

Lemma str_take_app_le n s t : n ≤ String.length s → str_take n (s +:+ t) = str_take n s.
Proof.
  revert s. induction n as [|n IH]; intros [|c s] Hn; cbn [String.length] in Hn; try done; [lia|].
  rewrite sapp_cons. cbn [str_take]. by rewrite IH by lia.
Qed.

Lemma str_drop_app_le n s t : n ≤ String.length s → str_drop n (s +:+ t) = str_drop n s +:+ t.
Proof.
  revert s. induction n as [|n IH]; intros [|c s] Hn; cbn [String.length] in Hn; try done; [lia|].
  rewrite sapp_cons. cbn [str_drop]. by rewrite IH by lia.
Qed.

(** The connection does not fail: every transfer moves something. *)
Definition flows (ts : list N) : Prop := Forall (λ t, t ≠ 0%N) ts.

Lemma flows_tail ts : flows ts → flows (tail ts).
Proof. destruct ts as [|t ts]; [done|]. by intros [_ ?]%list.Forall_cons. Qed.

Lemma moved_flows n s : flows (transfers s) → n ≠ 0 → 0 < moved n s ≤ n.
Proof.
  intros Hf Hn. unfold moved. destruct (transfers s) as [|t ts]; [lia|].
  apply list.Forall_cons in Hf as [Ht _]. lia.
Qed.

Lemma moved_le n s : moved n s ≤ n.
Proof. unfold moved. destruct (transfers s); lia. Qed.

Lemma write_all_flows fuel data s :
  String.length data ≤ fuel → flows (transfers s) →
  ∃ ts, write_all fuel data s =
    (Ok tt, mkSocket (incoming s) (outgoing s +:+ data) ts) ∧ flows ts.
Proof.
  revert data s. induction fuel as [|fuel IH]; intros data s Hfuel Hf.
  { assert (data = "") as -> by (apply length_zero; lia).
    exists (transfers s). rewrite sapp_nil_r. by destruct s. }
  cbn [write_all]. destruct (decide (data = "")) as [-> | Hne].
  { exists (transfers s). rewrite sapp_nil_r. by destruct s. }
  assert (String.length data ≠ 0) as Hlen by (intros H%length_zero; done).
  destruct (moved_flows _ s Hf Hlen) as [Hpos Hle].
  run_call ltac:(reflexivity). rewrite decide_False by lia.
  set (n := moved _ s) in *.
  destruct (IH (str_drop n data)
    (mkSocket (incoming s) (outgoing s +:+ str_take n data) (tail (transfers s))))
    as (ts & -> & Hts); [rewrite str_drop_length; lia | by apply flows_tail |].
  exists ts. cbn [incoming outgoing]. by rewrite sapp_assoc, take_drop_str.
Qed.

Lemma read_all_flows fuel size s :
  size ≤ fuel → size ≤ String.length (incoming s) → flows (transfers s) →
  ∃ ts, read_all fuel size s =
    (Ok (str_take size (incoming s)), mkSocket (str_drop size (incoming s)) (outgoing s) ts)
    ∧ flows ts.
Proof.
  revert size s. induction fuel as [|fuel IH]; intros size s Hfuel Hsize Hf.
  { assert (size = 0) as -> by lia. exists (transfers s). by destruct s. }
  cbn [read_all]. destruct (decide (size = 0)) as [-> | Hne].
  { exists (transfers s). by destruct s. }
  destruct (moved_flows (Nat.min size (String.length (incoming s))) s Hf) as [Hpos Hle]; [lia|].
  set (n := moved _ s) in *. run_call ltac:(reflexivity). fold n.
  pose proof (str_take_length n (incoming s)) as Hlen.
  rewrite decide_False by (intros H; rewrite H in Hlen; cbn [String.length] in Hlen; lia).
  rewrite Hlen, Nat.min_l by lia.
  destruct (IH (size - n) (mkSocket (str_drop n (incoming s)) (outgoing s) (tail (transfers s))))
    as (ts & Hrun & Hts);
    [lia | cbn [incoming]; rewrite str_drop_length; lia | by apply flows_tail |].
  exists ts. run_call ltac:(exact Hrun). cbn [incoming outgoing]. split; [|done].
  rewrite ret_run, <-str_take_add, <-str_drop_add.
  by replace (n + (size - n)) with size by lia.
Qed.

(** Whatever the transfers, what is read in full has the size asked for. *)
Lemma read_all_size fuel size s r s' :
  size ≤ fuel → read_all fuel size s = (r, s') →
  match r with
  | Ok data => String.length data = size
  | Err st => st = IoError "socket read failed"
  | Fault _ => False
  end.
Proof.
  revert size s r s'. induction fuel as [|fuel IH]; intros size s r s' Hfuel Hrun.
  { injection Hrun as <- _. cbn. lia. }
  cbn [read_all] in Hrun. destruct (decide (size = 0)) as [-> | Hne].
  { injection Hrun as <- _. done. }
  unfold mbind, M_bind, recv in Hrun.
  set (n := moved _ s) in *. pose proof (str_take_length n (incoming s)) as Hlen.
  pose proof (moved_le (Nat.min size (String.length (incoming s))) s) as Hn. fold n in Hn.
  case_decide as Hchunk; [by injection Hrun as <- _|].
  assert (String.length (str_take n (incoming s)) ≠ 0) as Hpos by (intros H%length_zero; done).
  destruct (read_all fuel _ _) as [q s1] eqn:Hq. apply IH in Hq; [|lia].
  destruct q as [data|st|f]; injection Hrun as <- _; [|done..].
  rewrite slength_app, Hq. lia.
Qed.

(** ** The length prefix *)

Lemma be_value_cons acc c s : be_value acc (String c s) = be_value (256 * acc + Ascii.N_of_ascii c)%N s.
Proof. done. Qed.

Lemma byte_value n k : Ascii.N_of_ascii (byte_at n k) = (N.shiftr n k `mod` 256)%N.
Proof. apply Ascii.N_ascii_embedding. apply N.mod_lt. done. Qed.

Lemma be32_roundtrip n : (n < two32)%N → be_value 0 (be32 n) = n.
Proof.
  intros Hn. unfold be32. rewrite !be_value_cons, !byte_value, !N.shiftr_div_pow2.
  cbn [be_value]. change (2 ^ 24)%N with 16777216%N. change (2 ^ 16)%N with 65536%N.
  change (2 ^ 8)%N with 256%N. change (2 ^ 0)%N with 1%N. unfold two32 in Hn.
  zify. Z.to_euclidean_division_equations. lia.
Qed.

Lemma ascii_bound c : (Ascii.N_of_ascii c < 256)%N.
Proof. apply Ascii.N_ascii_bounded. Qed.

Lemma be_value_bound s :
  String.length s = 4 → (be_value 0 s < two32)%N.
Proof.
  destruct s as [|a [|b [|c [|d [|]]]]]; try done. intros _. rewrite !be_value_cons. cbn [be_value].
  pose proof (ascii_bound a). pose proof (ascii_bound b). pose proof (ascii_bound c).
  pose proof (ascii_bound d). unfold two32. lia.
Qed.

(** ** Frames *)

(** The bytes of a frame. *)
Definition frame (payload : string) : string :=
  be32 (size_of payload `mod` two32) +:+ payload.

Lemma WriteFrame_flows payload s :
  flows (transfers s) →
  ∃ ts, WriteFrame payload s =
    (Ok tt, mkSocket (incoming s) (outgoing s +:+ frame payload) ts) ∧ flows ts.
Proof.
  intros Hf. unfold WriteFrame, WriteAll.
  edestruct (write_all_flows _ (be32 (size_of payload `mod` two32)) s (le_n _) Hf)
    as (ts & Hrun & Hts). run_call ltac:(exact Hrun).
  edestruct (write_all_flows _ payload (mkSocket (incoming s) (outgoing s +:+
    be32 (size_of payload `mod` two32)) ts) (le_n _) Hts) as (ts' & Hrun' & Hts').
  exists ts'. rewrite Hrun'. cbn [incoming outgoing]. unfold frame. by rewrite sapp_assoc.
Qed.

(** The four bytes of the length, then the rest. *)
Lemma read_header payload rest s :
  incoming s = frame payload +:+ rest → flows (transfers s) →
  ∃ ts, ReadAll 4 s =
    (Ok (be32 (size_of payload `mod` two32)), mkSocket (payload +:+ rest) (outgoing s) ts)
    ∧ flows ts.
Proof.
  intros Hin Hf. unfold frame in Hin. rewrite sapp_assoc in Hin. unfold ReadAll.
  set (h := be32 _) in *. assert (String.length h = 4) as Hh by done.
  destruct (read_all_flows 4 4 s) as (ts & Hrun & Hts);
    [lia | rewrite Hin, slength_app; lia | done |].
  exists ts. split; [|done]. rewrite Hrun, Hin.
  pose proof (str_take_app h (payload +:+ rest)) as Ht.
  pose proof (str_drop_app h (payload +:+ rest)) as Hdr. rewrite Hh in Ht, Hdr. congruence.
Qed.

(** What a receiver makes of the frame of any payload: the length travels
    modulo 2^32. *)
Lemma ReadFrame_flows payload rest s :
  incoming s = frame payload +:+ rest → flows (transfers s) →
  let n := (size_of payload `mod` two32)%N in
  (max_frame < n → ∃ s', ReadFrame s = (Err (InvalidArgument "rpc frame is too large"), s'))%N ∧
  (n <= max_frame → ∃ ts, ReadFrame s =
     (Ok (str_take (N.to_nat n) payload),
      mkSocket (str_drop (N.to_nat n) payload +:+ rest) (outgoing s) ts) ∧ flows ts)%N.
Proof.
  intros Hin Hf n. unfold ReadFrame.
  destruct (read_header payload rest s Hin Hf) as (ts & Hrun & Hts).
  assert (be_value 0 (be32 n) = n) as Hn by (apply be32_roundtrip, N.mod_lt; done).
  split; intros Hsize; run_call ltac:(exact Hrun); fold n; rewrite Hn.
  { destruct (N.ltb_spec max_frame n) as [|]; [by eexists | lia]. }
  destruct (N.ltb_spec max_frame n); [lia|].
  assert (N.to_nat n ≤ String.length payload) as Hle.
  { pose proof (N.Div0.mod_le (size_of payload) two32) as Hm. fold n in Hm. unfold size_of in Hm. lia. }
  destruct (read_all_flows (N.to_nat n) (N.to_nat n) (mkSocket (payload +:+ rest) (outgoing s) ts))
    as (ts' & Hrun' & Hts'); [done | | done |].
  { cbn [incoming]. rewrite slength_app. lia. }
  exists ts'. split; [|done]. unfold ReadAll. rewrite Hrun'. cbn [incoming outgoing].
  by rewrite str_take_app_le, str_drop_app_le.
Qed.

Lemma frame_read payload rest s :
  (size_of payload <= max_frame)%N → incoming s = frame payload +:+ rest → flows (transfers s) →
  ∃ ts, ReadFrame s = (Ok payload, mkSocket rest (outgoing s) ts) ∧ flows ts.
Proof.
  intros Hsize Hin Hf. destruct (ReadFrame_flows payload rest s Hin Hf) as [_ H].
  rewrite N.mod_small in H by (unfold max_frame, two32 in *; lia).
  destruct (H Hsize) as (ts & Hrun & Hts). exists ts. split; [|done]. rewrite Hrun.
  unfold size_of. rewrite Nat2N.id. pose proof (str_take_app payload "") as H1.
  pose proof (str_drop_app payload "") as H2. rewrite sapp_nil_r in H1, H2. by rewrite H1, H2.
Qed.

(** A frame crosses any connection. Sender and receiver may be given any
    number of bytes at a time: as long as no transfer fails, what one end writes
    as a frame of at most 64 MiB the other end reads back exactly, and the bytes
    behind the frame stay unread. *)
Lemma frame_roundtrip payload rest s s2 :
  (size_of payload <= max_frame)%N → flows (transfers s) → flows (transfers s2) →
  incoming s2 = str_drop (String.length (outgoing s)) (outgoing (WriteFrame payload s).2) +:+ rest →
  (WriteFrame payload s).1 = Ok tt ∧
  ∃ s2', ReadFrame s2 = (Ok payload, s2') ∧ incoming s2' = rest.
Proof.
  intros Hsize Hs Hs2. destruct (WriteFrame_flows payload s Hs) as (ts & -> & _).
  cbn [fst snd outgoing]. rewrite str_drop_app. intros Hin. split; [done|].
  destruct (frame_read payload rest s2 Hsize Hin Hs2) as (ts2 & -> & _). by eexists.
Qed.

Lemma frame_roundtrip_witness :
  (WriteFrame "hello" (mkSocket "" "" [1%N; 2%N; 9%N])).1 = Ok tt ∧
  ∃ s2', ReadFrame (mkSocket (frame "hello" +:+ "next") "" [3%N; 7%N; 1%N]) = (Ok "hello", s2') ∧
    incoming s2' = "next".
Proof.
  apply (frame_roundtrip "hello" "next" (mkSocket "" "" [1%N; 2%N; 9%N])
    (mkSocket (frame "hello" +:+ "next") "" [3%N; 7%N; 1%N])).
  - by vm_compute.
  - by repeat constructor.
  - by repeat constructor.
  - vm_compute. reflexivity.
Defined.

(** The receiver's bounds. No connection, failing or not, makes it accept a
    frame above 64 MiB or one that is shorter than announced; a longer frame is
    refused as soon as its length is read. The announced length is the
    payload's size modulo 2^32: of a payload of 2^32 bytes and more only that
    many bytes are delivered, as if they were all. *)
Lemma frame_bounds payload rest s :
  (∀ data s', ReadFrame s = (Ok data, s') → size_of data <= max_frame)%N ∧
  (incoming s = frame payload +:+ rest → flows (transfers s) →
   (ReadFrame s).1 =
     (let n := size_of payload `mod` two32 in
      if (max_frame <? n)%N then Err (InvalidArgument "rpc frame is too large")
      else Ok (str_take (N.to_nat n) payload)))%N.
Proof.
  split.
  - intros data s' Hrun. unfold ReadFrame in Hrun.
    apply bind_Ok_inv in Hrun as (header & s1 & Hh & Hrun).
    destruct (N.ltb_spec max_frame (be_value 0 header)); [done|].
    apply (read_all_size _ _ _ _ _ (le_n _)) in Hrun.
    cbv beta iota in Hrun. unfold size_of. rewrite Hrun. lia.
  - intros Hin Hf. destruct (ReadFrame_flows payload rest s Hin Hf) as [Hbig Hsmall]. cbv zeta.
    destruct (N.ltb_spec max_frame (size_of payload `mod` two32)) as [H | H].
    + by destruct (Hbig H) as (s' & ->).
    + by destruct (Hsmall H) as (ts & -> & _).
Qed.

(** A header that announces one byte more than the limit. *)
Lemma frame_bounds_witness :
  (∀ data s', ReadFrame (mkSocket (frame "ab" +:+ "") "" [4%N]) = (Ok data, s') →
     size_of data <= max_frame)%N ∧
  (ReadFrame (mkSocket (frame "ab" +:+ "") "" [4%N])).1 = Ok "ab".
Proof.
  split.
  - apply (frame_bounds "ab" "" (mkSocket (frame "ab" +:+ "") "" [4%N])).
  - apply (frame_bounds "ab" "" (mkSocket (frame "ab" +:+ "") "" [4%N])).
    + reflexivity.
    + by repeat constructor.
Defined.

Lemma oversized_header : ReadFrame (mkSocket (be32 (max_frame + 1)) "" []) =
  (Err (InvalidArgument "rpc frame is too large"), mkSocket "" "" []).
Proof. vm_compute. reflexivity. Qed.

(** * A call over TCP *)

(** The requests and responses the envelopes carry faithfully and the frames
    have room for. *)
Definition request_fits (r : RpcRequest) : Prop :=
  metadata_ok (rq_metadata r) ∧ (- two31 <= rq_deadline_ms r < two31)%Z ∧
  (size_of (EncodeRpcRequest r) <= max_frame)%N.
Definition response_fits (r : RpcResponse) : Prop :=
  metadata_ok (rs_metadata r) ∧ (size_of (EncodeRpcResponse r) <= max_frame)%N.

Lemma on_socket_run {S A} (m : IO Socket A) s (w : S) r s' :
  m s = (r, s') → on_socket m (s, w) = (r, (s', w)).
Proof. intros Hm. unfold on_socket, zoom. cbn [fst snd]. by rewrite Hm. Qed.

(** One connection of the server: the handler's answer to the request. *)
Lemma HandleClient_run {S} (srv : RpcServer S) request response ts (w w' : S) :
  request_fits request → metadata_ok (rs_metadata response) → flows ts →
  Handle srv request w = (Ok response, w') →
  ∃ ts', HandleClient srv (mkSocket (frame (EncodeRpcRequest request)) "" ts, w) =
    (Ok tt, (mkSocket "" (frame (EncodeRpcResponse response)) ts', w')).
Proof.
  intros (Hmd & Hdl & Hsize) Hrmd Hts Hh. unfold HandleClient.
  destruct (frame_read (EncodeRpcRequest request) "" (mkSocket (frame (EncodeRpcRequest request)) "" ts))
    as (ts1 & Hread & Hts1); [done | by rewrite sapp_nil_r | done |].
  cbn [outgoing] in Hread.
  assert ((encoded ← ReadFrame; lift (DecodeRpcRequest encoded))
    (mkSocket (frame (EncodeRpcRequest request)) "" ts) = (Ok request, mkSocket "" "" ts1)) as Hin.
  { run_call ltac:(exact Hread). unfold lift. by rewrite rpc_request_roundtrip. }
  erewrite bind_ok; [|unfold status_of; rewrite (on_socket_run _ _ w _ _ Hin); reflexivity].
  cbv beta iota. erewrite bind_ok; [|unfold zoom; cbn [fst snd]; rewrite Hh; reflexivity].
  cbn [fst snd].
  destruct (WriteFrame_flows (EncodeRpcResponse response) (mkSocket "" "" ts1) Hts1)
    as (ts2 & Hwrite & _). exists ts2. unfold ignore.
  by rewrite (on_socket_run _ _ _ _ _ Hwrite).
Qed.

(** The other end at an address runs a server whose state is a part of [Net']. *)
Definition runs_server {N' S} `{Network N'} (srv : RpcServer S) (state : N' → S)
    (endpoint : Endpoint) : Prop :=
  ∀ bytes net, ∃ ts, flows ts ∧ ∀ socket w',
    HandleClient srv (mkSocket bytes "" ts, state net) = (Ok tt, (socket, w')) →
    ∃ net', net_exchange (host endpoint) (uint16 (port endpoint)) bytes net =
      (outgoing socket, net') ∧ state net' = w'.

(** The client can connect, and the connection does not fail. *)
Definition reachable {N'} `{Network N'} (endpoint : Endpoint) (net : N') : Prop :=
  net_socket net = true ∧ net_pton (host endpoint) = true ∧
  ∃ sends receives, flows sends ∧ flows receives ∧
    net_connect (host endpoint) (uint16 (port endpoint)) net = Some (sends, receives).

(** C26: A call over TCP is a call of the handler. When the address can be
    reached and the process there runs the TCP server over a handler table, a
    request that fits its envelope and the frame limit is answered by exactly
    what the handler answers, and the state behind the server changes exactly as
    the handler changes it, however the kernel cuts the stream. *)
Theorem tcp_call_is_the_handler {N' S} `{Network N'} (srv : RpcServer S) (state : N' → S)
    endpoint request response net w' :
  reachable endpoint net → runs_server srv state endpoint → request_fits request →
  response_fits response → Handle srv request (state net) = (Ok response, w') →
  ∃ net', tcp_call endpoint request net = (response, net') ∧ state net' = w'.
Proof.
  intros (Hsock & Hpton & sends & receives & Hsends & Hrecv & Hconn) Hsrv Hreq [Hrmd Hrsize] Hh.
  unfold tcp_call, tcp_transport, Call. rewrite Hsock, Hpton, Hconn. cbn [negb].
  destruct (WriteFrame_flows (EncodeRpcRequest request) (mkSocket "" "" sends) Hsends)
    as (ts & -> & _). cbn [incoming outgoing]. rewrite sapp_nil_l.
  assert (∃ net', net_exchange (host endpoint) (uint16 (port endpoint))
    (frame (EncodeRpcRequest request)) net = (frame (EncodeRpcResponse response), net') ∧
    state net' = w') as (net' & -> & Hstate).
  { edestruct (Hsrv (frame (EncodeRpcRequest request)) net) as (ts0 & Hts0 & Hx).
    destruct (HandleClient_run srv request response ts0 (state net) w' Hreq Hrmd Hts0 Hh)
      as (ts1 & Hrun). destruct (Hx _ _ Hrun) as (net' & Hex & Hst). by exists net'. }
  exists net'. split; [|done].
  destruct (frame_read (EncodeRpcResponse response) "" (mkSocket (frame (EncodeRpcResponse response))
    "" receives)) as (ts2 & -> & _); [done | by rewrite sapp_nil_r | done |].
  cbn [mbind result_bind fst]. by rewrite rpc_response_roundtrip.
Qed.

(** A network with one server behind every address, its connections cutting
    the stream at odd places. *)
Definition one_server {S} (srv : RpcServer S) : Network S := {|
  net_socket := λ _, true;
  net_pton := λ _, true;
  net_connect := λ _ _ _, Some ([3%N; 1%N], [2%N; 5%N]);
  net_exchange := λ _ _ bytes w,
    let '(_, (socket, w')) := HandleClient srv (mkSocket bytes "" [1%N; 4%N], w) in
    (outgoing socket, w');
|}.

(** A server that counts its calls and returns the payload. *)
Definition echo_server : RpcServer nat := mkServer {["echo" := λ request,
  _ ← modify S; mret (MakeRpcOk request (rq_payload request))]}.

Definition echo_request : RpcRequest := mkRequest "r1" "echo" "test" "echo" 3000 "hi" ∅.

Lemma tcp_call_is_the_handler_witness :
  let net := one_server echo_server in
  ∃ net', tcp_call (mkEndpoint "10.0.0.1" 8101) echo_request 7 =
    (MakeRpcOk echo_request "hi", net') ∧ net' = 8.
Proof.
  intros net. apply (tcp_call_is_the_handler (H := net) echo_server id (mkEndpoint "10.0.0.1" 8101)).
  - split; [reflexivity|]. split; [reflexivity|]. exists [3%N; 1%N], [2%N; 5%N].
    split; [by repeat constructor|]. split; [by repeat constructor | reflexivity].
  - intros bytes w. exists [1%N; 4%N]. split; [by repeat constructor|].
    intros socket w' Hrun. exists w'. split; [|reflexivity]. cbn [net_exchange net one_server].
    unfold id in Hrun. by rewrite Hrun.
  - split; [by intros k [x Hx]|]. split; [by vm_compute | by vm_compute].
  - split; [by intros k [x Hx] | by vm_compute].
  - reflexivity.
Defined.
