(* ===== verification/Threads.v ===== *)
(** The threads of a server: the accept loop and the stopping of
    src/rpc/tcp_rpc.cpp, which src/dashboard/dashboard_server.cpp repeats. One
    thread accepts connections, every connection is handled by a detached thread of
    its own, and the owner of the object starts and stops it. A run is any
    interleaving of their turns; what handlers share is only touched in sections, a
    section being what one thread does while it has the lock, or one access where
    there is no lock. *)

From S2P Require Import Prelude Types Text Codec Service Tcp.

(** * Programs with critical sections *)

(** A handler between two acquisitions of the lock computes with values of its
    own, so all it does is a tree of critical sections: what a section saw decides
    how the handler goes on. *)
Inductive Act (S A : Type) :=
  | Return (r : res A)
  | Critical (section : S → Act S A * S).
Arguments Return {S A} r.
Arguments Critical {S A} section.

(** Induction over the states the sections may see. *)
Definition Act_sections {S A} (P : Act S A → Prop) (HR : ∀ r, P (Return r))
    (HC : ∀ section, (∀ s, P (section s).1) → P (Critical section)) : ∀ p, P p :=
  fix go p :=
    match p with
    | Return r => HR r
    | Critical section =>
        HC section (λ s, match section s as q return P q.1 with (p', _) => go p' end)
    end.

#[export] Instance Act_ret {S} : MRet (Act S) := λ A a, Return (Ok a).
#[export] Instance Act_bind {S} : MBind (Act S) := λ A B k,
  fix go (p : Act S A) : Act S B :=
    match p with
    | Return (Ok a) => k a
    | Return (Err st) => Return (Err st)
    | Return (Fault f) => Return (Fault f)
    | Critical section => Critical (λ s, let '(q, s') := section s in (go q, s'))
    end.

Section acts.
Context {S A B : Type}.

(** One operation under the lock. *)
Definition atomic (m : IO S A) : Act S A :=
  Critical (λ s, let '(r, s') := m s in (Return r, s')).

(** The sections of a program one after the other, nobody in between. *)
Fixpoint alone (p : Act S A) : IO S A := λ s,
  match p with
  | Return r => (r, s)
  | Critical section => let '(q, s') := section s in alone q s'
  end.

(** The program left once its first sections saw these states; [None] when it
    has fewer sections. *)
Fixpoint after (p : Act S A) (seen : list S) {struct seen} : option (Act S A) :=
  match seen with
  | [] => Some p
  | s :: seen =>
      match p with
      | Return _ => None
      | Critical section => after (section s).1 seen
      end
  end.
End acts.

(** [respond] of Codec over a program. *)
Fixpoint respond_act {S} (request : RpcRequest) (body : Act S string) : Act S RpcResponse :=
  match body with
  | Return (Ok payload) => Return (Ok (MakeRpcOk request payload))
  | Return (Err st) => Return (Ok (StatusToRpcError request st))
  | Return (Fault f) => Return (Fault f)
  | Critical section => Critical (λ s, let '(q, s') := section s in (respond_act request q, s'))
  end.

Lemma alone_atomic {S A} (m : IO S A) s : alone (atomic m) s = m s.
Proof. unfold atomic. cbn [alone]. by destruct (m s). Qed.

Lemma alone_bind {S A B} (p : Act S A) (k : A → Act S B) s :
  alone (p ≫= k) s = (a ← alone p; alone (k a)) s.
Proof.
  revert s. induction p as [r|section IH] using Act_sections; intros s.
  - by destruct r.
  - cbn. specialize (IH s). unfold mbind, M_bind in *. cbn [alone].
    destruct (section s) as [q s']. apply IH.
Qed.

Lemma alone_respond {S} request (body : Act S string) s :
  alone (respond_act request body) s = respond request (alone body) s.
Proof.
  unfold respond. revert s. induction body as [r|section IH] using Act_sections; intros s.
  - by destruct r.
  - cbn. specialize (IH s). destruct (section s) as [q s']. apply IH.
Qed.

Lemma after_app {S A} (p : Act S A) seen s :
  after p (seen ++ [s]) =
    match after p seen with
    | Some (Critical section) => Some (section s).1
    | _ => None
    end.
Proof.
  revert p. induction seen as [|s0 seen IH]; intros p; cbn [app after].
  - by destruct p.
  - destruct p; [done|]. apply IH.
Qed.

(** * The object, its threads, its connections *)

(** What [listen_fd_] refers to: nothing, a socket with the connections the
    kernel has completed and nobody accepted, or a socket that was shut down. *)
Inductive listener :=
  | NoSocket
  | Listening (backlog : list Socket)
  | ShutDown.

(** Where the accept thread is: there is none, at the loop's test, in
    [accept], returned and not joined. *)
Inductive acceptor := NoThread | AtLoop | InAccept | Returned.

(** Where the owner is: outside the object's functions, or in [Stop] with the
    [exchange], the [shutdown] or the [close] behind it; or the object is gone. *)
Inductive owner := Outside | Exchanged | Shut | Joining | Gone.

#[export] Instance acceptor_eq_dec : EqDecision acceptor.
Proof. solve_decision. Defined.
#[export] Instance owner_eq_dec : EqDecision owner.
Proof. solve_decision. Defined.

Record Server := mkServerObject {
  running_ : bool;
  listen_fd_ : listener;
  bound_port_ : Z;
  accept_thread_ : acceptor;
  owner_ : owner;
}.

Definition new_server : Server := mkServerObject false NoSocket 0 NoThread Outside.

Definition set_acceptor (a : acceptor) (o : Server) : Server :=
  mkServerObject (running_ o) (listen_fd_ o) (bound_port_ o) a (owner_ o).
Definition set_listener (l : listener) (o : Server) : Server :=
  mkServerObject (running_ o) l (bound_port_ o) (accept_thread_ o) (owner_ o).
Definition set_owner (w : owner) (o : Server) : Server :=
  mkServerObject (running_ o) (listen_fd_ o) (bound_port_ o) (accept_thread_ o) w.

(** One turn of [AcceptLoop]: the connection it accepted, if it did. A call of
    [accept] waits for a connection, may fail for reasons of the kernel's own, and
    fails on a socket that is shut down or closed; every failure goes back to the
    test. *)
Definition AcceptLoop (fails : bool) (o : Server) : option (option Socket * Server) :=
  match accept_thread_ o with
  | NoThread | Returned => None
  | AtLoop => Some (None, set_acceptor (if running_ o then InAccept else Returned) o)
  | InAccept =>
      match listen_fd_ o with
      | NoSocket | ShutDown => Some (None, set_acceptor AtLoop o)
      | Listening backlog =>
          if fails then Some (None, set_acceptor AtLoop o)
          else match backlog with
               | [] => None
               | client :: rest => Some (Some client, set_acceptor AtLoop (set_listener (Listening rest) o))
               end
      end
  end.

(** The end of [Start]: the port is open and the accept thread runs. *)
Definition started (bound_port : Z) (o : Server) : Server :=
  mkServerObject true (Listening []) bound_port AtLoop (owner_ o).

(** [running_.exchange(false)]: the rest of [Stop] runs only for the call
    that finds the flag set. *)
Definition CallStop (o : Server) : bool * Server :=
  if running_ o then
    (false, mkServerObject false (listen_fd_ o) (bound_port_ o) (accept_thread_ o) Exchanged)
  else (true, o).

(** One turn of [Stop] after the exchange: whether it returns, [None] while
    [join] waits. *)
Definition Stop (o : Server) : option (bool * Server) :=
  match owner_ o with
  | Outside | Gone => None
  | Exchanged =>
      match listen_fd_ o with
      | NoSocket => Some (false, set_owner Joining o)
      | _ => Some (false, set_owner Shut (set_listener ShutDown o))
      end
  | Shut => Some (false, set_owner Joining (set_listener NoSocket o))
  | Joining =>
      match accept_thread_ o with
      | NoThread => Some (true, set_owner Outside o)
      | Returned => Some (true, set_owner Outside (set_acceptor NoThread o))
      | AtLoop | InAccept => None
      end
  end.

(** * Runs *)

Section service.
Context {S R : Type}.

(** What tells the two servers apart: [Start], how a request is read, what is
    done about it, and how the reply is written. *)
Context (start : Kernel → string → Z → res Z).
Context (receive : IO Socket R) (work : R → Act S string) (reply : string → IO Socket unit).

(** A thread of [HandleClient]. *)
Inductive connection :=
  | Reading (k : Socket)
  | Working (k : Socket) (r : R) (p : Act S string)
  | Writing (k : Socket) (r : R) (bytes : string)
  | Finished (k : Socket).

(** What happens in a run; a section's state is the one it found. *)
Inductive event :=
  | Started
  | Stopped
  | Accepted (i : nat)
  | Received (i : nat) (r : R)
  | Acted (i : nat) (r : R) (s : S)
  | Answered (i : nat) (r : R) (bytes : string).

(** The process; [ended] after an exception nobody catches, or a use of an
    object that is gone. *)
Record process := mkProcess {
  object_ : Server;
  threads_ : gmap nat connection;
  shared_ : S;
  ended : bool;
}.

Definition fresh_process (s : S) : process := mkProcess new_server ∅ s false.

(** One turn of a thread of [HandleClient], given whether the object is there:
    what happens and what becomes of the thread and of the shared state. *)
Definition HandleClient_turn (there : bool) (i : nat) (c : connection) (s : S) :
    option (list event * res connection * S) :=
  match c with
  | Reading k =>
      match receive k with
      | (Ok r, k') => Some ([Received i r], Ok (Working k' r (work r)), s)
      | (Err st, k') => Some ([], Ok (Finished k'), s)
      | (Fault f, _) => Some ([], Fault f, s)
      end
  | Working k r (Critical section) =>
      if there then
        let '(p, s') := section s in Some ([Acted i r s], Ok (Working k r p), s')
      else Some ([], Fault Undefined, s)
  | Working k r (Return (Ok bytes)) => Some ([Answered i r bytes], Ok (Writing k r bytes), s)
  | Working k r (Return (Err st)) => Some ([], Ok (Finished k), s)
  | Working k r (Return (Fault f)) => Some ([], Fault f, s)
  | Writing k r bytes => Some ([], Ok (Finished (reply bytes k).2), s)
  | Finished _ => None
  end.

(** Whose turn it is, with what the kernel and the owner's code decide:
    a client connects, the owner calls [Start] or [Stop] or destroys the object,
    the owner goes on in [Stop], the accept thread takes a turn, whose [accept] may
    fail and whose connection gets a number, or a connection's thread does. *)
Inductive turn :=
  | Connects (k : Socket)
  | CallsStart (kernel : Kernel) (host : string) (port : Z)
  | CallsStop
  | Destroys
  | OwnerTurn
  | AcceptorTurn (fails : bool) (i : nat)
  | ThreadTurn (i : nat).

Definition with_object (o : Server) (st : process) : process :=
  mkProcess o (threads_ st) (shared_ st) (ended st).

(** The owner calls one function of the object at a time, starts it when it is
    stopped, and destroys it after [Stop], which the destructor calls. *)
Definition take_turn (t : turn) (st : process) : option (list event * process) :=
  let o := object_ st in
  if ended st then None
  else match t with
  | Connects k =>
      match listen_fd_ o with
      | Listening backlog => Some ([], with_object (set_listener (Listening (backlog ++ [k])) o) st)
      | _ => None
      end
  | CallsStart kernel host port =>
      if decide (owner_ o = Outside ∧ accept_thread_ o = NoThread) then
        match start kernel host port with
        | Ok bound_port => Some ([Started], with_object (started bound_port o) st)
        | _ => Some ([], st)
        end
      else None
  | CallsStop =>
      if decide (owner_ o = Outside) then
        let '(returns, o') := CallStop o in
        Some (if returns then [Stopped] else [], with_object o' st)
      else None
  | Destroys =>
      if decide (owner_ o = Outside ∧ running_ o = false) then
        Some ([], with_object (set_owner Gone o) st)
      else None
  | OwnerTurn =>
      '(returns, o') ← Stop o;
      Some (if (returns : bool) then [Stopped] else [], with_object o' st)
  | AcceptorTurn fails i =>
      '(client, o') ← AcceptLoop fails o;
      match client with
      | None => Some ([], with_object o' st)
      | Some k =>
          if threads_ st !! i is Some _ then None
          else Some ([Accepted i], mkProcess o' (<[i := Reading k]> (threads_ st)) (shared_ st) false)
      end
  | ThreadTurn i =>
      c ← threads_ st !! i;
      '(events, c', s') ← HandleClient_turn (bool_decide (owner_ o ≠ Gone)) i c (shared_ st);
      match c' with
      | Ok c' => Some (events, mkProcess o (<[i := c']> (threads_ st)) s' false)
      | _ => Some (events, mkProcess o (threads_ st) s' true)
      end
  end.

(** The states a process gets to from a shared state, with what happened on the
    way. *)
Inductive runs (s0 : S) : list event → process → Prop :=
  | runs_start : runs s0 [] (fresh_process s0)
  | runs_turn tr st t events st' :
      runs s0 tr st → take_turn t st = Some (events, st') → runs s0 (tr ++ events) st'.

(** A run as a program, for concrete schedules. *)
Fixpoint take_turns (ts : list turn) (tr : list event) (st : process) : option (list event * process) :=
  match ts with
  | [] => Some (tr, st)
  | t :: ts => '(events, st') ← take_turn t st; take_turns ts (tr ++ events) st'
  end.

Lemma take_turns_runs s0 ts tr st tr' st' :
  runs s0 tr st → take_turns ts tr st = Some (tr', st') → runs s0 tr' st'.
Proof.
  revert tr st. induction ts as [|t ts IH]; intros tr st Hruns; cbn [take_turns].
  - intros [= <- <-]. exact Hruns.
  - intros ([events st1] & Ht & Hrest)%bind_Some. apply (IH _ _ (runs_turn _ _ _ _ _ _ Hruns Ht) Hrest).
Qed.
End service.

Arguments Started {S R}.
Arguments Stopped {S R}.
Arguments Accepted {S R} i.
Arguments Received {S R} i r.
Arguments Acted {S R} i r s.
Arguments Answered {S R} i r bytes.
Arguments Reading {S R} k.
Arguments Working {S R} k r p.
Arguments Writing {S R} k r bytes.
Arguments Finished {S R} k.

(** * RPC over TCP *)

(** The request of a frame, or the status its reader ends with. *)
Definition tcp_receive : IO Socket (RpcRequest + Status) :=
  status_of (encoded ← ReadFrame; lift (DecodeRpcRequest encoded)).

(** [program] is how the handlers behind the table take the lock. *)
Definition tcp_work {S} (program : RpcRequest → Act S RpcResponse) (received : RpcRequest + Status) :
    Act S string :=
  response ← match received with
    | inl request => program request
    | inr st => Return (Ok (ErrorResponse default_request st))
    end;
  Return (Ok (EncodeRpcResponse response)).

Definition tcp_start {S} (server_ : RpcServer S) : Kernel → string → Z → res Z := λ k host port,
  Start k (Some server_) host port.
