(* ===== verification/ThreadsSpec.v ===== *)
(** What the threads of a server guarantee, for every interleaving: a reply is
    what the program of its request returned over the states its critical sections
    found, the shared state changes only in those sections, [Stop] returns, a
    stopped server accepts nobody, and a thread that runs alone is [HandleClient]. *)

From S2P Require Import Prelude Types Text Codec Service Tcp Threads.

(** * Programs that keep what they find *)

(** Every section of the program that finds [I] leaves [I], whatever happened
    in between, and the program returns a value of [Q]. *)
Fixpoint keeps {S A} (I : S → Prop) (Q : A → Prop) (p : Act S A) : Prop :=
  match p with
  | Return (Ok a) => Q a
  | Return _ => False
  | Critical section => ∀ s, I s → let '(q, s') := section s in I s' ∧ keeps I Q q
  end.

Lemma keeps_then {S A B} (I : S → Prop) (Q : A → Prop) (Q' : B → Prop) (p : Act S A) (k : A → Act S B) :
  keeps I Q p → (∀ a, Q a → keeps I Q' (k a)) → keeps I Q' (p ≫= k).
Proof.
  intros Hp Hk. induction p as [[a|st|f]|section IH] using Act_sections; [by apply Hk | done | done |].
  intros s Hs. specialize (IH s). specialize (Hp s Hs). destruct (section s) as [q s'].
  destruct Hp as [Hs' Hq]. split; [exact Hs' | by apply IH].
Qed.

Lemma keeps_atomic {S A} (I : S → Prop) (Q : A → Prop) (m : IO S A) :
  (∀ s, I s → ∃ a s', m s = (Ok a, s') ∧ I s' ∧ Q a) → keeps I Q (atomic m).
Proof. intros Hm s Hs. destruct (Hm s Hs) as (a & s' & -> & Hs' & Ha). by split. Qed.

Lemma keeps_mono {S A} (I : S → Prop) (Q Q' : A → Prop) (p : Act S A) :
  keeps I Q p → (∀ a, Q a → Q' a) → keeps I Q' p.
Proof.
  intros Hp HQ. induction p as [[a|st|f]|section IH] using Act_sections; [by apply HQ | done | done |].
  intros s Hs. specialize (IH s). specialize (Hp s Hs). destruct (section s) as [q s'].
  destruct Hp as [Hs' Hq]. split; [exact Hs' | by apply IH].
Qed.

Lemma keeps_after {S A} (I : S → Prop) (Q : A → Prop) seen : ∀ (p q : Act S A),
  keeps I Q p → Forall I seen → after p seen = Some q → keeps I Q q.
Proof.
  induction seen as [|s seen IH]; intros p q Hp Hseen Hq; [by injection Hq as <-|].
  apply list.Forall_cons in Hseen as [Hs Hseen]. destruct p as [r|section]; [done|].
  specialize (Hp s Hs). cbn [after] in Hq. destruct (section s) as [p' s'].
  exact (IH p' q (proj2 Hp) Hseen Hq).
Qed.

Section service.
Context {S R : Type}.
Context (start : Kernel → string → Z → res Z).
Context (receive : IO Socket R) (work : R → Act S string) (reply : string → IO Socket unit).

Abbreviation take_turn := (take_turn start receive work reply).
Abbreviation take_turns := (take_turns start receive work reply).
Abbreviation runs := (runs start receive work reply).
Abbreviation HandleClient_turn := (HandleClient_turn receive work reply).
Abbreviation event := (@event S R).
Abbreviation process := (@process S R).
Abbreviation connection := (@connection S R).

(** The events of a connection. *)
Definition event_of (e : event) : option nat :=
  match e with
  | Started | Stopped => None
  | Accepted i | Received i _ | Acted i _ _ | Answered i _ _ => Some i
  end.

(** ** Kinds of turns *)

(** The object's own turns leave threads and shared state alone. *)
Definition object_turn (st : process) (events : list event) (st' : process) : Prop :=
  threads_ st' = threads_ st ∧ shared_ st' = shared_ st ∧
  (events = [] ∨ events = [Started] ∨ events = [Stopped]).

Definition accept_turn (st : process) (events : list event) (st' : process) : Prop :=
  ∃ i k, events = [Accepted i] ∧ threads_ st !! i = None ∧
    threads_ st' = <[i := Reading k]> (threads_ st) ∧ shared_ st' = shared_ st ∧
    accept_thread_ (object_ st) = InAccept.

Definition thread_turn (st : process) (events : list event) (st' : process) : Prop :=
  ∃ i c q there, threads_ st !! i = Some c ∧
    HandleClient_turn there i c (shared_ st) = Some (events, q, shared_ st') ∧
    object_ st' = object_ st ∧
    threads_ st' = match q with Ok c' => <[i := c']> (threads_ st) | _ => threads_ st end.

Lemma turn_cases t st events st' :
  take_turn t st = Some (events, st') →
  object_turn st events st' ∨ accept_turn st events st' ∨ thread_turn st events st'.
Proof.
  intros Hturn. unfold take_turn in Hturn. destruct (ended st); [done|].
  destruct t as [k|kernel host port| | | |fails i|i].
  - destruct (listen_fd_ (object_ st)); try done. injection Hturn as <- <-. left. by repeat split; left.
  - case_decide; [|done]. left. destruct (start kernel host port); injection Hturn as <- <-;
      repeat split; auto.
  - case_decide; [|done]. left. destruct (CallStop (object_ st)) as [[] o]; injection Hturn as <- <-;
      repeat split; auto.
  - case_decide; [|done]. injection Hturn as <- <-. left. by repeat split; left.
  - apply bind_Some in Hturn as ([[] o] & _ & [= <- <-]); left; repeat split; auto.
  - apply bind_Some in Hturn as ([[k|] o] & Hacc & Hturn).
    + destruct (threads_ st !! i) eqn:Hi; [done|]. injection Hturn as <- <-. right. left.
      exists i, k. split_and!; try done. unfold AcceptLoop in Hacc.
      by destruct (accept_thread_ (object_ st)).
    + injection Hturn as <- <-. left. repeat split; auto.
  - apply bind_Some in Hturn as (c & Hc & Hturn).
    apply bind_Some in Hturn as ([[evs q] s'] & Hthread & Hturn). right. right.
    exists i, c, q, (bool_decide (owner_ (object_ st) ≠ Gone)).
    destruct q; injection Hturn as <- <-; done.
Qed.

(** A turn of a connection's thread makes at most one event, its own. *)
Lemma thread_event there i c s events q s' :
  HandleClient_turn there i c s = Some (events, q, s') →
  events = [] ∨ ∃ e, events = [e] ∧ event_of e = Some i ∧ e ≠ Accepted i.
Proof.
  unfold HandleClient_turn. destruct c as [k|k r [[bytes|st0|f]|section]|k r bytes|k]; try done.
  - destruct (receive k) as [[r|st0|f] k']; intros [= <- <- <-]; [right; by eexists | by left..].
  - intros [= <- <- <-]. right. by eexists.
  - intros [= <- <- <-]. by left.
  - intros [= <- <- <-]. by left.
  - destruct there; [destruct (section s)|]; intros [= <- <- <-]; [right; by eexists | by left].
  - intros [= <- <- <-]. by left.
Qed.

Lemma take_turn_event t st events st' :
  take_turn t st = Some (events, st') → events = [] ∨ ∃ e, events = [e].
Proof.
  intros [(_ & _ & [-> | [-> | ->]]) | [(i & k & -> & _) | (i & c & q & there & _ & Hthread & _)]]%turn_cases;
    eauto.
  destruct (thread_event _ _ _ _ _ _ _ Hthread) as [-> | (e & -> & _)]; eauto.
Qed.

Lemma take_turn_accepts t st events st' i :
  take_turn t st = Some (events, st') → Accepted i ∈ events →
  events = [Accepted i] ∧ accept_thread_ (object_ st) = InAccept.
Proof.
  intros [(_ & _ & Hq) | [(j & k & -> & _ & _ & _ & Hacc) | (j & c & q & there & _ & Hthread & _)]]%turn_cases.
  - by destruct Hq as [-> | [-> | ->]]; [intros He%elem_of_nil | intros He%list_elem_of_singleton..].
  - by intros [= ->]%list_elem_of_singleton.
  - destruct (thread_event _ _ _ _ _ _ _ Hthread) as [-> | (e & -> & Hof & Hne)].
    + by intros He%elem_of_nil.
    + intros <-%list_elem_of_singleton. by injection Hof as ->.
Qed.

Lemma take_turn_receives t st events st' i r :
  take_turn t st = Some (events, st') → Received i r ∈ events →
  events = [Received i r] ∧ ∃ k, threads_ st !! i = Some (Reading k).
Proof.
  intros [(_ & _ & Hq) | [(j & k & -> & _) | (j & c & q & there & Hc & Hthread & _)]]%turn_cases He.
  - by destruct Hq as [-> | [-> | ->]]; [apply elem_of_nil in He | apply list_elem_of_singleton in He..].
  - by apply list_elem_of_singleton in He.
  - destruct (thread_event _ _ _ _ _ _ _ Hthread) as [-> | (e & -> & Hof & _)]; [by apply elem_of_nil in He|].
    apply list_elem_of_singleton in He as <-. injection Hof as <-. split; [done|].
    unfold HandleClient_turn in Hthread.
    destruct c as [k|k r0 [[bytes|st0|f]|section]|k r0 bytes|k]; [by exists k|..]; try discriminate Hthread.
    destruct there; [destruct (section (shared_ st))|]; discriminate Hthread.
Qed.

(** ** What a thread has seen *)

Definition acted (i : nat) (tr : list event) : list S :=
  omap (λ e, match e with Acted j _ s => if decide (j = i) then Some s else None | _ => None end) tr.

Lemma acted_app i tr1 tr2 : acted i (tr1 ++ tr2) = acted i tr1 ++ acted i tr2.
Proof. apply omap_app. Qed.

Lemma acted_one i r s : acted i [Acted i r s] = [s].
Proof. cbn. by rewrite decide_True. Qed.

Lemma acted_unseen i tr :
  (∀ e, e ∈ tr → event_of e = Some i → e = Accepted i) → acted i tr = [].
Proof.
  induction tr as [|e tr IH]; intros Htr; [done|].
  pose proof (Htr e (list_elem_of_here _ _)) as He.
  change (acted i (e :: tr)) with (acted i ([e] ++ tr)).
  rewrite acted_app, IH by (intros x Hx; apply Htr; by right).
  destruct e as [| |j|j r|j r s|j r bytes]; try done.
  cbn in *. case_decide as Hj; [|done]. subst. discriminate (He eq_refl).
Qed.

Lemma acted_none i tr : (∀ e, e ∈ tr → event_of e ≠ Some i) → acted i tr = [].
Proof. intros Htr. apply acted_unseen. intros e He Hi. destruct (Htr e He Hi). Qed.

(** A thread is where its request and the sections it ran put it. *)
Definition thread_ok (tr : list event) (i : nat) (c : connection) : Prop :=
  match c with
  | Reading _ => ∀ e, e ∈ tr → event_of e = Some i → e = Accepted i
  | Working _ r p => after (work r) (acted i tr) = Some p ∧ Received i r ∈ tr
  | Writing _ _ _ | Finished _ => True
  end.

(** A reply is what its request's program returned after the sections it ran. *)
Definition answer_ok (tr : list event) (e : event) : Prop :=
  match e with
  | Answered i r bytes =>
      after (work r) (acted i tr) = Some (Return (Ok bytes)) ∧ Received i r ∈ tr
  | _ => True
  end.

(** No thread that answered acts again. *)
Definition answered_past (st : process) (e : event) : Prop :=
  match e with
  | Answered i _ _ => ∃ c, threads_ st !! i = Some c ∧
      match c with Reading _ | Working _ _ _ => False | _ => True end
  | _ => True
  end.

Record run_ok (tr : list event) (st : process) : Prop := {
  rn_known : ∀ e i, e ∈ tr → event_of e = Some i → is_Some (threads_ st !! i);
  rn_threads : ∀ i c, threads_ st !! i = Some c → thread_ok tr i c;
  rn_answers : ∀ e, e ∈ tr → answer_ok tr e ∧ answered_past st e;
}.

(** A turn whose events are not of any connection, and that leaves the threads. *)
Lemma run_ok_quiet tr st st' events :
  run_ok tr st → threads_ st' = threads_ st → (events = [] ∨ events = [Started] ∨ events = [Stopped]) →
  run_ok (tr ++ events) st'.
Proof.
  intros [Hk Ht Ha] Heq Hev.
  assert (∀ e, e ∈ events → event_of e = None ∧ answer_ok (tr ++ events) e ∧ answered_past st' e) as Hq.
  { destruct Hev as [-> | [-> | ->]]; intros e He; [by apply elem_of_nil in He|..];
      apply list_elem_of_singleton in He as ->; done. }
  assert (∀ i, acted i (tr ++ events) = acted i tr) as Hacted.
  { intros i. rewrite acted_app, (acted_none i events), app_nil_r; [done|].
    intros e He. by rewrite (proj1 (Hq e He)). }
  split.
  - intros e i [He | He]%elem_of_app Hi; rewrite Heq; [by eapply Hk|].
    by rewrite (proj1 (Hq e He)) in Hi.
  - intros i c Hc. rewrite Heq in Hc. specialize (Ht i c Hc). destruct c; cbn [thread_ok] in *; [| |done..].
    + intros e [He | He]%elem_of_app Hi; [by apply Ht|]. by rewrite (proj1 (Hq e He)) in Hi.
    + rewrite Hacted. split; [apply Ht | apply elem_of_app; left; apply Ht].
  - intros e [He | He]%elem_of_app; [|by apply Hq]. destruct (Ha e He) as [H1 H2]. split.
    + destruct e; cbn [answer_ok] in *; try done. rewrite Hacted.
      split; [apply H1 | apply elem_of_app; left; apply H1].
    + destruct e; cbn [answered_past] in *; try done. by rewrite Heq.
Qed.

(** A turn of one connection that leaves the others alone. *)
Lemma run_ok_thread tr st st' events i c c' :
  run_ok tr st → threads_ st !! i = Some c → threads_ st' = <[i := c']> (threads_ st) →
  (∀ e, e ∈ events → event_of e = Some i) →
  match c with Reading _ | Working _ _ _ => True | _ => events = [] end →
  match c with Writing _ _ _ | Finished _ => match c' with Reading _ | Working _ _ _ => False | _ => True end
             | _ => True end →
  thread_ok (tr ++ events) i c' →
  (∀ e, e ∈ events → answer_ok (tr ++ events) e ∧ answered_past st' e) →
  run_ok (tr ++ events) st'.
Proof.
  intros [Hk Ht Ha] Hc Heq Hev Hlate Hpast Hok Hans.
  assert (∀ j, j ≠ i → acted j (tr ++ events) = acted j tr) as Hother.
  { intros j Hj. rewrite acted_app, (acted_none j events), app_nil_r; [done|].
    intros e He. rewrite (Hev e He). congruence. }
  split.
  - intros e j [He | He]%elem_of_app Hj; rewrite Heq; apply lookup_insert_is_Some'.
    + right. by eapply Hk.
    + left. rewrite (Hev e He) in Hj. congruence.
  - intros j c0 Hc0. rewrite Heq in Hc0. destruct (decide (j = i)) as [-> | Hj].
    { rewrite lookup_insert_eq in Hc0. by injection Hc0 as <-. }
    rewrite lookup_insert_ne in Hc0 by done. specialize (Ht j c0 Hc0).
    destruct c0; cbn [thread_ok] in *; [| |done..].
    + intros e [He | He]%elem_of_app Hi; [by apply Ht|]. rewrite (Hev e He) in Hi. congruence.
    + rewrite Hother by done. split; [apply Ht | apply elem_of_app; left; apply Ht].
  - intros e [He | He]%elem_of_app; [|by apply Hans]. destruct (Ha e He) as [H1 H2].
    destruct e as [| |j|j r|j r s|j r bytes]; cbn [answer_ok answered_past] in *; try done.
    destruct H2 as (c0 & Hc0 & Hp). rewrite Heq. destruct (decide (j = i)) as [-> | Hj].
    + assert (c0 = c) as -> by congruence.
      destruct c; try done; subst events; rewrite app_nil_r;
        (split; [exact H1 | exists c'; by rewrite lookup_insert_eq]).
    + rewrite Hother by done. split; [split; [apply H1 | apply elem_of_app; left; apply H1]|].
      exists c0. by rewrite lookup_insert_ne by done.
Qed.

(** A connection is accepted. *)
Lemma run_ok_new tr st st' i k :
  run_ok tr st → threads_ st !! i = None → threads_ st' = <[i := Reading k]> (threads_ st) →
  run_ok (tr ++ [Accepted i]) st'.
Proof.
  intros [Hk Ht Ha] Hfree Heq.
  assert (∀ e, e ∈ tr → event_of e ≠ Some i) as Hnew.
  { intros e He Hi. destruct (Hk e i He Hi) as [c Hc]. congruence. }
  assert (∀ j, acted j (tr ++ [Accepted i]) = acted j tr) as Hacted.
  { intros j. rewrite acted_app. by rewrite app_nil_r. }
  split.
  - intros e j [He | ->%list_elem_of_singleton]%elem_of_app Hj; rewrite Heq; apply lookup_insert_is_Some'.
    + right. by eapply Hk.
    + left. by injection Hj.
  - intros j c Hc. rewrite Heq in Hc. destruct (decide (j = i)) as [-> | Hj].
    + rewrite lookup_insert_eq in Hc. injection Hc as <-.
      intros e [He | ->%list_elem_of_singleton]%elem_of_app Hi; [|done]. destruct (Hnew e He Hi).
    + rewrite lookup_insert_ne in Hc by done. specialize (Ht j c Hc).
      destruct c; cbn [thread_ok] in *; [| |done..].
      * intros e [He | ->%list_elem_of_singleton]%elem_of_app Hi; [by apply Ht|]. by injection Hi as <-.
      * rewrite Hacted. split; [apply Ht | apply elem_of_app; left; apply Ht].
  - intros e [He | ->%list_elem_of_singleton]%elem_of_app; [|done]. destruct (Ha e He) as [H1 H2]. split.
    + destruct e; cbn [answer_ok] in *; try done. rewrite Hacted.
      split; [apply H1 | apply elem_of_app; left; apply H1].
    + destruct e as [| |j|j r|j r s|j r bytes]; cbn [answered_past] in *; try done.
      destruct H2 as (c & Hc & Hp). exists c. rewrite Heq, lookup_insert_ne; [done|].
      intros <-. congruence.
Qed.

Lemma thread_turn_ok tr st st' i c there events q s' :
  run_ok tr st → threads_ st !! i = Some c →
  HandleClient_turn there i c (shared_ st) = Some (events, q, s') →
  match q with
  | Ok c' => threads_ st' = <[i := c']> (threads_ st)
  | _ => threads_ st' = threads_ st
  end →
  run_ok (tr ++ events) st'.
Proof.
  intros Hok Hc Hturn Hst.
  pose proof (rn_threads _ _ Hok i c Hc) as Hi. unfold HandleClient_turn in Hturn.
  destruct c as [k|k r [[bytes|st0|f]|section]|k r bytes|k]; cbn [thread_ok] in Hi.
  - (* a request is read *)
    destruct (receive k) as [[r|st0|f] k']; injection Hturn as <- <- <-;
      [..|by apply (run_ok_quiet tr st); [|exact Hst|left]].
    + eapply run_ok_thread; try done; [by intros e ->%list_elem_of_singleton|..].
      * split; [|apply elem_of_app; right; apply list_elem_of_here].
        rewrite acted_app, app_nil_r, acted_unseen; done.
      * by intros e ->%list_elem_of_singleton.
    + eapply run_ok_thread; try done; by intros e He%elem_of_nil.
  - (* the handler returned *)
    injection Hturn as <- <- <-.
    eapply run_ok_thread; try done; [by intros e ->%list_elem_of_singleton|].
    intros e ->%list_elem_of_singleton. cbn [answer_ok answered_past].
    rewrite acted_app, app_nil_r. destruct Hi as [H1 H2].
    split; [split; [exact H1 | apply elem_of_app; by left]|].
    eexists. by rewrite Hst, lookup_insert_eq.
  - injection Hturn as <- <- <-. eapply run_ok_thread; try done; by intros e He%elem_of_nil.
  - injection Hturn as <- <- <-. by apply (run_ok_quiet tr st); [|exact Hst|left].
  - (* a critical section *)
    destruct there; [|injection Hturn as <- <- <-; by apply (run_ok_quiet tr st); [|exact Hst|left]].
    destruct (section (shared_ st)) as [p s1] eqn:Hsec. injection Hturn as <- <- <-.
    eapply run_ok_thread; try done; [by intros e ->%list_elem_of_singleton|..].
    + destruct Hi as [H1 H2]. split; [|apply elem_of_app; by left].
      rewrite acted_app, acted_one, after_app, H1, Hsec. done.
    + by intros e ->%list_elem_of_singleton.
  - injection Hturn as <- <- <-. eapply run_ok_thread; try done; by intros e He%elem_of_nil.
  - discriminate Hturn.
Qed.

Lemma take_turn_ok tr st t events st' :
  run_ok tr st → take_turn t st = Some (events, st') → run_ok (tr ++ events) st'.
Proof.
  intros Hok [(Hth & _ & Hq) | [(i & k & -> & Hfree & Hth & _) | (i & c & q & there & Hc & Hthread & _ & Hth)]]%turn_cases.
  - by apply (run_ok_quiet _ _ _ _ Hok).
  - by apply (run_ok_new _ _ _ i k Hok).
  - eapply thread_turn_ok; [exact Hok | exact Hc | exact Hthread | by destruct q].
Qed.

Lemma runs_ok s0 tr st : runs s0 tr st → run_ok tr st.
Proof.
  induction 1 as [|tr st t events st' _ IH Ht]; [|by eapply take_turn_ok].
  split.
  - by intros e i He%elem_of_nil.
  - intros i c Hc. cbn [fresh_process threads_] in Hc. by rewrite lookup_empty in Hc.
  - by intros e He%elem_of_nil.
Qed.

(** A reply is what the program of the thread's request returned, and the
    sections it ran are those the run has for the thread. *)
Lemma runs_answered s0 tr st i r bytes :
  runs s0 tr st → Answered i r bytes ∈ tr →
  after (work r) (acted i tr) = Some (Return (Ok bytes)) ∧ Received i r ∈ tr.
Proof. intros Hruns He. apply (rn_answers _ _ (runs_ok _ _ _ Hruns) _ He). Qed.

(** ** The shared state *)

Definition quiet (e : event) : Prop := match e with Acted _ _ _ => False | _ => True end.

(** One turn leaves the shared state, or runs one critical section of a
    request's program after the sections the thread had run before. *)
Lemma take_turn_shared tr st t events st' :
  run_ok tr st → take_turn t st = Some (events, st') →
  (Forall quiet events ∧ shared_ st' = shared_ st) ∨
  ∃ i r section, events = [Acted i r (shared_ st)] ∧
    after (work r) (acted i tr) = Some (Critical section) ∧ Received i r ∈ tr ∧
    shared_ st' = (section (shared_ st)).2.
Proof.
  intros Hok [(_ & Hs & Hq) | [(i & k & -> & _ & _ & Hs & _) | (i & c & q & there & Hc & Hthread & _)]]%turn_cases.
  - left. split; [|exact Hs]. by destruct Hq as [-> | [-> | ->]]; repeat constructor.
  - left. split; [by repeat constructor | exact Hs].
  - pose proof (rn_threads _ _ Hok i c Hc) as Hi. unfold HandleClient_turn in Hthread.
    destruct c as [k|k r [[bytes|st0|f]|section]|k r bytes|k]; cbn [thread_ok] in Hi; try discriminate Hthread.
    + left. destruct (receive k) as [[r|st0|f] k']; injection Hthread as <- <- <-; by repeat constructor.
    + left. injection Hthread as <- <- <-. by repeat constructor.
    + left. injection Hthread as <- <- <-. by split.
    + left. injection Hthread as <- <- <-. by split.
    + destruct there; [|left; injection Hthread as <- <- <-; by split].
      right. exists i, r, section. destruct (section (shared_ st)) as [p s1].
      injection Hthread as <- <- <-. split_and!; [done | apply Hi | apply Hi | done].
    + left. injection Hthread as <- <- <-. by split.
Qed.

(** What every section keeps holds of the shared state, whatever the
    interleaving. *)
Lemma runs_shared (I : list event → S → Prop) s0 :
  I [] s0 →
  (∀ tr events s, I tr s → Forall quiet events → I (tr ++ events) s) →
  (∀ tr i r section s, I tr s → after (work r) (acted i tr) = Some (Critical section) →
     I (tr ++ [Acted i r s]) (section s).2) →
  ∀ tr st, runs s0 tr st → I tr (shared_ st).
Proof.
  intros H0 Hquiet Hact tr st Hruns.
  induction Hruns as [|tr st t events st' Hruns IH Ht]; [exact H0|].
  destruct (take_turn_shared _ _ _ _ _ (runs_ok _ _ _ Hruns) Ht)
    as [[Hq ->] | (i & r & section & -> & Hsec & _ & ->)]; [by apply Hquiet | by apply Hact].
Qed.

(** When the programs of all requests keep [I], so does the process, and every
    answer is what its program promises. *)
Lemma runs_keep (I : S → Prop) (Q : R → string → Prop) s0 tr st :
  (∀ r, keeps I (Q r) (work r)) → I s0 → runs s0 tr st →
  I (shared_ st) ∧ (∀ i r bytes, Answered i r bytes ∈ tr → Q r bytes).
Proof.
  intros Hwork H0 Hruns.
  assert (∀ tr st, runs s0 tr st → I (shared_ st) ∧ ∀ i, Forall I (acted i tr)) as Hall.
  { apply (runs_shared (λ tr s, I s ∧ ∀ i, Forall I (acted i tr))).
    - split; [exact H0 | constructor].
    - intros tr1 events s [Hs Htr] Hq. split; [exact Hs|]. intros i. rewrite acted_app.
      apply list.Forall_app. split; [apply Htr|].
      clear -Hq. induction Hq as [|e events He _ IH]; [constructor|].
      change (acted i (e :: events)) with (acted i ([e] ++ events)). rewrite acted_app.
      apply list.Forall_app. split; [|exact IH]. destruct e; done || constructor.
    - intros tr1 j r section s [Hs Htr] Hafter.
      pose proof (keeps_after I (Q r) _ _ _ (Hwork r) (Htr j) Hafter s Hs) as Hkeeps.
      destruct (section s) as [q s']. split; [apply Hkeeps|]. intros i. rewrite acted_app.
      apply list.Forall_app. split; [apply Htr|]. cbn. case_decide; by repeat constructor. }
  split; [by eapply Hall|]. intros i r bytes Hans.
  destruct (runs_answered _ _ _ _ _ _ Hruns Hans) as [Hafter _].
  exact (keeps_after I (Q r) _ _ _ (Hwork r) (proj2 (Hall _ _ Hruns) i) Hafter).
Qed.

Lemma quiet_app tr1 i r s tr2 events tr :
  tr ++ events = tr1 ++ Acted i r s :: tr2 → Forall quiet events →
  ∃ tr2', tr = tr1 ++ Acted i r s :: tr2' ∧ tr2 = tr2' ++ events.
Proof.
  intros Heq Hq. apply app_eq_inv in Heq as [(k & -> & Hk) | (k & -> & Hk)].
  - destruct k as [|e k]; cbn in Hk.
    + subst events. by apply list.Forall_cons in Hq as [Hq _].
    + injection Hk as <- ->. by exists k.
  - subst events. rewrite list.Forall_app in Hq. destruct Hq as [_ Hq].
    by apply list.Forall_cons in Hq as [Hq _].
Qed.

(** The state a section found is the shared state at its point of the run, and
    what it made of it is the state from there on. *)
Lemma runs_section s0 tr st tr1 i r s tr2 :
  runs s0 tr st → tr = tr1 ++ Acted i r s :: tr2 →
  ∃ st1 section, runs s0 tr1 st1 ∧ s = shared_ st1 ∧
    after (work r) (acted i tr1) = Some (Critical section) ∧ Received i r ∈ tr1.
Proof.
  intros Hruns. revert tr1 i r s tr2.
  induction Hruns as [|tr st t events st' Hruns IH Ht]; intros tr1 i r s tr2 Heq.
  - by destruct tr1.
  - destruct (take_turn_shared _ _ _ _ _ (runs_ok _ _ _ Hruns) Ht)
      as [[Hq _] | (j & r' & section & -> & Hsec & Hrec & _)].
    + destruct (quiet_app _ _ _ _ _ _ _ Heq Hq) as (tr2' & Htr & _). by apply (IH tr1 i r s tr2').
    + destruct tr2 as [|e tr2 _] using rev_ind.
      * apply app_inj_tail in Heq as [<- [= <- <- <-]]. by exists st, section.
      * rewrite app_comm_cons, app_assoc in Heq. apply app_inj_tail in Heq as [-> _].
        by apply (IH tr1 i r s tr2).
Qed.

(** A thread has one request. *)
Lemma runs_one_request s0 tr st i r r' :
  runs s0 tr st → Received i r ∈ tr → Received i r' ∈ tr → r = r'.
Proof.
  intros Hruns. induction Hruns as [|tr st t events st' Hruns IH Ht]; [by intros H%elem_of_nil|].
  pose proof (λ i k, rn_threads _ _ (runs_ok _ _ _ Hruns) i (Reading k)) as Hnew. cbn [thread_ok] in Hnew.
  intros [H1 | H1]%elem_of_app [H2 | H2]%elem_of_app; [by apply IH|..].
  - destruct (take_turn_receives _ _ _ _ _ _ Ht H2) as (_ & k & Hk).
    discriminate (Hnew _ _ Hk _ H1 eq_refl).
  - destruct (take_turn_receives _ _ _ _ _ _ Ht H1) as (_ & k & Hk).
    discriminate (Hnew _ _ Hk _ H2 eq_refl).
  - destruct (take_turn_receives _ _ _ _ _ _ Ht H1) as (-> & _).
    apply list_elem_of_singleton in H2. congruence.
Qed.

Lemma acted_split i tr seen s later :
  acted i tr = seen ++ s :: later →
  ∃ tr1 r tr2, tr = tr1 ++ Acted i r s :: tr2 ∧ acted i tr1 = seen.
Proof.
  revert seen. induction tr as [|e tr IH]; intros seen Heq; [by destruct seen|].
  change (acted i (e :: tr)) with (acted i ([e] ++ tr)) in Heq. rewrite acted_app in Heq.
  assert (acted i [e] = [] ∨ ∃ r s0, e = Acted i r s0 ∧ acted i [e] = [s0]) as [He | (r & s0 & -> & He)].
  { destruct e as [| |j|j r|j r s0|j r bytes]; try by left. cbn.
    case_decide as Hj; [|by left]. subst. right. by exists r, s0. }
  - rewrite He in Heq. destruct (IH _ Heq) as (tr1 & r & tr2 & -> & Hseen).
    exists (e :: tr1), r, tr2. split; [done|]. change (e :: tr1) with ([e] ++ tr1).
    by rewrite acted_app, He.
  - rewrite He in Heq. destruct seen as [|s1 seen]; cbn in Heq; injection Heq as -> Heq.
    + by exists [], r, tr.
    + destruct (IH _ Heq) as (tr1 & r1 & tr2 & -> & Hseen). exists (Acted i r s1 :: tr1), r1, tr2.
      split; [done|]. change (Acted i r s1 :: tr1) with ([Acted i r s1] ++ tr1).
      by rewrite acted_app, He, Hseen.
Qed.

(** The sections of a thread, each with the run before it. *)
Lemma runs_acted s0 tr st i r seen s later :
  runs s0 tr st → Received i r ∈ tr → acted i tr = seen ++ s :: later →
  ∃ tr1 tr2 st1, tr = tr1 ++ Acted i r s :: tr2 ∧ acted i tr1 = seen ∧
    runs s0 tr1 st1 ∧ s = shared_ st1.
Proof.
  intros Hruns Hr Hacted. destruct (acted_split _ _ _ _ _ Hacted) as (tr1 & r' & tr2 & Heq & Hseen).
  destruct (runs_section _ _ _ _ _ _ _ _ Hruns Heq) as (st1 & section & Hruns1 & Hs & _ & Hr').
  assert (r' = r) as ->.
  { apply (runs_one_request s0 tr st i); [done| |done]. rewrite Heq. apply elem_of_app. by left. }
  by exists tr1, tr2, st1.
Qed.

(** ** Starting and stopping *)

(** The object's fields fit the place of its owner. *)
Definition server_ok (o : Server) : Prop :=
  match owner_ o with
  | Outside =>
      if running_ o then
        (∃ backlog, listen_fd_ o = Listening backlog) ∧
        (accept_thread_ o = AtLoop ∨ accept_thread_ o = InAccept)
      else listen_fd_ o = NoSocket ∧ accept_thread_ o = NoThread
  | Exchanged => running_ o = false ∧ (∃ backlog, listen_fd_ o = Listening backlog) ∧ accept_thread_ o ≠ NoThread
  | Shut => running_ o = false ∧ listen_fd_ o = ShutDown ∧ accept_thread_ o ≠ NoThread
  | Joining => running_ o = false ∧ listen_fd_ o = NoSocket ∧ accept_thread_ o ≠ NoThread
  | Gone => running_ o = false ∧ listen_fd_ o = NoSocket ∧ accept_thread_ o = NoThread
  end.

Ltac server_state :=
  unfold server_ok, set_owner, set_acceptor, set_listener, started in *;
  cbn [owner_ running_ listen_fd_ accept_thread_ bound_port_] in *.

Lemma AcceptLoop_ok fails o client o' :
  server_ok o → AcceptLoop fails o = Some (client, o') → server_ok o'.
Proof.
  destruct o as [run fd port acc own]. unfold AcceptLoop. server_state. intros Hok Hturn.
  destruct acc; try done.
  - injection Hturn as <- <-. server_state. destruct own, run; naive_solver.
  - destruct fd as [|backlog|], fails; try destruct backlog; try done;
      injection Hturn as <- <-; server_state; destruct own, run; naive_solver.
Qed.

Lemma Stop_ok o returns o' :
  server_ok o → Stop o = Some (returns, o') → server_ok o'.
Proof.
  destruct o as [run fd port acc own]. unfold Stop. server_state. intros Hok Hturn.
  destruct own; try done.
  - destruct fd; injection Hturn as <- <-; server_state; naive_solver.
  - injection Hturn as <- <-. server_state. naive_solver.
  - destruct acc; try done; injection Hturn as <- <-; server_state; destruct run; naive_solver.
Qed.

Lemma take_turn_server_ok t st events st' :
  server_ok (object_ st) → take_turn t st = Some (events, st') → server_ok (object_ st').
Proof.
  intros Hok Hturn. unfold take_turn in Hturn. destruct (ended st); [done|].
  destruct st as [o cs s en]. cbn [object_ threads_ shared_] in *.
  destruct t as [k|kernel host port| | | |fails i|i].
  - destruct o as [run fd prt acc own]. server_state. destruct fd; try done.
    injection Hturn as <- <-. unfold with_object. cbn [object_]. server_state.
    destruct own, run; naive_solver.
  - case_decide as Hd; [|done]. destruct (start kernel host port); injection Hturn as <- <-; try exact Hok.
    destruct o as [run fd prt acc own]. unfold with_object. cbn [object_]. server_state.
    destruct Hd as [-> ->]. eauto.
  - case_decide as Hd; [|done]. unfold CallStop in Hturn. destruct o as [run fd prt acc own].
    server_state. subst own. destruct run; injection Hturn as <- <-; [|exact Hok].
    unfold with_object. cbn [object_]. server_state. naive_solver.
  - case_decide as Hd; [|done]. injection Hturn as <- <-. destruct o as [run fd prt acc own].
    unfold with_object. cbn [object_]. server_state. by destruct Hd as [-> ->].
  - apply bind_Some in Hturn as ([returns o'] & Hstop & [= <- <-]). by eapply Stop_ok.
  - apply bind_Some in Hturn as ([[k|] o'] & Hacc & Hturn); [destruct (cs !! i); [done|]|];
      injection Hturn as <- <-; by eapply AcceptLoop_ok.
  - apply bind_Some in Hturn as (c & Hc & Hturn).
    apply bind_Some in Hturn as ([[evs q] s'] & Hthread & Hturn).
    destruct q; injection Hturn as <- <-; exact Hok.
Qed.

Lemma runs_server_ok s0 tr st : runs s0 tr st → server_ok (object_ st).
Proof. induction 1; [done | by eapply take_turn_server_ok]. Qed.

(** What is left of [Stop] and of the accept thread it waits for. *)
Definition stop_work (o : Server) : nat :=
  match owner_ o with Exchanged => 3 | Shut => 2 | Joining => 1 | _ => 0 end +
  match accept_thread_ o with InAccept => 2 | AtLoop => 1 | _ => 0 end.

Definition stopping (o : Server) : bool :=
  match owner_ o with Exchanged | Shut | Joining => true | _ => false end.

(** The turns of the owner and of the accept thread. *)
Definition server_turn (t : turn) : bool :=
  match t with OwnerTurn | AcceptorTurn _ _ => true | _ => false end.

Lemma stopping_turn t st events st' :
  server_ok (object_ st) → stopping (object_ st) = true → take_turn t st = Some (events, st') →
  (stopping (object_ st') = false ∧ events = [Stopped]) ∨
  (stopping (object_ st') = true ∧
   stop_work (object_ st') + (if server_turn t then 1 else 0) ≤ stop_work (object_ st)).
Proof.
  intros Hok Hs Hturn. unfold take_turn in Hturn. destruct (ended st); [done|].
  destruct st as [[run fd prt acc own] cs s en]. cbn [object_ threads_ shared_ ended] in *.
  unfold stopping, stop_work in *. server_state.
  destruct t as [k|kernel host port| | | |fails i|i]; cbn [server_turn].
  - destruct fd; try done. injection Hturn as <- <-. right. cbn. split; [exact Hs | lia].
  - case_decide as Hd; [|done]. destruct Hd as [-> _]. done.
  - case_decide as Hd; [|done]. by subst own.
  - case_decide as Hd; [|done]. destruct Hd as [-> _]. done.
  - apply bind_Some in Hturn as ([returns o'] & Hstop & [= <- <-]).
    unfold Stop in Hstop. cbn [owner_ listen_fd_ accept_thread_] in Hstop.
    destruct own; try done; [destruct fd | |destruct acc; try done]; injection Hstop as <- <-; cbn;
      try (right; split; [done | lia]); left; done.
  - apply bind_Some in Hturn as ([client o'] & Hacc & Hturn).
    assert (∃ ths en', st' = mkProcess o' ths s en') as (ths & en' & ->).
    { destruct client; [destruct (cs !! i); [done|]|]; injection Hturn as <- <-; by do 2 eexists. }
    unfold AcceptLoop in Hacc. cbn [listen_fd_ accept_thread_ running_] in Hacc. right.
    assert (run = false) as -> by (destruct own; naive_solver).
    destruct acc; try done; [|destruct fd as [|[|]|], fails; try done]; injection Hacc as <- <-; cbn;
      (split; [exact Hs | lia]).
  - apply bind_Some in Hturn as (c & Hc & Hturn).
    apply bind_Some in Hturn as ([[evs q] s'] & Hthread & Hturn).
    right. destruct q; injection Hturn as <- <-; cbn; (split; [exact Hs | lia]).
Qed.

Lemma take_turns_from ts tr st :
  take_turns ts tr st = '(events, st') ← take_turns ts [] st; Some (tr ++ events, st').
Proof.
  revert tr st. induction ts as [|t ts IH]; intros tr st; cbn [take_turns].
  - cbn. by rewrite app_nil_r.
  - destruct (take_turn t st) as [[events st1]|]; [|done]. cbn [mbind option_bind].
    rewrite (IH (tr ++ events)), (IH ([] ++ events)).
    destruct (take_turns ts [] st1) as [[new st2]|]; [|done]. cbn. by rewrite app_assoc.
Qed.

(** [Stop] returns, whatever the other threads do meanwhile: as long as it has
    not, the owner or the accept thread can take a turn, and they take at most
    five. *)
Lemma stop_progress st :
  server_ok (object_ st) → stopping (object_ st) = true → ended st = false →
  ∃ t, server_turn t = true ∧ is_Some (take_turn t st).
Proof.
  destruct st as [[run fd prt acc own] cs s en]. cbn [object_ ended]. intros Hok Hs ->.
  unfold stopping in Hs. server_state.
  destruct own; try done.
  - exists OwnerTurn. split; [done|]. cbn. by destruct fd.
  - exists OwnerTurn. by split.
  - destruct Hok as (-> & -> & Hacc). destruct acc; try done.
    + by exists (AcceptorTurn true 0).
    + by exists (AcceptorTurn true 0).
    + by exists OwnerTurn.
Qed.

Lemma stop_bound ts st events st' :
  server_ok (object_ st) → stopping (object_ st) = true →
  take_turns ts [] st = Some (events, st') → Stopped ∉ events →
  server_ok (object_ st') ∧ stopping (object_ st') = true ∧
  length (filter server_turn ts) + stop_work (object_ st') ≤ stop_work (object_ st).
Proof.
  revert st events st'. induction ts as [|t ts IH]; intros st events st' Hok Hs; cbn [take_turns].
  - intros [= <- <-] _. cbn. split_and!; [done | done | lia].
  - intros ([e1 st1] & Ht & Hrest)%bind_Some Hnot. rewrite take_turns_from in Hrest.
    apply bind_Some in Hrest as ([e2 st2] & Hrest & [= <- <-]). rewrite not_elem_of_app in Hnot.
    pose proof (take_turn_server_ok _ _ _ _ Hok Ht) as Hok1.
    destruct (stopping_turn _ _ _ _ Hok Hs Ht) as [[_ ->] | [Hs1 Hw]].
    { destruct Hnot as [Hn _]. destruct Hn. apply list_elem_of_here. }
    destruct (IH _ _ _ Hok1 Hs1 Hrest (proj2 Hnot)) as (Hok2 & Hs2 & Hb). split_and!; [done..|].
    rewrite filter_cons. case_decide as Hd; destruct (server_turn t); cbn [length] in *; try done; lia.
Qed.

(** Whether the last thing that happened to the server is that it stopped, or
    that it has not been started. *)
Definition is_down (tr : list event) : bool :=
  foldl (λ down e, match e with Started => false | Stopped => true | _ => down end) true tr.

Lemma is_down_app tr events :
  is_down (tr ++ events) =
    foldl (λ down e, match e with Started => false | Stopped => true | _ => down end) (is_down tr) events.
Proof. apply foldl_app. Qed.

Lemma down_turn tr st t events st' :
  server_ok (object_ st) →
  (is_down tr = true → running_ (object_ st) = false ∧ stopping (object_ st) = false) →
  take_turn t st = Some (events, st') → is_down (tr ++ events) = true →
  running_ (object_ st') = false ∧ stopping (object_ st') = false.
Proof.
  intros Hok Hdown Hturn. rewrite is_down_app. unfold take_turn in Hturn. destruct (ended st); [done|].
  destruct st as [o cs s en]. cbn [object_ threads_ shared_] in *.
  destruct t as [k|kernel host port| | | |fails i|i].
  - destruct (listen_fd_ o); try done. injection Hturn as <- <-. exact Hdown.
  - case_decide; [|done]. destruct (start kernel host port); injection Hturn as <- <-; done.
  - case_decide as Hd; [|done]. unfold CallStop in Hturn. unfold stopping in *.
    destruct (running_ o) eqn:Hrun; injection Hturn as <- <-.
    + intros Htr. by destruct (Hdown Htr).
    + intros _. cbn [object_ with_object]. by rewrite Hrun, Hd.
  - case_decide as Hd; [|done]. injection Hturn as <- <-. intros _. cbn. by destruct Hd as [_ ->].
  - apply bind_Some in Hturn as ([returns o'] & Hstop & [= <- <-]).
    destruct o as [run fd prt acc own]. unfold Stop, stopping in *. server_state.
    destruct own; try done; [destruct fd| |destruct acc; try done]; injection Hstop as <- <-;
      cbn [foldl object_ with_object owner_ running_] in *; try (intros Htr; by destruct (Hdown Htr));
      intros _; naive_solver.
  - apply bind_Some in Hturn as ([client o'] & Hacc & Hturn). intros Hd.
    assert (is_down tr = true) as Htr.
    { by destruct client; [destruct (cs !! i); [done|]|]; injection Hturn as <- <-. }
    destruct (Hdown Htr) as [Hr Hs]. destruct o as [run fd prt acc own].
    unfold AcceptLoop, stopping in *. server_state. subst run.
    destruct own; try done; [destruct Hok as [_ ->] | destruct Hok as (_ & _ & ->)]; done.
  - apply bind_Some in Hturn as (c & Hc & Hturn).
    apply bind_Some in Hturn as ([[evs q] s'] & Hthread & Hturn).
    destruct (thread_event _ _ _ _ _ _ _ Hthread) as [-> | (e & -> & He & _)];
      destruct q; injection Hturn as <- <-; try exact Hdown; destruct e; try done; exact Hdown.
Qed.

(** A server that is down accepts nobody: no port, no accept thread. *)
Lemma runs_down s0 tr st :
  runs s0 tr st → is_down tr = true →
  listen_fd_ (object_ st) = NoSocket ∧ accept_thread_ (object_ st) = NoThread.
Proof.
  intros Hruns Hd.
  assert (running_ (object_ st) = false ∧ stopping (object_ st) = false) as [Hr Hs].
  { revert Hd. induction Hruns as [|tr st t events st' Hruns IH Ht]; [done|].
    by apply (down_turn tr st t); [eapply runs_server_ok | |]. }
  pose proof (runs_server_ok _ _ _ Hruns) as Hok. unfold server_ok, stopping in *. rewrite Hr in Hok.
  destruct (owner_ (object_ st)); try done. by destruct Hok as (_ & ? & ?).
Qed.

(** ** One thread alone *)

(** Turns of one thread, nobody in between. *)
Fixpoint thread_turns (n : nat) (i : nat) (c : connection) (s : S) : res connection * S :=
  match n with
  | O => (Ok c, s)
  | Datatypes.S n =>
      match HandleClient_turn true i c s with
      | None => (Ok c, s)
      | Some (_, Ok c', s') => thread_turns n i c' s'
      | Some (_, Err st, s') => (Err st, s')
      | Some (_, Fault f, s') => (Fault f, s')
      end
  end.

(** What becomes of a thread that works on a program: it writes what the
    program returns. *)
Definition thread_end (k : Socket) (q : res string) : res connection :=
  match q with
  | Ok bytes => Ok (Finished (reply bytes k).2)
  | Err _ => Ok (Finished k)
  | Fault f => Fault f
  end.

Lemma working_alone i k r p s :
  ∃ n, thread_turns n i (Working k r p) s = (thread_end k (alone p s).1, (alone p s).2).
Proof.
  revert s. induction p as [q|section IH] using Act_sections; intros s.
  - destruct q as [bytes|st|f]; [by exists 2 | by exists 1 | by exists 1].
  - specialize (IH s). cbn [alone]. destruct (section s) as [p s'] eqn:Hsec.
    destruct (IH s') as (n & Hn). exists (1 + n). cbn [Nat.add thread_turns HandleClient_turn].
    rewrite Hsec. exact Hn.
Qed.
End service.

(** * The guarantees of the threads *)

Section guarantees.
Context {S R : Type}.
Context (start : Kernel → string → Z → res Z).
Context (receive : IO Socket R) (work : R → Act S string) (reply : string → IO Socket unit).

(** C24: [Stop] returns. From the moment it has cleared the flag, whatever clients
    connect, whatever other threads do and however [accept] fails: as long as it has
    not returned and no handler has brought the process down, its owner or the accept
    thread it waits for can take a turn, and together they take at most five turns
    until it returns. *)
Theorem stop_returns s0 tr st ts events st' :
  runs start receive work reply s0 tr st → stopping (object_ st) = true →
  take_turns start receive work reply ts [] st = Some (events, st') → Stopped ∉ events →
  length (filter server_turn ts) < 5 ∧
  (ended st' = false →
     ∃ t, server_turn t = true ∧ is_Some (take_turn start receive work reply t st')).
Proof.
  intros Hruns Hs Hts Hnot. pose proof (runs_server_ok _ _ _ _ _ _ _ Hruns) as Hok.
  destruct (stop_bound _ _ _ _ _ _ _ _ Hok Hs Hts Hnot) as (Hok' & Hs' & Hb).
  split; [|by apply stop_progress]. revert Hb Hs'. unfold stop_work, stopping.
  destruct (owner_ (object_ st)), (accept_thread_ (object_ st)), (owner_ (object_ st')); try done; lia.
Qed.

Lemma down_until (tr1 tr2 : list (@event S R)) :
  is_down (tr1 ++ Stopped :: tr2) = false → Started ∈ tr2.
Proof.
  rewrite is_down_app. cbn [foldl]. induction tr2 as [|e tr2 IH]; [done|].
  cbn [foldl]. destruct e; try (intros Hd; right; by apply IH). intros _. by left.
Qed.

(** C25: A stopped server accepts nobody: between the return of [Stop] and the
    next successful [Start], no connection is accepted, whatever the interleaving
    and however late the accept thread noticed. *)
Theorem stopped_server_accepts_nobody s0 tr st tr1 tr2 i :
  runs start receive work reply s0 tr st → tr = tr1 ++ Stopped :: tr2 → Accepted i ∈ tr2 →
  Started ∈ tr2.
Proof.
  intros Hruns. revert tr1 tr2.
  induction Hruns as [|tr st t events st' Hruns IH Ht]; intros tr1 tr2 Heq Hi; [by destruct tr1|].
  destruct (take_turn_event _ _ _ _ _ _ _ _ Ht) as [-> | (e & ->)].
  { rewrite app_nil_r in Heq. by apply (IH tr1). }
  destruct tr2 as [|e' tr2 _] using rev_ind; [by apply elem_of_nil in Hi|].
  rewrite app_comm_cons, app_assoc in Heq. apply app_inj_tail in Heq as [-> <-].
  apply elem_of_app in Hi as [Hi | <-%list_elem_of_singleton].
  { apply elem_of_app. left. by apply (IH tr1). }
  apply elem_of_app. left.
  destruct (is_down (tr1 ++ Stopped :: tr2)) eqn:Hd; [|by eapply down_until].
  destruct (runs_down _ _ _ _ _ _ _ Hruns Hd) as [_ Hacc].
  destruct (take_turn_accepts _ _ _ _ _ _ _ _ _ Ht (list_elem_of_here _ _)) as [_ Hin]. congruence.
Qed.

(** [Stop] does not wait for the handlers. Once it has returned, a connection
    whose handler is still to take the lock does so on an object its owner is free to
    destroy, and if the owner does, the handler's next step is a use of the destroyed
    object, which ends the process. *)
Lemma stop_leaves_handlers s0 tr st i k r section :
  runs start receive work reply s0 tr st → is_down tr = true →
  owner_ (object_ st) = Outside → ended st = false →
  threads_ st !! i = Some (Working k r (Critical section)) →
  ∃ st', take_turns start receive work reply [Destroys; ThreadTurn i] [] st = Some ([], st') ∧
    ended st' = true ∧ shared_ st' = shared_ st.
Proof.
  intros Hruns Hd Hout Hend Hi.
  assert (running_ (object_ st) = false) as Hrun.
  { pose proof (runs_server_ok _ _ _ _ _ _ _ Hruns) as Hok. unfold server_ok in Hok.
    destruct (runs_down _ _ _ _ _ _ _ Hruns Hd) as [Hfd _]. rewrite Hout in Hok.
    destruct (running_ (object_ st)); [|done]. destruct Hok as [(b & Hb) _]. congruence. }
  assert (take_turn start receive work reply Destroys st =
    Some ([], with_object (set_owner Gone (object_ st)) st)) as Hdestroy.
  { unfold take_turn. rewrite Hend. by rewrite decide_True. }
  eexists. cbn [take_turns]. rewrite Hdestroy. cbn [mbind option_bind].
  unfold take_turn. cbn [with_object ended threads_]. rewrite Hend, Hi. cbn. split_and!; reflexivity.
Qed.
End guarantees.

(** ** A small server *)

Definition run_of {S R} start receive work reply (ts : list turn) (s0 : S) :
    list (@event S R) * @process S R :=
  default ([], fresh_process s0) (take_turns start receive work reply ts [] (fresh_process s0)).

Lemma run_of_runs {S R} start receive work reply ts (s0 : S) :
  runs start receive work reply s0 (run_of start receive work reply ts s0).1
    (run_of (R := R) start receive work reply ts s0).2.
Proof.
  unfold run_of. destruct (take_turns _ _ _ _ _ _ _) as [[tr st]|] eqn:Hts; [|apply runs_start].
  by apply (take_turns_runs _ _ _ _ _ _ _ _ _ _ (runs_start _ _ _ _ s0) Hts).
Qed.

(** It counts the requests it has answered. *)
Definition echo_server : RpcServer nat :=
  mkServer {[ "echo" := λ request n, (Ok (MakeRpcOk request (rq_payload request)), Datatypes.S n) ]}.
Definition echo_program (request : RpcRequest) : Act nat RpcResponse := atomic (Handle echo_server request).
Definition echo_request : RpcRequest := mkRequest "r1" "echo" "cli" "echo" 3000 "hello" ∅.
Definition echo_socket : Socket := mkSocket (frame (EncodeRpcRequest echo_request)) "" [].
Definition open_kernel : Kernel := mkKernel true (λ _, true) (λ _ _, true) (λ _ port, Some port) true.

Abbreviation echo_turns :=
  (take_turns (tcp_start echo_server) tcp_receive (tcp_work echo_program) WriteFrame).
Abbreviation echo_run := (run_of (tcp_start echo_server) tcp_receive (tcp_work echo_program) WriteFrame).

(** A client is accepted, [Stop] is called while its handler has yet to run. *)
Definition stop_schedule : list turn :=
  [ CallsStart open_kernel "127.0.0.1" 7000; AcceptorTurn false 0; Connects echo_socket;
    AcceptorTurn false 0; ThreadTurn 0; AcceptorTurn false 1; CallsStop ].
Definition stop_ends : list turn :=
  [ OwnerTurn; AcceptorTurn false 1; ThreadTurn 0; OwnerTurn; AcceptorTurn false 1; OwnerTurn ].

Definition stopping_echo : @process nat (RpcRequest + Status) := (echo_run stop_schedule 0).2.
Definition stopping_later : list (@event nat (RpcRequest + Status)) * @process nat (RpcRequest + Status) :=
  default ([], stopping_echo) (echo_turns (take 3 stop_ends) [] stopping_echo).

Lemma stop_returns_witness :
  length (filter server_turn (take 3 stop_ends)) < 5 ∧
  (ended stopping_later.2 = false → ∃ t, server_turn t = true ∧
     is_Some (take_turn (tcp_start echo_server) tcp_receive (tcp_work echo_program) WriteFrame t
                stopping_later.2)).
Proof.
  apply (stop_returns _ _ _ _ 0 (echo_run stop_schedule 0).1 stopping_echo (take 3 stop_ends)
    stopping_later.1 stopping_later.2).
  - apply run_of_runs.
  - vm_compute. reflexivity.
  - vm_compute. reflexivity.
  - vm_compute. intros H. by repeat (apply elem_of_cons in H as [[=] | H]) || apply elem_of_nil in H.
Defined.

(** Stopped, then started again and used again. *)
Definition again_schedule : list turn :=
  stop_schedule ++ stop_ends ++
  [ CallsStart open_kernel "127.0.0.1" 7001; AcceptorTurn false 1; Connects echo_socket;
    AcceptorTurn false 1 ].

Lemma stopped_server_accepts_nobody_witness :
  Started ∈ drop 5 (echo_run again_schedule 0).1.
Proof.
  apply (stopped_server_accepts_nobody (tcp_start echo_server) tcp_receive (tcp_work echo_program)
    WriteFrame 0 (echo_run again_schedule 0).1
    (echo_run again_schedule 0).2 (take 4 (echo_run again_schedule 0).1) _ 1).
  - apply run_of_runs.
  - vm_compute. reflexivity.
  - vm_compute. repeat constructor.
Defined.

(** The thread is still in front of its section when [Stop] returns. *)
Definition late_schedule : list turn := stop_schedule ++ [OwnerTurn; AcceptorTurn false 1; OwnerTurn; AcceptorTurn false 1; OwnerTurn].

Lemma stop_leaves_handlers_witness :
  ∃ st', echo_turns [Destroys; ThreadTurn 0] [] (echo_run late_schedule 0).2 = Some ([], st') ∧
    ended st' = true ∧ shared_ st' = shared_ (echo_run late_schedule 0).2.
Proof.
  eapply (stop_leaves_handlers _ _ _ _ 0 (echo_run late_schedule 0).1 (echo_run late_schedule 0).2 0).
  - apply run_of_runs.
  - vm_compute. reflexivity.
  - vm_compute. reflexivity.
  - vm_compute. reflexivity.
  - vm_compute. reflexivity.
Defined.

(** * RPC over TCP *)

Section tcp.
Context {S : Type} (server_ : RpcServer S).

(** How the handlers behind the table take the lock. *)
Context (program : RpcRequest → Act S RpcResponse).

Lemma write_all_status fuel data k : ∀ f k', write_all fuel data k ≠ (Fault f, k').
Proof.
  revert data k. induction fuel as [|fuel IH]; intros data k f k'; [done|]. cbn [write_all].
  case_decide; [done|]. unfold mbind, M_bind, send. case_decide; [done | apply IH].
Qed.

Lemma WriteFrame_status payload k : ∃ q k', WriteFrame payload k = (q, k') ∧ ∀ f, q ≠ Fault f.
Proof.
  unfold WriteFrame, WriteAll. unfold mbind, M_bind.
  destruct (write_all _ (be32 _) k) as [[[]|st|f] k1] eqn:H1.
  - destruct (write_all _ payload k1) as [q k2] eqn:H2. exists q, k2. split; [done|].
    intros f ->. by apply write_all_status in H2.
  - by exists (Err st), k1.
  - by apply write_all_status in H1.
Qed.

(** The end of [HandleClient], once the response is known. *)
Lemma reply_run response k (s : S) :
  ignore (on_socket (WriteFrame (EncodeRpcResponse response))) (k, s) =
    (Ok tt, ((WriteFrame (EncodeRpcResponse response) k).2, s)).
Proof.
  destruct (WriteFrame_status (EncodeRpcResponse response) k) as (q & k' & Hw & Hq).
  unfold ignore. rewrite (on_socket_run _ _ s _ _ Hw), Hw. destruct q; try done. by destruct (Hq f).
Qed.

(** A connection's thread, when no other thread runs, does what
    [HandleClient] does: for every server whose handlers run in critical sections that
    add up to the handlers, the turns of the thread end where [HandleClient] ends,
    with the same bytes on the socket, the same shared state and the same
    exception, if there is one. *)
Lemma thread_is_HandleClient i k s :
  (∀ request s, alone (program request) s = Handle server_ request s) →
  ∃ n, thread_turns tcp_receive (tcp_work program) WriteFrame n i (Reading k) s =
    match HandleClient server_ (k, s) with
    | (Fault f, (_, s')) => (Fault f, s')
    | (_, (k', s')) => (Ok (Finished k'), s')
    end.
Proof.
  intros Hprogram. unfold HandleClient.
  destruct ((encoded ← ReadFrame; lift (DecodeRpcRequest encoded)) k) as [q k1] eqn:Hread.
  assert (tcp_receive k = status_of (λ _, (q, k1)) k) as Hreceive.
  { unfold tcp_receive, status_of. by rewrite Hread. }
  assert (status_of (on_socket (S := S) (encoded ← ReadFrame; lift (DecodeRpcRequest encoded))) (k, s) =
    ((status_of (λ _, (q, k1)) k).1, (k1, s))) as Hstatus.
  { unfold status_of. rewrite (on_socket_run _ _ s _ _ Hread). by destruct q. }
  destruct q as [request|st|f]; cbn [status_of fst] in Hstatus.
  - destruct (working_alone tcp_receive (tcp_work program) WriteFrame i k1 (inl request) (tcp_work program (inl request)) s)
      as (n & Hn). exists (1 + n). cbn [Nat.add thread_turns HandleClient_turn]. rewrite Hreceive.
    cbn [status_of]. rewrite Hn. unfold tcp_work. rewrite alone_bind.
    rewrite (bind_ok _ _ _ _ _ Hstatus). unfold mbind, M_bind. rewrite Hprogram. unfold zoom. cbn [snd].
    destruct (Handle server_ request s) as [[response|st|f] s']; [|done..].
    cbn [alone fst snd thread_end]. by rewrite reply_run.
  - exists 3. cbn [thread_turns HandleClient_turn]. rewrite Hreceive. cbn [status_of].
    rewrite (bind_ok _ _ _ _ _ Hstatus). unfold mbind, M_bind, mret, M_ret.
    cbv beta iota. by rewrite reply_run.
  - exists 1. cbn [thread_turns HandleClient_turn]. rewrite Hreceive. cbn [status_of].
    unfold mbind at 1, M_bind at 1. by rewrite Hstatus.
Qed.
End tcp.

Lemma thread_is_HandleClient_witness :
  ∃ n, thread_turns tcp_receive (tcp_work echo_program) WriteFrame n 7 (Reading echo_socket) 0 =
    match HandleClient echo_server (echo_socket, 0) with
    | (Fault f, (_, s')) => (Fault f, s')
    | (_, (k', s')) => (Ok (Finished k'), s')
    end.
Proof.
  apply (thread_is_HandleClient echo_server echo_program 7 echo_socket 0).
  intros request s. apply alone_atomic.
Defined.
