(* ===== verification/PdThreads.v ===== *)
(** The placement driver behind its TCP port: every connection has a thread, and
    the operations of src/pd/pd_server.cpp take the lock one by one. The handlers of
    src/pd/pd_service.cpp have one critical section each, except the two that ask the
    driver twice ([asks_twice]). *)

From S2P Require Import Prelude Types Text Codec Service Engine Pd PdSpec PdSafety PdCatalog PdService.
From S2P Require Import Tcp Threads ThreadsSpec.

(** * The handlers and the lock *)

(** A question to the driver, asked under the lock. *)
Definition locked {A} (question : PdMetadataStore → A) : Act PdW A :=
  atomic (gets (λ w, question (metadata_ w.2))).

Definition GetRegionByKey_act (request : RpcRequest) : Act PdW RpcResponse := respond_act request (
  fields ← Return (DecodeFields (rq_payload request));
  region ← locked (λ m, GetRegionByKey m (field fields "key"));
  match region with
  | None => Return (Err (mkStatus kRegionNotFound "region not found"))
  | Some region =>
      let response_fields := PutRegionFields ∅ region "region" in
      leader ← locked (λ m, GetRegionLeaderStore m region);
      Return (Ok (EncodeFields
        match leader with
        | None => response_fields
        | Some leader_store => PutStoreFields response_fields leader_store "leader_store"
        end))
  end).

(** The fields of a status built from two lists. *)
Definition listed_fields (stores : list StoreInfo) (regions : list RegionInfo) : FieldMap :=
  let fields := <["store_count" := to_string (N.of_nat (length stores))]> (∅ : FieldMap) in
  let fields := <["region_count" := to_string (N.of_nat (length regions))]> fields in
  put_indexed PutRegionFields "region" 0 regions
    (put_indexed PutStoreFields "store" 0 stores fields).

Definition Status_act (request : RpcRequest) : Act PdW RpcResponse := respond_act request (
  stores ← locked ListStores;
  regions ← locked ListRegions;
  Return (Ok (EncodeFields (listed_fields stores regions)))).

(** The other handlers call the driver once, between computations of their own. *)
Definition pd_program (request : RpcRequest) : Act PdW RpcResponse :=
  if decide (rq_method request = "pd.GetRegionByKey") then GetRegionByKey_act request
  else if decide (rq_method request = "pd.Status") then Status_act request
  else atomic (Handle pd_rpc_server request).

(** The sections of a handler add up to the handler. *)
Lemma pd_program_alone request w : alone (pd_program request) w = Handle pd_rpc_server request w.
Proof.
  unfold pd_program. case_decide as H1; [|case_decide as H2].
  - rewrite (handle_run _ _ _ _ HandleGetRegionByKey H1) by reflexivity.
    unfold GetRegionByKey_act, HandleGetRegionByKey. rewrite alone_respond. unfold respond.
    unfold payload_fields, lift, the_meta. unfold mbind, M_bind. cbn [alone Act_bind mbind].
    destruct (DecodeFields (rq_payload request)) as [fields|st|f]; [|done..]. cbn.
    destruct (GetRegionByKey _ _) as [region|]; [|done]. cbn. done.
  - rewrite (handle_run _ _ _ _ HandleStatus H2) by reflexivity. reflexivity.
  - apply alone_atomic.
Qed.

(** The threads of the driver's server. *)
Abbreviation pd_runs := (runs (tcp_start pd_rpc_server) tcp_receive (tcp_work pd_program) WriteFrame).
Abbreviation PdEvent := (@event PdW (RpcRequest + Status)).
Abbreviation PdProcess := (@process PdW (RpcRequest + Status)).

(** * What a request does to the driver *)

(** The value of a reading, if it succeeds. *)
Definition value {A} (r : res A) : option A := match r with Ok a => Some a | _ => None end.

(** The operation a request asks for, whatever its bytes; [None] for the requests
    that only read, and for those that end before they call the driver. *)
Definition fields_op (method : string) (fields : FieldMap) : option pd_op :=
  if decide (method = "pd.RegisterStore") then Some (DoRegisterStore (GetStoreFields fields ""))
  else if decide (method = "pd.StoreHeartbeat") then
    id ← value (field_u64 fields "store_id");
    now ← value (stoll (field fields "now_ms"));
    Some (DoStoreHeartbeat id now)
  else if decide (method = "pd.BootstrapDefaultRegion") then
    count ← value (field_u64 fields "store_count");
    ids ← value (read_store_ids fields (indices count));
    Some (DoBootstrap ids)
  else if decide (method = "pd.SplitRegion") then
    id ← value (field_u64 fields "region_id");
    Some (DoSplitRegion id (field fields "split_key"))
  else if decide (method = "pd.TransferLeader") then
    id ← value (field_u64 fields "region_id");
    target ← value (field_u64 fields "target_peer_id");
    Some (DoTransferLeader id target)
  else if decide (method = "pd.AddPeer") then
    id ← value (field_u64 fields "region_id");
    sid ← value (field_u64 fields "store_id");
    Some (DoAddPeer id sid)
  else if decide (method = "pd.RemovePeer") then
    id ← value (field_u64 fields "region_id");
    pid ← value (field_u64 fields "peer_id");
    Some (DoRemovePeer id pid)
  else None.

Definition request_op (request : RpcRequest) : option pd_op :=
  fields ← value (DecodeFields (rq_payload request));
  fields_op (rq_method request) fields.

Definition run_request (request : RpcRequest) (w : PdW) : PdW :=
  match request_op request with Some op => run_op op w | None => w end.

Lemma respond_state {S} request (body : IO S string) s : (respond request body s).2 = (body s).2.
Proof. unfold respond. by destruct (body s) as [[?|?|?] ?]. Qed.

Lemma bind_state {A} (m : IO PdW A) (g : A → string) w : ((x ← m; mret (g x)) w).2 = (m w).2.
Proof. unfold mbind, M_bind. by destruct (m w) as [[?|?|?] ?]. Qed.

(** Reading a field before the call. *)
Lemma lift_value {A} (r : res A) (k : A → IO PdW string) w :
  ((x ← lift r; k x) w).2 = match value r with Some x => (k x w).2 | None => w end.
Proof. by destruct r. Qed.

Lemma handled_body request (body : FieldMap → IO PdW string) op w :
  (∀ fields, (body fields w).2 = match op fields with Some op => run_op op w | None => w end) →
  (respond request (fields ← payload_fields request; body fields) w).2 =
    match (fields ← value (DecodeFields (rq_payload request)); op fields) with
    | Some op => run_op op w
    | None => w
    end.
Proof.
  intros Hbody. rewrite respond_state. unfold payload_fields. rewrite lift_value.
  destruct (value _) as [fields|]; [apply Hbody | done].
Qed.

(** The methods that call an operation of the driver, one by one. *)
Ltac on_method h :=
  match goal with Hm : rq_method _ = _ |- _ =>
    rewrite (handle_run _ _ _ _ h Hm) by reflexivity; unfold h;
    rewrite Hm; apply handled_body; intros fields; unfold fields_op;
    repeat (rewrite decide_False by discriminate); rewrite decide_True by reflexivity
  end.

Lemma pd_method_lookup m : m ∉ pd_handlers.*1 → handlers_ pd_rpc_server !! m = None.
Proof.
  intros Hm. unfold pd_rpc_server. cbn [handlers_]. apply not_elem_of_list_to_map_1.
  by rewrite fmap_reverse, elem_of_reverse.
Qed.

(** Every request leaves the driver as the operation it asks for does. *)
Lemma handled_state request w : (Handle pd_rpc_server request w).2 = run_request request w.
Proof.
  unfold run_request, request_op.
  destruct (decide (rq_method request ∈ pd_handlers.*1)) as [Hm | Hm].
  - cbn in Hm.
    repeat (apply elem_of_cons in Hm as [Hm | Hm]); [..|by apply elem_of_nil in Hm].
    + on_method HandleRegisterStore. apply bind_state.
    + on_method HandleStoreHeartbeat. rewrite lift_value. destruct (value _) as [id|]; [|done]. cbn.
      rewrite lift_value. destruct (value _) as [now|]; [|done]. by rewrite bind_state.
    + on_method HandleBootstrapDefaultRegion. rewrite lift_value. destruct (value _) as [n|]; [|done]. cbn.
      rewrite lift_value. destruct (value _) as [ids|]; [|done]. by rewrite bind_state.
    + on_method HandleSplitRegion. rewrite lift_value. destruct (value _) as [id|]; [|done].
      apply bind_state.
    + on_method HandleTransferLeader. rewrite lift_value. destruct (value _) as [id|]; [|done]. cbn.
      rewrite lift_value. destruct (value _) as [x|]; [|done]. by rewrite bind_state.
    + on_method HandleAddPeer. rewrite lift_value. destruct (value _) as [id|]; [|done]. cbn.
      rewrite lift_value. destruct (value _) as [x|]; [|done]. by rewrite bind_state.
    + on_method HandleRemovePeer. rewrite lift_value. destruct (value _) as [id|]; [|done]. cbn.
      rewrite lift_value. destruct (value _) as [x|]; [|done]. by rewrite bind_state.
    + rewrite (handle_run _ _ _ _ HandleGetRegionByKey Hm) by reflexivity. unfold HandleGetRegionByKey.
      rewrite Hm. apply handled_body. intros fields. unfold the_meta. run.
      by destruct (GetRegionByKey _ _).
    + rewrite (handle_run _ _ _ _ HandleGetStore Hm) by reflexivity. unfold HandleGetStore.
      rewrite Hm. apply handled_body. intros fields. rewrite lift_value.
      destruct (value _); [|done]. unfold the_meta. run. by destruct (GetStore _ _).
    + rewrite (handle_run _ _ _ _ HandleStatus Hm) by reflexivity.
      rewrite Hm. by destruct (value _).
  - unfold Handle. rewrite pd_method_lookup by done.
    destruct (value _) as [fields|]; [|done]. cbn. unfold fields_op.
    do 7 (rewrite decide_False by (intros Heq; apply Hm; rewrite Heq; cbn; set_solver)). done.
Qed.

(** * Runs of the driver's server *)

(** The operation a section of a thread runs. *)
Definition event_op (e : PdEvent) : option pd_op :=
  match e with Acted _ (inl request) _ => request_op request | _ => None end.

(** The operations of a run, in the order in which they had the lock. *)
Definition ops (tr : list PdEvent) : list pd_op := omap event_op tr.

Lemma ops_quiet tr events : Forall quiet events → ops (tr ++ events) = ops tr.
Proof.
  intros Hq. unfold ops. rewrite omap_app. replace (omap event_op events) with (@nil pd_op).
  - apply app_nil_r.
  - symmetry. induction Hq as [|e events He _ IH]; [done|]. cbn. by destruct e.
Qed.

Lemma run_ops_app ops1 ops2 w : run_ops (ops1 ++ ops2) w = run_ops ops2 (run_ops ops1 w).
Proof. revert w. induction ops1 as [|op ops1 IH]; intros w; [done|]. apply IH. Qed.

Lemma ops_acted tr i request s w :
  run_ops (ops (tr ++ [Acted i (inl request) s])) w = run_request request (run_ops (ops tr) w).
Proof.
  unfold ops, run_request. rewrite omap_app, run_ops_app. cbn. by destruct (request_op request).
Qed.

(** The two handlers with two sections read what they read, and decide nothing. *)
Lemma route_sections request seen section w :
  after (tcp_work pd_program (inl request)) seen = Some (Critical section) →
  rq_method request = "pd.GetRegionByKey" ∨ rq_method request = "pd.Status" → (section w).2 = w.
Proof.
  intros Hafter Hm. unfold tcp_work, pd_program in Hafter. destruct Hm as [Hm | Hm].
  - rewrite decide_True in Hafter by exact Hm. unfold GetRegionByKey_act in Hafter.
    destruct (DecodeFields (rq_payload request)) as [fields|st|f]; [|by destruct seen..].
    destruct seen as [|w1 seen]; cbn in Hafter; [by injection Hafter as <-|].
    destruct (GetRegionByKey _ _) as [region|]; [|by destruct seen].
    destruct seen as [|w2 seen]; cbn in Hafter; [by injection Hafter as <- | by destruct seen].
  - rewrite decide_False, decide_True in Hafter by (by rewrite Hm). unfold Status_act in Hafter.
    destruct seen as [|w1 seen]; cbn in Hafter; [by injection Hafter as <-|].
    destruct seen as [|w2 seen]; cbn in Hafter; [by injection Hafter as <- | by destruct seen].
Qed.

Lemma read_only_state request w :
  rq_method request = "pd.GetRegionByKey" ∨ rq_method request = "pd.Status" → run_request request w = w.
Proof.
  intros Hm. unfold run_request, request_op. destruct (value _) as [fields|]; [|done].
  cbn. by destruct Hm as [-> | ->].
Qed.

(** The handlers with one section. *)
Lemma call_sections request seen q :
  rq_method request ≠ "pd.GetRegionByKey" → rq_method request ≠ "pd.Status" →
  after (tcp_work pd_program (inl request)) seen = Some q →
  (seen = [] ∧ q = tcp_work pd_program (inl request)) ∨
  ∃ w, seen = [w] ∧ q = Return (EncodeRpcResponse <$> (Handle pd_rpc_server request w).1).
Proof.
  intros H1 H2 Hafter. destruct seen as [|w seen]; [left; by injection Hafter as <-|].
  unfold tcp_work, pd_program in Hafter. rewrite decide_False, decide_False in Hafter by done.
  cbn in Hafter. destruct (Handle pd_rpc_server request w) as [q' w'] eqn:Hq. right. exists w.
  destruct seen; [|by destruct q']. split; [done|]. rewrite Hq. cbn [fst].
  destruct q'; by injection Hafter as <-.
Qed.

(** A section does to the driver what its request asks for. *)
Lemma section_state r seen section w :
  after (tcp_work pd_program r) seen = Some (Critical section) →
  (section w).2 = match r with inl request => run_request request w | inr _ => w end.
Proof.
  intros Hafter. destruct r as [request|st]; [|by destruct seen].
  destruct (decide (rq_method request = "pd.GetRegionByKey" ∨ rq_method request = "pd.Status")) as [Hm | Hm].
  { rewrite read_only_state by done. by eapply route_sections. }
  destruct (call_sections _ _ _ (λ H, Hm (or_introl H)) (λ H, Hm (or_intror H)) Hafter)
    as [[-> Hq] | (w1 & _ & [=])].
  unfold tcp_work, pd_program in Hq. rewrite !decide_False in Hq by tauto. cbn in Hq.
  injection Hq as ->. rewrite <-handled_state. by destruct (Handle pd_rpc_server request w).
Qed.

Lemma pd_runs_shared w0 tr st : pd_runs w0 tr st → shared_ st = run_ops (ops tr) w0.
Proof.
  intros Hruns. symmetry. revert tr st Hruns.
  apply (runs_shared _ _ _ _ (λ tr s, run_ops (ops tr) w0 = s)); [done | |].
  - intros tr events s Hs Hq. by rewrite ops_quiet.
  - intros tr i r section s Hs Hafter. rewrite (section_state _ _ _ _ Hafter).
    destruct r as [request|st0]; [by rewrite ops_acted, Hs|].
    unfold ops. rewrite omap_app. cbn. by rewrite app_nil_r.
Qed.

Lemma ops_app tr1 tr2 : ops (tr1 ++ tr2) = ops tr1 ++ ops tr2.
Proof. apply omap_app. Qed.

Lemma returned_inj {S} (a b : string) : Some (Return (S := S) (Ok a)) = Some (Return (Ok b)) → a = b.
Proof. by intros [= ->]. Qed.

(** ** The handlers that ask twice *)

(** The answer of [pd.GetRegionByKey] and of [pd.Status] when the driver is in one
    state at the first question and in another at the second. *)
Definition two_readings (request : RpcRequest) (w1 w2 : PdW) : RpcResponse :=
  if decide (rq_method request = "pd.GetRegionByKey") then
    match DecodeFields (rq_payload request) with
    | Ok fields =>
        match GetRegionByKey (metadata_ w1.2) (field fields "key") with
        | None => StatusToRpcError request (mkStatus kRegionNotFound "region not found")
        | Some r => MakeRpcOk request (EncodeFields
            match GetRegionLeaderStore (metadata_ w2.2) r with
            | None => PutRegionFields ∅ r "region"
            | Some s => PutStoreFields (PutRegionFields ∅ r "region") s "leader_store"
            end)
        end
    | Err st => StatusToRpcError request st
    | Fault _ => MakeRpcOk request ""
    end
  else MakeRpcOk request (EncodeFields
    (listed_fields (ListStores (metadata_ w1.2)) (ListRegions (metadata_ w2.2)))).

Definition asks_twice (request : RpcRequest) : Prop :=
  rq_method request = "pd.GetRegionByKey" ∨ rq_method request = "pd.Status".

(** With nothing in between it is the answer of the handler. *)
Lemma two_readings_same request w response :
  asks_twice request → (Handle pd_rpc_server request w).1 = Ok response →
  response = two_readings request w w.
Proof.
  intros Hm. rewrite <-pd_program_alone. unfold pd_program, two_readings.
  destruct (decide (rq_method request = "pd.GetRegionByKey")) as [_ | H1].
  - unfold GetRegionByKey_act. rewrite alone_respond. unfold respond.
    destruct (DecodeFields (rq_payload request)) as [fields|st|f]; [|by intros [= <-] | done].
    cbn. destruct (GetRegionByKey _ _) as [region|]; intros [= <-]; reflexivity.
  - destruct Hm as [Hm | Hm]; [done|]. rewrite decide_True by exact Hm.
    unfold Status_act. rewrite alone_respond. intros [= <-]. reflexivity.
Qed.

(** The sections of an answered request that asks twice. *)
Lemma two_readings_answered request seen bytes :
  asks_twice request →
  after (tcp_work pd_program (inl request)) seen = Some (Return (Ok bytes)) →
  (∀ w1 w2, bytes = EncodeRpcResponse (two_readings request w1 w2)) ∨
  (∃ w1, seen = [w1] ∧ ∀ w2, bytes = EncodeRpcResponse (two_readings request w1 w2)) ∨
  (∃ w1 w2, seen = [w1; w2] ∧ bytes = EncodeRpcResponse (two_readings request w1 w2)).
Proof.
  intros Hm Hafter. unfold tcp_work, pd_program in Hafter. unfold two_readings.
  destruct (decide (rq_method request = "pd.GetRegionByKey")) as [_ | H1].
  - unfold GetRegionByKey_act in Hafter.
    destruct (DecodeFields (rq_payload request)) as [fields|st|f]; [| |destruct seen; discriminate Hafter].
    + right. destruct seen as [|w1 seen]; cbn in Hafter; [discriminate Hafter|].
      destruct (GetRegionByKey _ _) as [r|] eqn:Hr.
      * destruct seen as [|w2 [|w3 seen]]; cbn in Hafter; [discriminate Hafter | | discriminate Hafter].
        apply returned_inj in Hafter. right. exists w1, w2. split; [reflexivity|]. rewrite Hr.
        symmetry. exact Hafter.
      * destruct seen as [|w2 seen]; cbn in Hafter; [|discriminate Hafter]. apply returned_inj in Hafter.
        left. exists w1. split; [reflexivity|]. intros w2. rewrite Hr. symmetry. exact Hafter.
    + left. destruct seen; [|discriminate Hafter]. cbn in Hafter. apply returned_inj in Hafter.
      intros w1 w2. symmetry. exact Hafter.
  - destruct Hm as [Hm | Hm]; [destruct (H1 Hm)|]. rewrite decide_True in Hafter by exact Hm. right. right.
    unfold Status_act in Hafter.
    destruct seen as [|w1 [|w2 [|w3 seen]]]; cbn in Hafter;
      [discriminate Hafter | discriminate Hafter | | discriminate Hafter].
    apply returned_inj in Hafter. exists w1, w2. split; [reflexivity|]. symmetry. exact Hafter.
Qed.

(** The state of the driver at a section of a thread that has run none. *)
Lemma first_point w0 tr st i request w seen :
  pd_runs w0 tr st → Received i (inl request) ∈ tr → acted i tr = w :: seen →
  ∃ tr1 tr2, tr = tr1 ++ Acted i (inl request) w :: tr2 ∧ Received i (inl request) ∈ tr1 ∧
    w = run_ops (ops tr1) w0.
Proof.
  intros Hruns Hrec Hseen.
  destruct (runs_acted _ _ _ _ _ _ _ _ _ [] w seen Hruns Hrec Hseen)
    as (tr1 & tr2 & st1 & Heq & _ & Hruns1 & Hst1).
  destruct (runs_section _ _ _ _ _ _ _ _ _ _ _ _ Hruns Heq) as (_ & _ & _ & _ & _ & Hin).
  exists tr1, tr2. split_and!; [exact Heq | exact Hin|]. rewrite Hst1. exact (pd_runs_shared _ _ _ Hruns1).
Qed.

(** The two points of the order at which a request that asks twice asked. *)
Lemma two_points w0 tr st i request w1 w2 :
  pd_runs w0 tr st → Received i (inl request) ∈ tr → acted i tr = [w1; w2] → asks_twice request →
  ∃ tr1 tr2 tr3, tr = tr1 ++ Acted i (inl request) w1 :: tr2 ++ Acted i (inl request) w2 :: tr3 ∧
    Received i (inl request) ∈ tr1 ∧ w1 = run_ops (ops tr1) w0 ∧ w2 = run_ops (ops tr2) w1.
Proof.
  intros Hruns Hrec Hseen Hm.
  destruct (runs_acted _ _ _ _ _ _ _ _ _ [w1] w2 [] Hruns Hrec Hseen)
    as (tra & tr3 & st2 & Heq & Hseen1 & Hruns2 & Hst2).
  destruct (runs_section _ _ _ _ _ _ _ _ _ _ _ _ Hruns Heq) as (_ & _ & _ & _ & _ & Hrec2).
  destruct (first_point _ _ _ _ _ _ _ Hruns2 Hrec2 Hseen1) as (tr1 & tr2 & -> & Hrec1 & Hw1).
  rewrite <-app_assoc in Heq. cbn [app] in Heq. exists tr1, tr2, tr3.
  split_and!; [exact Heq | exact Hrec1 | exact Hw1|].
  rewrite Hst2, (pd_runs_shared _ _ _ Hruns2).
  change (Acted i (inl request) w1 :: tr2) with ([Acted i (inl request) w1] ++ tr2).
  rewrite app_assoc, ops_app, run_ops_app, ops_acted, <-Hw1. by rewrite (read_only_state request w1 Hm).
Qed.

(** C23: The threads of the driver take turns. However the connections of the
    driver's port interleave, and whatever bytes they carry, the state of the driver
    and of its disk is the one that the operations they ask for leave when called one
    after the other, in the order in which they had the lock. Every answer of a
    handler that calls the driver once is the answer of the sequential driver at that
    point of the order; an answer to [pd.GetRegionByKey] or [pd.Status], whose
    handlers ask twice, is put together from what the sequential driver says at two
    points of the order, the first at or before the second and both after the request
    came in. As long as ids do not run out and a bootstrap names distinct stores, a
    driver in a state of its own histories stays in one, with everything that holds
    of those. *)
Theorem driver_takes_turns w0 tr st :
  pd_runs w0 tr st →
  shared_ st = run_ops (ops tr) w0 ∧
  (pd_reachable w0 → permitted_run (ops tr) w0 = true → pd_reachable (shared_ st)) ∧
  (∀ i request bytes, Answered i (inl request) bytes ∈ tr →
     rq_method request ≠ "pd.GetRegionByKey" → rq_method request ≠ "pd.Status" →
     ∃ tr1 tr2 w response,
       tr = tr1 ++ Acted i (inl request) w :: tr2 ∧ w = run_ops (ops tr1) w0 ∧
       (Handle pd_rpc_server request w).1 = Ok response ∧ bytes = EncodeRpcResponse response) ∧
  (∀ i request bytes, Answered i (inl request) bytes ∈ tr → asks_twice request →
     ∃ tr1 tr2 tr3 w1 w2,
       tr = tr1 ++ tr2 ++ tr3 ∧ Received i (inl request) ∈ tr1 ∧
       w1 = run_ops (ops tr1) w0 ∧ w2 = run_ops (ops tr2) w1 ∧
       bytes = EncodeRpcResponse (two_readings request w1 w2)).
Proof.
  intros Hruns. pose proof (pd_runs_shared _ _ _ Hruns) as Hs. split_and!; [exact Hs | | |].
  { intros Hw0 Hperm. rewrite Hs. by apply run_ops_reachable. }
  - intros i request bytes Hans H1 H2.
    destruct (runs_answered _ _ _ _ _ _ _ _ _ _ Hruns Hans) as [Hafter Hrec].
    destruct (call_sections _ _ _ H1 H2 Hafter) as [[Hnil Hq] | (w & Hw & Hq)].
    { unfold tcp_work, pd_program in Hq. rewrite !decide_False in Hq by done. discriminate Hq. }
    destruct (first_point _ _ _ _ _ _ _ Hruns Hrec Hw) as (tr1 & tr2 & Heq & _ & Hst).
    destruct (Handle pd_rpc_server request w).1 as [response|st0|f] eqn:Hh; [|done..].
    exists tr1, tr2, w, response. split_and!; [exact Heq | exact Hst | exact Hh | by injection Hq].
  - intros i request bytes Hans Hm.
    destruct (runs_answered _ _ _ _ _ _ _ _ _ _ Hruns Hans) as [Hafter Hrec].
    destruct (two_readings_answered _ _ _ Hm Hafter) as [Hall | [(w1 & Hseen & Hb) | (w1 & w2 & Hseen & Hb)]].
    + exists tr, [], [], (run_ops (ops tr) w0), (run_ops (ops tr) w0).
      split_and!; [by rewrite !app_nil_r | exact Hrec | done | done | apply Hall].
    + destruct (first_point _ _ _ _ _ _ _ Hruns Hrec Hseen) as (tr1 & tr2 & Heq & Hin & Hw1).
      exists tr1, [], (Acted i (inl request) w1 :: tr2), w1, w1.
      split_and!; [exact Heq | exact Hin | exact Hw1 | done | apply Hb].
    + destruct (two_points _ _ _ _ _ _ _ Hruns Hrec Hseen Hm) as (tr1 & tr2 & tr3 & Heq & Hin & Hw1 & Hw2).
      exists tr1, (Acted i (inl request) w1 :: tr2), (Acted i (inl request) w2 :: tr3), w1, w2.
      split_and!; [exact Heq | exact Hin | exact Hw1 | | exact Hb].
      pose proof (ops_acted tr1 i request w1 w0) as Hacted. rewrite ops_app, run_ops_app, <-Hw1 in Hacted.
      rewrite (read_only_state request w1 Hm) in Hacted.
      change (Acted i (inl request) w1 :: tr2) with ([Acted i (inl request) w1] ++ tr2).
      by rewrite ops_app, run_ops_app, Hacted.
Qed.

(** ** Stores stay registered *)

Definition grows (m m' : PdMetadataStore) : Prop :=
  ∀ id, is_Some (stores_ m !! id) → is_Some (stores_ m' !! id).

#[export] Instance grows_preorder : PreOrder grows.
Proof. split; [by intros m id|]. intros m1 m2 m3 H1 H2 id Hid. by apply H2, H1. Qed.

Definition growing {A} (f : IO PdW A) : Prop := ∀ w, grows (metadata_ w.2) (metadata_ (f w).2.2).
Definition growing_meta {A} (f : IO PdMetadataStore A) : Prop := ∀ m, grows m (f m).2.

Create HintDb growing.

Lemma growing_bind {A B} (f : IO PdW A) (k : A → IO PdW B) :
  growing f → (∀ a, growing (k a)) → growing (f ≫= k).
Proof.
  intros Hf Hk w. unfold mbind, M_bind. specialize (Hf w).
  destruct (f w) as [[a|st|x] w']; cbn [fst snd] in *; [|exact Hf..]. etrans; [exact Hf | apply Hk].
Qed.
Lemma growing_meta_bind {A B} (f : IO PdMetadataStore A) (k : A → IO PdMetadataStore B) :
  growing_meta f → (∀ a, growing_meta (k a)) → growing_meta (f ≫= k).
Proof.
  intros Hf Hk m. unfold mbind, M_bind. specialize (Hf m).
  destruct (f m) as [[a|st|x] m']; cbn [fst snd] in *; [|exact Hf..]. etrans; [exact Hf | apply Hk].
Qed.
Lemma growing_ret {A} (a : A) : growing (mret a).
Proof. by intros w id. Qed.
Lemma growing_fail {A} st : growing (fail (A := A) st).
Proof. by intros w id. Qed.
Lemma growing_the_meta : growing the_meta.
Proof. by intros w id. Qed.
Lemma growing_Persist : growing Persist.
Proof.
  intros [d s]. destruct (Persist_frame d s) as (r & d' & Hrun). rewrite Hrun. cbn [fst snd]. reflexivity.
Qed.
Lemma growing_on_meta {A} (f : IO PdMetadataStore A) : growing_meta f → growing (on_meta f).
Proof.
  intros Hf w. unfold on_meta, zoom. specialize (Hf (metadata_ w.2)).
  by destruct (f (metadata_ w.2)).
Qed.
Lemma growing_PutStore s : growing_meta (PutStore s).
Proof.
  intros m. unfold PutStore. case_decide; [by intros id|]. intros id Hid. cbn.
  apply lookup_insert_is_Some'. by right.
Qed.
Lemma growing_PutRegion r : growing_meta (PutRegion r).
Proof. intros m. unfold PutRegion. case_decide; by intros id. Qed.
Lemma growing_SetNextIds s r p : growing_meta (modify (SetNextIds s r p)).
Proof. by intros m id. Qed.
Lemma growing_alloc : growing_meta AllocStoreId ∧ growing_meta AllocRegionId ∧ growing_meta AllocPeerId.
Proof. split_and!; by intros m id. Qed.
Lemma growing_copy_peers ps : growing_meta (copy_peers ps).
Proof.
  induction ps as [|p ps IH]; [by intros m id|]. cbn [copy_peers].
  apply growing_meta_bind; [apply growing_alloc|]. intros pid.
  apply growing_meta_bind; [apply IH|]. by intros qs m id.
Qed.
Lemma growing_new_peers ids : growing_meta (new_peers ids).
Proof.
  induction ids as [|sid ids IH]; [by intros m id|]. cbn [new_peers].
  apply growing_meta_bind; [by intros m id|]. intros m. case_decide; [by intros m' i|].
  apply growing_meta_bind; [apply growing_alloc|]. intros pid.
  apply growing_meta_bind; [apply IH|]. by intros qs m' id.
Qed.
Lemma growing_region_of id : growing (region_of id).
Proof.
  apply growing_bind; [apply growing_the_meta|]. intros m.
  destruct (GetRegion m id); [apply growing_ret | apply growing_fail].
Qed.

#[export] Hint Resolve growing_ret growing_fail growing_the_meta growing_Persist growing_on_meta
  growing_PutStore growing_PutRegion growing_SetNextIds growing_copy_peers growing_new_peers
  growing_region_of : growing.
#[export] Hint Extern 1 (growing_meta AllocStoreId) => apply growing_alloc : growing.
#[export] Hint Extern 1 (growing_meta AllocRegionId) => apply growing_alloc : growing.
#[export] Hint Extern 1 (growing_meta AllocPeerId) => apply growing_alloc : growing.

(** Operations are sequences of such steps. *)
Ltac grow :=
  repeat first
    [ solve [auto with growing]
    | apply growing_bind; [|intros ?]
    | case_decide
    | match goal with
      | |- growing (if ?b then _ else _) => destruct b
      | |- growing match ?x with _ => _ end => destruct x
      end ].

(** No operation of the driver forgets a store, however it ends. *)
Lemma run_op_grows op w : grows (metadata_ w.2) (metadata_ (run_op op w).2).
Proof.
  destruct op as [s|id now|ids|id k|id sid|id pid|id target]; cbn [run_op].
  - revert w. change (growing (RegisterStore s)). unfold RegisterStore. grow.
  - revert w. change (growing (StoreHeartbeat id now)). unfold StoreHeartbeat. grow.
  - revert w. change (growing (BootstrapDefaultRegion ids)). unfold BootstrapDefaultRegion. grow.
  - revert w. change (growing (SplitRegion id k)). unfold SplitRegion. grow.
  - revert w. change (growing (AddPeer id sid)). unfold AddPeer. grow.
  - revert w. change (growing (RemovePeer id pid)). unfold RemovePeer. grow.
  - revert w. change (growing (TransferLeader id target)). unfold TransferLeader. grow.
Qed.

Lemma run_ops_grows l w : grows (metadata_ w.2) (metadata_ (run_ops l w).2).
Proof.
  revert w. induction l as [|op l IH]; intros w; [done|].
  etrans; [apply run_op_grows | apply IH].
Qed.

(** ** Routes asked for while others change the regions *)

(** The sections of a route request that was answered. *)
Lemma route_answered request seen bytes :
  rq_method request = "pd.GetRegionByKey" →
  after (tcp_work pd_program (inl request)) seen = Some (Return (Ok bytes)) →
  (∃ st, DecodeFields (rq_payload request) = Err st ∧
     bytes = EncodeRpcResponse (StatusToRpcError request st)) ∨
  ∃ fields w1, DecodeFields (rq_payload request) = Ok fields ∧
    match GetRegionByKey (metadata_ w1.2) (field fields "key") with
    | None => seen = [w1] ∧
        bytes = EncodeRpcResponse (StatusToRpcError request (mkStatus kRegionNotFound "region not found"))
    | Some r => ∃ w2, seen = [w1; w2] ∧
        bytes = EncodeRpcResponse (MakeRpcOk request (EncodeFields
          match GetRegionLeaderStore (metadata_ w2.2) r with
          | None => PutRegionFields ∅ r "region"
          | Some s => PutStoreFields (PutRegionFields ∅ r "region") s "leader_store"
          end))
    end.
Proof.
  intros Hm Hafter. unfold tcp_work, pd_program in Hafter. rewrite decide_True in Hafter by exact Hm.
  unfold GetRegionByKey_act in Hafter.
  destruct (DecodeFields (rq_payload request)) as [fields|st|f]; [|left; exists st|].
  - destruct seen as [|w1 seen]; cbn in Hafter; [discriminate Hafter|]. right. exists fields, w1. split; [done|].
    destruct (GetRegionByKey _ _) as [r|].
    + destruct seen as [|w2 [|w3 seen]]; cbn in Hafter; [discriminate Hafter | | discriminate Hafter].
      exists w2. split; [reflexivity|]. apply returned_inj in Hafter. symmetry. exact Hafter.
    + destruct seen as [|w2 seen]; cbn in Hafter; [|discriminate Hafter].
      apply returned_inj in Hafter. split; [reflexivity | symmetry; exact Hafter].
  - split; [reflexivity|]. destruct seen; [|discriminate Hafter]. cbn in Hafter.
    apply returned_inj in Hafter. symmetry. exact Hafter.
  - destruct seen; discriminate Hafter.
Qed.

Lemma permitted_run_app l1 l2 w :
  permitted_run (l1 ++ l2) w = true → permitted_run l1 w = true.
Proof.
  revert w. induction l1 as [|op l1 IH]; intros w; [done|]. cbn [app permitted_run].
  rewrite !andb_true_iff. intros [Hop Hl]. split; [exact Hop | by eapply IH].
Qed.

(** A route stays a route while others work. A request for the route of a key
    asks the driver twice, and operations of other connections may come in between:
    still, whatever they are, an answer that is ok names the region that held the
    key when the driver was first asked, and, when it was asked again, a registered
    store, on which that region has its leader: the leader's store never gets lost in
    between. An answer that is not ok means that the request was malformed, or that
    there was no region yet. *)
Theorem concurrent_route w0 tr st i request bytes :
  pd_reachable w0 → pd_runs w0 tr st → permitted_run (ops tr) w0 = true →
  Answered i (inl request) bytes ∈ tr → rq_method request = "pd.GetRegionByKey" →
  (∃ fields tr1 tr2 tr3 w1 w2 r p s,
     DecodeFields (rq_payload request) = Ok fields ∧
     tr = tr1 ++ Acted i (inl request) w1 :: tr2 ++ Acted i (inl request) w2 :: tr3 ∧
     w1 = run_ops (ops tr1) w0 ∧ w2 = run_ops (ops tr2) w1 ∧
     GetRegionByKey (metadata_ w1.2) (field fields "key") = Some r ∧
     FindPeer r (leader_peer_id r) = Some p ∧
     GetStore (metadata_ w2.2) (peer_store_id p) = Some s ∧
     bytes = EncodeRpcResponse (MakeRpcOk request (EncodeFields
       (PutStoreFields (PutRegionFields ∅ r "region") s "leader_store")))) ∨
  (∃ e, bytes = EncodeRpcResponse (StatusToRpcError request e) ∧
     (DecodeFields (rq_payload request) = Err e ∨
      ∃ tr1 tr2 w, tr = tr1 ++ Acted i (inl request) w :: tr2 ∧ ListRegions (metadata_ w.2) = [])).
Proof.
  intros Hw0 Hruns Hperm Hans Hm.
  destruct (runs_answered _ _ _ _ _ _ _ _ _ _ Hruns Hans) as [Hafter Hrec].
  destruct (route_answered _ _ _ Hm Hafter) as [(e & He & ->) | (fields & w1 & Hf & Hroute)].
  { right. exists e. split; [done | by left]. }
  destruct (GetRegionByKey (metadata_ w1.2) (field fields "key")) as [r|] eqn:Hr.
  2: { destruct Hroute as [Hseen ->]. right. eexists. split; [reflexivity|]. right.
       destruct (runs_acted _ _ _ _ _ _ _ _ _ [] w1 [] Hruns Hrec Hseen)
         as (tr1 & tr2 & st1 & Heq & _ & Hruns1 & Hst1).
       exists tr1, tr2, w1. split; [exact Heq|]. apply dec_stable. intros Hne.
       assert (meta_ok (metadata_ w1.2)) as Hmeta.
       { rewrite Hst1, (pd_runs_shared _ _ _ Hruns1). apply reachable_meta_ok, run_ops_reachable; [exact Hw0|].
         rewrite Heq, ops_app in Hperm. apply permitted_run_app in Hperm. exact Hperm. }
       destruct (key_has_region _ (field fields "key") Hmeta Hne) as (r & Hr' & _). congruence. }
  destruct Hroute as (w2 & Hseen & ->). left.
  destruct (two_points _ _ _ _ _ _ _ Hruns Hrec Hseen (or_introl Hm))
    as (tr1 & tr2 & tr3 & Heq & _ & Hw1 & Hw2).
  assert (meta_ok (metadata_ w1.2)) as Hmeta.
  { rewrite Hw1. apply reachable_meta_ok, run_ops_reachable; [exact Hw0|].
    rewrite Heq, ops_app in Hperm. apply permitted_run_app in Hperm. exact Hperm. }
  assert (r ∈ ListRegions (metadata_ w1.2)) as Hlisted by (exact (proj1 (proj1 (GetRegionByKey_ListRegions _ _ _ Hmeta) Hr))).
  destruct (leader_store_known _ _ Hmeta Hlisted) as (p & s1 & Hp & Hs1 & _).
  assert (is_Some (stores_ (metadata_ w2.2) !! peer_store_id p)) as [s Hs].
  { rewrite Hw2. apply run_ops_grows. exists s1. unfold GetRegionLeaderStore in Hs1. by rewrite Hp in Hs1. }
  exists fields, tr1, tr2, tr3, w1, w2, r, p, s.
  repeat (split; [first [exact Hf | exact Heq | exact Hw1 | exact Hw2 | exact Hr | exact Hp | exact Hs]|]).
  unfold GetRegionLeaderStore, GetStore. rewrite Hp, Hs. reflexivity.
Qed.

(** ** A run *)

(** One client asks for a route; another moves the leader of the region between
    the two questions. *)
Definition route_request : RpcRequest := sample_request "pd.GetRegionByKey" {["key" := "zebra"]}.
Definition move_request : RpcRequest := sample_request "pd.TransferLeader"
  (put_all ∅ [("region_id", to_string 2); ("target_peer_id", to_string 3)]).
Definition client_socket (request : RpcRequest) : Socket :=
  mkSocket (frame (EncodeRpcRequest request)) "" [].

Definition race_schedule : list turn :=
  [ CallsStart open_kernel "127.0.0.1" 7000; AcceptorTurn false 0;
    Connects (client_socket route_request); AcceptorTurn false 0; AcceptorTurn false 1;
    Connects (client_socket move_request); AcceptorTurn false 1;
    ThreadTurn 0; ThreadTurn 1; ThreadTurn 0; ThreadTurn 1; ThreadTurn 1; ThreadTurn 0; ThreadTurn 0 ].

Abbreviation pd_run_of :=
  (run_of (tcp_start pd_rpc_server) tcp_receive (tcp_work pd_program) WriteFrame).

Definition race : list PdEvent * PdProcess := pd_run_of race_schedule demo_pd.

Lemma race_runs : pd_runs demo_pd race.1 race.2.
Proof. exact (run_of_runs _ _ _ _ race_schedule demo_pd). Qed.

(** The bytes of the answer at a place of a run. *)
Definition answer_at (n : nat) (tr : list PdEvent) : string :=
  match tr !! n with Some (Answered _ _ bytes) => bytes | _ => "" end.

Lemma driver_takes_turns_witness :
  shared_ race.2 = run_ops (ops race.1) demo_pd ∧
  (pd_reachable demo_pd → permitted_run (ops race.1) demo_pd = true → pd_reachable (shared_ race.2)) ∧
  (∀ i request bytes, Answered i (inl request) bytes ∈ race.1 →
     rq_method request ≠ "pd.GetRegionByKey" → rq_method request ≠ "pd.Status" →
     ∃ tr1 tr2 w response,
       race.1 = tr1 ++ Acted i (inl request) w :: tr2 ∧ w = run_ops (ops tr1) demo_pd ∧
       (Handle pd_rpc_server request w).1 = Ok response ∧ bytes = EncodeRpcResponse response) ∧
  (∀ i request bytes, Answered i (inl request) bytes ∈ race.1 → asks_twice request →
     ∃ tr1 tr2 tr3 w1 w2,
       race.1 = tr1 ++ tr2 ++ tr3 ∧ Received i (inl request) ∈ tr1 ∧
       w1 = run_ops (ops tr1) demo_pd ∧ w2 = run_ops (ops tr2) w1 ∧
       bytes = EncodeRpcResponse (two_readings request w1 w2)).
Proof. exact (driver_takes_turns demo_pd race.1 race.2 race_runs). Defined.

Lemma concurrent_route_witness :
  (∃ fields tr1 tr2 tr3 w1 w2 r p s,
     DecodeFields (rq_payload route_request) = Ok fields ∧
     race.1 = tr1 ++ Acted 0 (inl route_request) w1 :: tr2 ++ Acted 0 (inl route_request) w2 :: tr3 ∧
     w1 = run_ops (ops tr1) demo_pd ∧ w2 = run_ops (ops tr2) w1 ∧
     GetRegionByKey (metadata_ w1.2) (field fields "key") = Some r ∧
     FindPeer r (leader_peer_id r) = Some p ∧
     GetStore (metadata_ w2.2) (peer_store_id p) = Some s ∧
     answer_at 9 race.1 = EncodeRpcResponse (MakeRpcOk route_request (EncodeFields
       (PutStoreFields (PutRegionFields ∅ r "region") s "leader_store")))) ∨
  (∃ e, answer_at 9 race.1 = EncodeRpcResponse (StatusToRpcError route_request e) ∧
     (DecodeFields (rq_payload route_request) = Err e ∨
      ∃ tr1 tr2 w, race.1 = tr1 ++ Acted 0 (inl route_request) w :: tr2 ∧ ListRegions (metadata_ w.2) = [])).
Proof.
  apply (concurrent_route demo_pd race.1 race.2 0 route_request (answer_at 9 race.1)).
  - exact demo_reachable.
  - exact race_runs.
  - vm_compute. reflexivity.
  - apply (list_elem_of_lookup_2 _ 9). vm_compute. reflexivity.
  - reflexivity.
Defined.
