(* ===== verification/DistributedSpec.v ===== *)
(** Running the parts of a replica in a process of its own, and how many calls
    its requests make. *)

From S2P Require Import Prelude Types Text Codec Service Engine Raft RaftStorage RaftWire Distributed.

(** * Running calls on parts *)

Lemma node_engine_run {A} (m : IO EngineW A) d n r d' e' :
  m (d, dn_engine n) = (r, (d', e')) → on_engine m (d, n) = (r, (d', with_engine e' n)).
Proof. unfold on_engine, zoom. cbn [fst snd]. by intros ->. Qed.

Lemma node_raft_run {A} (m : IO RaftNode A) d n raft r raft' :
  dn_raft n = Some raft → m raft = (r, raft') →
  on_raft m (d, n) = (r, (d, with_raft (Some raft') n)).
Proof. unfold on_raft. by intros -> ->. Qed.

Lemma local_run {Net A} (m : IO LocalW A) (net : Net) w r w' :
  m w = (r, w') → local m (net, w) = (r, (net, w')).
Proof. unfold local, zoom. cbn [fst snd]. by intros ->. Qed.

(** * The region a node serves *)

(** Nothing a node does by itself changes its region. *)
Definition keeps {A} (m : IO LocalW A) : Prop :=
  ∀ w, dn_region (m w).2.2 = dn_region w.2.

Lemma keeps_bind {A B} (m : IO LocalW A) (f : A → IO LocalW B) :
  keeps m → (∀ a, keeps (f a)) → keeps (m ≫= f).
Proof.
  intros Hm Hf w. specialize (Hm w). unfold mbind, M_bind.
  destruct (m w) as [[a|e|x] w']; cbn [snd] in *; [|done..]. by rewrite (Hf a w').
Qed.

Lemma keeps_same {A} (m : IO LocalW A) : (∀ w, (m w).2 = w) → keeps m.
Proof. intros Hm w. by rewrite Hm. Qed.

Lemma keeps_ignore {A} (m : IO LocalW A) : keeps m → keeps (ignore m).
Proof. intros Hm w. specialize (Hm w). unfold ignore. by destruct (m w) as [[a|e|x] w']. Qed.

Lemma keeps_on_engine {A} (m : IO EngineW A) : keeps (on_engine m).
Proof. intros w. unfold on_engine, zoom. by destruct (m _) as [r w']. Qed.

Lemma keeps_on_raft {A} (m : IO RaftNode A) : keeps (on_raft m).
Proof.
  intros [d n]. unfold on_raft. destruct (dn_raft n) as [raft|]; [|done]. by destruct (m raft).
Qed.

Create HintDb keeps.
#[export] Hint Resolve keeps_bind keeps_ignore keeps_on_engine keeps_on_raft : keeps.
#[export] Hint Extern 5 (keeps (gets _)) => by apply keeps_same : keeps.
#[export] Hint Extern 5 (keeps (mret _)) => by apply keeps_same : keeps.
#[export] Hint Extern 5 (keeps (fail _)) => by apply keeps_same : keeps.
#[export] Hint Extern 5 (keeps (throw _)) => by apply keeps_same : keeps.
#[export] Hint Extern 4 (keeps _) => case_match : keeps.

Lemma keeps_storage_ready : keeps storage_ready.
Proof. unfold storage_ready, the_node. eauto with keeps. Qed.
#[export] Hint Resolve keeps_storage_ready : keeps.

Lemma keeps_PersistHardState : keeps PersistHardState.
Proof. unfold PersistHardState, the_node. eauto with keeps. Qed.

Lemma keeps_PersistLogFrom i : keeps (PersistLogFrom i).
Proof. unfold PersistLogFrom, the_node. eauto with keeps. Qed.

Lemma keeps_ApplyCommitted : keeps ApplyCommitted.
Proof. unfold ApplyCommitted. eauto with keeps. Qed.

Lemma keeps_append_to_storage e : keeps (append_to_storage e).
Proof. unfold append_to_storage, the_node. eauto with keeps. Qed.
#[export] Hint Resolve keeps_PersistHardState keeps_PersistLogFrom keeps_ApplyCommitted
  keeps_append_to_storage : keeps.

(** * The number of calls *)

(** A network that counts the calls made over it. *)
Definition counted {Net} `{!Transport Net} : Transport (nat * Net) := λ endpoint request '(k, net),
  let '(response, net') := tcp_call endpoint request net in (response, (S k, net')).

Section calls.
Context {Net : Type} `{!Transport Net}.

#[local] Instance counting : Transport (nat * Net) := counted.
Abbreviation CountedW := ((nat * Net) * LocalW)%type.

(** On a region of [p] peers, [m] makes at most [b] calls, whatever happens. *)
Definition bounded {A} (p b : nat) (m : IO CountedW A) : Prop :=
  ∀ w, length (peers (dn_region w.2.2)) = p →
    (m w).2.1.1 ≤ w.1.1 + b ∧ length (peers (dn_region (m w).2.2.2)) = p.

Lemma bounded_bind {A B} p a b (m : IO CountedW A) (f : A → IO CountedW B) :
  bounded p a m → (∀ x, bounded p b (f x)) → bounded p (a + b) (m ≫= f).
Proof.
  intros Hm Hf w Hw. destruct (Hm w Hw) as [Hk Hp]. unfold mbind, M_bind.
  destruct (m w) as [[x|e|x] w']; cbn [snd] in *; [|lia..].
  destruct (Hf x w' Hp) as [Hk' Hp']. split; [lia | done].
Qed.

Lemma bounded_le {A} p a b (m : IO CountedW A) : bounded p a m → a ≤ b → bounded p b m.
Proof. intros Hm Hab w Hw. destruct (Hm w Hw). split; [lia | done]. Qed.

Lemma bounded_same {A} p (m : IO CountedW A) : (∀ w, (m w).2 = w) → bounded p 0 m.
Proof. intros Hm w Hw. rewrite Hm. split; [lia | done]. Qed.

Lemma bounded_ignore {A} p b (m : IO CountedW A) : bounded p b m → bounded p b (ignore m).
Proof.
  intros Hm w Hw. specialize (Hm w Hw). unfold ignore. by destruct (m w) as [[a|e|x] w'].
Qed.

Lemma bounded_local {A} p (m : IO LocalW A) : keeps m → bounded p 0 (local m).
Proof.
  intros Hm w Hw. specialize (Hm w.2). unfold local, zoom.
  destruct (m w.2) as [r w']. cbn [fst snd] in *. split; [lia|]. by rewrite Hm.
Qed.

Lemma bounded_call p store method fields : bounded p 1 (CallStore store method fields).
Proof.
  intros [[k net] [d n]] Hw. unfold CallStore, tcp_call, counting, counted.
  destruct (tcp_call _ _ net) as [response net']. cbn [fst snd] in *. split; [lia | done].
Qed.

Lemma bounded_request_votes p request ps votes :
  bounded p (length ps) (request_votes request ps votes).
Proof.
  revert votes. induction ps as [|peer ps IH]; intros votes; [by apply bounded_same|].
  cbn [request_votes length]. change (S (length ps)) with (0 + (1 + (0 + length ps))).
  apply bounded_bind; [apply bounded_local, keeps_same; done|]. intros n.
  case_decide; [eapply bounded_le; [apply IH | lia]|].
  destruct (FindStoreByPeer _ _); [|eapply bounded_le; [apply IH | lia]].
  apply bounded_bind; [apply bounded_call|]. intros response.
  case_match; [eapply bounded_le; [apply IH | lia]|].
  apply bounded_bind; [by apply bounded_same|]. intros fields.
  change (length ps) with (0 + length ps).
  apply bounded_bind; [by apply bounded_same|]. intros vote. apply IH.
Qed.

Lemma bounded_replicate p attempts store next commit :
  bounded p attempts (replicate attempts store next commit).
Proof.
  revert next. induction attempts as [|k IH]; intros next; [by apply bounded_same|].
  cbn [replicate]. change (S k) with (0 + (0 + (0 + (1 + k)))).
  apply bounded_bind; [apply bounded_local, keeps_same; done|]. intros n.
  apply bounded_bind; [apply bounded_local; apply keeps_on_raft|]. intros raft.
  apply bounded_bind; [by apply bounded_same|]. intros request.
  apply bounded_bind; [apply bounded_call|]. intros response.
  case_match; [eapply bounded_le; [by apply bounded_same | lia]|].
  change k with (0 + (0 + k)). apply bounded_bind; [by apply bounded_same|]. intros fields.
  apply bounded_bind; [by apply bounded_same|]. intros answer.
  case_match; [eapply bounded_le; [by apply bounded_same | lia] | apply IH].
Qed.

Lemma bounded_ReplicateToStore p store first commit :
  bounded p 8 (ReplicateToStore store first commit).
Proof.
  unfold ReplicateToStore. change 8 with (0 + 8).
  apply bounded_bind; [apply bounded_local, keeps_same; done|]. intros n.
  case_match; [apply bounded_replicate | eapply bounded_le; [by apply bounded_same | lia]].
Qed.

Lemma bounded_replicate_all p ps index k : bounded p (8 * length ps) (replicate_all ps index k).
Proof.
  revert k. induction ps as [|peer ps IH]; intros k; [by apply bounded_same|].
  cbn [replicate_all length]. replace (8 * S (length ps)) with (0 + (0 + (8 + 8 * length ps))) by lia.
  apply bounded_bind; [apply bounded_local, keeps_same; done|]. intros n.
  case_decide; [eapply bounded_le; [apply IH | lia]|].
  destruct (FindStoreByPeer _ _); [|eapply bounded_le; [apply IH | lia]].
  apply bounded_bind; [apply bounded_local; apply keeps_on_raft|]. intros raft.
  apply bounded_bind; [apply bounded_ReplicateToStore|]. intros b. apply IH.
Qed.

Lemma bounded_broadcast p ps commit : bounded p (8 * length ps) (broadcast ps commit).
Proof.
  induction ps as [|peer ps IH]; [by apply bounded_same|].
  cbn [broadcast length]. replace (8 * S (length ps)) with (0 + (0 + (8 + 8 * length ps))) by lia.
  apply bounded_bind; [apply bounded_local, keeps_same; done|]. intros n.
  case_decide; [eapply bounded_le; [apply IH | lia]|].
  destruct (FindStoreByPeer _ _); [|eapply bounded_le; [apply IH | lia]].
  apply bounded_bind; [apply bounded_local; apply keeps_on_raft|]. intros raft.
  apply bounded_bind; [apply bounded_ignore, bounded_ReplicateToStore|]. intros _. apply IH.
Qed.

(** A step that depends on the node it reads. *)
Lemma bounded_node {A} p b (f : DistributedRegionNode → IO CountedW A) :
  (∀ n, length (peers (dn_region n)) = p → bounded p b (f n)) →
  bounded p b (n ← local the_node; f n).
Proof.
  intros Hf [net [d n]] Hw. cbn [fst snd] in Hw. exact (Hf n Hw (net, (d, n)) Hw).
Qed.

Lemma bounded_EnsureLeader p : bounded p p EnsureLeader.
Proof.
  unfold EnsureLeader. apply bounded_node. intros n Hn.
  assert (∀ A (m : IO CountedW A), (∀ w, (m w).2 = w) → bounded p p m) as Hsame.
  { intros A m Hm. eapply bounded_le; [by apply bounded_same | lia]. }
  case_match; [|by apply Hsame]. case_decide; [by apply Hsame|].
  case_match; [by apply Hsame|].
  eapply bounded_le; [|apply Nat.eq_le_incl; instantiate (1 := 0 + (0 + (0 + (p + 0)))); lia].
  apply bounded_bind; [apply bounded_local; apply keeps_on_raft|]. intros _.
  apply bounded_bind; [apply bounded_local; apply keeps_PersistHardState|]. intros _.
  apply bounded_bind; [apply bounded_local; apply keeps_on_raft|]. intros raft.
  apply bounded_bind; [rewrite <-Hn at 2; apply bounded_request_votes|]. intros votes.
  case_decide; [by apply bounded_same|]. change 0 with (0 + 0).
  apply bounded_bind; [apply bounded_local; apply keeps_on_raft|]. intros _.
  apply bounded_local, keeps_PersistHardState.
Qed.

Lemma bounded_ProposeAndReplicate p command :
  bounded p (17 * p) (ProposeAndReplicate command).
Proof.
  unfold ProposeAndReplicate. replace (17 * p) with (p + (0 + (0 + (8 * p + 8 * p)))) by lia.
  apply bounded_bind; [apply bounded_EnsureLeader|]. intros _.
  apply bounded_bind; [apply bounded_local; apply keeps_on_raft|]. intros entry.
  apply bounded_bind; [apply bounded_local; apply keeps_append_to_storage|]. intros _.
  apply bounded_node. intros n Hn. rewrite <-Hn.
  apply bounded_bind; [apply bounded_replicate_all|]. intros replicated.
  case_decide; [eapply bounded_le; [by apply bounded_same | lia]|].
  change (8 * length (peers (dn_region n))) with (0 + (0 + (0 + 8 * length (peers (dn_region n))))).
  apply bounded_bind; [apply bounded_local; apply keeps_on_raft|]. intros _.
  apply bounded_bind; [apply bounded_local; apply keeps_ApplyCommitted|]. intros _.
  apply bounded_bind; [apply bounded_local; apply keeps_PersistHardState|]. intros _.
  unfold BroadcastCommit. apply bounded_node. intros n' Hn'. rewrite <-Hn' at 2.
  apply bounded_broadcast.
Qed.
End calls.

(** C40: The cost of a request. Whatever the other stores answer and whatever
    the disk does, a write makes at most 17 calls per peer of the region (one
    vote request, eight attempts to replicate, eight to announce the commit), an
    election at most one, and both return: an unreachable or lagging store cannot
    hold a request up for ever. *)
Theorem calls_bounded {Net} `{!Transport Net} (net : Net) d n command :
  let p := length (peers (dn_region n)) in
  let T := counted in
  (EnsureLeader (Transport0 := T) ((0, net), (d, n))).2.1.1 ≤ p ∧
  (ProposeAndReplicate (Transport0 := T) command ((0, net), (d, n))).2.1.1 ≤ 17 * p.
Proof.
  intros p T. split.
  - apply (bounded_EnsureLeader p ((0, net), (d, n)) eq_refl).
  - apply (bounded_ProposeAndReplicate p command ((0, net), (d, n)) eq_refl).
Qed.
