(* ===== verification/NodeRestart.v ===== *)
(** What a replica has on disk: after every message of the other stores, the
    state it answered from can be read back, and a process started on its
    directory is in that state. *)

From S2P Require Import Prelude Types Text Codec Service Engine Raft RaftStorage Keyspace RaftWire.
From S2P Require Import Distributed DistributedSpec.

(** * Entries applied to the engine of a node *)

Lemma apply_entries_good dir r log es d e :
  engine_good dir (d, e) → Forall entry_valid es → log_stored r (data_ e) log →
  ∃ d' e', apply_entries es (d, e) = (Ok tt, (d', e')) ∧ engine_good dir (d', e') ∧
    log_stored r (data_ e') log.
Proof.
  intros He Hes. revert d e He. induction Hes as [|x es [_ (ms & Hcmd & Hms & Hk)] Hes IH];
    intros d e He Hlog; [by exists d, e|].
  cbn [apply_entries]. case_decide; [by apply IH|].
  destruct (write_good dir ms d e He Hk) as (d1 & e1 & Hrun & He1 & Hd1).
  destruct (IH d1 e1 He1) as (d2 & e2 & Hrun2 & He2 & Hl2).
  { rewrite Hd1. by apply log_stored_user. }
  exists d2, e2. split; [|done]. rewrite <-Hcmd in Hrun. by run_call ltac:(exact Hrun).
Qed.

(** ** Rewriting the log from an index on *)

Lemma delete_keys_ok l : keys_ok (delete_key <$> log_keys l).
Proof.
  unfold log_keys. induction l as [|x l IH]; constructor; [done | exact IH].
Qed.

Lemma DeleteLogsFrom_good dir r first log d e :
  engine_good dir (d, e) → log_stored r (data_ e) log → log_ok r log →
  ∃ d' e', DeleteLogsFrom r first (d, e) = (Ok tt, (d', e')) ∧ engine_good dir (d', e') ∧
    log_stored r (data_ e') (take (N.to_nat (first - 1)) log).
Proof.
  intros He Hst Hl. unfold DeleteLogsFrom.
  run_call ltac:(rewrite kv_ScanPrefix_spec; cbn [kv_data FileKvEngine_laws snd];
    rewrite (log_stored_entries r _ log) by done; reflexivity).
  run_call ltac:(unfold lift; rewrite (deletions_log _ r 0) by apply Hl; reflexivity).
  rewrite N.sub_0_r.
  destruct (write_good dir _ d e He (delete_keys_ok (drop (N.to_nat (first - 1)) log)))
    as (d' & e' & Hrun & He' & Hd'). exists d', e'. split; [exact Hrun|]. split; [done|].
  rewrite Hd'. by apply log_stored_delete.
Qed.

Lemma append_from_good dir r first log1 log2 d e :
  engine_good dir (d, e) → log_stored r (data_ e) log1 → log_ok r (log1 ++ log2) →
  (first <= N.of_nat (length log1) + 1)%N →
  ∃ d' e', append_from first log2 (d, e) = (Ok tt, (d', e')) ∧ engine_good dir (d', e') ∧
    log_stored r (data_ e') (log1 ++ log2).
Proof.
  revert log1 d e. induction log2 as [|x log2 IH]; intros log1 d e He Hst Hl Hfirst.
  { exists d, e. by rewrite app_nil_r. }
  rewrite (cons_middle x), app_assoc in Hl |- *.
  assert (log_ok r (log1 ++ [x])) as Hl1.
  { rewrite <-(take_app_length (log1 ++ [x]) log2). by apply log_ok_take. }
  pose proof Hl1 as (_ & Hr & Hx & _)%log_ok_app.
  destruct (write_good dir [mkMutation kPut (RaftLogKey (e_region_id x) (e_index x))
    (SerializeLogEntry x)] d e He) as (d1 & e1 & Hrun & He1 & Hd1); [by repeat constructor|].
  destruct (IH (log1 ++ [x]) d1 e1) as (d' & e' & Hrun' & He' & Hst'); [done| |done| |].
  { rewrite Hd1. cbn. rewrite Hr. by apply log_stored_put. }
  { rewrite length_app. cbn [length]. lia. }
  exists d', e'. split; [|done]. cbn [append_from].
  destruct (N.leb_spec first (e_index x)); [|lia].
  run_call ltac:(rewrite AppendLog_batch; exact Hrun). exact Hrun'.
Qed.

(** Entries below the index are skipped. *)
Lemma append_from_skip first r b l1 l2 w :
  log_from r b l1 → (b + N.of_nat (length l1) < first)%N →
  append_from first (l1 ++ l2) w = append_from first l2 w.
Proof.
  revert b. induction l1 as [|x l1 IH]; intros b Hl Hb; [done|].
  apply log_from_cons in Hl as (_ & Hi & Hl). cbn [length] in Hb. cbn [app append_from].
  destruct (N.leb_spec first (e_index x)); [lia|]. run. apply (IH (b + 1)%N); [done | lia].
Qed.

(** Storage holding [old] is brought to [new], which differs from [p] on. *)
Lemma rewrite_log_good dir r p old new d e :
  engine_good dir (d, e) → log_stored r (data_ e) old → log_ok r old → log_ok r new →
  take p new = take p old → p ≤ length new →
  ∃ d' e', (_ ← DeleteLogsFrom r (N.of_nat p + 1); append_from (N.of_nat p + 1) new) (d, e) =
      (Ok tt, (d', e')) ∧ engine_good dir (d', e') ∧ log_stored r (data_ e') new.
Proof.
  intros He Hst Hold Hnew Htake Hp.
  destruct (DeleteLogsFrom_good dir r (N.of_nat p + 1) old d e He Hst Hold)
    as (d1 & e1 & Hrun1 & He1 & Hst1).
  replace (N.to_nat (N.of_nat p + 1 - 1)) with p in Hst1 by lia. rewrite <-Htake in Hst1.
  destruct (append_from_good dir r (N.of_nat p + 1) (take p new) (drop p new) d1 e1)
    as (d2 & e2 & Hrun2 & He2 & Hst2); [done | done | by rewrite take_drop | |].
  { rewrite length_take_le by lia. lia. }
  rewrite take_drop in Hst2. exists d2, e2. split; [|done].
  run_call ltac:(exact Hrun1). rewrite <-(take_drop p new) at 1.
  rewrite (append_from_skip _ r 0); [exact Hrun2 | |rewrite length_take_le by lia; lia].
  apply log_from_take, Hnew.
Qed.

(** * The state of a node and its disk *)

(** The numbers of the Raft state fit their words; no vote is for peer 0, the
    number that stands for no vote on disk. *)
Definition raft_fits (raft : RaftNode) : Prop :=
  (current_term_ raft < two64)%N ∧ voted_for_ raft ≠ Some 0%N ∧
  (default 0 (voted_for_ raft) < two64)%N ∧ (N.of_nat (length (log_ raft)) < two64)%N.

(** Engine and log storage agree with the Raft node in memory. *)
Record node_good (dir : string) (w : LocalW) (raft : RaftNode) : Prop := {
  ng_engine : engine_good dir (w.1, dn_engine w.2);
  ng_storage : dn_storage w.2 = true;
  ng_raft : dn_raft w.2 = Some raft;
  ng_region : region_id_ raft = region_id (dn_region w.2);
  ng_wf : wf raft;
  ng_log : log_stored (region_id_ raft) (data_ (dn_engine w.2)) (log_ raft);
  ng_entries : Forall entry_valid (log_ raft);
  ng_fits : raft_fits raft;
}.

(** And so does the hard state. *)
Definition node_stored (dir : string) (w : LocalW) (raft : RaftNode) : Prop :=
  node_good dir w raft ∧
  hard_stored (region_id_ raft) (data_ (dn_engine w.2)) (hard_state raft).

Lemma valid_log_ok raft : wf raft → Forall entry_valid (log_ raft) → log_ok (region_id_ raft) (log_ raft).
Proof.
  intros [Hlog _ _] Hes. split; [done|]. eapply list.Forall_impl; [exact Hes|]. by intros x [? _].
Qed.

(** A node changed in its Raft node and its engine only. *)
Definition with_parts (e : FileKvEngine) (raft : RaftNode) (n : DistributedRegionNode) :
    DistributedRegionNode := with_engine e (with_raft (Some raft) n).

Lemma on_good_engine {A} dir (m : IO EngineW A) d n a d' e' :
  m (d, dn_engine n) = (Ok a, (d', e')) → engine_good dir (d', e') →
  on_engine m (d, n) = (Ok a, (d', with_engine e' n)).
Proof. intros Hm _. by apply node_engine_run. Qed.

Lemma storage_ready_good dir w raft : node_good dir w raft → storage_ready w = (Ok raft, w).
Proof.
  intros Hw. unfold storage_ready, the_node. run. by rewrite (ng_storage _ _ _ Hw), (ng_raft _ _ _ Hw).
Qed.

Lemma PersistHardState_run dir d n raft :
  node_good dir (d, n) raft →
  ∃ d' e', PersistHardState (d, n) = (Ok tt, (d', with_parts e' raft n)) ∧
    node_stored dir (d', with_parts e' raft n) raft ∧
    data_ e' = apply_batch (data_ (dn_engine n)) (hard_batch (region_id_ raft) (hard_state raft)).
Proof.
  intros Hw. pose proof Hw as [He Hs Hr Hreg Hwf Hlog Hes Hf]. cbn [fst snd] in *.
  destruct (write_good dir (hard_batch (region_id_ raft) (hard_state raft)) d (dn_engine n) He)
    as (d' & e' & Hrun & He' & Hd'); [by repeat constructor|].
  exists d', e'. split; [|split; [|done]].
  - unfold PersistHardState. run_call ltac:(by eapply storage_ready_good).
    unfold the_node. run. cbn [snd]. rewrite <-Hreg.
    rewrite (node_engine_run _ d n (Ok tt) d' e'); [|by rewrite SaveHardState_batch].
    unfold with_parts. by rewrite <-Hr; destruct n.
  - split; [|cbn; rewrite Hd'; apply hard_batch_stored]. split; try done.
    cbn [snd with_parts with_engine with_raft dn_engine]. rewrite Hd'.
    eapply log_stored_frame; [|exact Hlog]. intros k Hk. apply hard_batch_frame.
    by eapply log_not_meta.
Qed.

Lemma PersistHardState_good dir d n raft :
  node_good dir (d, n) raft →
  ∃ d' e', PersistHardState (d, n) = (Ok tt, (d', with_parts e' raft n)) ∧
    node_stored dir (d', with_parts e' raft n) raft.
Proof. intros (d' & e' & Hrun & Hst & _)%PersistHardState_run. by exists d', e'. Qed.

Lemma node_good_raft dir d n raft raft' :
  node_good dir (d, n) raft → region_id_ raft' = region_id_ raft → log_ raft' = log_ raft →
  wf raft' → raft_fits raft' → node_good dir (d, with_raft (Some raft') n) raft'.
Proof.
  intros [He Hs Hr Hreg Hwf Hlog Hes Hf] Hid Hl Hwf' Hf'. cbn [fst snd] in *.
  split; cbn [fst snd with_raft dn_engine dn_storage dn_raft dn_region]; try done;
    [by rewrite Hid | by rewrite Hid, Hl | by rewrite Hl].
Qed.

Lemma with_parts_raft e raft raft1 n :
  with_parts e raft (with_raft (Some raft1) n) = with_parts e raft n.
Proof. by destruct n. Qed.

(** ** Votes *)

Definition vote_ok (r : RequestVoteRequest) : Prop :=
  (rv_term r < two64)%N ∧ rv_candidate_id r ≠ 0%N ∧ (rv_candidate_id r < two64)%N.

Lemma BecomeFollower_fits t raft : (t < two64)%N → raft_fits raft → raft_fits (BecomeFollower t raft).
Proof.
  intros Ht (?&?&?&?). unfold BecomeFollower. cbn [current_term_ with_role].
  destruct (N.ltb_spec (current_term_ raft) t); split_and!; cbn; done.
Qed.

Lemma HandleRequestVote_fits r raft :
  vote_ok r → raft_fits raft → raft_fits (Raft.HandleRequestVote r raft).2.
Proof.
  intros (Ht & Hc & Hlt) Hf. unfold Raft.HandleRequestVote.
  destruct (rv_term r <? current_term_ raft)%N; [done|].
  set (m := if (current_term_ raft <? rv_term r)%N then _ else _).
  assert (raft_fits m) as Hm by (unfold m; case_match; [by apply BecomeFollower_fits | done]).
  destruct Hm as (?&?&?&?).
  case_match; cbn [snd]; [|done]. split_and!; cbn; try done. intros Heq. by injection Heq.
Qed.

Lemma HandleRequestVote_good dir d n raft r :
  node_good dir (d, n) raft → vote_ok r →
  ∃ d' e', HandleRequestVote r (d, n) =
      (Ok (Raft.HandleRequestVote r raft).1,
       (d', with_parts e' (Raft.HandleRequestVote r raft).2 n)) ∧
    node_stored dir (d', with_parts e' (Raft.HandleRequestVote r raft).2 n)
      (Raft.HandleRequestVote r raft).2.
Proof.
  intros Hw Hr. pose proof (ng_raft _ _ _ Hw) as Hraft. cbn [snd] in Hraft.
  pose proof (HandleRequestVote_fields r raft) as (Hl & Hc & Ha & Hreg & _).
  pose proof (HandleRequestVote_fits r raft Hr (ng_fits _ _ _ Hw)) as Hfit.
  destruct (Raft.HandleRequestVote r raft) as [resp raft'] eqn:Hq. cbn [fst snd] in *.
  pose proof (node_good_raft dir d n raft raft' Hw Hreg Hl) as Hw'.
  destruct (PersistHardState_good dir d (with_raft (Some raft') n) raft') as (d' & e' & Hrun & Hst).
  { apply Hw'; [|done]. by eapply wf_same_log, Hw. }
  rewrite with_parts_raft in Hrun, Hst. exists d', e'. split; [|done].
  unfold HandleRequestVote, the_node. run. cbn [snd]. rewrite Hraft. cbv beta iota.
  run_call ltac:(eapply node_raft_run; [exact Hraft | cbv beta; rewrite Hq; reflexivity]).
  by run_call ltac:(unfold ignore; rewrite Hrun; reflexivity).
Qed.

(** ** Entries *)

Definition append_ok (region : N) (r : AppendEntriesRequest) : Prop :=
  request_ok region r ∧ Forall entry_valid (ae_entries r) ∧ (ae_term r < two64)%N ∧
  (ae_prev_log_index r + N.of_nat (length (ae_entries r)) < two64)%N.

Lemma merged_nil log p k l : merged log p [] k l → l = log.
Proof. intros Hm. inversion Hm as [|k' Hp Hk]; [done|]. simpl in Hk. lia. Qed.

Lemma merged_take log p es k l : p ≤ length log → merged log p es k l → take p l = take p log.
Proof.
  intros Hp Hm. destruct Hm as [|k Hpk Hk Hlen _ _]; [done|].
  rewrite take_app_le by (rewrite length_take_le by done; lia). rewrite take_take.
  by rewrite Nat.min_l by lia.
Qed.

Lemma merged_valid log p es k l :
  merged log p es k l → Forall entry_valid log → Forall entry_valid es → Forall entry_valid l.
Proof.
  intros Hm Hlog Hes. destruct Hm as [|k _ _ _ _ _]; [done|]. apply list.Forall_app.
  split; [by apply list.Forall_take | by apply list.Forall_drop].
Qed.

Lemma merged_bound log p es k l :
  merged log p es k l → length l ≤ length log ∨ length l ≤ p + length es.
Proof.
  intros Hm. destruct Hm as [|k Hp Hk Hlen _ _]; [by left|]. right.
  rewrite length_app, length_take_le, length_drop by done. lia.
Qed.

Lemma accept_term_fits t raft :
  (current_term_ raft <= t)%N → (t < two64)%N → raft_fits raft → raft_fits (accept_term t raft).
Proof. intros _ Ht Hf. unfold accept_term. case_match; [by apply BecomeFollower_fits | done]. Qed.

(** The parts of an accepting node. *)
Lemma accepted_fields c k l t raft :
  (current_term_ raft <= t)%N →
  let raft1 := follow_commit c (cut k l (accept_term t raft)) in
  log_ raft1 = l ∧ region_id_ raft1 = region_id_ raft ∧
  current_term_ raft1 = current_term_ (accept_term t raft) ∧
  voted_for_ raft1 = voted_for_ (accept_term t raft).
Proof.
  intros Ht. destruct (accept_term_fields t raft Ht) as (_&_&_&Hreg&_).
  unfold follow_commit. case_match; cbn; by rewrite Hreg.
Qed.

(** The log storage after an accepted request. *)
Lemma PersistLogFrom_good dir d n old raft k es p :
  engine_good dir (d, dn_engine n) → dn_storage n = true → dn_raft n = Some raft →
  region_id_ raft = region_id (dn_region n) →
  log_stored (region_id_ raft) (data_ (dn_engine n)) old → log_ok (region_id_ raft) old →
  log_ok (region_id_ raft) (log_ raft) → p ≤ length old → merged old p es k (log_ raft) →
  ∃ d' e', PersistLogFrom (N.of_nat p + 1) (d, n) = (Ok tt, (d', with_parts e' raft n)) ∧
    engine_good dir (d', e') ∧ log_stored (region_id_ raft) (data_ e') (log_ raft).
Proof.
  intros He Hs Hr Hreg Hst Hold Hnew Hp Hm.
  destruct (rewrite_log_good dir (region_id_ raft) p old (log_ raft) d (dn_engine n))
    as (d' & e' & Hrun & He' & Hst'); [done..| | |].
  { by apply (merged_take _ _ es k). }
  { destruct (merged_length _ _ _ _ _ Hm) as [_ H]. specialize (H Hp). lia. }
  exists d', e'. split; [|done]. unfold PersistLogFrom.
  run_call ltac:(unfold storage_ready, the_node; run; cbn [snd]; rewrite Hs, Hr; reflexivity).
  unfold the_node. run. cbn [snd]. rewrite <-Hreg.
  rewrite (node_engine_run _ d n (Ok tt) d' e') by exact Hrun.
  unfold with_parts. by rewrite <-Hr; destruct n.
Qed.

(** The Raft node once all committed entries have been handed out. *)
Definition applied (raft : RaftNode) : RaftNode :=
  with_log (commit_index_ raft) (commit_index_ raft) (log_ raft) raft.

Lemma wf_applied raft : wf raft → wf (applied raft).
Proof. intros [? ? ?]. split; cbn; [done | done | lia]. Qed.

(** The entries it then hands out. *)
Definition pending (raft : RaftNode) : list LogEntry :=
  take (N.to_nat (commit_index_ raft - last_applied_ raft))
    (drop (N.to_nat (last_applied_ raft)) (log_ raft)).

Lemma ApplyCommitted_run dir d n raft :
  node_good dir (d, n) raft →
  ∃ d' e', ApplyCommitted (d, n) = (Ok tt, (d', with_parts e' (applied raft) n)) ∧
    node_good dir (d', with_parts e' (applied raft) n) (applied raft) ∧
    apply_entries (pending raft) (d, dn_engine n) = (Ok tt, (d', e')).
Proof.
  intros [He Hs Hr Hreg Hwf Hlog Hes Hf]. cbn [fst snd] in *.
  destruct (apply_entries_good dir (region_id_ raft) (log_ raft) (pending raft) d (dn_engine n) He)
    as (d' & e' & Hrun & He' & Hl'); [by apply list.Forall_take, list.Forall_drop | done|].
  exists d', e'. split; [|split; [|done]].
  - unfold ApplyCommitted.
    run_call ltac:(eapply node_raft_run; [exact Hr | by apply TakeCommittedEntries_spec]).
    fold (pending raft). rewrite (node_engine_run _ d _ (Ok tt) d' e') by exact Hrun. done.
  - split; try done. by apply wf_applied.
Qed.

Lemma ApplyCommitted_good dir d n raft :
  node_good dir (d, n) raft →
  ∃ d' e', ApplyCommitted (d, n) = (Ok tt, (d', with_parts e' (applied raft) n)) ∧
    node_good dir (d', with_parts e' (applied raft) n) (applied raft).
Proof. intros (d' & e' & Hrun & Hg & _)%ApplyCommitted_run. by exists d', e'. Qed.

Lemma HandleAppendEntries_rejected r d n raft resp raft1 w :
  dn_raft n = Some raft → Raft.HandleAppendEntries r raft = (Ok resp, raft1) →
  ae_success resp = false → PersistHardState (d, with_raft (Some raft1) n) = (Ok tt, w) →
  HandleAppendEntries r (d, n) = (Ok resp, w).
Proof.
  intros Hr Hq Hno Hp. unfold HandleAppendEntries, the_node. run. cbn [snd]. rewrite Hr.
  cbv beta iota. run_call ltac:(eapply node_raft_run; [exact Hr | exact Hq]). rewrite Hno.
  cbn [negb]. by run_call ltac:(eapply ignore_ok, Hp).
Qed.

Definition first_new_index (r : AppendEntriesRequest) : N :=
  match ae_entries r with [] => 0 | e :: _ => e_index e end.

Lemma HandleAppendEntries_accepted r d n raft resp raft1 w1 w2 w3 :
  dn_raft n = Some raft → Raft.HandleAppendEntries r raft = (Ok resp, raft1) →
  ae_success resp = true →
  (if negb (first_new_index r =? 0)%N then PersistLogFrom (first_new_index r) else mret tt)
    (d, with_raft (Some raft1) n) = (Ok tt, w1) →
  ApplyCommitted w1 = (Ok tt, w2) → PersistHardState w2 = (Ok tt, w3) →
  HandleAppendEntries r (d, n) = (Ok resp, w3).
Proof.
  intros Hr Hq Hyes Hp Ha Hh. unfold HandleAppendEntries, the_node. run. cbn [snd]. rewrite Hr.
  cbv beta iota. run_call ltac:(eapply node_raft_run; [exact Hr | exact Hq]). rewrite Hyes.
  cbn [negb]. fold (first_new_index r). destruct (negb (first_new_index r =? 0)%N).
  - run_call ltac:(eapply ignore_ok, Hp). run_call ltac:(eapply ignore_ok, Ha).
    by run_call ltac:(eapply ignore_ok, Hh).
  - injection Hp as <-. run. run_call ltac:(eapply ignore_ok, Ha).
    by run_call ltac:(eapply ignore_ok, Hh).
Qed.

(** The log storage follows an accepted request. *)
Lemma store_accepted dir d n raft raft1 r k :
  node_good dir (d, n) raft → append_ok (region_id_ raft) r → wf raft1 → raft_fits raft1 →
  region_id_ raft1 = region_id_ raft → N.to_nat (ae_prev_log_index r) ≤ length (log_ raft) →
  merged (log_ raft) (N.to_nat (ae_prev_log_index r)) (ae_entries r) k (log_ raft1) →
  ∃ d' e',
    (if negb (first_new_index r =? 0)%N then PersistLogFrom (first_new_index r) else mret tt)
      (d, with_raft (Some raft1) n) = (Ok tt, (d', with_parts e' raft1 n)) ∧
    node_good dir (d', with_parts e' raft1 n) raft1.
Proof.
  intros [He Hs Hr Hreg Hwf Hlog Hes Hf] (Hreq & Hval & _) Hwf1 Hf1 Hid Hp Hm.
  cbn [fst snd] in *. pose proof (merged_valid _ _ _ _ _ Hm Hes Hval) as Hes1.
  pose proof (valid_log_ok raft1 Hwf1 Hes1) as Hok1.
  pose proof (valid_log_ok raft Hwf Hes) as Hok. rewrite <-Hid in Hok, Hlog.
  assert (node_good dir (d, with_raft (Some raft1) n) raft1 ∨ first_new_index r ≠ 0%N) as Hcase.
  { destruct (ae_entries r) as [|x es] eqn:Hent.
    - left. apply merged_nil in Hm. rewrite Hid in Hlog. by apply (node_good_raft dir d n raft).
    - right. unfold first_new_index, request_ok in *. rewrite Hent in *.
      apply log_from_cons in Hreq as (_ & Hx & _). lia. }
  destruct (N.eqb_spec (first_new_index r) 0) as [H0 | H0]; cbn [negb].
  { destruct Hcase as [Hgood | ?]; [|done]. exists d, (dn_engine n).
    assert (with_parts (dn_engine n) raft1 n = with_raft (Some raft1) n) as -> by by destruct n.
    done. }
  assert (first_new_index r = N.of_nat (N.to_nat (ae_prev_log_index r)) + 1)%N as ->.
  { unfold first_new_index, request_ok in *. destruct (ae_entries r) as [|x es]; [done|].
    apply log_from_cons in Hreq as (_ & Hx & _). lia. }
  destruct (PersistLogFrom_good dir d (with_raft (Some raft1) n) (log_ raft) raft1 k
    (ae_entries r) (N.to_nat (ae_prev_log_index r))) as (d' & e' & Hrun & He' & Hst');
    cbn [with_raft dn_engine dn_storage dn_raft dn_region]; try done; [congruence|].
  rewrite with_parts_raft in Hrun. exists d', e'. split; [done|]. split; try done.
  cbn. congruence.
Qed.

Lemma HandleAppendEntries_good dir d n raft r :
  node_good dir (d, n) raft → append_ok (region_id_ raft) r →
  ∃ resp raft1 d' e', Raft.HandleAppendEntries r raft = (Ok resp, raft1) ∧
    let raft' := if ae_success resp then applied raft1 else raft1 in
    HandleAppendEntries r (d, n) = (Ok resp, (d', with_parts e' raft' n)) ∧
    node_stored dir (d', with_parts e' raft' n) raft'.
Proof.
  intros Hw Hr. pose proof Hr as (Hreq & Hval & Hterm & Hsize). pose proof Hw as [_ _ Hraft _ Hwf _ _ Hf].
  destruct (HandleAppendEntries_outcome raft r Hwf Hreq) as (resp & raft1 & Hq & Hout & Hwf1).
  exists resp, raft1. cbn [snd] in Hraft.
  destruct Hout as [Hlt | Hge Hhas | k l Hge Hhas Hm]; cbn [ae_success].
  - destruct (PersistHardState_good dir d (with_raft (Some raft) n) raft) as (d' & e' & Hrun & Hst).
    { by apply (node_good_raft dir d n raft). }
    rewrite with_parts_raft in Hrun, Hst. exists d', e'. split_and!; [done| |done].
    by eapply HandleAppendEntries_rejected.
  - destruct (accept_term_fields (ae_term r) raft Hge) as (Hl & _ & _ & Hid & _).
    destruct (PersistHardState_good dir d (with_raft (Some (accept_term (ae_term r) raft)) n)
      (accept_term (ae_term r) raft)) as (d' & e' & Hrun & Hst).
    { apply (node_good_raft dir d n raft); [done..|]. by apply accept_term_fits. }
    rewrite with_parts_raft in Hrun, Hst. exists d', e'. split_and!; [done| |done].
    by eapply HandleAppendEntries_rejected.
  - destruct (accepted_fields (ae_leader_commit r) k l (ae_term r) raft Hge)
      as (Hl & Hid & Ht & Hv).
    set (raft1 := follow_commit _ _) in *.
    apply HasLogAt_length in Hhas as Hp.
    assert (raft_fits raft1) as Hf1.
    { destruct (accept_term_fits (ae_term r) raft Hge Hterm Hf) as (?&?&?&_).
      unfold raft_fits. rewrite Ht, Hv, Hl. split_and!; [done..|].
      destruct (merged_bound _ _ _ _ _ Hm) as [|]; [destruct Hf as (_&_&_&?)|]; lia. }
    rewrite <-Hl in Hm.
    destruct (store_accepted dir d n raft raft1 r k Hw Hr Hwf1 Hf1 Hid) as (d1 & e1 & Hrun1 & Hw1);
      [lia | done |].
    destruct (ApplyCommitted_good dir d1 (with_parts e1 raft1 n) raft1 Hw1) as (d2 & e2 & Hrun2 & Hw2).
    destruct (PersistHardState_good _ _ _ _ Hw2) as (d3 & e3 & Hrun3 & Hw3).
    exists d3, e3. split; [done|]. split; [|done].
    by eapply HandleAppendEntries_accepted.
Qed.

(** * Messages and restarts *)

Inductive raft_message :=
  | VoteMessage (r : RequestVoteRequest)
  | AppendMessage (r : AppendEntriesRequest).

Definition message_ok (region : N) (m : raft_message) : Prop :=
  match m with VoteMessage r => vote_ok r | AppendMessage r => append_ok region r end.

Definition serve_message (m : raft_message) : IO LocalW unit :=
  match m with
  | VoteMessage r => _ ← HandleRequestVote r; mret tt
  | AppendMessage r => _ ← HandleAppendEntries r; mret tt
  end.

Fixpoint serve_messages (ms : list raft_message) : IO LocalW unit :=
  match ms with
  | [] => mret tt
  | m :: rest => _ ← serve_message m; serve_messages rest
  end.

(** What a node is besides its Raft node and its engine. *)
Definition same_identity (n n' : DistributedRegionNode) : Prop :=
  dn_region n' = dn_region n ∧ dn_local_store n' = dn_local_store n ∧
  dn_local_peer n' = dn_local_peer n ∧ dn_stores n' = dn_stores n.

Lemma serve_message_good dir d n raft m :
  node_good dir (d, n) raft → message_ok (region_id_ raft) m →
  ∃ d' n' raft', serve_message m (d, n) = (Ok tt, (d', n')) ∧ node_stored dir (d', n') raft' ∧
    region_id_ raft' = region_id_ raft ∧ self_id_ raft' = self_id_ raft ∧
    peers_ raft' = peers_ raft ∧ same_identity n n'.
Proof.
  intros Hw Hm. destruct m as [r | r]; cbn [message_ok serve_message] in *.
  - destruct (HandleRequestVote_good dir d n raft r Hw Hm) as (d' & e' & Hrun & Hst).
    pose proof (HandleRequestVote_fields r raft) as (_ & _ & _ & Hreg & _).
    set (raft' := (Raft.HandleRequestVote r raft).2) in *.
    exists d', (with_parts e' raft' n), raft'. split; [by run_call ltac:(exact Hrun)|].
    split; [done|]. destruct (HandleRequestVote_same r raft) as (? & ? & ?). done.
  - destruct (HandleAppendEntries_good dir d n raft r Hw Hm)
      as (resp & raft1 & d' & e' & Hq & Hrun & Hst).
    set (raft' := if ae_success resp then applied raft1 else raft1) in *.
    exists d', (with_parts e' raft' n), raft'. split; [by run_call ltac:(exact Hrun)|].
    split; [done|]. destruct Hm as (Hreq & _).
    destruct (HandleAppendEntries_outcome raft r (ng_wf _ _ _ Hw) Hreq) as (resp2 & raft2 & Hq2 & Hout & _).
    rewrite Hq in Hq2. injection Hq2 as <- <-.
    destruct (append_outcome_same _ _ _ _ Hout) as (? & ? & ?).
    unfold raft'. by destruct (ae_success resp).
Qed.

Lemma serve_messages_good dir ms : ∀ d n raft,
  ms ≠ [] → node_good dir (d, n) raft → Forall (message_ok (region_id_ raft)) ms →
  ∃ d' n' raft', serve_messages ms (d, n) = (Ok tt, (d', n')) ∧ node_stored dir (d', n') raft' ∧
    region_id_ raft' = region_id_ raft ∧ self_id_ raft' = self_id_ raft ∧
    peers_ raft' = peers_ raft ∧ same_identity n n'.
Proof.
  induction ms as [|m ms IH]; intros d n raft Hne Hw Hms; [done|].
  apply list.Forall_cons in Hms as [Hm Hms].
  destruct (serve_message_good dir d n raft m Hw Hm)
    as (d1 & n1 & raft1 & Hrun1 & Hst1 & Hreg1 & Hself1 & Hpeers1 & Hid1).
  cbn [serve_messages]. destruct ms as [|m2 ms].
  { exists d1, n1, raft1. split; [by run_call ltac:(exact Hrun1) | done]. }
  destruct (IH d1 n1 raft1) as (d2 & n2 & raft2 & Hrun2 & Hst2 & Hreg2 & Hself2 & Hpeers2 & Hid2);
    [done | apply Hst1 | by rewrite Hreg1 |].
  exists d2, n2, raft2. split; [by run_call ltac:(exact Hrun1)|]. split; [done|].
  destruct Hid1 as (?&?&?&?), Hid2 as (?&?&?&?). unfold same_identity. split_and!; congruence.
Qed.

Lemma hard_state_ok raft : wf raft → raft_fits raft → hard_ok (hard_state raft).
Proof. intros [_ Hc Ha] (?&?&?&?). split_and!; cbn; [done | done | lia | lia]. Qed.

Lemma voted_hard_state raft : voted_for_ raft ≠ Some 0%N → voted (hard_state raft) = voted_for_ raft.
Proof.
  intros Hv. unfold voted. cbn. destruct (voted_for_ raft) as [v|]; cbn; [|done].
  by destruct (N.eqb_spec v 0) as [-> |].
Qed.

(** The directory of a region's replica. *)
Definition node_dir (data_dir : string) (region : RegionInfo) : string :=
  path_join data_dir ("region-" +:+ to_string (region_id region)).

(** What [Bootstrap] builds before it looks at the disk. *)
Definition fresh_raft (p : Peer) (region : RegionInfo) : RaftNode :=
  new_raft (region_id region) (peer_id p) (peer_id <$> peers region).
Definition booted (local_store : StoreInfo) (stores : list StoreInfo) (region : RegionInfo)
    (p : Peer) (e : FileKvEngine) (raft : RaftNode) : DistributedRegionNode :=
  mkNode local_store stores region p (Some raft) e true 1.

Definition local_peer_of (store : StoreInfo) (region : RegionInfo) : option Peer :=
  FindPeerByStore region (store_id store).

(** [Bootstrap] up to the load of the hard state. *)
Lemma Bootstrap_opened data_dir local_store stores region p d d' e' :
  local_peer_of local_store region = Some p →
  Engine.Open (node_dir data_dir region) (d, new_engine) = (Ok tt, (d', e')) →
  ∀ x, (loaded ← status_of (on_engine (LoadHardState (region_id region)));
      match loaded with
      | inr st => if decide (code_ st = kKeyNotFound) then mret tt else fail st
      | inl h =>
          entries ← on_engine (LoadLog (region_id region));
          on_raft (Raft.Restore (hs_current_term h) (voted h) (hs_commit_index h)
                     (hs_last_applied h) entries)
      end) (d', booted local_store stores region p e' (fresh_raft p region)) = x →
  Bootstrap data_dir local_store stores region (d, new_node) = x.
Proof.
  intros Hp Hopen x Hx. unfold Bootstrap, the_node, update_node. run. cbn [snd fst].
  assert (FindLocalPeer (mkNode local_store stores region (dn_local_peer new_node)
    (dn_raft new_node) (dn_engine new_node) (dn_storage new_node)
    (dn_next_request_id new_node)) = Some p) as ->.
  { rewrite <-Hp. unfold FindLocalPeer, local_peer_of, FindPeerByStore. done. }
  run. cbn [fst snd]. fold (node_dir data_dir region).
  run_call ltac:(apply node_engine_run; exact Hopen). run. exact Hx.
Qed.

Lemma Bootstrap_fresh data_dir local_store stores region p d :
  disk_ok d → files d !! path_join (node_dir data_dir region) "kv.log" = None →
  local_peer_of local_store region = Some p →
  ∃ d' e', Bootstrap data_dir local_store stores region (d, new_node) =
      (Ok tt, (d', booted local_store stores region p e' (fresh_raft p region))) ∧
    node_good (node_dir data_dir region)
      (d', booted local_store stores region p e' (fresh_raft p region)) (fresh_raft p region) ∧
    data_ e' = ∅.
Proof.
  intros Hd Hf Hp. set (dir := node_dir data_dir region) in *.
  assert (dir ≠ "") as Hne by by apply path_join_filled.
  assert (default "" (files d !! path_join dir "kv.log") = "") as Htext by by rewrite Hf.
  pose proof (Open_ok dir d new_engine "" ∅ Hne Hd Htext eq_refl) as Hopen.
  do 2 eexists. split.
  - eapply Bootstrap_opened; [exact Hp | exact Hopen|].
    run_call ltac:(eapply status_of_err, node_engine_run, (LoadHardState_missing (S := EngineW));
      reflexivity).
    by rewrite decide_True.
  - split; [|done]. split; cbn [fst snd booted dn_engine dn_storage dn_raft dn_region]; try done.
    split_and!; [done| |done]. apply (Open_durable dir d new_engine); [done | done | by rewrite Htext | done].
Qed.

Lemma Bootstrap_restores data_dir local_store stores region p d n raft :
  node_stored (node_dir data_dir region) (d, n) raft → region_id region = region_id (dn_region n) →
  local_peer_of local_store region = Some p →
  ∃ d', Bootstrap data_dir local_store stores region (d, new_node) =
    (Ok tt, (d', booted local_store stores region p (dn_engine n)
       (mkRaft (region_id region) (peer_id p) (peer_id <$> peers region) kFollower
          (current_term_ raft) (voted_for_ raft) (commit_index_ raft) (last_applied_ raft)
          (log_ raft)))) ∧ engine_good (node_dir data_dir region) (d', dn_engine n).
Proof.
  intros [[(Hd & Hdur & Hdir) Hs Hr Hreg Hwf Hlog Hes Hf] Hhard] Hid Hp. cbn [fst snd] in *.
  destruct (reopen d (dn_engine n) Hdur Hd) as (d' & Hopen & Hd' & Hdur'). rewrite Hdir in Hopen.
  exists d'. split; [|done]. eapply Bootstrap_opened; [exact Hp | exact Hopen|].
  rewrite Hid, <-Hreg.
  set (n' := booted _ _ _ _ _ _).
  run_call ltac:(eapply status_of_ok, node_engine_run,
    (LoadHardState_run (S := EngineW) _ (hard_state raft)); [exact Hhard | by apply hard_state_ok]).
  run_call ltac:(apply node_engine_run, (LoadLog_run (S := EngineW) _ (log_ raft));
                 [exact Hlog | by apply valid_log_ok]).
  destruct Hf as (_ & Hv & _). destruct Hwf as [Hfrom Hc Ha].
  erewrite node_raft_run; [|reflexivity|apply Restore_ok; cbn; [|done..]].
  - cbn. rewrite voted_hard_state by done. unfold n', booted, fresh_raft. cbn. by rewrite Hreg, Hid.
  - by rewrite Hid, <-Hreg.
Qed.

(** ** What a restart finds *)

(** Everything is on disk: the hard state, or the node has not left its start. *)
Definition unsaved (raft : RaftNode) : Prop :=
  role_ raft = kFollower ∧ log_ raft = [] ∧ current_term_ raft = 0%N ∧ voted_for_ raft = None ∧
  commit_index_ raft = 0%N ∧ last_applied_ raft = 0%N.

Definition node_kept (dir : string) (w : LocalW) (raft : RaftNode) : Prop :=
  node_good dir w raft ∧
  (hard_stored (region_id_ raft) (data_ (dn_engine w.2)) (hard_state raft) ∨
   data_ (dn_engine w.2) = ∅ ∧ unsaved raft).

Lemma node_stored_kept dir w raft : node_stored dir w raft → node_kept dir w raft.
Proof. intros [Hg Hh]. split; [done | by left]. Qed.

(** The Raft node of a restart. *)
Definition restarted (region : RegionInfo) (p : Peer) (raft : RaftNode) : RaftNode :=
  mkRaft (region_id region) (peer_id p) (peer_id <$> peers region) kFollower
    (current_term_ raft) (voted_for_ raft) (commit_index_ raft) (last_applied_ raft) (log_ raft).

Lemma node_kept_booted dir d d' n raft local_store stores region p :
  node_kept dir (d, n) raft → region_id region = region_id_ raft →
  engine_good dir (d', dn_engine n) →
  node_kept dir (d', booted local_store stores region p (dn_engine n) (restarted region p raft))
    (restarted region p raft).
Proof.
  intros [[_ _ _ Hreg [Hfrom Hc Ha] Hlog Hes Hf] Hkept] Hid Hgood. cbn [snd] in *.
  split; [split|]; cbn [snd booted dn_engine dn_storage dn_raft dn_region restarted region_id_ log_];
    rewrite ?Hid; try done.
  - split; cbn [restarted log_ region_id_ commit_index_ last_applied_]; rewrite ?Hid; done.
  - destruct Hkept as [Hhard | [Hdata (_ & Hunsaved)]]; [by left | by right].
Qed.

(** A process started on the directory finds the replica as it was. *)
Lemma Bootstrap_kept data_dir local_store stores region p d n raft :
  node_kept (node_dir data_dir region) (d, n) raft → region_id region = region_id_ raft →
  local_peer_of local_store region = Some p →
  ∃ d', let n' := booted local_store stores region p (dn_engine n) (restarted region p raft) in
    Bootstrap data_dir local_store stores region (d, new_node) = (Ok tt, (d', n')) ∧
    node_kept (node_dir data_dir region) (d', n') (restarted region p raft).
Proof.
  intros Hkept Hid Hp. pose proof Hkept as [Hgood Hcase].
  pose proof Hgood as [(Hd & Hdur & Hdir) _ _ Hreg _ _ _ _]. cbn [fst snd] in *.
  destruct Hcase as [Hhard | [Hdata (_ & Hlog & Hterm & Hvote & Hcommit & Happlied)]].
  - destruct (Bootstrap_restores data_dir local_store stores region p d n raft) as (d' & Hrun & He);
      [by split | congruence | done |].
    exists d'. cbv zeta. split; [exact Hrun|]. by eapply node_kept_booted.
  - destruct (reopen d (dn_engine n) Hdur Hd) as (d' & Hopen & Hd' & Hdur'). rewrite Hdir in Hopen.
    exists d'. cbv zeta. split; [|by eapply node_kept_booted].
    eapply Bootstrap_opened; [exact Hp | exact Hopen|].
    run_call ltac:(eapply status_of_err, node_engine_run, (LoadHardState_missing (S := EngineW));
      cbn [snd booted dn_engine]; unfold kv_data; cbn; rewrite Hdata; apply lookup_empty).
    rewrite decide_True by done. do 3 f_equal. unfold restarted, fresh_raft, new_raft.
    by rewrite Hlog, Hterm, Hvote, Hcommit, Happlied.
Qed.


(** A replica keeps its word across restarts. Started on an empty directory
    of a working disk, a replica serves any sequence of vote and append requests
    (as leaders and candidates build them); whatever it has answered by then, a
    process started on the same directory has the same term, the same vote, the
    same log, commit and apply position and the same contents, as a follower: no
    second vote in a term and no acknowledged entry is lost. *)
Theorem answers_survive_restart data_dir local_store stores region p d ms :
  disk_ok d → files d !! path_join (node_dir data_dir region) "kv.log" = None →
  local_peer_of local_store region = Some p → ms ≠ [] →
  Forall (message_ok (region_id region)) ms →
  ∃ d1 n1 raft d2,
    (_ ← Bootstrap data_dir local_store stores region; serve_messages ms) (d, new_node) =
      (Ok tt, (d1, n1)) ∧ dn_raft n1 = Some raft ∧
    Bootstrap data_dir local_store stores region (d1, new_node) =
      (Ok tt, (d2, booted local_store stores region p (dn_engine n1) (with_role kFollower raft))).
Proof.
  intros Hd Hf Hp Hne Hms.
  destruct (Bootstrap_fresh data_dir local_store stores region p d Hd Hf Hp)
    as (d0 & e0 & Hrun0 & Hw0 & _).
  destruct (serve_messages_good _ ms _ _ _ Hne Hw0 Hms)
    as (d1 & n1 & raft & Hrun1 & Hst1 & Hreg1 & Hself1 & Hpeers1 & Hid1 & _).
  destruct (Bootstrap_restores data_dir local_store stores region p d1 n1 raft Hst1)
    as (d2 & Hrun2 & _); [by rewrite Hid1 | done |].
  exists d1, n1, raft, d2. split; [by run_call ltac:(exact Hrun0)|].
  split; [apply Hst1|]. rewrite Hrun2. do 4 f_equal. unfold with_role, fresh_raft in *.
  cbn in Hreg1, Hself1, Hpeers1. by rewrite Hreg1, Hself1, Hpeers1.
Qed.

Lemma put_command_ok k v : k ≠ "" → user_key k → command_ok (EncodePutCommand k v).
Proof.
  intros Hk Hu. exists [mkMutation kPut k v]. split; [|by repeat constructor].
  etrans; [by apply (apply_put_command (S := EngineW)) | reflexivity].
Qed.

Lemma put_entry_valid r i t ty k v :
  (r < two64)%N → (i < two64)%N → (t < two64)%N → k ≠ "" → user_key k →
  entry_valid (mkEntry r i t ty (EncodePutCommand k v)).
Proof. intros. split; [done | by apply put_command_ok]. Qed.

Definition test_region : RegionInfo :=
  mkRegion 5 "" "" (mkEpoch 1 1) [mkPeer 11 1 kVoter; mkPeer 12 2 kVoter; mkPeer 13 3 kVoter] 11.
Definition test_store (i : N) : StoreInfo :=
  mkStore i (mkEndpoint "10.0.0.1" 0) (mkEndpoint "10.0.0.1" (8100 + Z.of_N i)) "Up" ∅ 0.
Definition test_stores : list StoreInfo := [test_store 1; test_store 2; test_store 3].

(** A vote in term 1, two entries of its leader with the first one committed. *)
Definition test_messages : list raft_message :=
  [VoteMessage (mkVoteRequest 5 1 11 0 0);
   AppendMessage (mkAppendRequest 5 1 11 0 0
     [mkEntry 5 1 1 kNormal (EncodePutCommand "k" "1");
      mkEntry 5 2 1 kNormal (EncodePutCommand "k" "2")] 1)].

Lemma answers_survive_restart_witness :
  ∃ d1 n1 raft d2,
    (_ ← Bootstrap "data" (test_store 2) test_stores test_region; serve_messages test_messages)
      (mkDisk ∅ [], new_node) = (Ok tt, (d1, n1)) ∧ dn_raft n1 = Some raft ∧
    Bootstrap "data" (test_store 2) test_stores test_region (d1, new_node) =
      (Ok tt, (d2, booted (test_store 2) test_stores test_region (mkPeer 12 2 kVoter)
         (dn_engine n1) (with_role kFollower raft))).
Proof.
  apply (answers_survive_restart "data" (test_store 2) test_stores test_region
    (mkPeer 12 2 kVoter) (mkDisk ∅ []) test_messages).
  - reflexivity.
  - reflexivity.
  - reflexivity.
  - discriminate.
  - constructor; [split; [reflexivity | split; [discriminate | reflexivity]]|].
    constructor; [|constructor]. split; [|split; [|split; reflexivity]].
    + intros [|[|i]] e [= <-]; split; reflexivity.
    + constructor; [|constructor; [|constructor]];
        apply put_entry_valid; (reflexivity || discriminate).
Defined.
