(* ===== verification/Replication.v ===== *)
(** What a leader may conclude from the answers of the other stores. The stores
    are known by a contract, a class: what they keep and what they store when
    they answer yes. Against it, an acknowledged write is held by a majority. *)

From S2P Require Import Prelude Types Text Codec Service Engine Raft RaftStorage Keyspace RaftWire.
From S2P Require Import Distributed DistributedSpec NodeRestart.

(** * The contract of the other stores *)

(** [replica_has net endpoint region e]: the store at the endpoint has, in its
    log of the region, an entry of [e]'s index and term. A store that accepts a
    request has its entries and the entry before them; entries a request carries
    or lies behind are never lost by it. *)
Class ReplicaContract (Net : Type) `{!Transport Net} := {
  replicas_ok : Net → Prop;
  replica_has : Net → Endpoint → N → LogEntry → Prop;
  contract_append : ∀ net endpoint rq r response net',
    replicas_ok net → rq_method rq = "store.RaftAppendEntries" →
    rq_payload rq = EncodeFields (PutAppendEntriesFields ∅ r) →
    append_request_ok r → append_ok (ae_region_id r) r →
    tcp_call endpoint rq net = (response, net') →
    replicas_ok net' ∧
    (∀ ep g e, replica_has net ep g e →
       (e ∈ ae_entries r ∨ e_index e <= ae_prev_log_index r)%N → replica_has net' ep g e) ∧
    (∀ fields answer, rs_ok response = true → DecodeFields (rs_payload response) = Ok fields →
       GetAppendEntriesResponseFields fields = Ok answer → ae_success answer = true →
       ∀ e, e ∈ ae_entries r ∨ (e_index e ≠ 0%N ∧ e_index e = ae_prev_log_index r ∧
                                e_term e = ae_prev_log_term r) →
            replica_has net' endpoint (ae_region_id r) e);
  contract_vote : ∀ net endpoint rq r response net',
    replicas_ok net → rq_method rq = "store.RaftRequestVote" →
    rq_payload rq = EncodeFields (PutRequestVoteFields ∅ r) →
    vote_request_ok r → vote_ok r → tcp_call endpoint rq net = (response, net') →
    replicas_ok net' ∧ (∀ ep g e, replica_has net ep g e → replica_has net' ep g e);
}.

(** * The leading replica *)

(** A replica in good order that knows who it is. *)
Record replica_node (dir : string) (w : LocalW) (raft : RaftNode) : Prop := {
  rn_good : node_good dir w raft;
  rn_self : self_id_ raft = peer_id (dn_local_peer w.2);
  rn_peer : peer_id (dn_local_peer w.2) ≠ 0%N ∧ (peer_id (dn_local_peer w.2) < two64)%N;
  rn_region : (region_id (dn_region w.2) < two64)%N;
}.

Lemma replica_node_calls dir d n raft i :
  replica_node dir (d, n) raft → replica_node dir (d, with_request_id i n) raft.
Proof. intros [[] ? ? ?]. by split. Qed.

Lemma with_request_id_twice i j n : with_request_id i (with_request_id j n) = with_request_id i n.
Proof. done. Qed.

Lemma with_request_id_same n : with_request_id (dn_next_request_id n) n = n.
Proof. by destruct n. Qed.

(** ** The requests it builds *)

Lemma filter_from r b next (log : list LogEntry) :
  log_from r b log →
  filter (λ e, next ≤ e_index e)%N log = drop (N.to_nat (next - 1 - b)) log.
Proof.
  revert b. induction log as [|e log IH]; intros b Hl; [by rewrite drop_nil|].
  apply log_from_cons in Hl as (_ & Hi & Hl). rewrite filter_cons. case_decide as Hle.
  - replace (N.to_nat (next - 1 - b)) with 0 by lia. rewrite (IH _ Hl).
    by replace (N.to_nat (next - 1 - (b + 1))) with 0 by lia.
  - rewrite (IH _ Hl).
    by replace (N.to_nat (next - 1 - b)) with (S (N.to_nat (next - 1 - (b + 1)))) by lia.
Qed.

Lemma append_request_shape dir d n raft next commit r :
  replica_node dir (d, n) raft → (commit < two64)%N →
  append_request n raft next commit = Ok r →
  append_request_ok r ∧ append_ok (ae_region_id r) r ∧ ae_region_id r = region_id (dn_region n) ∧
  (∀ e, e ∈ log_ raft → (e ∈ ae_entries r ∨ e_index e <= ae_prev_log_index r)%N) ∧
  (∀ e, last (log_ raft) = Some e → e ∈ ae_entries r ∨
     (e_index e ≠ 0%N ∧ e_index e = ae_prev_log_index r ∧ e_term e = ae_prev_log_term r)).
Proof.
  intros [[_ _ _ Hreg [Hlog Hc Ha] _ Hes (Ht & _ & _ & Hlen)] _ [_ Hpeer] Hrid] Hcommit Hreq.
  cbn [fst snd] in *. unfold append_request in Hreq.
  remember (if (next =? 0)%N then 0%N else (next - 1)%N) as prev eqn:Hprev.
  assert (prev = next - 1)%N as -> by (subst prev; destruct (N.eqb_spec next 0); lia). clear Hprev.
  remember (next - 1)%N as prev eqn:Hprev. cbv zeta in Hreq.
  remember (if (prev =? 0)%N then Ok 0%N else _) as pt eqn:Hpt.
  destruct pt as [prev_term|?|?]; [|done..].
  cbn [mbind result_bind] in Hreq. injection Hreq as <-.
  rewrite Hreg in Hlog. rewrite (filter_from _ 0) by exact Hlog. rewrite N.sub_0_r, <-Hprev.
  assert ((prev = 0 ∧ prev_term = 0)%N ∨ (prev ≠ 0%N ∧ ∃ x, log_ raft !! N.to_nat (prev - 1) = Some x
    ∧ e_term x = prev_term ∧ e_index x = prev)) as Hcase.
  { destruct (N.eqb_spec prev 0) as [-> | Hne]; [by injection Hpt as ->; left|].
    right. split; [done|]. destruct (log_ raft !! _) as [x|] eqn:Hx; [|done].
    injection Hpt as ->. exists x. split_and!; [done..|]. apply Hlog in Hx as [_ ->]. lia. }
  assert ((prev_term < two64)%N ∧ (prev <= N.of_nat (length (log_ raft)))%N) as [Hptlt Hple].
  { destruct Hcase as [[-> ->] | (Hne & x & Hx & <- & _)]; [split; [done | lia]|].
    apply lookup_lt_Some in Hx as Hxl. rewrite list.Forall_lookup in Hes.
    destruct (Hes _ _ Hx) as [(_&_&?&_) _]. split; [done | lia]. }
  assert (Forall entry_valid (drop (N.to_nat prev) (log_ raft))) as Hval by by apply list.Forall_drop.
  split; [|split; [|split; [done|split]]].
  - split_and!; cbn; try done; [lia | rewrite length_drop; lia |].
    eapply list.Forall_impl; [exact Hval|]. by intros x [(?&?&?&_) _].
  - split_and!; cbn; try done; [|rewrite length_drop; lia].
    unfold request_ok. cbn.
    pose proof (log_from_drop (region_id (dn_region n)) 0 (N.to_nat prev) (log_ raft) Hlog) as Hd.
    by replace (0 + N.of_nat (N.to_nat prev))%N with prev in Hd by lia.
  - cbn. intros e (i & Hi)%list_elem_of_lookup. destruct (decide (i < N.to_nat prev)) as [Hlt | Hge].
    + right. apply Hlog in Hi as [_ ->]. lia.
    + left. apply (list_elem_of_lookup_2 _ (i - N.to_nat prev)). rewrite lookup_drop.
      by replace (N.to_nat prev + (i - N.to_nat prev)) with i by lia.
  - cbn. intros e He. rewrite last_lookup in He. apply lookup_lt_Some in He as Hlt.
    destruct (decide (N.to_nat prev = length (log_ raft))) as [Heq | Hne].
    + right. destruct Hcase as [[-> ->] | (Hnz & x & Hx & Htx & Hix)]; [simpl in Heq; lia|].
      replace (N.to_nat (prev - 1)) with (pred (length (log_ raft))) in Hx by lia.
      assert (x = e) as -> by congruence. by rewrite Hix.
    + left. apply (list_elem_of_lookup_2 _ (pred (length (log_ raft)) - N.to_nat prev)).
      rewrite lookup_drop.
      by replace (N.to_nat prev + (pred (length (log_ raft)) - N.to_nat prev))
        with (pred (length (log_ raft))) by lia.
Qed.

(** * What the leader's loops achieve *)

Section contract.
Context {Net : Type} `{!Transport Net} `{!ReplicaContract Net}.
Implicit Types (net : Net) (d : Disk) (n : DistributedRegionNode).

(** No entry of the leader's log is lost between two states of the network. *)
Definition retains (log : list LogEntry) net net' : Prop :=
  ∀ ep g e, e ∈ log → replica_has net ep g e → replica_has net' ep g e.

#[local] Instance retains_preorder log : PreOrder (retains log).
Proof.
  split; [intros net ep g e _ Ha; exact Ha|].
  intros a b c H1 H2 ep g e He Ha. exact (H2 _ _ _ He (H1 _ _ _ He Ha)).
Qed.

(** A call changes the network and the request counter. *)
Lemma CallStore_run store method fields net d n :
  ∃ response net', CallStore store method fields (net, (d, n)) =
      (Ok response, (net', (d, with_request_id (u64 (dn_next_request_id n + 1)) n))) ∧
    ∃ rq, rq_method rq = method ∧ rq_payload rq = EncodeFields fields ∧
      tcp_call (client_endpoint store) rq net = (response, net').
Proof.
  unfold CallStore. set (rq := mkRequest _ _ _ _ _ _ _).
  destruct (tcp_call (client_endpoint store) rq net) as [response net'] eqn:Hcall.
  exists response, net'. split; [done|]. by exists rq.
Qed.

Lemma local_node_bind {A} (f : DistributedRegionNode → IO (Net * LocalW) A) net d n :
  (local the_node ≫= f) (net, (d, n)) = f n (net, (d, n)).
Proof. done. Qed.

Lemma local_raft_bind {A} (f : RaftNode → IO (Net * LocalW) A) net d n raft :
  dn_raft n = Some raft → (local the_raft ≫= f) (net, (d, n)) = f raft (net, (d, n)).
Proof.
  intros Hr. erewrite bind_ok; [reflexivity|]. apply local_run.
  unfold the_raft, on_raft. rewrite Hr. cbn. do 2 f_equal. rewrite <-Hr. by destruct n.
Qed.

(** The part of a run that concerns the outside world. *)
Definition only_calls n (w' : Net * LocalW) d : Prop := ∃ i, w'.2 = (d, with_request_id i n).

Lemma replicate_contract dir store commit attempts : ∀ next net d n raft,
  replica_node dir (d, n) raft → replicas_ok net → (commit < two64)%N →
  let '(r, w') := replicate attempts store next commit (net, (d, n)) in
  only_calls n w' d ∧ replicas_ok w'.1 ∧ retains (log_ raft) net w'.1 ∧
  (r = Ok true → ∀ e, last (log_ raft) = Some e →
     replica_has w'.1 (client_endpoint store) (region_id (dn_region n)) e).
Proof.
  induction attempts as [|k IH]; intros next net d n raft Hn Hnet Hc.
  { split_and!; [exists (dn_next_request_id n); by rewrite with_request_id_same | done | reflexivity | done]. }
  cbn [replicate]. pose proof (ng_raft _ _ _ (rn_good _ _ _ Hn)) as Hr. cbn [snd] in Hr.
  rewrite local_node_bind, (local_raft_bind _ _ _ _ raft) by done.
  unfold mbind at 1, M_bind at 1, lift.
  destruct (append_request n raft next commit) as [r|st|f] eqn:Hreq;
    [|split_and!; [exists (dn_next_request_id n); by rewrite with_request_id_same | done | reflexivity | done]..].
  destruct (append_request_shape dir d n raft next commit r Hn Hc Hreq)
    as (Hrok & Haok & Hrid & Hcover & Hlast).
  unfold mbind at 1, M_bind at 1.
  destruct (CallStore_run store "store.RaftAppendEntries" (PutAppendEntriesFields ∅ r) net d n)
    as (response & net1 & -> & rq & Hm & Hp & Hcall).
  destruct (contract_append net _ rq r response net1 Hnet Hm Hp Hrok Haok Hcall)
    as (Hnet1 & Hkeep & Hstored).
  assert (retains (log_ raft) net net1) as Hret.
  { intros ep g e He Hhas. apply Hkeep; [done | by apply Hcover]. }
  set (n1 := with_request_id _ n).
  assert (∀ (r : res bool), r ≠ Ok true →
    only_calls n (net1, (d, n1)) d ∧ replicas_ok net1 ∧ retains (log_ raft) net net1 ∧
    (r = Ok true → ∀ e, last (log_ raft) = Some e →
       replica_has net1 (client_endpoint store) (region_id (dn_region n)) e)) as Hstop.
  { intros q Hq. split_and!; [by eexists | done | done | done]. }
  destruct (rs_ok response) eqn:Hok; cbn [negb]; [|by apply Hstop].
  unfold mbind at 1, M_bind at 1.
  destruct (DecodeFields (rs_payload response)) as [fields|st|f] eqn:Hf; [|by apply Hstop..].
  unfold mbind at 1, M_bind at 1.
  destruct (GetAppendEntriesResponseFields fields) as [answer|st|f] eqn:Ha; [|by apply Hstop..].
  destruct (ae_success answer) eqn:Hs.
  - split_and!; [by eexists | done | done |]. intros _ e He. rewrite <-Hrid.
    eapply Hstored; [done..|]. by apply Hlast.
  - specialize (IH (if (ae_match_index answer =? 0)%N then 1%N else ae_match_index answer)
      net1 d n1 raft).
    destruct (replicate k store _ commit (net1, (d, n1))) as [q w'].
    destruct IH as (Hcalls & Hok' & Hret' & Hdone); [by apply replica_node_calls | done | done |].
    destruct Hcalls as [i Hi]. split_and!; [exists i; by rewrite Hi | done | by etrans | done].
Qed.

Lemma ReplicateToStore_contract dir store next commit net d n raft :
  replica_node dir (d, n) raft → replicas_ok net → (commit < two64)%N →
  let '(r, w') := ReplicateToStore store next commit (net, (d, n)) in
  only_calls n w' d ∧ replicas_ok w'.1 ∧ retains (log_ raft) net w'.1 ∧
  (r = Ok true → ∀ e, last (log_ raft) = Some e →
     replica_has w'.1 (client_endpoint store) (region_id (dn_region n)) e).
Proof.
  intros Hn Hnet Hc. unfold ReplicateToStore. rewrite local_node_bind.
  rewrite (ng_raft _ _ _ (rn_good _ _ _ Hn) : dn_raft n = Some raft).
  by apply (replicate_contract dir).
Qed.

(** The store of a peer other than the leader has the entry. *)
Definition holder net n (e : LogEntry) (p : Peer) : Prop :=
  peer_id p ≠ peer_id (dn_local_peer n) ∧
  ∃ s, FindStoreByPeer (peer_id p) n = Some s ∧
    replica_has net (client_endpoint s) (region_id (dn_region n)) e.

Lemma holder_retains log net net' n e p :
  retains log net net' → e ∈ log → holder net n e p → holder net' n e p.
Proof. intros Hret He (Hne & s & Hs & Hh). split; [done|]. exists s. split; [done|]. by apply Hret. Qed.

Lemma replicate_all_contract dir ps index : ∀ k net d n raft e,
  replica_node dir (d, n) raft → replicas_ok net → last (log_ raft) = Some e →
  let '(r, w') := replicate_all ps index k (net, (d, n)) in
  only_calls n w' d ∧ replicas_ok w'.1 ∧ retains (log_ raft) net w'.1 ∧
  (∀ k', r = Ok k' → ∃ qs, qs `sublist_of` ps ∧ k' = k + length qs ∧ Forall (holder w'.1 n e) qs).
Proof.
  induction ps as [|p ps IH]; intros k net d n raft e Hn Hnet He.
  { cbn [replicate_all]. split_and!; [exists (dn_next_request_id n); by rewrite with_request_id_same
      | done | reflexivity |]. intros k' [= <-]. exists []. split; [done|]. split; [cbn; lia | done]. }
  assert (∀ k, let '(r, w') := replicate_all ps index k (net, (d, n)) in
    only_calls n w' d ∧ replicas_ok w'.1 ∧ retains (log_ raft) net w'.1 ∧
    (∀ k', r = Ok k' → ∃ qs, qs `sublist_of` p :: ps ∧ k' = k + length qs ∧
       Forall (holder w'.1 n e) qs)) as Hskip.
  { intros k0. specialize (IH k0 net d n raft e Hn Hnet He).
    destruct (replicate_all ps index k0 _) as [r w']. destruct IH as (?&?&?&Hq).
    split_and!; [done..|]. intros k' Hk'. destruct (Hq k' Hk') as (qs & Hsub & ?&?).
    exists qs. split; [by apply sublist_cons | done]. }
  cbn [replicate_all]. rewrite local_node_bind. case_decide as Hlocal; [apply Hskip|].
  destruct (FindStoreByPeer (peer_id p) n) as [s|] eqn:Hs; [|apply Hskip].
  pose proof (ng_raft _ _ _ (rn_good _ _ _ Hn)) as Hr. cbn [snd] in Hr.
  rewrite (local_raft_bind _ _ _ _ raft) by done.
  assert (commit_index_ raft < two64)%N as Hc.
  { destruct (rn_good _ _ _ Hn) as [_ _ _ _ [_ Hc _] _ _ (_&_&_&?)]. lia. }
  pose proof (ReplicateToStore_contract dir s index (commit_index_ raft) net d n raft Hn Hnet Hc) as Hrep.
  unfold mbind at 1, M_bind at 1.
  destruct (ReplicateToStore s index (commit_index_ raft) (net, (d, n))) as [r0 [net1 w1]].
  destruct Hrep as ([i Hi] & Hnet1 & Hret1 & Hdone). cbn [fst snd] in *. subst w1.
  destruct r0 as [b|st|f];
    [|split_and!; [by exists i | done | done | done]..].
  specialize (IH (if (b : bool) then S k else k) net1 d (with_request_id i n) raft e
    (replica_node_calls _ _ _ _ _ Hn) Hnet1 He).
  destruct (replicate_all ps index _ _) as [r w']. destruct IH as ([j Hj] & Hnet2 & Hret2 & Hq).
  split_and!; [by exists j | done | by etrans |].
  intros k' Hk'. destruct (Hq k' Hk') as (qs & Hsub & Hlen & Hqs).
  destruct b; [|exists qs; split; [by apply sublist_cons | done]].
  exists (p :: qs). split; [by apply sublist_skip|]. split; [cbn [length]; lia|].
  constructor; [|done]. apply (holder_retains (log_ raft) net1); [done|by apply last_Some_elem_of|].
  split; [done|]. exists s. split; [done|]. by apply Hdone.
Qed.

Lemma broadcast_contract dir ps commit : ∀ net d n raft,
  replica_node dir (d, n) raft → replicas_ok net → (commit < two64)%N →
  let '(r, w') := broadcast ps commit (net, (d, n)) in
  only_calls n w' d ∧ replicas_ok w'.1 ∧ retains (log_ raft) net w'.1.
Proof.
  induction ps as [|p ps IH]; intros net d n raft Hn Hnet Hc.
  { split_and!; [exists (dn_next_request_id n); by rewrite with_request_id_same | done | reflexivity]. }
  cbn [broadcast]. rewrite local_node_bind. case_decide; [by apply (IH net d n raft)|].
  destruct (FindStoreByPeer (peer_id p) n) as [s|]; [|by apply (IH net d n raft)].
  pose proof (ng_raft _ _ _ (rn_good _ _ _ Hn)) as Hr. cbn [snd] in Hr.
  rewrite (local_raft_bind _ _ _ _ raft) by done.
  set (next := u64 (last_log_index raft + 1)).
  pose proof (ReplicateToStore_contract dir s next commit net d n raft Hn Hnet Hc) as Hrep.
  unfold mbind at 1, M_bind at 1, ignore.
  destruct (ReplicateToStore s next commit (net, (d, n))) as [r0 [net1 w1]].
  destruct Hrep as ([i Hi] & Hnet1 & Hret1 & _). cbn [fst snd] in *. subst w1.
  assert (let '(r, w') := broadcast ps commit (net1, (d, with_request_id i n)) in
    only_calls n w' d ∧ replicas_ok w'.1 ∧ retains (log_ raft) net w'.1) as Hnext.
  { specialize (IH net1 d (with_request_id i n) raft (replica_node_calls _ _ _ _ _ Hn) Hnet1 Hc).
    destruct (broadcast ps commit _) as [r w']. destruct IH as ([j Hj] & ? & ?).
    split_and!; [by exists j | done | by etrans]. }
  destruct r0 as [b|st|f]; [exact Hnext | exact Hnext |].
  split_and!; [by exists i | done | done].
Qed.

Lemma request_votes_contract dir ps request : ∀ votes net d n raft,
  replica_node dir (d, n) raft → replicas_ok net → vote_request_ok request → vote_ok request →
  let '(r, w') := request_votes request ps votes (net, (d, n)) in
  only_calls n w' d ∧ replicas_ok w'.1 ∧ (∀ ep g e, replica_has net ep g e → replica_has w'.1 ep g e).
Proof.
  induction ps as [|p ps IH]; intros votes net d n raft Hn Hnet Hrq Hv.
  { split_and!; [exists (dn_next_request_id n); by rewrite with_request_id_same | done | done]. }
  cbn [request_votes]. rewrite local_node_bind. case_decide; [by apply (IH votes net d n raft)|].
  destruct (FindStoreByPeer (peer_id p) n) as [s|]; [|by apply (IH votes net d n raft)].
  unfold mbind at 1, M_bind at 1.
  destruct (CallStore_run s "store.RaftRequestVote" (PutRequestVoteFields ∅ request) net d n)
    as (response & net1 & -> & rq & Hm & Hp & Hcall).
  destruct (contract_vote net _ rq request response net1 Hnet Hm Hp Hrq Hv Hcall) as [Hnet1 Hkeep].
  assert (∀ v, let '(r, w') := request_votes request ps v
      (net1, (d, with_request_id (u64 (dn_next_request_id n + 1)) n)) in
    only_calls n w' d ∧ replicas_ok w'.1 ∧
    (∀ ep g e, replica_has net ep g e → replica_has w'.1 ep g e)) as Hnext.
  { intros v. specialize (IH v net1 d _ raft (replica_node_calls _ _ _ _
      (u64 (dn_next_request_id n + 1)) Hn) Hnet1 Hrq Hv).
    destruct (request_votes request ps v _) as [r w']. destruct IH as ([j Hj] & ? & ?).
    split_and!; [by exists j | done | by eauto]. }
  destruct (rs_ok response); cbn [negb]; [|apply Hnext].
  unfold mbind at 1, M_bind at 1, lift.
  destruct (DecodeFields (rs_payload response)) as [fields|st|f];
    [|split_and!; [by eexists | done | done]..].
  unfold mbind at 1, M_bind at 1.
  destruct (GetRequestVoteResponseFields fields) as [answer|st|f];
    [apply Hnext | split_and!; [by eexists | done | done]..].
Qed.

(** * Steps of a write at the leader *)

Lemma local_inv {A} (m : IO LocalW A) net w r net' w' :
  local m (net, w) = (r, (net', w')) → net' = net ∧ m w = (r, w').
Proof.
  unfold local, zoom. cbn [fst snd]. destruct (m w) as [q w1]. by intros [= -> -> ->].
Qed.

Lemma replica_node_raft dir d n raft raft' :
  replica_node dir (d, n) raft → region_id_ raft' = region_id_ raft → log_ raft' = log_ raft →
  self_id_ raft' = self_id_ raft → wf raft' → raft_fits raft' →
  replica_node dir (d, with_raft (Some raft') n) raft'.
Proof.
  intros [Hg Hs Hp Hr] Hid Hl Hself Hwf Hf.
  pose proof (node_good_raft dir d n raft raft' Hg Hid Hl Hwf Hf) as Hg'.
  split; [exact Hg' | cbn in *; congruence | done | done].
Qed.

Lemma replica_node_parts dir d n raft d' e' raft' :
  replica_node dir (d, n) raft → node_good dir (d', with_parts e' raft' n) raft' →
  self_id_ raft' = self_id_ raft → replica_node dir (d', with_parts e' raft' n) raft'.
Proof. intros [Hg Hs Hp Hr] Hg' Hself. split; [done | cbn in *; congruence | done | done]. Qed.

Lemma persist_replica dir d n raft :
  replica_node dir (d, n) raft →
  ∃ d' e', PersistHardState (d, n) = (Ok tt, (d', with_parts e' raft n)) ∧
    replica_node dir (d', with_parts e' raft n) raft ∧ node_stored dir (d', with_parts e' raft n) raft ∧
    user_part (data_ e') = user_part (data_ (dn_engine n)).
Proof.
  intros Hn. destruct (PersistHardState_run dir d n raft (rn_good _ _ _ Hn))
    as (d' & e' & Hrun & Hst & Hd'). exists d', e'. split_and!; [done| |done|].
  - apply (replica_node_parts _ d n raft); [done| |done]. apply Hst.
  - rewrite Hd'. by apply user_part_frame, hard_batch_not_user.
Qed.

Lemma on_raft_modify (f : RaftNode → RaftNode) d n raft :
  dn_raft n = Some raft →
  on_raft (modify f) (d, n) = (Ok tt, (d, with_raft (Some (f raft)) n)).
Proof. intros Hr. by eapply node_raft_run. Qed.

Lemma replica_raft dir d n raft : replica_node dir (d, n) raft → dn_raft n = Some raft.
Proof. intros Hn. exact (ng_raft _ _ _ (rn_good _ _ _ Hn)). Qed.

(** Change the Raft node, then save the hard state: [BecomeCandidate] and
    [BecomeLeader] in [EnsureLeader]. *)
Lemma replica_role dir f d n raft :
  replica_node dir (d, n) raft → region_id_ (f raft) = region_id_ raft →
  log_ (f raft) = log_ raft → self_id_ (f raft) = self_id_ raft → wf (f raft) →
  raft_fits (f raft) →
  ∃ d' e', on_raft (modify f) (d, n) = (Ok tt, (d, with_raft (Some (f raft)) n)) ∧
    PersistHardState (d, with_raft (Some (f raft)) n) =
      (Ok tt, (d', with_parts e' (f raft) n)) ∧
    replica_node dir (d', with_parts e' (f raft) n) (f raft) ∧
    user_part (data_ e') = user_part (data_ (dn_engine n)).
Proof.
  intros Hn Hid Hl Hself Hwf Hf.
  pose proof (replica_node_raft dir d n raft (f raft) Hn Hid Hl Hself Hwf Hf) as Hn'.
  destruct (persist_replica _ _ _ _ Hn') as (d' & e' & Hrun & Hn2 & _ & Hu).
  rewrite with_parts_raft in Hrun, Hn2. exists d', e'. split_and!; [|done..].
  apply on_raft_modify. by eapply replica_raft.
Qed.

Lemma EnsureLeader_contract dir net d n raft net' w' :
  replica_node dir (d, n) raft → replicas_ok net →
  EnsureLeader (net, (d, n)) = (Ok tt, (net', w')) →
  ∃ raft', replica_node dir w' raft' ∧ role_ raft' = kLeader ∧ log_ raft' = log_ raft ∧
    same_identity n w'.2 ∧ replicas_ok net'.
Proof.
  intros Hn Hnet Hrun. pose proof (replica_raft _ _ _ _ Hn) as Hr.
  pose proof (rn_good _ _ _ Hn) as [_ _ _ Hreg Hwf _ _ Hf].
  pose proof (rn_self _ _ _ Hn) as Hself. pose proof (rn_peer _ _ _ Hn) as [Hp0 Hplt].
  pose proof (rn_region _ _ _ Hn) as Hrlt. cbn [fst snd] in *.
  unfold EnsureLeader in Hrun. rewrite local_node_bind, Hr in Hrun.
  destruct (decide (role_ raft = kLeader)) as [Hrole | _].
  { injection Hrun as <- <-. exists raft. done. }
  destruct (negb _); [done|].
  destruct (replica_role dir BecomeCandidate d n raft Hn) as (d1 & e1 & Hc1 & Hs1 & Hn1 & _); try done.
  { by apply (wf_same_log raft). }
  { destruct Hf as (?&?&?&?). split_and!; cbn; try done; [apply N.mod_lt; done | congruence | congruence]. }
  apply bind_Ok_inv in Hrun as ([] & [net1 w1] & Hb1 & Hrun).
  apply local_inv in Hb1 as [-> Hb1]. rewrite Hc1 in Hb1. injection Hb1 as <-.
  apply bind_Ok_inv in Hrun as ([] & [net2 w2] & Hb2 & Hrun).
  apply local_inv in Hb2 as [-> Hb2]. rewrite Hs1 in Hb2. injection Hb2 as <-.
  set (raft1 := BecomeCandidate raft) in *.
  rewrite (local_raft_bind _ _ _ _ raft1) in Hrun by by eapply replica_raft.
  set (request := mkVoteRequest _ _ _ _ _) in Hrun.
  assert (vote_request_ok request ∧ vote_ok request) as [Hrq Hv].
  { destruct (rn_good _ _ _ Hn1) as [_ _ _ _ Hwf1 _ Hes1 (Ht1 & _ & _ & Hlen1)].
    unfold request. split; [|done]. split_and!; cbn [rv_region_id rv_term rv_candidate_id
      rv_last_log_index rv_last_log_term]; try done.
    - rewrite wf_last_index by done. lia.
    - unfold last_log_term. destruct (last (log_ raft1)) as [x|] eqn:Hx; [|done].
      apply last_Some_elem_of in Hx. rewrite list.Forall_forall in Hes1.
      by destruct (Hes1 x Hx) as [(_&_&?&_) _]. }
  apply bind_Ok_inv in Hrun as (votes & [net3 w3] & Hb3 & Hrun).
  pose proof (request_votes_contract dir (peers (dn_region n)) request 1 net d1
    (with_parts e1 raft1 n) raft1 Hn1 Hnet Hrq Hv) as Hvotes.
  rewrite Hb3 in Hvotes. destruct Hvotes as ([i Hi] & Hnet3 & _). cbn [fst snd] in *. subst w3.
  case_decide; [done|].
  pose proof (replica_node_calls _ _ _ _ i Hn1) as Hn2.
  destruct (replica_role dir BecomeLeader d1 (with_request_id i (with_parts e1 raft1 n)) raft1 Hn2)
    as (d2 & e2 & Hc2 & Hs2 & Hn3 & _); try done.
  { by apply (wf_same_log raft1), (ng_wf _ _ _ (rn_good _ _ _ Hn1)). }
  { exact (ng_fits _ _ _ (rn_good _ _ _ Hn1)). }
  apply bind_Ok_inv in Hrun as ([] & [net4 w4] & Hb4 & Hrun).
  apply local_inv in Hb4 as [-> Hb4]. rewrite Hc2 in Hb4. injection Hb4 as <-.
  apply local_inv in Hrun as [-> Hrun]. rewrite Hs2 in Hrun. injection Hrun as <-.
  exists (BecomeLeader raft1). done.
Qed.

Lemma push_entry_fits x raft :
  (N.of_nat (length (log_ raft)) + 1 < two64)%N → raft_fits raft → raft_fits (push_entry x raft).
Proof.
  intros Hlen (?&?&?&?). split_and!; cbn; try done. rewrite length_app. cbn [length]. lia.
Qed.

(** The entry a leader proposes next. *)
Definition proposed (raft : RaftNode) (command : string) : LogEntry :=
  mkEntry (region_id_ raft) (N.of_nat (length (log_ raft)) + 1) (current_term_ raft) kNormal command.

(** [Propose] and [AppendLog]: memory and disk hold the new entry. *)
Lemma propose_replica dir d n raft command :
  replica_node dir (d, n) raft → role_ raft = kLeader →
  (N.of_nat (length (log_ raft)) + 1 < two64)%N → command_ok command → command ≠ "" →
  let e := proposed raft command in
  on_raft (Propose kNormal command) (d, n) =
    (Ok e, (d, with_raft (Some (push_entry e raft)) n)) ∧
  ∃ d' e', append_to_storage e (d, with_raft (Some (push_entry e raft)) n) =
      (Ok tt, (d', with_parts e' (push_entry e raft) n)) ∧
    replica_node dir (d', with_parts e' (push_entry e raft) n) (push_entry e raft) ∧
    user_part (data_ e') = user_part (data_ (dn_engine n)).
Proof.
  intros Hn Hrole Hlen Hcmd Hne e.
  pose proof (rn_good _ _ _ Hn) as [He Hs Hr Hreg Hwf Hlog Hes Hf]. cbn [fst snd] in *.
  assert (Propose kNormal command raft = (Ok e, push_entry e raft)) as Hprop.
  { unfold Propose. run. rewrite Hrole. cbn [negb]. rewrite bool_decide_eq_true_2 by done.
    cbn [negb]. run. by rewrite wf_last_index, u64_small by done. }
  split; [by eapply node_raft_run|].
  pose proof (wf_propose kNormal command raft Hwf Hlen) as Hwf'. rewrite Hprop in Hwf'.
  assert (entry_valid e) as Hval.
  { split; [|done]. destruct Hf as (?&_&_&_). pose proof (rn_region _ _ _ Hn) as Hrid. cbn in Hrid.
    split_and!; cbn; [congruence | done | done | done]. }
  assert (log_ok (region_id_ raft) (log_ raft ++ [e])) as Hok.
  { apply log_ok_app. split; [by apply valid_log_ok|]. split_and!; [done | done | apply Hval]. }
  destruct (write_good dir [mkMutation kPut (RaftLogKey (e_region_id e) (e_index e))
    (SerializeLogEntry e)] d (dn_engine n) He) as (d' & e' & Hrun & He' & Hd'); [by repeat constructor|].
  exists d', e'. split; [|split].
  - unfold append_to_storage, the_node. run. cbn [snd with_raft dn_storage]. rewrite Hs.
    rewrite (node_engine_run _ d _ (Ok tt) d' e') by (rewrite AppendLog_batch; exact Hrun). done.
  - apply (replica_node_parts _ d n raft); [done| |done].
    split; cbn [fst snd with_parts with_engine with_raft dn_engine dn_storage dn_raft dn_region];
      try done.
    + rewrite Hd'. cbn. by apply log_stored_put.
    + cbn [push_entry log_ with_log]. apply list.Forall_app. split; [done | by apply list.Forall_singleton].
    + by apply push_entry_fits.
  - rewrite Hd'. apply user_part_frame, list.Forall_singleton. split; [done | apply log_key_not_user].
Qed.

(** Committing the last entry: memory, contents and disk follow. *)
Lemma commit_replica dir d n raft e :
  replica_node dir (d, n) raft → last (log_ raft) = Some e →
  let raft' := applied (SetCommitIndex (e_index e) raft) in
  ∃ d1 n1 d2 e2,
    on_raft (modify (SetCommitIndex (e_index e))) (d, n) =
      (Ok tt, (d, with_raft (Some (SetCommitIndex (e_index e) raft)) n)) ∧
    ApplyCommitted (d, with_raft (Some (SetCommitIndex (e_index e) raft)) n) = (Ok tt, (d1, n1)) ∧
    PersistHardState (d1, n1) = (Ok tt, (d2, with_parts e2 raft' n)) ∧
    node_stored dir (d2, with_parts e2 raft' n) raft' ∧
    replica_node dir (d2, with_parts e2 raft' n) raft' ∧
    commit_index_ raft' = e_index e ∧ log_ raft' = log_ raft ∧
    ∃ d0 e0, apply_entries (pending (SetCommitIndex (e_index e) raft)) (d, dn_engine n) =
        (Ok tt, (d0, e0)) ∧ user_part (data_ e2) = user_part (data_ e0).
Proof.
  intros Hn He raft'. pose proof (rn_good _ _ _ Hn) as [_ _ Hr Hreg Hwf Hlog Hes Hf].
  cbn [fst snd] in *.
  assert (e_index e = last_log_index raft) as Hlast by (unfold last_log_index; by rewrite He).
  assert (e_index e = N.of_nat (length (log_ raft))) as Hlen by by rewrite Hlast, wf_last_index.
  set (raft1 := SetCommitIndex (e_index e) raft) in *.
  assert (commit_index_ raft1 = e_index e) as Hc1 by (cbn; rewrite Hlast; apply N.min_id).
  assert (wf raft1) as Hwf1.
  { destruct Hwf as [? ? ?]. split; [done| |]; rewrite Hc1; cbn; lia. }
  pose proof (replica_node_raft dir d n raft raft1 Hn eq_refl eq_refl eq_refl Hwf1 Hf) as Hn1.
  destruct (ApplyCommitted_run _ _ _ _ (rn_good _ _ _ Hn1)) as (d1 & e1 & Hrun1 & Hg1 & Happ).
  fold raft' in Hrun1, Hg1.
  assert (replica_node dir (d1, with_parts e1 raft' n) raft') as Hn2.
  { rewrite with_parts_raft in Hg1. by apply (replica_node_parts _ d n raft). }
  destruct (PersistHardState_run _ _ _ _ (rn_good _ _ _ Hn2)) as (d2 & e2 & Hrun2 & Hst & Hd2).
  exists d1, (with_parts e1 raft' n), d2, e2. rewrite with_parts_raft in Hrun1.
  split_and!; try done.
  - by apply on_raft_modify.
  - apply (replica_node_parts _ d n raft); [done | apply Hst | done].
  - exists d1, e1. split; [exact Happ|]. rewrite Hd2. by apply user_part_frame, hard_batch_not_user.
Qed.

Lemma holder_identity net n n' e p : same_identity n n' → holder net n' e p → holder net n e p.
Proof.
  intros (H1 & H2 & H3 & H4) (Hne & s & Hs & Hh). unfold holder, FindStoreByPeer in *.
  rewrite H1, H3, H4 in *. split; [done|]. by exists s.
Qed.
(** The end of a write: commit, apply, persist, announce. *)
Lemma commit_phase dir (net : Net) d n raft e net' w' :
  replica_node dir (d, n) raft → replicas_ok net → last (log_ raft) = Some e →
  (e_index e < two64)%N →
  (_ ← local (on_raft (modify (SetCommitIndex (e_index e))));
   _ ← local ApplyCommitted;
   _ ← local PersistHardState;
   BroadcastCommit (e_index e)) (net, (d, n)) = (Ok tt, (net', w')) →
  ∃ raft', node_stored dir w' raft' ∧ log_ raft' = log_ raft ∧
    commit_index_ raft' = e_index e ∧ last_applied_ raft' = e_index e ∧
    retains (log_ raft') net net'.
Proof.
  intros Hn Hnet Hlast Hix Hrun.
  destruct (commit_replica _ _ _ _ e Hn Hlast)
    as (d5 & n5 & d6 & e6 & Hset & Happly & Hpersist & Hst & Hn6 & Hcommit & Hlog & _).
  set (raft6 := applied _) in *.
  apply bind_Ok_inv in Hrun as ([] & [net5 w5] & H5 & Hrun).
  apply local_inv in H5 as [-> H5]. rewrite Hset in H5. apply pair_equal_spec in H5 as [_ <-].
  apply bind_Ok_inv in Hrun as ([] & [net6 w6] & H6 & Hrun).
  apply local_inv in H6 as [-> H6]. rewrite Happly in H6. apply pair_equal_spec in H6 as [_ <-].
  apply bind_Ok_inv in Hrun as ([] & [net7 w7] & H7 & Hrun).
  apply local_inv in H7 as [-> H7]. rewrite Hpersist in H7. apply pair_equal_spec in H7 as [_ <-].
  unfold BroadcastCommit in Hrun. rewrite local_node_bind in Hrun.
  pose proof (broadcast_contract dir (peers (dn_region (with_parts e6 raft6 n))) (e_index e)
    _ _ _ _ Hn6 Hnet Hix) as Hb.
  rewrite Hrun in Hb. destruct Hb as ([j Hj] & _ & Hret). cbn [fst snd] in *. subst w'.
  exists raft6. destruct Hst as [Hg Hhard]. split_and!; try done.
  split; [|done]. destruct Hg. by split.
Qed.

End contract.

(** C11: A write acknowledged is a write on a majority. Let a replica in good
    order (log, hard state and contents on disk agree with its Raft node, its
    disk works) drive a write, the other stores keeping the contract and nothing
    else calling them meanwhile. If the write returns success, then the log
    has grown by exactly one entry carrying the command, the entry is committed,
    applied, and on disk, and it is held, with its term, by the stores of enough
    other peers to make a majority together with the leader. *)
Theorem acknowledged_write_on_majority {Net} `{!Transport Net} `{!ReplicaContract Net}
    dir command (net : Net) d n raft net' w' :
  replica_node dir (d, n) raft → replicas_ok net →
  (N.of_nat (length (log_ raft)) + 1 < two64)%N → command_ok command → command ≠ "" →
  ProposeAndReplicate command (net, (d, n)) = (Ok tt, (net', w')) →
  ∃ raft' e qs,
    node_stored dir w' raft' ∧ log_ raft' = log_ raft ++ [e] ∧ e_command e = command ∧
    commit_index_ raft' = e_index e ∧ last_applied_ raft' = e_index e ∧
    qs `sublist_of` peers (dn_region n) ∧ length (peers (dn_region n)) < 2 * S (length qs) ∧
    Forall (holder net' n e) qs.
Proof.
  intros Hn Hnet Hlen Hcmd Hne Hrun. unfold ProposeAndReplicate in Hrun.
  apply bind_Ok_inv in Hrun as ([] & [net1 [d1 n1]] & H1 & Hrun).
  destruct (EnsureLeader_contract dir _ _ _ _ _ _ Hn Hnet H1)
    as (raft1 & Hn1 & Hrole & Hl1 & Hid1 & Hnet1). cbn [snd] in Hid1.
  rewrite <-Hl1 in Hlen |- *.
  destruct (propose_replica dir d1 n1 raft1 command Hn1 Hrole Hlen Hcmd Hne)
    as (Hprop & d2 & e2 & Hstore & Hn2 & _).
  set (e := proposed raft1 command) in *. set (raft2 := push_entry e raft1) in *.
  apply bind_Ok_inv in Hrun as (e' & [net2 w2] & H2 & Hrun).
  apply local_inv in H2 as [-> H2]. rewrite Hprop in H2. injection H2 as <- <-.
  apply bind_Ok_inv in Hrun as ([] & [net3 w3] & H3 & Hrun).
  apply local_inv in H3 as [-> H3]. rewrite Hstore in H3. injection H3 as <-.
  rewrite local_node_bind in Hrun.
  apply bind_Ok_inv in Hrun as (replicated & [net4 w4] & H4 & Hrun).
  assert (last (log_ raft2) = Some e) as Hlast by apply last_snoc.
  pose proof (replicate_all_contract dir (peers (dn_region (with_parts e2 raft2 n1))) (e_index e) 1
    net1 _ _ raft2 e Hn2 Hnet1 Hlast) as Hrep.
  rewrite H4 in Hrep. destruct Hrep as ([i Hi] & Hnet4 & _ & Hq). cbn [fst snd] in *. subst w4.
  destruct (Hq replicated eq_refl) as (qs & Hsub & -> & Hqs).
  case_decide as Hmaj; [done|].
  destruct (commit_phase dir net4 _ _ raft2 e net' w' (replica_node_calls _ _ _ _ i Hn2) Hnet4
    Hlast Hlen Hrun) as (raft6 & Hst & Hlog & Hcommit & Happlied & Hret).
  exists raft6, e, qs.
  assert (region_id (dn_region n1) = region_id (dn_region n) ∧ peers (dn_region n1) = peers (dn_region n))
    as [_ Hps] by (destruct Hid1 as (-> & _); done).
  split_and!; try done.
  - rewrite <-Hps. exact Hsub.
  - rewrite <-Hps.
    assert (¬ 1 + length qs ≤ length (peers (dn_region n1)) `div` 2) as Hm by exact Hmaj.
    pose proof (Nat.div_mod_eq (length (peers (dn_region n1))) 2).
    pose proof (Nat.mod_upper_bound (length (peers (dn_region n1))) 2). lia.
  - eapply list.Forall_impl; [exact Hqs|]. intros p Hp.
    apply (holder_identity _ _ n1); [done|].
    eapply (holder_retains (log_ raft6) net4); [exact Hret | | exact Hp].
    rewrite Hlog. cbn. apply elem_of_app. right. apply list_elem_of_here.
Qed.
