(* ===== verification/ReplicaLife.v ===== *)
(** The life of a replica: messages of other stores, writes and leader transfers
    of clients, whatever the network answers, crashes between two requests and
    restarts. Throughout, Raft node, engine and disk agree, and the Raft node does
    nothing but the steps of Raft.v. *)

From S2P Require Import Prelude Types Text Codec Service Engine Raft RaftSafety RaftStorage Keyspace RaftWire.
From S2P Require Import Distributed DistributedSpec NodeRestart Replication.

(** * Any network *)

(** Nothing is promised by the other stores. *)
Definition any_network {Net} `{!Transport Net} : ReplicaContract Net.
Proof.
  refine {| replicas_ok _ := True; replica_has _ _ _ _ := True |}; intros.
  - split; [exact I | split; intros; exact I].
  - split; [exact I | intros; exact I].
Defined.

(** * The parts of a request *)

(** A replica in good order, and on disk. *)
Definition alive (dir : string) (w : LocalW) (raft : RaftNode) : Prop :=
  replica_node dir w raft ∧ node_kept dir w raft.

#[export] Instance same_identity_preorder : PreOrder same_identity.
Proof. split; [done|]. intros a b c (? & ? & ? & ?) (? & ? & ? & ?). split_and!; congruence. Qed.

(** The Raft node went on by steps of Raft, as the peer it is. *)
Definition goes_on (raft raft' : RaftNode) : Prop := rtc raft_step raft raft' ∧ same_peer raft raft'.

#[export] Instance goes_on_preorder : PreOrder goes_on.
Proof. split; [by split|]. intros a b c [? ?] [? ?]. split; by etrans. Qed.

Lemma acts_on raft a : permitted a raft → same_peer raft (perform a raft) → goes_on raft (perform a raft).
Proof. intros Ha Hs. split; [|exact Hs]. apply rtc_once. by exists a. Qed.

Lemma alive_calls dir d n raft i : alive dir (d, n) raft → alive dir (d, with_request_id i n) raft.
Proof.
  intros [Hn [Hg Hk]]. split; [by apply replica_node_calls|]. split; [|exact Hk].
  apply (rn_good _ _ _ (replica_node_calls _ _ _ _ i Hn)).
Qed.

Lemma stored_alive dir w raft : replica_node dir w raft → node_stored dir w raft → alive dir w raft.
Proof. intros Hn Hs. split; [exact Hn | by apply node_stored_kept]. Qed.

(** A leader has saved its hard state. *)
Lemma leader_stored dir w raft : node_kept dir w raft → role_ raft = kLeader → node_stored dir w raft.
Proof. intros [Hg [Hh | [_ [Hr _]]]] Hl; [by split | congruence]. Qed.

(** Saving makes memory and disk agree. *)
Lemma saved dir d n raft w' :
  replica_node dir (d, n) raft → PersistHardState (d, n) = (Ok tt, w') → alive dir w' raft.
Proof.
  intros Hn Hrun. destruct (persist_replica _ _ _ _ Hn) as (d' & e' & Hrun' & Hn' & Hst & _).
  rewrite Hrun in Hrun'. apply pair_equal_spec in Hrun' as [_ ->]. by apply stored_alive.
Qed.

(** ** Messages *)

Lemma serve_alive dir d n raft m :
  alive dir (d, n) raft → message_ok (region_id_ raft) m →
  ∃ d' n' raft', serve_message m (d, n) = (Ok tt, (d', n')) ∧ alive dir (d', n') raft' ∧
    goes_on raft raft' ∧ same_identity n n'.
Proof.
  intros [[Hg Hself Hp Hr] _] Hm.
  destruct (serve_message_good dir d n raft m Hg Hm)
    as (d' & n' & raft' & Hrun & Hst & Hreg & Hs & Hps & Hid).
  pose proof Hid as (Hr' & _ & Hp' & _). pose proof (ng_raft _ _ _ (proj1 Hst)) as Hraft'. cbn [snd] in *.
  exists d', n', raft'. split; [exact Hrun|]. split.
  { apply stored_alive; [|exact Hst]. split; [apply Hst | | |]; cbn [snd]; rewrite ?Hp', ?Hr'; congruence. }
  split; [|exact Hid]. split; [|done].
  destruct m as [r | r]; cbn [serve_message message_ok] in *.
  - destruct (HandleRequestVote_good dir d n raft r Hg Hm) as (d1 & e1 & Hrun1 & _).
    erewrite bind_ok in Hrun by exact Hrun1. injection Hrun as _ <-. injection Hraft' as <-.
    apply rtc_once. by exists (OnVoteRequest r).
  - destruct (HandleAppendEntries_good dir d n raft r Hg Hm) as (resp & raft1 & d1 & e1 & Hq & Hrun1 & _).
    erewrite bind_ok in Hrun by exact Hrun1. injection Hrun as _ <-. injection Hraft' as <-.
    assert (raft_step raft raft1) as Hstep by (exists (OnAppend r); split; [apply Hm | cbn; by rewrite Hq]).
    destruct (ae_success resp); [|by apply rtc_once].
    eapply rtc_l; [exact Hstep|]. apply rtc_once. exists OnApply. split; [done|]. cbn [perform].
    by rewrite TakeCommittedEntries_spec by by eapply raft_step_wf, Hg.
Qed.

(** ** Elections *)

Section network.
Context {Net : Type} `{!Transport Net}.
#[local] Existing Instance any_network.
Implicit Types (net : Net) (d : Disk) (n : DistributedRegionNode).

(** What a request leaves behind, however it ends. *)
Definition leaves (dir : string) n (raft : RaftNode) (w' : Net * LocalW) : Prop :=
  ∃ raft', alive dir w'.2 raft' ∧ goes_on raft raft' ∧ same_identity n w'.2.2.

Lemma leaves_same dir net d n raft : alive dir (d, n) raft → leaves dir n raft (net, (d, n)).
Proof. intros Hw. by exists raft. Qed.

(** Step into a new role and save it. *)
Lemma role_step dir a (f : RaftNode → RaftNode) d n raft :
  alive dir (d, n) raft → perform a raft = f raft → permitted a raft → same_peer raft (f raft) →
  log_ (f raft) = log_ raft → raft_fits (f raft) →
  ∃ d' n', on_raft (modify f) (d, n) = (Ok tt, (d, with_raft (Some (f raft)) n)) ∧
    PersistHardState (d, with_raft (Some (f raft)) n) = (Ok tt, (d', n')) ∧
    alive dir (d', n') (f raft) ∧ goes_on raft (f raft) ∧ same_identity n n'.
Proof.
  intros [Hn _] Ha Hok Hsame Hl Hf. pose proof Hsame as (Hid & Hself & _).
  assert (wf (f raft)) as Hwf.
  { rewrite <-Ha. eapply raft_step_wf; [by exists a | apply (ng_wf _ _ _ (rn_good _ _ _ Hn))]. }
  destruct (replica_role dir f d n raft Hn Hid Hl Hself Hwf Hf) as (d' & e' & Hrun & Hsave & Hn' & _).
  exists d', (with_parts e' (f raft) n). split; [exact Hrun|]. split; [exact Hsave|].
  split; [|split; [by rewrite <-Ha in Hsame |- *; apply acts_on | done]].
  apply (saved dir d (with_raft (Some (f raft)) n)); [|exact Hsave].
  by apply replica_node_raft with (raft := raft).
Qed.

Lemma candidate_request dir d n raft :
  replica_node dir (d, n) raft → current_term_ raft ≠ 0%N →
  let request := mkVoteRequest (region_id (dn_region n)) (current_term_ raft)
    (peer_id (dn_local_peer n)) (last_log_index raft) (last_log_term raft) in
  vote_request_ok request ∧ vote_ok request.
Proof.
  intros [[_ _ _ _ Hwf _ Hes (Ht & _ & _ & Hlen)] _ [Hp0 Hplt] Hr] _ request. cbn [snd] in *.
  split; [|by split_and!]. split_and!; cbn; [done | done | done | by rewrite wf_last_index|].
  unfold last_log_term. destruct (last (log_ raft)) as [x|] eqn:Hx; [|done].
  apply last_Some_elem_of in Hx. rewrite list.Forall_forall in Hes. by destruct (Hes x Hx) as [(_&_&?&_) _].
Qed.

Lemma EnsureLeader_life dir net d n raft :
  alive dir (d, n) raft → (current_term_ raft + 1 < two64)%N →
  let '(r, w') := EnsureLeader (net, (d, n)) in
  ∃ raft', alive dir w'.2 raft' ∧ goes_on raft raft' ∧ same_identity n w'.2.2 ∧
    log_ raft' = log_ raft ∧ (r = Ok tt → role_ raft' = kLeader).
Proof.
  intros Hw Hterm. pose proof (replica_raft _ _ _ _ (proj1 Hw)) as Hr.
  unfold EnsureLeader. rewrite local_node_bind, Hr.
  case_decide as Hrole; [by exists raft|]. destruct (negb _); [by exists raft|].
  pose proof (rn_peer _ _ _ (proj1 Hw)) as [Hp0 Hplt]. pose proof (rn_self _ _ _ (proj1 Hw)) as Hself.
  pose proof (ng_fits _ _ _ (rn_good _ _ _ (proj1 Hw))) as (Ht & Hv & _ & Hlen). cbn [snd] in *.
  destruct (role_step dir OnCandidate BecomeCandidate d n raft Hw eq_refl Hterm)
    as (d1 & n1 & Hc1 & Hs1 & Hw1 & Hgo1 & Hid1); [done | done | |].
  { split_and!; cbn; [by rewrite u64_small | congruence | congruence | done]. }
  set (raft1 := BecomeCandidate raft) in *.
  run_call ltac:(apply local_run; exact Hc1). run_call ltac:(apply local_run; exact Hs1).
  rewrite (local_raft_bind _ _ _ _ raft1) by by eapply replica_raft, Hw1.
  assert (current_term_ raft1 ≠ 0%N) as Hnz by (cbn; rewrite u64_small by done; lia).
  destruct (candidate_request dir d1 n1 raft1 (proj1 Hw1) Hnz) as [Hrq Hvok].
  pose proof Hid1 as (Hr1 & _ & Hp1 & _). rewrite Hr1, Hp1 in Hrq, Hvok.
  set (request := mkVoteRequest _ _ _ _ _) in *.
  pose proof (request_votes_contract dir (peers (dn_region n)) request 1 net d1 n1 raft1
    (proj1 Hw1) I Hrq Hvok) as Hvotes.
  unfold mbind at 1, M_bind at 1.
  destruct (request_votes _ _ _ _) as [q [net2 w2]]. destruct Hvotes as ([i Hi] & _ & _).
  cbn [snd] in Hi. subst w2. pose proof (alive_calls _ _ _ _ i Hw1) as Hw2.
  assert (same_identity n (with_request_id i n1)) as Hid2 by by etrans; [exact Hid1|].
  destruct q as [votes|st|f]; [|by exists raft1..]. case_decide; [by exists raft1|].
  destruct (role_step dir OnLeader BecomeLeader d1 (with_request_id i n1) raft1 Hw2 eq_refl I)
    as (d3 & n3 & Hc3 & Hs3 & Hw3 & Hgo3 & Hid3); [done | done | |].
  { exact (ng_fits _ _ _ (rn_good _ _ _ (proj1 Hw1))). }
  run_call ltac:(apply local_run; exact Hc3).
  rewrite (local_run PersistHardState net2 _ (Ok tt) (d3, n3)) by exact Hs3.
  exists (BecomeLeader raft1). split; [exact Hw3|]. split; [by etrans|]. split; [by etrans|]. done.
Qed.

(** ** Writes *)

Lemma hard_stored_log r data h k v :
  starts_with (log_prefix r) k = true → hard_stored r data h → hard_stored r (<[k := v]> data) h.
Proof.
  intros Hk (?&?&?&?). unfold hard_stored.
  assert (∀ name, k ≠ RaftMetaKey r name) as Hne by (intros name ->; by rewrite starts_with_meta in Hk).
  by rewrite !lookup_insert_ne by done.
Qed.

(** Propose and append to the log. *)
Lemma propose_alive dir d n raft command :
  alive dir (d, n) raft → role_ raft = kLeader →
  (N.of_nat (length (log_ raft)) + 1 < two64)%N → command_ok command → command ≠ "" →
  let e := proposed raft command in
  ∃ d' n', on_raft (Propose kNormal command) (d, n) =
      (Ok e, (d, with_raft (Some (push_entry e raft)) n)) ∧
    append_to_storage e (d, with_raft (Some (push_entry e raft)) n) = (Ok tt, (d', n')) ∧
    alive dir (d', n') (push_entry e raft) ∧ goes_on raft (push_entry e raft) ∧ same_identity n n'.
Proof.
  intros [Hn Hkept] Hrole Hlen Hcmd Hne e.
  pose proof (leader_stored _ _ _ Hkept Hrole) as [Hg Hhard].
  destruct (propose_replica dir d n raft command Hn Hrole Hlen Hcmd Hne)
    as (Hrun & d' & e' & Hstore & Hn' & _). fold e in Hrun, Hstore, Hn'.
  exists d', (with_parts e' (push_entry e raft) n). split; [exact Hrun|]. split; [exact Hstore|].
  split; [|split; [|done]].
  - apply stored_alive; [exact Hn'|]. split; [apply Hn'|].
    cbn [snd with_parts with_engine with_raft dn_engine].
    assert (data_ e' = <[RaftLogKey (e_region_id e) (e_index e) := SerializeLogEntry e]>
      (data_ (dn_engine n))) as ->.
    { pose proof (rn_good _ _ _ Hn) as [(Hd & _) Hs _ _ _ _ _ _]. cbn [fst snd] in *.
      unfold append_to_storage, the_node in Hstore. revert Hstore. run. cbn [snd with_raft dn_storage].
      rewrite Hs. erewrite node_engine_run by (rewrite AppendLog_batch; by apply WriteBatch_ok).
      intros Hst. apply pair_equal_spec in Hst as [_ Hst]. apply pair_equal_spec in Hst as [_ Hst].
      by apply (f_equal (λ m, data_ (dn_engine m))) in Hst. }
    apply hard_stored_log; [|exact Hhard]. unfold RaftLogKey. apply starts_with_app.
  - assert (perform (OnPropose kNormal command) raft = push_entry e raft) as Hact.
    { pose proof (replica_raft _ _ _ _ Hn) as Hr. cbn [perform].
      unfold on_raft in Hrun. rewrite Hr in Hrun.
      destruct (Propose kNormal command raft) as [q raft1]. by injection Hrun as -> ->. }
    rewrite <-Hact. apply acts_on; [exact Hlen | by rewrite Hact].
Qed.

Lemma applied_goes_on raft : wf raft → goes_on raft (applied raft).
Proof.
  intros Hwf. assert (perform OnApply raft = applied raft) as <-
    by (cbn [perform]; by rewrite TakeCommittedEntries_spec).
  apply acts_on; [done|]. cbn [perform]. by rewrite TakeCommittedEntries_spec.
Qed.

(** Commit the last entry, apply and save. *)
Lemma commit_alive dir d n raft e :
  alive dir (d, n) raft → last (log_ raft) = Some e →
  let raft' := applied (SetCommitIndex (e_index e) raft) in
  ∃ d1 n1 d2 n2,
    on_raft (modify (SetCommitIndex (e_index e))) (d, n) =
      (Ok tt, (d, with_raft (Some (SetCommitIndex (e_index e) raft)) n)) ∧
    ApplyCommitted (d, with_raft (Some (SetCommitIndex (e_index e) raft)) n) = (Ok tt, (d1, n1)) ∧
    PersistHardState (d1, n1) = (Ok tt, (d2, n2)) ∧
    alive dir (d2, n2) raft' ∧ goes_on raft raft' ∧ same_identity n n2.
Proof.
  intros [Hn _] Hlast raft'.
  destruct (commit_replica dir d n raft e Hn Hlast)
    as (d1 & n1 & d2 & e2 & Hset & Happly & Hsave & Hst & Hn2 & _).
  exists d1, n1, d2, (with_parts e2 raft' n). split_and!; [exact Hset | exact Happly | exact Hsave | | |].
  - by apply stored_alive.
  - pose proof (rn_good _ _ _ Hn) as [_ _ _ _ Hwf _ _ _].
    assert (e_index e = N.of_nat (length (log_ raft))) as Hix
      by (rewrite <-wf_last_index by done; unfold last_log_index; by rewrite Hlast).
    assert (permitted (OnCommit (e_index e)) raft) as Hok by (destruct Hwf; cbn; lia).
    etrans; [apply (acts_on raft (OnCommit (e_index e)) Hok); done|].
    apply applied_goes_on. eapply (raft_step_wf raft); [by exists (OnCommit (e_index e)) | done].
  - done.
Qed.

Lemma broadcast_leaves dir ps commit net d n raft :
  alive dir (d, n) raft → (commit < two64)%N → leaves dir n raft (broadcast ps commit (net, (d, n))).2.
Proof.
  intros Hw Hc. pose proof (broadcast_contract dir ps commit net d n raft (proj1 Hw) I Hc) as Hb.
  destruct (broadcast ps commit _) as [q [net' w']]. destruct Hb as ([i Hi] & _). cbn [snd] in *. subst w'.
  exists raft. split; [by apply alive_calls | done].
Qed.

Lemma leaves_trans dir n n1 raft raft1 w' :
  goes_on raft raft1 → same_identity n n1 → leaves dir n1 raft1 w' → leaves dir n raft w'.
Proof. intros Hgo Hid (raft' & Hw & Hgo' & Hid'). exists raft'. split; [done|]. split; by etrans. Qed.

Lemma write_leaves dir net d n raft command :
  alive dir (d, n) raft → (current_term_ raft + 1 < two64)%N →
  (N.of_nat (length (log_ raft)) + 1 < two64)%N → command_ok command → command ≠ "" →
  leaves dir n raft (ProposeAndReplicate command (net, (d, n))).2.
Proof.
  intros Hw Hterm Hlen Hcmd Hne. unfold ProposeAndReplicate.
  pose proof (EnsureLeader_life dir net d n raft Hw Hterm) as Hlead.
  unfold mbind at 1, M_bind at 1. destruct (EnsureLeader (net, (d, n))) as [q [net1 [d1 n1]]].
  destruct Hlead as (raft1 & Hw1 & Hgo1 & Hid1 & Hl1 & Hrole). cbn [snd] in *.
  destruct q as [[]|st|f]; [|by exists raft1..]. specialize (Hrole eq_refl). rewrite <-Hl1 in Hlen.
  apply (leaves_trans dir n n1 raft raft1); [done..|].
  destruct (propose_alive dir d1 n1 raft1 command Hw1 Hrole Hlen Hcmd Hne)
    as (d2 & n2 & Hprop & Hstore & Hw2 & Hgo2 & Hid2).
  set (e := proposed raft1 command) in *. set (raft2 := push_entry e raft1) in *.
  apply (leaves_trans dir n1 n2 raft1 raft2); [done..|].
  run_call ltac:(apply local_run; exact Hprop). run_call ltac:(apply local_run; exact Hstore).
  rewrite local_node_bind.
  assert (last (log_ raft2) = Some e) as Hlast by apply last_snoc.
  pose proof (replicate_all_contract dir (peers (dn_region n2)) (e_index e) 1 net1 d2 n2 raft2 e
    (proj1 Hw2) I Hlast) as Hall.
  unfold mbind at 1, M_bind at 1. destruct (replicate_all _ _ _ _) as [q [net3 w3]].
  destruct Hall as ([i Hi] & _). cbn [snd] in Hi. subst w3.
  pose proof (alive_calls _ _ _ _ i Hw2) as Hw3.
  assert (leaves dir n2 raft2 (net3, (d2, with_request_id i n2))) as Hstop by by exists raft2.
  destruct q as [k|st|f]; [|exact Hstop..]. case_decide; [exact Hstop|].
  apply (leaves_trans dir n2 (with_request_id i n2) raft2 raft2); [done..|].
  destruct (commit_alive dir d2 (with_request_id i n2) raft2 e Hw3 Hlast)
    as (d4 & n4 & d5 & n5 & Hset & Happly & Hsave & Hw5 & Hgo5 & Hid5).
  run_call ltac:(apply local_run; exact Hset). run_call ltac:(apply local_run; exact Happly).
  run_call ltac:(apply local_run; exact Hsave). unfold BroadcastCommit. rewrite local_node_bind.
  eapply leaves_trans; [exact Hgo5 | exact Hid5 |]. by apply broadcast_leaves.
Qed.

(** ** Leader transfers *)

(** The region names another leader. *)
Definition region_led (leader : N) (r : RegionInfo) : RegionInfo :=
  mkRegion (region_id r) (start_key r) (end_key r) (epoch r) (peers r) leader.

Lemma alive_led dir d n raft leader :
  alive dir (d, n) raft → alive dir (d, with_region (region_led leader (dn_region n)) n) raft.
Proof. intros [[[] ? ? ?] [_ Hk]]. by split; split. Qed.

Lemma transfer_leaves dir net d n raft target :
  alive dir (d, n) raft → (current_term_ raft + 1 < two64)%N →
  ∃ n', (n' = n ∨ n' = with_region (region_led target (dn_region n)) n) ∧
    leaves dir n' raft (TransferLeader target (net, (d, n))).2.
Proof.
  intros Hw Hterm. unfold TransferLeader. rewrite local_node_bind.
  destruct (negb _); [exists n; split; [by left | by apply leaves_same]|].
  set (n1 := with_region (region_led target (dn_region n)) n). exists n1. split; [by right|].
  pose proof (alive_led dir d n raft target Hw) as Hw1. fold n1 in Hw1.
  pose proof (EnsureLeader_life dir net d n1 raft Hw1 Hterm) as Hlead.
  change ((_ ← local (update_node _); EnsureLeader) (net, (d, n))) with (EnsureLeader (net, (d, n1))).
  destruct (EnsureLeader (net, (d, n1))) as [q w']. destruct Hlead as (raft' & ? & ? & ? & _). by exists raft'.
Qed.
End network.

(** * The life of a replica *)

(** What a replica is asked, and that its process starts again; the region may
    have another leader or range by then. *)
Inductive duty :=
  | Serves (m : raft_message)
  | Writes (command : string)
  | Transfers (target : N)
  | Restarts (r : RegionInfo).

Section life.
Context {Net : Type} `{!Transport Net}.
Context (data_dir : string) (local_store : StoreInfo) (stores : list StoreInfo).
Context (region : RegionInfo) (p : Peer).

Definition do_duty (x : duty) : IO (Net * LocalW) unit :=
  match x with
  | Serves m => local (serve_message m)
  | Writes command => ProposeAndReplicate command
  | Transfers target => TransferLeader target
  | Restarts r =>
      local (_ ← modify (λ w : LocalW, (w.1, new_node)); Bootstrap data_dir local_store stores r)
  end.

(** Messages as stores send them, commands as clients do, counters below 2^64. *)
Definition duty_ok (x : duty) (w : Net * LocalW) : Prop :=
  ∀ raft, dn_raft w.2.2 = Some raft →
  match x with
  | Serves m => message_ok (region_id region) m
  | Writes command => command_ok command ∧ command ≠ "" ∧
      (current_term_ raft + 1 < two64)%N ∧ (N.of_nat (length (log_ raft)) + 1 < two64)%N
  | Transfers _ => (current_term_ raft + 1 < two64)%N
  | Restarts r => region_id r = region_id region ∧ peers r = peers region
  end.

(** It starts on a working disk, in a directory without the region. *)
Definition born (w : Net * LocalW) : Prop :=
  ∃ d, disk_ok d ∧ files d !! path_join (node_dir data_dir region) "kv.log" = None ∧
    Bootstrap data_dir local_store stores region (d, new_node) = (Ok tt, w.2).

(** A duty, whatever comes of it (an exception may end the process, which then
    starts again), or anything that happens elsewhere. *)
Inductive life_step : relation (Net * LocalW) :=
  | life_duty x w : duty_ok x w → (do_duty x w).1 ≠ Fault Undefined → life_step w (do_duty x w).2
  | life_elsewhere net net' w : life_step (net, w) (net', w).
Abbreviation lives := (rtc life_step).

Context (Hp : local_peer_of local_store region = Some p).
Context (Hvalid : (region_id region < two64)%N ∧ peer_id p ≠ 0%N ∧ (peer_id p < two64)%N).
Abbreviation dir := (node_dir data_dir region).

(** The node is the replica of [region] at peer [p], with Raft node [raft]. *)
Record living (w : Net * LocalW) (raft : RaftNode) : Prop := {
  lv_alive : alive dir w.2 raft;
  lv_region : region_id (dn_region w.2.2) = region_id region;
  lv_peers : peers (dn_region w.2.2) = peers region;
  lv_local : dn_local_peer w.2.2 = p;
  lv_raft : same_peer (fresh_raft p region) raft;
}.

Lemma living_raft w raft : living w raft → dn_raft w.2.2 = Some raft.
Proof. intros [[Hn _] _ _ _ _]. destruct w as [net [d n]]. exact (replica_raft _ _ _ _ Hn). Qed.

Lemma born_living w : born w → living w (fresh_raft p region).
Proof.
  destruct w as [net w]. intros (d & Hd & Hf & Hrun).
  destruct (Bootstrap_fresh data_dir local_store stores region p d Hd Hf Hp) as (d' & e & Hrun' & Hgood & He).
  cbn [snd] in Hrun. rewrite Hrun in Hrun'. apply pair_equal_spec in Hrun' as [_ ->].
  destruct Hvalid as (? & ? & ?). split; try done. split; [by split|]. split; [exact Hgood | by right].
Qed.

Lemma leaves_living w n raft w' :
  living w raft → region_id (dn_region n) = region_id region → peers (dn_region n) = peers region →
  dn_local_peer n = p → leaves dir n raft w' → ∃ raft', living w' raft' ∧ goes_on raft raft'.
Proof.
  intros [_ _ _ _ Hsame] Hr Hps Hl (raft' & Hw & [Hgo Hsame'] & (Hr' & _ & Hl' & _)).
  exists raft'. split; [|done]. split; [exact Hw | congruence | congruence | congruence | by etrans].
Qed.

(** A process that starts again goes on with the Raft node it had. *)
Lemma restart_living net d n raft r :
  living (net, (d, n)) raft → region_id r = region_id region → peers r = peers region →
  let raft' := perform (OnRestart (commit_index_ raft) (last_applied_ raft) (log_ raft)) raft in
  ∃ w', do_duty (Restarts r) (net, (d, n)) = (Ok tt, (net, w')) ∧ living (net, w') raft' ∧
    goes_on raft raft' ∧ dn_stores w'.2 = stores.
Proof.
  intros [[Hn Hkept] Hreg Hpeers Hloc Hsame] Hr Hps raft'. cbn [snd] in Hn, Hkept, Hreg, Hpeers, Hloc.
  pose proof (rn_good _ _ _ Hn) as [_ _ _ Hid Hwf _ _ _]. cbn [snd] in Hid.
  assert (node_dir data_dir r = dir) as Hdir by (unfold node_dir; by rewrite Hr).
  assert (local_peer_of local_store r = Some p) as Hp'
    by (rewrite <-Hp; unfold local_peer_of, FindPeerByStore; by rewrite Hps).
  rewrite <-Hdir in Hkept.
  destruct (Bootstrap_kept data_dir local_store stores r p d n raft Hkept) as (d' & Hrun & Hkept');
    [congruence | exact Hp' |]. rewrite Hdir in Hkept'.
  exists (d', booted local_store stores r p (dn_engine n) (restarted r p raft)).
  split; [apply local_run; exact Hrun|].
  assert (raft' = restarted r p raft) as Hact.
  { destruct Hwf as [Hlog Hc Ha]. unfold raft'. cbn [perform]. rewrite Restore_ok by done. cbn [snd].
    destruct Hsame as (-> & -> & ->). unfold restarted. by rewrite Hps, Hr. }
  destruct Hvalid as (? & ? & ?). split; [rewrite Hact|split; [|done]].
  - split; [|done..|]; cbn [snd booted dn_region].
    + split; [|exact Hkept']. split; [apply Hkept' | done | done |]. cbn [snd booted dn_region]. by rewrite Hr.
    + unfold restarted, fresh_raft, new_raft. split_and!; cbn; congruence.
  - apply acts_on; [done|]. fold raft'. rewrite Hact. destruct Hsame as (Hs1 & Hs2 & Hs3).
    unfold restarted, fresh_raft, new_raft in *. cbn in *. split_and!; cbn; congruence.
Qed.

Lemma step_living w w' raft :
  life_step w w' → living w raft → ∃ raft', living w' raft' ∧ goes_on raft raft'.
Proof.
  intros [x [net [d n]] Hok Hfault | net net' w1] Hw; [|exists raft; split; [by destruct Hw | done]].
  specialize (Hok raft (living_raft _ _ Hw)). pose proof Hw as [Halive Hr Hps Hl Hsame]. cbn [snd] in *.
  destruct x as [m | command | target | r]; cbn [do_duty].
  - assert (region_id_ raft = region_id region) as Hid by apply Hsame. rewrite <-Hid in Hok.
    destruct (serve_alive dir d n raft m Halive Hok) as (d' & n' & raft' & Hrun & Hw' & Hgo & Hsid).
    rewrite (local_run _ net (d, n) _ _ Hrun). eapply (leaves_living _ n); [done..|]. by exists raft'.
  - destruct Hok as (Hcmd & Hne & Hterm & Hlen). eapply (leaves_living _ n); [done..|].
    by apply write_leaves.
  - destruct (transfer_leaves dir net d n raft target Halive Hok) as (n' & Hn' & Hleaves).
    eapply (leaves_living _ n'); [done | | | | exact Hleaves]; by destruct Hn' as [-> | ->].
  - destruct Hok as [Hr' Hps'].
    destruct (restart_living net d n raft r Hw Hr' Hps') as (w1 & Hrun & Hw' & Hgo & _).
    cbn [do_duty] in Hrun. rewrite Hrun. by eexists.
Qed.

Lemma lives_living w w' raft :
  lives w w' → living w raft → ∃ raft', living w' raft' ∧ goes_on raft raft'.
Proof.
  intros Hlife. revert raft. induction Hlife as [w | w w1 w' Hstep _ IH]; intros raft Hw; [by exists raft|].
  destruct (step_living _ _ _ Hstep Hw) as (raft1 & Hw1 & Hgo1).
  destruct (IH raft1 Hw1) as (raft' & Hw' & Hgo'). exists raft'. split; [done | by etrans].
Qed.

Lemma vote_living w raft r resp w' :
  living w raft → vote_ok r → HandleRequestVote r w.2 = (Ok resp, w') →
  resp = (Raft.HandleRequestVote r raft).1 ∧ living (w.1, w') (Raft.HandleRequestVote r raft).2.
Proof.
  destruct w as [net [d n]]. cbn [fst snd]. intros Hw Hr Hrun.
  destruct (HandleRequestVote_good dir d n raft r (rn_good _ _ _ (proj1 (lv_alive _ _ Hw))) Hr)
    as (d' & e' & Hrun' & _).
  rewrite Hrun in Hrun'. apply pair_equal_spec in Hrun' as [Hresp ->]. split; [by injection Hresp|].
  assert (do_duty (Serves (VoteMessage r)) (net, (d, n)) =
    (Ok tt, (net, (d', with_parts e' (Raft.HandleRequestVote r raft).2 n)))) as Hduty.
  { cbn [do_duty serve_message]. apply local_run. run_call ltac:(exact Hrun). by injection Hresp as ->. }
  destruct (step_living (net, (d, n)) (net, (d', with_parts e' (Raft.HandleRequestVote r raft).2 n)) raft)
    as (raft' & Hw' & _); [|exact Hw|].
  { pose proof (life_duty (Serves (VoteMessage r)) (net, (d, n))) as Hstep. rewrite Hduty in Hstep.
    apply Hstep; [by intros ? _ | done]. }
  pose proof (living_raft _ _ Hw') as Hraft'. cbn in Hraft'. by injection Hraft' as <-.
Qed.
End life.

Lemma goes_on_vote_kept raft raft' : goes_on raft raft' → vote_kept raft raft'.
Proof.
  intros [Hgo _]. induction Hgo as [|a b c (x & Hok & ->) _ IH]; [done|].
  etrans; [by apply perform_vote_kept | exact IH].
Qed.

(** C14: A replica stays well formed whatever happens to it. From its start in a
    directory without the region, over any sequence of vote and append requests of
    other stores, writes and leader transfers of clients, restarts (with another
    range or leader of the region), and whatever the other stores answer or fail to
    answer, each of these however it ends: the node has its Raft node, whose log is
    numbered without gaps with applied at most committed at most its length, whose
    entries are commands of users, and whose numbers fit their words; the engine's
    log is what its contents are; and the entries and the hard state on disk are
    the ones in memory, so that a restart finds them. *)
Theorem replica_well_formed `{!Transport Net} data_dir local_store stores region p (w0 w : Net * LocalW) :
  local_peer_of local_store region = Some p →
  (region_id region < two64)%N ∧ peer_id p ≠ 0%N ∧ (peer_id p < two64)%N →
  born data_dir local_store stores region w0 →
  rtc (life_step data_dir local_store stores region) w0 w →
  ∃ raft, dn_raft w.2.2 = Some raft ∧ replica_node (node_dir data_dir region) w.2 raft ∧
    node_kept (node_dir data_dir region) w.2 raft.
Proof.
  intros Hp Hvalid Hborn Hlife.
  pose proof (born_living data_dir local_store stores region p Hp Hvalid _ Hborn) as Hw0.
  destruct (lives_living data_dir local_store stores region p Hp Hvalid _ _ _ Hlife Hw0) as (raft & Hw & _).
  exists raft. split; [by eapply living_raft | apply Hw].
Qed.

(** A replica runs Raft. Between any two moments of its life, over crashes and
    restarts, writes that fail half way and answers of any kind, the Raft node of a
    distributed replica has gone through steps of the Raft state machine only, as
    the same peer of the same region; and it started as the constructor makes it.
    Whatever holds over all runs of that machine holds of the program. *)
Theorem replica_runs_raft `{!Transport Net} data_dir local_store stores region p (w0 w1 w2 : Net * LocalW) :
  local_peer_of local_store region = Some p →
  (region_id region < two64)%N ∧ peer_id p ≠ 0%N ∧ (peer_id p < two64)%N →
  born data_dir local_store stores region w0 →
  rtc (life_step data_dir local_store stores region) w0 w1 →
  rtc (life_step data_dir local_store stores region) w1 w2 →
  ∃ raft1 raft2, dn_raft w1.2.2 = Some raft1 ∧ dn_raft w2.2.2 = Some raft2 ∧
    rtc raft_step (fresh_raft p region) raft1 ∧ rtc raft_step raft1 raft2 ∧
    same_peer raft1 raft2 ∧ vote_kept raft1 raft2.
Proof.
  intros Hp Hvalid Hborn Hlife1 Hlife2.
  pose proof (born_living data_dir local_store stores region p Hp Hvalid _ Hborn) as Hw0.
  destruct (lives_living data_dir local_store stores region p Hp Hvalid _ _ _ Hlife1 Hw0)
    as (raft1 & Hw1 & [Hgo1 _]).
  destruct (lives_living data_dir local_store stores region p Hp Hvalid _ _ _ Hlife2 Hw1)
    as (raft2 & Hw2 & [Hgo2 Hsame]).
  exists raft1, raft2. split; [by eapply living_raft|]. split; [by eapply living_raft|].
  split; [done|]. split; [done|]. split; [done|]. by apply goes_on_vote_kept.
Qed.

(** C13: One vote per term, for ever. If a store answers yes to two requests for its
    vote in one term, however much of its life lies in between, restarts included,
    then they are from the same candidate. *)
Theorem one_vote_per_term `{!Transport Net} data_dir local_store stores region p (w0 w1 w2 : Net * LocalW)
    r1 r2 resp1 resp2 w1' w2' :
  local_peer_of local_store region = Some p →
  (region_id region < two64)%N ∧ peer_id p ≠ 0%N ∧ (peer_id p < two64)%N →
  born data_dir local_store stores region w0 →
  rtc (life_step data_dir local_store stores region) w0 w1 →
  vote_ok r1 → HandleRequestVote r1 w1.2 = (Ok resp1, w1') → rv_granted resp1 = true →
  rtc (life_step data_dir local_store stores region) (w1.1, w1') w2 →
  vote_ok r2 → HandleRequestVote r2 w2.2 = (Ok resp2, w2') → rv_granted resp2 = true →
  rv_term r1 = rv_term r2 → rv_candidate_id r1 = rv_candidate_id r2.
Proof.
  intros Hp Hvalid Hborn Hlife1 Hv1 Hrun1 Hg1 Hlife2 Hv2 Hrun2 Hg2 Hterm.
  pose proof (born_living data_dir local_store stores region p Hp Hvalid _ Hborn) as Hw0.
  destruct (lives_living data_dir local_store stores region p Hp Hvalid _ _ _ Hlife1 Hw0) as (raft1 & Hw1 & _).
  destruct (vote_living data_dir local_store stores region p Hp Hvalid _ _ _ _ _ Hw1 Hv1 Hrun1) as [-> Hw1'].
  destruct (lives_living data_dir local_store stores region p Hp Hvalid _ _ _ Hlife2 Hw1')
    as (raft2 & Hw2 & [Hle Hkept]%goes_on_vote_kept).
  destruct (vote_living data_dir local_store stores region p Hp Hvalid _ _ _ _ _ Hw2 Hv2 Hrun2) as [-> _].
  pose proof (vote_rule r1 raft1) as Hrule1. pose proof (vote_rule r2 raft2) as Hrule2.
  destruct (Raft.HandleRequestVote r1 raft1) as [resp1 raft1'], (Raft.HandleRequestVote r2 raft2) as [resp2 raft2'].
  cbn [fst snd] in *. destruct Hrule1 as (Hyes1 & _ & Ht1 & _ & _ & _ & Hvote1).
  apply Hyes1 in Hg1 as Hwhy1. rewrite Hg1 in Hvote1.
  apply (proj1 Hrule2) in Hg2 as (Hle2 & Hvote2 & _).
  assert (current_term_ raft2 = current_term_ raft1') as Hsame by lia.
  specialize (Hkept Hsame _ Hvote1). destruct Hvote2 as [Hvote2 | Hvote2]; [lia | congruence | congruence].
Qed.

(** ** A network where nobody answers *)

#[local] Instance silent : Transport unit := λ _ request net,
  (MakeRpcError request (ErrorCodeName kRpcError) "failed to connect tcp rpc server", net).

Definition first_life (i : N) : unit * LocalW :=
  (tt, (Bootstrap "data" (test_store i) test_stores test_region (mkDisk ∅ [], new_node)).2).
Definition after (i : N) (x : duty) (w : unit * LocalW) : unit * LocalW :=
  (do_duty "data" (test_store i) test_stores x w).2.

Lemma first_life_born i p :
  local_peer_of (test_store i) test_region = Some p →
  born "data" (test_store i) test_stores test_region (first_life i).
Proof.
  intros Hp. exists (mkDisk ∅ []). split; [done|]. split; [done|]. unfold first_life. cbn [snd].
  destruct (Bootstrap_fresh "data" (test_store i) test_stores test_region p (mkDisk ∅ []))
    as (d & e & -> & _); done.
Qed.

Definition test_vote : RequestVoteRequest := mkVoteRequest 5 1 11 0 0.

Lemma serves_step i m w :
  message_ok 5 m → (do_duty "data" (test_store i) test_stores (Serves m) w).1 ≠ Fault Undefined →
  life_step "data" (test_store i) test_stores test_region w (after i (Serves m) w).
Proof. intros Hm Hf. apply life_duty; [by intros ? _ | exact Hf]. Qed.

Lemma restart_step i w :
  (do_duty "data" (test_store i) test_stores (Restarts test_region) w).1 ≠ Fault Undefined →
  life_step "data" (test_store i) test_stores test_region w (after i (Restarts test_region) w).
Proof. intros Hf. apply life_duty; [by intros ? _ | exact Hf]. Qed.

Lemma test_region_valid p :
  p ∈ peers test_region → (region_id test_region < two64)%N ∧ peer_id p ≠ 0%N ∧ (peer_id p < two64)%N.
Proof. cbn. rewrite !elem_of_cons, elem_of_nil. by intros [-> | [-> | [-> | []]]]. Qed.

(** The first store, which is to lead, starts; its election finds no voter; it
    starts again and tries once more. *)
Lemma replica_well_formed_witness :
  let w1 := after 1 (Restarts test_region) (after 1 (Transfers 11) (first_life 1)) in
  ∃ raft, dn_raft w1.2.2 = Some raft ∧ replica_node (node_dir "data" test_region) w1.2 raft ∧
    node_kept (node_dir "data" test_region) w1.2 raft.
Proof.
  apply (replica_well_formed "data" (test_store 1) test_stores test_region (mkPeer 11 1 kVoter) (first_life 1)).
  - reflexivity.
  - apply test_region_valid, list_elem_of_here.
  - by eapply first_life_born.
  - eapply rtc_l; [|apply rtc_once, restart_step; vm_compute; discriminate].
    apply life_duty; [|vm_compute; discriminate]. intros raft Hraft.
    vm_compute in Hraft. injection Hraft as <-. reflexivity.
Defined.

(** The second store votes, and starts again. *)
Definition voted_life : unit * LocalW := after 2 (Serves (VoteMessage test_vote)) (first_life 2).

Lemma test_vote_ok : vote_ok test_vote.
Proof. by split_and!. Qed.

Lemma replica_runs_raft_witness :
  ∃ raft1 raft2, dn_raft voted_life.2.2 = Some raft1 ∧
    dn_raft (after 2 (Restarts test_region) voted_life).2.2 = Some raft2 ∧
    rtc raft_step (fresh_raft (mkPeer 12 2 kVoter) test_region) raft1 ∧ rtc raft_step raft1 raft2 ∧
    same_peer raft1 raft2 ∧ vote_kept raft1 raft2.
Proof.
  apply (replica_runs_raft "data" (test_store 2) test_stores test_region (mkPeer 12 2 kVoter) (first_life 2)).
  - reflexivity.
  - apply test_region_valid, list_elem_of_further, list_elem_of_here.
  - by eapply first_life_born.
  - apply rtc_once, serves_step; [exact test_vote_ok | vm_compute; discriminate].
  - apply rtc_once, restart_step. vm_compute. discriminate.
Defined.

(** Asked again after the restart, it gives its vote again, to the same candidate. *)
Lemma one_vote_per_term_witness :
  rv_granted (mkVoteResponse 1 true) = true ∧ rv_candidate_id test_vote = rv_candidate_id test_vote.
Proof.
  split; [reflexivity|].
  destruct (HandleRequestVote test_vote (first_life 2).2) as [q1 w1'] eqn:H1.
  destruct (HandleRequestVote test_vote (after 2 (Restarts test_region) (tt, w1')).2) as [q2 w2'] eqn:H2.
  apply (one_vote_per_term "data" (test_store 2) test_stores test_region (mkPeer 12 2 kVoter) (first_life 2)
    (first_life 2) (after 2 (Restarts test_region) (tt, w1')) test_vote test_vote
    (mkVoteResponse 1 true) (mkVoteResponse 1 true) w1' w2').
  - reflexivity.
  - apply test_region_valid, list_elem_of_further, list_elem_of_here.
  - by eapply first_life_born.
  - apply rtc_refl.
  - exact test_vote_ok.
  - rewrite H1. f_equal. apply (f_equal fst) in H1. vm_compute in H1. cbn [fst] in H1. by rewrite <-H1.
  - reflexivity.
  - apply rtc_once, restart_step. apply (f_equal snd) in H1. cbn [snd] in H1. rewrite <-H1. vm_compute. discriminate.
  - exact test_vote_ok.
  - rewrite H2. f_equal. apply (f_equal snd) in H1. cbn [snd] in H1. rewrite <-H1 in H2.
    apply (f_equal fst) in H2. vm_compute in H2. by rewrite <-H2.
  - reflexivity.
  - reflexivity.
Defined.
