(* ===== verification/ReplicaGroup.v ===== *)
(** The replicas of src/store/distributed_region_node.cpp in the group of Consensus.v.
    What the network answers to a replica is known by a contract, a class: while a
    call lasts the other nodes may do whatever the group allows, and yes means that
    the other node said yes. Then every request, write, transfer and restart of a
    replica is a sequence of events of the group, and an acknowledged write stays. *)

From S2P Require Import Prelude Types Raft RaftSafety Consensus ConsensusSafety.
From S2P Require Import Text Codec Service Engine RaftStorage Keyspace RaftWire.
From S2P Require Import Distributed DistributedSpec NodeRestart Replication ReplicaLife.

(** * The contract of the network *)

(** [views w g]: the network [w] belongs to the group [g], as far as the others than
    [self] go. *)
Class GroupNetwork (W : Type) `{!Transport W} (self : N) := {
  views : W → Net → Prop;
  node_of : Endpoint → N;
  own_step : ∀ w g e, views w g → who e = self → can_happen e g → views w (happen e g);
  call_append : ∀ w g endpoint rq r response w',
    views w g → r ∈ sent g → rq_method rq = "store.RaftAppendEntries" →
    rq_payload rq = EncodeFields (PutAppendEntriesFields ∅ r) → append_request_ok r →
    tcp_call endpoint rq w = (response, w') →
    ∃ es, Forall (λ e, who e ≠ self) es ∧ can_run es g ∧ views w' (run_net es g) ∧
      (∀ fields answer, rs_ok response = true → DecodeFields (rs_payload response) = Ok fields →
         GetAppendEntriesResponseFields fields = Ok answer → ae_success answer = true →
         (node_of endpoint, ae_term r, reach r) ∈ held (run_net es g));
  call_vote : ∀ w g endpoint rq r response w',
    views w g → r ∈ asked g → rq_method rq = "store.RaftRequestVote" →
    rq_payload rq = EncodeFields (PutRequestVoteFields ∅ r) → vote_request_ok r →
    tcp_call endpoint rq w = (response, w') →
    ∃ es, Forall (λ e, who e ≠ self) es ∧ can_run es g ∧ views w' (run_net es g) ∧
      (∀ fields answer, rs_ok response = true → DecodeFields (rs_payload response) = Ok fields →
         GetRequestVoteResponseFields fields = Ok answer → rv_granted answer = true →
         mkBallot (node_of endpoint) (rv_term r) (rv_candidate_id r) ∈ ballots (group (run_net es g)));
}.

(** * Runs of the group *)

Lemma run_net_app es1 es2 g : run_net (es1 ++ es2) g = run_net es2 (run_net es1 g).
Proof. revert g. induction es1 as [|e es1 IH]; intros g; [done|]. cbn. apply IH. Qed.

Lemma can_run_app es1 es2 g : can_run (es1 ++ es2) g ↔ can_run es1 g ∧ can_run es2 (run_net es1 g).
Proof.
  revert g. induction es1 as [|e es1 IH]; intros g; cbn; [tauto|]. rewrite IH. tauto.
Qed.

Definition reaches (g g' : Net) : Prop := ∃ es, can_run es g ∧ run_net es g = g'.

#[export] Instance reaches_preorder : PreOrder reaches.
Proof.
  split; [by intros g; exists []|]. intros g1 g2 g3 (es & H1 & <-) (fs & H2 & <-).
  exists (es ++ fs). rewrite run_net_app, can_run_app. done.
Qed.

Lemma reaches_step e g : can_happen e g → reaches g (happen e g).
Proof. intros He. by exists [e]. Qed.

Lemma happen_ballots e g : ballots (group g) ⊆ ballots (group (happen e g)).
Proof.
  destruct (members (group g) !! who e) as [n|] eqn:Hn.
  - destruct (happen_fields e g n Hn) as (_ & -> & _). set_solver.
  - unfold happen. by rewrite Hn.
Qed.

Lemma reaches_grows g g' : reaches g g' →
  held g ⊆ held g' ∧ ballots (group g) ⊆ ballots (group g') ∧
  size (members (group g')) = size (members (group g)).
Proof.
  intros (es & _ & <-). destruct (run_net_grows es g) as [Hh Hs]. split; [done|]. split; [|done].
  clear Hh Hs. revert g. induction es as [|e es IH]; intros g; [done|]. cbn [run_net].
  etrans; [apply happen_ballots | apply IH].
Qed.

Lemma others_keep self es : ∀ g, Forall (λ e, who e ≠ self) es →
  members (group (run_net es g)) !! self = members (group g) !! self.
Proof.
  induction es as [|e es IH]; intros g Hes; [done|]. apply Forall_cons in Hes as [He Hes].
  cbn [run_net]. rewrite (IH _ Hes). unfold happen.
  destruct (members (group g) !! who e) as [n|] eqn:Hn; [|done]. cbn [group].
  destruct (does e n) as [a|]; [|done]. unfold act. rewrite Hn. cbn. by rewrite lookup_insert_ne.
Qed.

Lemma happen_member e g n : members (group g) !! who e = Some n →
  members (group (happen e g)) !! who e = Some (next e n).
Proof. intros Hn. destruct (happen_fields e g n Hn) as (-> & _). apply lookup_insert_eq. Qed.

(** ** Counting *)

(** A majority of the peers, counted as [EnsureLeader] and [ProposeAndReplicate] do. *)
Lemma count_peers (ps qs : list Peer) (self : N) (X : gset N) :
  NoDup (peer_id <$> ps) → qs `sublist_of` ps → self ∈ X →
  Forall (λ q, peer_id q ≠ self ∧ peer_id q ∈ X) qs → 1 + length qs ≤ size X.
Proof.
  intros Hnd Hsub Hself Hqs.
  assert (NoDup (peer_id <$> qs)) as Hnd' by (eapply sublist_NoDup; [exact Hnd | exact (fmap_sublist _ _ _ Hsub)]).
  assert (size ({[self]} ∪ list_to_set (peer_id <$> qs) : gset N) = 1 + length qs) as <-.
  { rewrite size_union; [by rewrite size_singleton, size_list_to_set, length_fmap by done|].
    apply disjoint_singleton_l. rewrite elem_of_list_to_set, list_elem_of_fmap.
    intros (q & -> & Hq). rewrite list.Forall_forall in Hqs. by destruct (Hqs q Hq). }
  apply subseteq_size. intros i [->%elem_of_singleton | Hi]%elem_of_union; [done|].
  apply elem_of_list_to_set, list_elem_of_fmap in Hi as (q & -> & Hq).
  rewrite list.Forall_forall in Hqs. by destruct (Hqs q Hq).
Qed.

(** * One replica *)

Section replica.
Context {W : Type} `{!Transport W} (self : N) `{!GroupNetwork W self}.
Context (dir : string).
Implicit Types (w : W) (d : Disk) (n : DistributedRegionNode) (g : Net).

(** Where the replica is in the group. *)
Definition takes_part w g (raft : RaftNode) : Prop :=
  views w g ∧ members (group g) !! self = Some raft.

(** The addresses the replica knows are those of the other nodes. *)
Definition addressed n (ps : list Peer) : Prop :=
  Forall (λ q, ∀ s, FindStoreByPeer (peer_id q) n = Some s → node_of (client_endpoint s) = peer_id q) ps.

Lemma own_event w g raft e :
  takes_part w g raft → who e = self → can_happen e g →
  takes_part w (happen e g) (next e raft) ∧ reaches g (happen e g).
Proof.
  intros [Hv Hm] He Hc. split; [|by apply reaches_step]. split; [by apply own_step|].
  rewrite <-He. apply happen_member. by rewrite He.
Qed.

Lemma others_events w w' g raft es :
  takes_part w g raft → Forall (λ e, who e ≠ self) es → can_run es g → views w' (run_net es g) →
  takes_part w' (run_net es g) raft ∧ reaches g (run_net es g).
Proof.
  intros [Hv Hm] Hes Hrun Hv'. split; [|exists es; split; [exact Hrun | reflexivity]].
  split; [exact Hv'|]. rewrite others_keep by exact Hes. exact Hm.
Qed.

(** ** Requests for votes *)

Lemma asked_kept es g r : r ∈ asked g → r ∈ asked (run_net es g).
Proof.
  revert g. induction es as [|e es IH]; intros g Hr; [done|]. cbn [run_net]. apply IH.
  destruct (members (group g) !! who e) as [m|] eqn:Hm; [|unfold happen; by rewrite Hm].
  destruct (happen_fields e g m Hm) as (_ & _ & -> & _). set_solver.
Qed.

(** The peers whose ballots the candidate counted. *)
Definition voted_for_us g (request : RequestVoteRequest) (q : Peer) : Prop :=
  peer_id q ≠ self ∧
  mkBallot (peer_id q) (rv_term request) (rv_candidate_id request) ∈ ballots (group g).

(** What calls to other stores come to: the replica only made calls, the group went
    on, and the result tells [Q] of the group as it is then. *)
Definition called {A} d n raft g (Q : Net → A → Prop) (out : res A * (W * LocalW)) : Prop :=
  only_calls n out.2 d ∧ ∃ g', reaches g g' ∧ takes_part out.2.1 g' raft ∧
    ∀ a, out.1 = Ok a → Q g' a.

Lemma called_none {A} d n raft g (Q : Net → A → Prop) w (r : res A) :
  takes_part w g raft → (∀ a, r = Ok a → Q g a) → called d n raft g Q (r, (w, (d, n))).
Proof.
  intros Hpart Hr. split; [exists (dn_next_request_id n); cbn; by rewrite with_request_id_same|].
  by exists g.
Qed.

Lemma called_after {A} d n i raft g g1 (Q Q' : Net → A → Prop) out :
  reaches g g1 → (∀ g' a, reaches g1 g' → Q g' a → Q' g' a) →
  called d (with_request_id i n) raft g1 Q out → called d n raft g Q' out.
Proof.
  intros Hreach HQ ([j Hj] & g' & Hreach' & Hpart & Hk). split; [by exists j|].
  exists g'. split; [by etrans|]. split; [done|]. intros a Ha. by apply HQ, Hk.
Qed.

(** Counting the peers [ps] from [k] on: those counted have property [P] now. *)
Definition counted (P : Net → Peer → Prop) (ps : list Peer) (k : nat) d n raft g :
    res nat * (W * LocalW) → Prop :=
  called d n raft g (λ g' k', ∃ qs, qs `sublist_of` ps ∧ k' = k + length qs ∧ Forall (P g') qs).

Lemma counted_none (P : Net → Peer → Prop) ps k d n raft g w (r : res nat) :
  takes_part w g raft → (∀ k', r = Ok k' → k' = k) → counted P ps k d n raft g (r, (w, (d, n))).
Proof.
  intros Hpart Hr. apply called_none; [done|]. intros k' ->%Hr. exists [].
  split; [apply sublist_nil_l|]. split; [cbn; lia | done].
Qed.

Lemma counted_more (P : Net → Peer → Prop) p ps (b : bool) k d n i raft g g1 out :
  (∀ g g' q, reaches g g' → P g q → P g' q) → reaches g g1 → (b = true → P g1 p) →
  counted P ps (if b then S k else k) d (with_request_id i n) raft g1 out →
  counted P (p :: ps) k d n raft g out.
Proof.
  intros Hmono Hreach Hp. apply called_after; [done|]. intros g' k' Hreach' (qs & Hsub & Hlen & Hqs).
  destruct b.
  - exists (p :: qs). split; [by apply sublist_skip|]. split; [cbn [length]; lia|].
    constructor; [|done]. eapply Hmono; [exact Hreach' | by apply Hp].
  - exists qs. split; [by apply sublist_cons | done].
Qed.

Lemma counted_skip (P : Net → Peer → Prop) p ps k d n raft g out :
  (∀ g g' q, reaches g g' → P g q → P g' q) →
  counted P ps k d n raft g out → counted P (p :: ps) k d n raft g out.
Proof.
  intros Hmono Hc. apply (counted_more P p ps false k d n (dn_next_request_id n) raft g g); [done..|].
  by rewrite with_request_id_same.
Qed.

Lemma voted_grows request g g' q : reaches g g' → voted_for_us g request q → voted_for_us g' request q.
Proof. intros (_ & Hb & _)%reaches_grows [? Hq]. split; [done|]. by apply Hb. Qed.

Lemma request_votes_group ps request : ∀ votes w d n raft g,
  takes_part w g raft → peer_id (dn_local_peer n) = self → addressed n ps →
  request ∈ asked g → vote_request_ok request →
  counted (λ g, voted_for_us g request) ps votes d n raft g (request_votes request ps votes (w, (d, n))).
Proof.
  induction ps as [|p ps IH]; intros votes w d n raft g Hpart Hself Haddr Hasked Hrq.
  { apply counted_none; [done|]. by intros k [= <-]. }
  pose proof (voted_grows request) as Hmono.
  apply list.Forall_cons in Haddr as [Hp Haddr]. cbn [request_votes]. rewrite local_node_bind.
  case_decide as Hlocal; [apply counted_skip; [done | by apply IH]|].
  destruct (FindStoreByPeer (peer_id p) n) as [s|] eqn:Hs; [|apply counted_skip; [done | by apply IH]].
  specialize (Hp s eq_refl). unfold mbind at 1, M_bind at 1.
  destruct (CallStore_run s "store.RaftRequestVote" (PutRequestVoteFields ∅ request) w d n)
    as (response & w1 & -> & rq & Hm & Hpay & Hcall).
  destruct (call_vote w g _ rq request response w1 (proj1 Hpart) Hasked Hm Hpay Hrq Hcall)
    as (es & Hes & Hrun & Hv1 & Hyes).
  destruct (others_events w w1 g raft es Hpart Hes Hrun Hv1) as [Hpart1 Hreach].
  apply (asked_kept es) in Hasked. set (g1 := run_net es g) in *. clearbody g1.
  set (i := u64 (dn_next_request_id n + 1)). clearbody i.
  assert (∀ b : bool, (b = true → voted_for_us g1 request p) →
    counted (λ g, voted_for_us g request) (p :: ps) votes d n raft g
      (request_votes request ps (if b then S votes else votes) (w1, (d, with_request_id i n)))) as Hnext.
  { intros b Hb. eapply counted_more; [done | exact Hreach | exact Hb|]. by apply IH. }
  assert (∀ r : res nat, (∀ v, r ≠ Ok v) →
    counted (λ g, voted_for_us g request) (p :: ps) votes d n raft g (r, (w1, (d, with_request_id i n)))) as Hstop.
  { intros r Hr. apply (counted_more _ _ _ false votes d n i raft g g1); [done | exact Hreach | done|].
    apply counted_none; [exact Hpart1|]. intros k Hk. destruct (Hr k Hk). }
  destruct (rs_ok response); cbn [negb]; [|by apply (Hnext false)].
  unfold mbind at 1, M_bind at 1, lift.
  destruct (DecodeFields (rs_payload response)) as [fields|st|f] eqn:Hf; [|by apply Hstop..].
  unfold mbind at 1, M_bind at 1.
  destruct (GetRequestVoteResponseFields fields) as [answer|st|f] eqn:Ha; [|by apply Hstop..].
  apply Hnext. intros Hg. split; [congruence|]. rewrite <-Hp. by eapply Hyes.
Qed.

(** ** Append requests *)

(** The requests a replica builds are those a leader of the group may send, and
    reach to the end of its log. *)
Lemma append_request_sendable d n raft next commit r :
  replica_node dir (d, n) raft → role_ raft = kLeader → (commit <= commit_index_ raft)%N →
  append_request n raft next commit = Ok r →
  append_request_ok r ∧ sendable raft r ∧ ae_term r = current_term_ raft ∧ reach r = length (log_ raft).
Proof.
  intros Hn Hrole Hcommit Hreq. pose proof (rn_good _ _ _ Hn) as [_ _ _ Hreg [Hlog Hc Ha] _ _ (_ & _ & _ & Hlen)].
  cbn [fst snd] in *.
  destruct (append_request_shape dir d n raft next commit r Hn) as (Hok & _); [lia | done|].
  split; [done|]. unfold append_request in Hreq.
  remember (if (next =? 0)%N then 0%N else (next - 1)%N) as prev eqn:Hprev.
  assert (prev = next - 1)%N as -> by (subst prev; destruct (N.eqb_spec next 0); lia). clear Hprev.
  rewrite (filter_from _ 0 next) in Hreq by exact Hlog. rewrite N.sub_0_r in Hreq.
  assert (∃ pt, r = mkAppendRequest (region_id (dn_region n)) (current_term_ raft) (peer_id (dn_local_peer n))
      (next - 1) pt (drop (N.to_nat (next - 1)) (log_ raft)) commit ∧
    ((next - 1)%N = 0%N ∧ pt = 0%N ∨ (next - 1)%N ≠ 0%N ∧
      ∃ e, log_ raft !! (N.to_nat (next - 1) - 1) = Some e ∧ e_term e = pt)) as (pt & -> & Hpt).
  { destruct (N.eqb_spec (next - 1) 0) as [H0 | H0]; cbn [mbind result_bind] in Hreq.
    - injection Hreq as <-. exists 0%N. split; [done | by left].
    - destruct (log_ raft !! N.to_nat (next - 1 - 1)) as [x|] eqn:Hx; [|done].
      cbn [mbind result_bind] in Hreq. injection Hreq as <-. exists (e_term x). split; [done|]. right.
      split; [done|]. exists x. by replace (N.to_nat (next - 1) - 1) with (N.to_nat (next - 1 - 1)) by lia. }
  assert (N.to_nat (next - 1) ≤ length (log_ raft)) as Hle.
  { destruct Hpt as [[-> _] | (_ & x & Hx & _)]; [lia|]. apply lookup_lt_Some in Hx. lia. }
  split; [|split; [done|]]; [|unfold reach; cbn; rewrite length_drop; lia].
  split; [done|]. split; [done|]. cbn [ae_leader_commit ae_prev_log_index ae_entries].
  split; [|rewrite length_drop; lia]. split; [done|]. cbn. split.
  - destruct Hpt as [[-> ->] | (H0 & x & ? & ?)]; [done|]. destruct (N.eqb_spec (next - 1) 0); [done|]. by exists x.
  - symmetry. apply take_ge. done.
Qed.

(** One request on its way and back. *)
Lemma append_called store r w d n raft g :
  takes_part w g raft → sendable raft r → append_request_ok r →
  ∃ response w1 i g1, CallStore store "store.RaftAppendEntries" (PutAppendEntriesFields ∅ r) (w, (d, n)) =
      (Ok response, (w1, (d, with_request_id i n))) ∧
    reaches g g1 ∧ takes_part w1 g1 raft ∧
    ∀ fields answer, rs_ok response = true → DecodeFields (rs_payload response) = Ok fields →
      GetAppendEntriesResponseFields fields = Ok answer → ae_success answer = true →
      (node_of (client_endpoint store), ae_term r, reach r) ∈ held g1.
Proof.
  intros Hpart Hsend Hrok.
  destruct (own_event w g raft (Send self r) Hpart eq_refl) as [Hpart1 Hg1].
  { unfold can_happen. cbn [who]. by rewrite (proj2 Hpart). }
  assert (r ∈ sent (happen (Send self r) g)) as Hsent.
  { destruct (happen_fields (Send self r) g raft (proj2 Hpart)) as (_ & _ & _ & -> & _). apply list_elem_of_here. }
  change (next (Send self r) raft) with raft in Hpart1.
  destruct (CallStore_run store "store.RaftAppendEntries" (PutAppendEntriesFields ∅ r) w d n)
    as (response & w1 & Hrun & rq & Hm & Hpay & Hcall).
  set (g1 := happen (Send self r) g) in *. clearbody g1.
  destruct (call_append w g1 _ rq r response w1 (proj1 Hpart1) Hsent Hm Hpay Hrok Hcall)
    as (es & Hes & Hcan & Hv1 & Hyes).
  destruct (others_events w w1 g1 raft es Hpart1 Hes Hcan Hv1) as [Hpart2 Hg2].
  exists response, w1, (u64 (dn_next_request_id n + 1)), (run_net es g1).
  split; [exact Hrun|]. split; [by etrans|]. split; [exact Hpart2 | exact Hyes].
Qed.

(** The store of the endpoint has the whole log of this term's leader. *)
Definition caught_up store raft g (b : bool) : Prop :=
  b = true → (node_of (client_endpoint store), current_term_ raft, length (log_ raft)) ∈ held g.

Lemma replicate_group store commit attempts : ∀ idx w d n raft g,
  replica_node dir (d, n) raft → takes_part w g raft → role_ raft = kLeader →
  (commit <= commit_index_ raft)%N →
  called d n raft g (caught_up store raft) (replicate attempts store idx commit (w, (d, n))).
Proof.
  induction attempts as [|k IH]; intros idx w d n raft g Hn Hpart Hrole Hc.
  { apply called_none; [done|]. by intros b [= <-]. }
  cbn [replicate]. pose proof (replica_raft _ _ _ _ Hn) as Hr.
  rewrite local_node_bind, (local_raft_bind _ _ _ _ raft) by done.
  unfold mbind at 1, M_bind at 1, lift.
  destruct (append_request n raft idx commit) as [r|st|f] eqn:Hreq; [|by apply called_none..].
  destruct (append_request_sendable d n raft idx commit r Hn Hrole Hc Hreq) as (Hrok & Hsend & Hterm & Hreach).
  unfold mbind at 1, M_bind at 1.
  destruct (append_called store r w d n raft g Hpart Hsend Hrok) as (response & w1 & i & g1 & -> & Hg1 & Hpart1 & Hyes).
  rewrite Hterm, Hreach in Hyes.
  assert (∀ q : res bool, (∀ b, q = Ok b → caught_up store raft g1 b) →
    called d n raft g (caught_up store raft) (q, (w1, (d, with_request_id i n)))) as Hstop.
  { intros q Hq. apply (called_after d n i raft g g1 (caught_up store raft)); [exact Hg1 | done|].
    by apply called_none. }
  destruct (rs_ok response); cbn [negb]; [|apply Hstop; by intros b [= <-]].
  unfold mbind at 1, M_bind at 1.
  destruct (DecodeFields (rs_payload response)) as [fields|st|f] eqn:Hf; [|by apply Hstop..].
  unfold mbind at 1, M_bind at 1.
  destruct (GetAppendEntriesResponseFields fields) as [answer|st|f] eqn:Ha; [|by apply Hstop..].
  destruct (ae_success answer) eqn:Hs.
  - apply Hstop. intros b _ _. by eapply Hyes.
  - apply (called_after d n i raft g g1 (caught_up store raft)); [exact Hg1 | done|].
    apply IH; try done. by apply replica_node_calls.
Qed.

Lemma ReplicateToStore_group store idx commit w d n raft g :
  replica_node dir (d, n) raft → takes_part w g raft → role_ raft = kLeader →
  (commit <= commit_index_ raft)%N →
  called d n raft g (caught_up store raft) (ReplicateToStore store idx commit (w, (d, n))).
Proof.
  intros Hn. unfold ReplicateToStore. rewrite local_node_bind, (replica_raft _ _ _ _ Hn). by apply replicate_group.
Qed.

(** ** The loops over the peers *)

Definition took_all raft g (q : Peer) : Prop :=
  peer_id q ≠ self ∧ (peer_id q, current_term_ raft, length (log_ raft)) ∈ held g.

Lemma took_grows raft g g' q : reaches g g' → took_all raft g q → took_all raft g' q.
Proof. intros (Hh & _)%reaches_grows [? Hq]. split; [done|]. by apply Hh. Qed.

Lemma replicate_all_group ps idx : ∀ k w d n raft g,
  replica_node dir (d, n) raft → takes_part w g raft → role_ raft = kLeader →
  peer_id (dn_local_peer n) = self → addressed n ps →
  counted (took_all raft) ps k d n raft g (replicate_all ps idx k (w, (d, n))).
Proof.
  induction ps as [|p ps IH]; intros k w d n raft g Hn Hpart Hrole Hself Haddr.
  { apply counted_none; [done|]. by intros k' [= <-]. }
  pose proof (took_grows raft) as Hmono. apply list.Forall_cons in Haddr as [Hp Haddr].
  cbn [replicate_all]. rewrite local_node_bind.
  case_decide as Hlocal; [apply counted_skip; [done | by apply IH]|].
  destruct (FindStoreByPeer (peer_id p) n) as [s|] eqn:Hs; [|apply counted_skip; [done | by apply IH]].
  specialize (Hp s eq_refl). rewrite (local_raft_bind _ _ _ _ raft) by by eapply replica_raft.
  pose proof (ReplicateToStore_group s idx (commit_index_ raft) w d n raft g Hn Hpart Hrole (N.le_refl _)) as Hrep.
  unfold mbind at 1, M_bind at 1.
  destruct (ReplicateToStore s idx (commit_index_ raft) (w, (d, n))) as [q [w1 x1]].
  destruct Hrep as ([i Hi] & g1 & Hg1 & Hpart1 & Hyes). cbn [fst snd] in *. subst x1.
  destruct q as [b|st|f].
  - apply (counted_more _ _ _ b k d n i raft g g1); [done | exact Hg1 | | apply IH; try done; by apply replica_node_calls].
    intros ->. split; [congruence|]. rewrite <-Hp. by apply (Hyes true).
  - apply (counted_more _ _ _ false k d n i raft g g1); [done | exact Hg1 | done|]. by apply counted_none.
  - apply (counted_more _ _ _ false k d n i raft g g1); [done | exact Hg1 | done|]. by apply counted_none.
Qed.

Lemma broadcast_group ps commit : ∀ w d n raft g,
  replica_node dir (d, n) raft → takes_part w g raft → role_ raft = kLeader →
  (commit <= commit_index_ raft)%N →
  called d n raft g (λ _ _, True) (broadcast ps commit (w, (d, n))).
Proof.
  induction ps as [|p ps IH]; intros w d n raft g Hn Hpart Hrole Hc; [by apply called_none|].
  cbn [broadcast]. rewrite local_node_bind. case_decide; [by apply IH|].
  destruct (FindStoreByPeer (peer_id p) n) as [s|]; [|by apply IH].
  rewrite (local_raft_bind _ _ _ _ raft) by by eapply replica_raft.
  set (idx := u64 (last_log_index raft + 1)). clearbody idx.
  pose proof (ReplicateToStore_group s idx commit w d n raft g Hn Hpart Hrole Hc) as Hrep.
  unfold mbind at 1, M_bind at 1, ignore.
  destruct (ReplicateToStore s idx commit (w, (d, n))) as [q [w1 x1]].
  destruct Hrep as ([i Hi] & g1 & Hg1 & Hpart1 & _). cbn [fst snd] in *. subst x1.
  assert (called d n raft g (λ _ _, True) (broadcast ps commit (w1, (d, with_request_id i n)))) as Hnext.
  { apply (called_after d n i raft g g1 (λ _ _, True)); [exact Hg1 | done|].
    apply IH; try done. by apply replica_node_calls. }
  destruct q as [b|st|f]; [exact Hnext | exact Hnext|].
  apply (called_after d n i raft g g1 (λ _ _, True)); [exact Hg1 | done|]. by apply called_none.
Qed.

(** ** Elections *)

(** The region of the replica is the group. *)
Record shaped n g : Prop := {
  sh_self : peer_id (dn_local_peer n) = self;
  sh_peers : NoDup (peer_id <$> peers (dn_region n));
  sh_size : size (members (group g)) = length (peers (dn_region n));
  sh_addressed : addressed n (peers (dn_region n));
}.

Lemma shaped_later n n' g g' : shaped n g → same_identity n n' → reaches g g' → shaped n' g'.
Proof.
  intros [Hs Hnd Hsize Ha] (Hr & _ & Hp & Hst) (_ & _ & Hsize')%reaches_grows.
  split; rewrite ?Hr, ?Hp; [done | done | congruence|].
  eapply list.Forall_impl; [exact Ha|]. intros q Hq s. unfold FindStoreByPeer. rewrite Hr, Hst. apply Hq.
Qed.

Lemma elected_by_count g raft (qs : list Peer) ps request :
  NoDup (peer_id <$> ps) → qs `sublist_of` ps → size (members (group g)) = length ps →
  mkBallot self (rv_term request) self ∈ ballots (group g) → rv_candidate_id request = self →
  rv_term request = current_term_ raft → Forall (voted_for_us g request) qs →
  ¬ 1 + length qs ≤ length ps `div` 2 → elected (current_term_ raft) self (group g).
Proof.
  intros Hnd Hsub Hsize Hown Hcand Hterm Hqs Hmaj. unfold elected. rewrite Hsize, <-Hterm.
  pose proof (count_peers ps qs self (voters (rv_term request) self (group g)) Hnd Hsub) as Hcount.
  assert (1 + length qs ≤ size (voters (rv_term request) self (group g))); [|lia].
  apply Hcount; [by apply elem_of_voters|]. eapply list.Forall_impl; [exact Hqs|].
  intros q [Hq Hb]. split; [done|]. apply elem_of_voters. by rewrite Hcand in Hb.
Qed.

(** What a request leaves behind, however it ends. *)
Definition lands n raft g (out : W * LocalW) raft' g' : Prop :=
  reaches g g' ∧ alive dir out.2 raft' ∧ takes_part out.1 g' raft' ∧ same_identity n out.2.2 ∧
  same_peer raft raft'.

Lemma lands_trans n n1 raft raft1 g g1 out raft' g' :
  reaches g g1 → same_identity n n1 → same_peer raft raft1 → lands n1 raft1 g1 out raft' g' →
  lands n raft g out raft' g'.
Proof. intros ? ? ? (? & ? & ? & ? & ?). split_and!; try done; by etrans. Qed.

(** The candidacy: the new term and vote saved, the request known to the group. *)
Lemma campaign_group w d n raft g :
  alive dir (d, n) raft → takes_part w g raft → peer_id (dn_local_peer n) = self →
  (current_term_ raft + 1 < two64)%N →
  let raft1 := BecomeCandidate raft in
  let request := mkVoteRequest (region_id (dn_region n)) (current_term_ raft1) (peer_id (dn_local_peer n))
    (last_log_index raft1) (last_log_term raft1) in
  ∃ d1 n1 g1, on_raft (modify BecomeCandidate) (d, n) = (Ok tt, (d, with_raft (Some raft1) n)) ∧
    PersistHardState (d, with_raft (Some raft1) n) = (Ok tt, (d1, n1)) ∧
    lands n raft g (w, (d1, n1)) raft1 g1 ∧ vote_request_ok request ∧
    request ∈ asked g1 ∧ mkBallot self (current_term_ raft1) self ∈ ballots (group g1).
Proof.
  intros Hw Hpart Hlocal Hterm raft1 request.
  pose proof (rn_peer _ _ _ (proj1 Hw)) as [Hp0 Hplt]. pose proof (rn_self _ _ _ (proj1 Hw)) as Hself.
  pose proof (ng_fits _ _ _ (rn_good _ _ _ (proj1 Hw))) as (Ht & Hv & _ & Hlen). cbn [snd] in *.
  destruct (role_step dir OnCandidate BecomeCandidate d n raft Hw eq_refl Hterm)
    as (d1 & n1 & Hc1 & Hs1 & Hw1 & _ & Hid1); [done | done | |].
  { split_and!; cbn; [by rewrite u64_small | congruence | congruence | done]. }
  destruct (own_event w g raft (Campaign self) Hpart eq_refl) as [Hpart1 Hg1].
  { unfold can_happen. cbn [who]. by rewrite (proj2 Hpart). }
  destruct (happen_fields (Campaign self) g raft (proj2 Hpart)) as (_ & Hballots & Hasked & _).
  exists d1, n1, (happen (Campaign self) g). split; [exact Hc1|]. split; [exact Hs1|].
  split; [by split_and!|].
  assert (current_term_ raft1 ≠ 0%N) as Hnz by (cbn; rewrite u64_small by done; lia).
  destruct (candidate_request dir d1 n1 raft1 (proj1 Hw1) Hnz) as [Hrq _].
  pose proof Hid1 as (Hr1 & _ & Hp1 & _). rewrite Hr1, Hp1 in Hrq. split; [exact Hrq|]. split.
  - rewrite Hasked. pose proof (rn_good _ _ _ (proj1 Hw)) as [_ _ _ Hreg _ _ _ _]. cbn [snd] in Hreg.
    unfold asks, vote_request. fold raft1. change (region_id_ raft1) with (region_id_ raft).
    change (self_id_ raft1) with (self_id_ raft). rewrite Hreg, Hself. apply list_elem_of_here.
  - rewrite Hballots. change (casts (Campaign self) raft) with [(current_term_ raft1, self_id_ raft)].
    rewrite Hself, Hlocal. apply list_elem_of_here.
Qed.

(** The end of a won election. *)
Lemma lead_group w d n raft g :
  alive dir (d, n) raft → takes_part w g raft → role_ raft = kCandidate →
  elected (current_term_ raft) self (group g) →
  ∃ d1 n1 g1, on_raft (modify BecomeLeader) (d, n) = (Ok tt, (d, with_raft (Some (BecomeLeader raft)) n)) ∧
    PersistHardState (d, with_raft (Some (BecomeLeader raft)) n) = (Ok tt, (d1, n1)) ∧
    lands n raft g (w, (d1, n1)) (BecomeLeader raft) g1.
Proof.
  intros Hw Hpart Hrole Hel.
  destruct (role_step dir OnLeader BecomeLeader d n raft Hw eq_refl I)
    as (d1 & n1 & Hc1 & Hs1 & Hw1 & _ & Hid1); [done | done | |].
  { exact (ng_fits _ _ _ (rn_good _ _ _ (proj1 Hw))). }
  destruct (own_event w g raft (Lead self) Hpart eq_refl) as [Hpart1 Hg1].
  { unfold can_happen. cbn [who]. by rewrite (proj2 Hpart). }
  exists d1, n1, (happen (Lead self) g). split; [exact Hc1|]. split; [exact Hs1|]. by split_and!.
Qed.

Lemma EnsureLeader_group w d n raft g :
  alive dir (d, n) raft → takes_part w g raft → shaped n g → (current_term_ raft + 1 < two64)%N →
  let '(r, out) := EnsureLeader (w, (d, n)) in
  ∃ raft' g', lands n raft g out raft' g' ∧ log_ raft' = log_ raft ∧ (r = Ok tt → role_ raft' = kLeader).
Proof.
  intros Hw Hpart Hshape Hterm. pose proof (replica_raft _ _ _ _ (proj1 Hw)) as Hr.
  unfold EnsureLeader. rewrite local_node_bind, Hr.
  case_decide as Hrole; [by exists raft, g|]. destruct (negb _); [by exists raft, g|].
  destruct (campaign_group w d n raft g Hw Hpart (sh_self _ _ Hshape) Hterm)
    as (d1 & n1 & g1 & Hc1 & Hs1 & Hland1 & Hrq & Hreq & Hown).
  pose proof Hland1 as (Hg1 & Hw1 & Hpart1 & Hid1 & Hpeer1). cbn [fst snd] in Hw1, Hpart1, Hid1.
  set (raft1 := BecomeCandidate raft) in *.
  run_call ltac:(apply local_run; exact Hc1). run_call ltac:(apply local_run; exact Hs1).
  rewrite (local_raft_bind _ _ _ _ raft1) by by eapply replica_raft, Hw1.
  set (request := mkVoteRequest _ _ _ _ _) in *.
  pose proof (shaped_later _ _ _ _ Hshape Hid1 Hg1) as [Hs1' Hnd1 Hsize1 Haddr1].
  pose proof Hid1 as (Hreg1 & _). rewrite Hreg1 in Hnd1, Hsize1, Haddr1.
  pose proof (request_votes_group (peers (dn_region n)) request 1 w d1 n1 raft1 g1 Hpart1 Hs1' Haddr1
    Hreq Hrq) as Hvotes.
  unfold mbind at 1, M_bind at 1. destruct (request_votes _ _ _ _) as [q [w2 x2]].
  destruct Hvotes as ([i Hi] & g2 & Hg2 & Hpart2 & Hcount). cbn [fst snd] in *. subst x2.
  pose proof (alive_calls _ _ _ _ i Hw1) as Hw2.
  assert (lands n raft g (w2, (d1, with_request_id i n1)) raft1 g2) as Hland2
    by (split_and!; [by etrans | done..]).
  destruct q as [votes|st|f]; [|by exists raft1, g2..]. case_decide as Hmaj; [by exists raft1, g2|].
  destruct (Hcount votes eq_refl) as (qs & Hsub & -> & Hqs).
  destruct (lead_group w2 d1 (with_request_id i n1) raft1 g2 Hw2 Hpart2 eq_refl)
    as (d3 & n3 & g3 & Hc3 & Hs3 & Hland3).
  { eapply (elected_by_count g2 raft1 qs (peers (dn_region n)) request); try done.
    - pose proof (reaches_grows _ _ Hg2) as (_ & _ & ->). done.
    - pose proof (reaches_grows _ _ Hg2) as (_ & Hb & _). by apply Hb.
    - unfold request. cbn. apply Hshape. }
  run_call ltac:(apply local_run; exact Hc3).
  rewrite (local_run PersistHardState w2 _ (Ok tt) (d3, n3)) by exact Hs3.
  exists (BecomeLeader raft1), g3. split; [|done].
  apply (lands_trans n (with_request_id i n1) raft raft1 g g2); [by etrans | done | done | exact Hland3].
Qed.

(** ** Writes *)

(** The proposal: the entry on disk, taken by the leader itself. *)
Lemma propose_group w d n raft g command :
  alive dir (d, n) raft → takes_part w g raft → role_ raft = kLeader →
  (N.of_nat (length (log_ raft)) + 1 < two64)%N → command_ok command → command ≠ "" →
  let e := proposed raft command in
  ∃ d1 n1 g1, on_raft (Propose kNormal command) (d, n) = (Ok e, (d, with_raft (Some (push_entry e raft)) n)) ∧
    append_to_storage e (d, with_raft (Some (push_entry e raft)) n) = (Ok tt, (d1, n1)) ∧
    lands n raft g (w, (d1, n1)) (push_entry e raft) g1 ∧
    (self, current_term_ raft, S (length (log_ raft))) ∈ held g1.
Proof.
  intros Hw Hpart Hrole Hlen Hcmd Hne e.
  destruct (propose_alive dir d n raft command Hw Hrole Hlen Hcmd Hne)
    as (d1 & n1 & Hprop & Hstore & Hw1 & [_ Hpeer] & Hid1). fold e in Hprop, Hstore, Hw1, Hpeer.
  destruct (own_event w g raft (Offer self kNormal command) Hpart eq_refl) as [Hpart1 Hg1].
  { unfold can_happen. cbn [who]. by rewrite (proj2 Hpart). }
  pose proof (rn_good _ _ _ (proj1 Hw)) as [_ _ _ _ Hwf _ _ _].
  destruct (offer_run self kNormal command raft Hwf Hrole Hlen) as [Hnext _].
  change (offered kNormal command raft) with e in Hnext. rewrite Hnext in Hpart1.
  exists d1, n1, (happen (Offer self kNormal command) g). split; [exact Hprop|]. split; [exact Hstore|].
  split; [by split_and!|].
  destruct (happen_fields (Offer self kNormal command) g raft (proj2 Hpart)) as (_ & _ & _ & _ & ->).
  cbn [takes_up]. rewrite decide_True by done. apply list_elem_of_here.
Qed.

(** The commit, once a majority has the entry. *)
Lemma commit_group w d n raft g e :
  alive dir (d, n) raft → takes_part w g raft → role_ raft = kLeader → last (log_ raft) = Some e →
  e_term e = current_term_ raft →
  size (members (group g)) `div` 2 < size (holders (current_term_ raft) (length (log_ raft)) g) →
  let raft' := applied (SetCommitIndex (e_index e) raft) in
  ∃ d1 n1 d2 n2 g1,
    on_raft (modify (SetCommitIndex (e_index e))) (d, n) =
      (Ok tt, (d, with_raft (Some (SetCommitIndex (e_index e) raft)) n)) ∧
    ApplyCommitted (d, with_raft (Some (SetCommitIndex (e_index e) raft)) n) = (Ok tt, (d1, n1)) ∧
    PersistHardState (d1, n1) = (Ok tt, (d2, n2)) ∧
    lands n raft g (w, (d2, n2)) raft' g1 ∧ e_index e = N.of_nat (length (log_ raft)) ∧
    commit_index_ raft' = e_index e.
Proof.
  intros Hw Hpart Hrole Hlast Hterm Hmaj raft'.
  destruct (commit_alive dir d n raft e Hw Hlast)
    as (d1 & n1 & d2 & n2 & Hset & Happly & Hsave & Hw2 & [_ Hpeer] & Hid2). fold raft' in Hw2, Hpeer.
  pose proof (rn_good _ _ _ (proj1 Hw)) as [_ _ _ _ Hwf _ _ _].
  assert (last_log_index raft = e_index e) as Hix by (unfold last_log_index; by rewrite Hlast).
  destruct (own_event w g raft (Commit self) Hpart eq_refl) as [Hpart1 Hg1].
  { unfold can_happen. cbn [who]. rewrite (proj2 Hpart). split; [done|]. split; [|done].
    unfold last_log_term. by rewrite Hlast. }
  change (next (Commit self) raft) with (SetCommitIndex (last_log_index raft) raft) in Hpart1.
  rewrite Hix in Hpart1.
  destruct (own_event w _ _ (Apply self) Hpart1 eq_refl) as [Hpart2 Hg2].
  { unfold can_happen. cbn [who]. by rewrite (proj2 Hpart1). }
  assert (next (Apply self) (SetCommitIndex (e_index e) raft) = raft') as Hnext.
  { unfold next. cbn [does perform]. rewrite TakeCommittedEntries_spec; [done|].
    rewrite <-Hix. eapply (raft_step_wf raft); [exists (OnCommit (last_log_index raft)) | done].
    split; [|done]. destruct Hwf as [? ? ?]. cbn. rewrite wf_last_index by done. lia. }
  rewrite Hnext in Hpart2.
  exists d1, n1, d2, n2, (happen (Apply self) (happen (Commit self) g)).
  split; [exact Hset|]. split; [exact Happly|]. split; [exact Hsave|].
  split; [split_and!; try done; by etrans|]. rewrite <-Hix. split; [by apply wf_last_index|].
  cbn. rewrite Hix. apply N.min_id.
Qed.

(** The count of a write is a majority that took the entry. *)
Lemma held_by_count g raft (qs : list Peer) ps :
  NoDup (peer_id <$> ps) → qs `sublist_of` ps → size (members (group g)) = length ps →
  (self, current_term_ raft, length (log_ raft)) ∈ held g → Forall (took_all raft g) qs →
  ¬ 1 + length qs ≤ length ps `div` 2 →
  size (members (group g)) `div` 2 < size (holders (current_term_ raft) (length (log_ raft)) g).
Proof.
  intros Hnd Hsub Hsize Hown Hqs Hmaj. rewrite Hsize.
  set (X := holders (current_term_ raft) (length (log_ raft)) g).
  assert (∀ v, (v, current_term_ raft, length (log_ raft)) ∈ held g → v ∈ X) as HX
    by (intros v Hv; apply elem_of_holders; by exists (length (log_ raft))).
  assert (1 + length qs ≤ size X); [|lia].
  apply (count_peers ps qs self X Hnd Hsub); [by apply HX|].
  eapply list.Forall_impl; [exact Hqs|]. intros q [Hq Hh]. split; [done | by apply HX].
Qed.

(** A write from its proposal on: replicate, commit, announce. *)
Lemma spread_group w d n raft g e :
  alive dir (d, n) raft → takes_part w g raft → shaped n g → role_ raft = kLeader →
  last (log_ raft) = Some e → e_term e = current_term_ raft →
  (self, current_term_ raft, length (log_ raft)) ∈ held g →
  let '(r, out) :=
    (replicated ← replicate_all (peers (dn_region n)) (e_index e) 1;
     if decide (replicated ≤ length (peers (dn_region n)) `div` 2) then
       fail (Internal "failed to replicate entry to majority")
     else
       _ ← local (on_raft (modify (SetCommitIndex (e_index e))));
       _ ← local ApplyCommitted;
       _ ← local PersistHardState;
       BroadcastCommit (e_index e)) (w, (d, n)) in
  ∃ raft' g', lands n raft g out raft' g' ∧ log_ raft' = log_ raft ∧
    (r = Ok tt → commit_index_ raft' = N.of_nat (length (log_ raft))).
Proof.
  intros Hw Hpart Hshape Hrole Hlast Hterm Hown. pose proof Hshape as [Hself Hnd Hsize Haddr].
  pose proof (replicate_all_group (peers (dn_region n)) (e_index e) 1 w d n raft g
    (proj1 Hw) Hpart Hrole Hself Haddr) as Hall.
  unfold mbind at 1, M_bind at 1. destruct (replicate_all _ _ _ _) as [q [w1 x1]].
  destruct Hall as ([i Hi] & g1 & Hg1 & Hpart1 & Hcount). cbn [fst snd] in *. subst x1.
  pose proof (alive_calls _ _ _ _ i Hw) as Hw1.
  assert (lands n raft g (w1, (d, with_request_id i n)) raft g1) as Hland1 by by split_and!.
  destruct q as [k|st|f]; [|by exists raft, g1..]. case_decide as Hmaj; [by exists raft, g1|].
  destruct (Hcount k eq_refl) as (qs & Hsub & -> & Hqs).
  pose proof (reaches_grows _ _ Hg1) as (Hheld & _ & Hsize1).
  destruct (commit_group w1 d (with_request_id i n) raft g1 e Hw1 Hpart1 Hrole Hlast Hterm)
    as (d2 & n2 & d3 & n3 & g2 & Hset & Happly & Hsave & Hland2 & Hix & Hci).
  { eapply (held_by_count g1 raft qs (peers (dn_region n))); try done; [congruence | by apply Hheld]. }
  set (raft' := applied (SetCommitIndex (e_index e) raft)) in *.
  pose proof Hland2 as (Hg2 & Hw3 & Hpart3 & Hid3 & _). cbn [fst snd] in Hw3, Hpart3, Hid3.
  run_call ltac:(apply local_run; exact Hset). run_call ltac:(apply local_run; exact Happly).
  run_call ltac:(apply local_run; exact Hsave). unfold BroadcastCommit. rewrite local_node_bind.
  pose proof (broadcast_group (peers (dn_region n3)) (e_index e) w1 d3 n3 raft' g2 (proj1 Hw3) Hpart3 Hrole) as Hb.
  destruct (broadcast _ _ _) as [q [w4 x4]].
  destruct Hb as ([j Hj] & g3 & Hg3 & Hpart4 & _); [by rewrite Hci|]. cbn [fst snd] in *. subst x4.
  exists raft', g3. split; [|split; [done|]; intros _; congruence].
  apply (lands_trans n (with_request_id i n) raft raft g g1); [done..|].
  apply (lands_trans (with_request_id i n) n3 raft raft' g1 g2); [done | done | apply Hland2|].
  split_and!; try done. by apply alive_calls.
Qed.

(** What success means: the entry is the last of the leader's log, and committed. *)
Definition committed_last raft command raft' : Prop :=
  ∃ e, e_command e = command ∧ log_ raft' = log_ raft ++ [e] ∧
    commit_index_ raft' = N.of_nat (length (log_ raft')).

Lemma ProposeAndReplicate_group w d n raft g command :
  alive dir (d, n) raft → takes_part w g raft → shaped n g → (current_term_ raft + 1 < two64)%N →
  (N.of_nat (length (log_ raft)) + 1 < two64)%N → command_ok command → command ≠ "" →
  let '(r, out) := ProposeAndReplicate command (w, (d, n)) in
  ∃ raft' g', lands n raft g out raft' g' ∧ (r = Ok tt → committed_last raft command raft').
Proof.
  intros Hw Hpart Hshape Hterm Hlen Hcmd Hne. unfold ProposeAndReplicate.
  pose proof (EnsureLeader_group w d n raft g Hw Hpart Hshape Hterm) as Hlead.
  unfold mbind at 1, M_bind at 1. destruct (EnsureLeader (w, (d, n))) as [q [w1 [d1 n1]]].
  destruct Hlead as (raft1 & g1 & Hland1 & Hl1 & Hrole). pose proof Hland1 as (Hg1 & Hw1 & Hpart1 & Hid1 & Hpeer1).
  cbn [fst snd] in *. destruct q as [[]|st|f]; [|by exists raft1, g1..]. specialize (Hrole eq_refl).
  rewrite <-Hl1 in Hlen.
  destruct (propose_group w1 d1 n1 raft1 g1 command Hw1 Hpart1 Hrole Hlen Hcmd Hne)
    as (d2 & n2 & g2 & Hprop & Hstore & Hland2 & Hown).
  set (e := proposed raft1 command) in *. set (raft2 := push_entry e raft1) in *.
  pose proof Hland2 as (Hg2 & Hw2 & Hpart2 & Hid2 & Hpeer2). cbn [fst snd] in Hw2, Hpart2, Hid2.
  run_call ltac:(apply local_run; exact Hprop). run_call ltac:(apply local_run; exact Hstore).
  rewrite local_node_bind.
  assert (length (log_ raft2) = S (length (log_ raft1))) as Hlen2 by (cbn; rewrite length_app; cbn; lia).
  assert (lands n raft g (w1, (d2, n2)) raft2 g2) as Hl2 by by eapply lands_trans.
  pose proof Hl2 as (Hg02 & _ & _ & Hid02 & Hpeer02). cbn [snd] in Hid02.
  pose proof (spread_group w1 d2 n2 raft2 g2 e Hw2 Hpart2 (shaped_later _ _ _ _ Hshape Hid02 Hg02) Hrole
    (last_snoc _ _) eq_refl) as Hspread. rewrite Hlen2 in Hspread. specialize (Hspread Hown).
  match type of Hspread with context [let '(_, _) := ?m in _] => destruct m as [r out] end.
  destruct Hspread as (raft3 & g3 & Hland3 & Hl3 & Hci).
  exists raft3, g3. split; [by eapply lands_trans|].
  intros Hr. exists e. rewrite Hl3, <-Hl1. split; [done|]. split; [done|]. rewrite Hlen2. by apply Hci.
Qed.

(** ** Messages *)

(** The group sent the message. *)
Definition was_sent (x : duty) g : Prop :=
  match x with
  | Serves (VoteMessage r) => r ∈ asked g
  | Serves (AppendMessage r) => r ∈ sent g
  | _ => True
  end.

Lemma serve_group w d n raft g m :
  alive dir (d, n) raft → takes_part w g raft → message_ok (region_id_ raft) m → was_sent (Serves m) g →
  ∃ x raft' g', serve_message m (d, n) = (Ok tt, x) ∧ lands n raft g (w, x) raft' g'.
Proof.
  intros Hw Hpart Hm Hsent.
  destruct (serve_alive dir d n raft m Hw Hm) as (d' & n' & raft' & Hrun & Hw' & [_ Hpeer] & Hid).
  pose proof (replica_raft _ _ _ _ (proj1 Hw')) as Hraft'.
  exists (d', n'), raft'. cut (∃ g', reaches g g' ∧ takes_part w g' raft').
  { intros (g' & ? & ?). exists g'. split; [exact Hrun | by split_and!]. }
  destruct m as [r | r]; cbn [serve_message was_sent message_ok] in *.
  - destruct (HandleRequestVote_good dir d n raft r (rn_good _ _ _ (proj1 Hw)) Hm) as (d1 & e1 & Hrun1 & _).
    erewrite bind_ok in Hrun by exact Hrun1. injection Hrun as _ <-. injection Hraft' as <-.
    destruct (own_event w g raft (Vote self r) Hpart eq_refl) as [Hpart1 Hg1].
    { unfold can_happen. cbn [who]. by rewrite (proj2 Hpart). }
    by exists (happen (Vote self r) g).
  - destruct (HandleAppendEntries_good dir d n raft r (rn_good _ _ _ (proj1 Hw)) Hm)
      as (resp & raft1 & d1 & e1 & Hq & Hrun1 & _).
    erewrite bind_ok in Hrun by exact Hrun1. injection Hrun as _ <-. injection Hraft' as <-.
    destruct (own_event w g raft (Append self r) Hpart eq_refl) as [Hpart1 Hg1].
    { unfold can_happen. cbn [who]. by rewrite (proj2 Hpart). }
    assert (next (Append self r) raft = raft1) as Hnext by (unfold next; cbn [does perform]; by rewrite Hq).
    rewrite Hnext in Hpart1. destruct (ae_success resp); [|by exists (happen (Append self r) g)].
    destruct (own_event w _ raft1 (Apply self) Hpart1 eq_refl) as [Hpart2 Hg2].
    { unfold can_happen. cbn [who]. by rewrite (proj2 Hpart1). }
    assert (next (Apply self) raft1 = applied raft1) as Hnext2.
    { unfold next. cbn [does perform]. rewrite TakeCommittedEntries_spec; [done|].
      eapply (raft_step_wf raft); [exists (OnAppend r); split; [apply Hm | cbn; by rewrite Hq] | apply Hw]. }
    rewrite Hnext2 in Hpart2. exists (happen (Apply self) (happen (Append self r) g)). split; [by etrans | done].
Qed.
End replica.

(** * The life of a replica in the group *)

Section joined.
Context {W : Type} `{!Transport W}.
Context (data_dir : string) (local_store : StoreInfo) (stores : list StoreInfo).
Context (region : RegionInfo) (p : Peer) `{!GroupNetwork W (peer_id p)}.

(** The group as it starts: the peers of the region. *)
Definition peers_net : Net := new_net (peer_id <$> peers region) (region_id region).

(** The replica lives as one node of a group that went through events only. *)
Definition plays (w : W * LocalW) (g : Net) : Prop :=
  ∃ raft, living (Net := W) data_dir region p w raft ∧ dn_stores w.2.2 = stores ∧
    takes_part (peer_id p) w.1 g raft ∧ reaches peers_net g.

(** The stores of the other peers are where the replica looks for them. *)
Definition stores_known : Prop :=
  ∀ q s, q ∈ peers region → List.find (λ s, (store_id s =? peer_store_id q)%N) stores = Some s →
    node_of (client_endpoint s) = peer_id q.

Context (Hp : local_peer_of local_store region = Some p).
Context (Hvalid : (region_id region < two64)%N ∧ peer_id p ≠ 0%N ∧ (peer_id p < two64)%N).
Context (Hpeers : NoDup (peer_id <$> peers region)) (Hstores : stores_known).

Lemma find_peer (ps : list Peer) q :
  NoDup (peer_id <$> ps) → q ∈ ps → List.find (λ p, (peer_id p =? peer_id q)%N) ps = Some q.
Proof.
  induction ps as [|x ps IH]; intros Hnd Hq; [by apply elem_of_nil in Hq|].
  apply NoDup_cons in Hnd as [Hx Hnd]. cbn.
  apply elem_of_cons in Hq as [-> | Hq]; [by rewrite N.eqb_refl|].
  destruct (N.eqb_spec (peer_id x) (peer_id q)) as [Heq|]; [|by apply IH].
  destruct Hx. rewrite Heq. by apply list_elem_of_fmap_2.
Qed.

Lemma plays_shaped w d n raft g :
  living (Net := W) data_dir region p (w, (d, n)) raft → dn_stores n = stores → reaches peers_net g →
  shaped (peer_id p) n g.
Proof.
  intros [_ _ Hps Hl _] Hst (_ & _ & Hsize)%reaches_grows. cbn [snd] in *. split; rewrite ?Hps; try done.
  - by rewrite Hl.
  - rewrite Hsize. cbn. rewrite <-size_dom, dom_list_to_map_L.
    rewrite size_list_to_set; [by rewrite !length_fmap|].
    by rewrite <-list_fmap_compose, list_fmap_id.
  - unfold addressed. rewrite list.Forall_forall. intros q Hq s. unfold FindStoreByPeer. rewrite Hps, Hst, find_peer by done.
    by apply Hstores.
Qed.

Lemma lands_plays w d n raft g out raft' g' :
  living (Net := W) data_dir region p (w, (d, n)) raft → dn_stores n = stores → reaches peers_net g →
  lands (peer_id p) (node_dir data_dir region) n raft g out raft' g' → plays out g'.
Proof.
  intros [_ Hr Hps Hl Hsame] Hst Hg (Hg' & Hw' & Hpart' & (Hr' & _ & Hl' & Hst') & Hpeer'). cbn [snd] in *.
  exists raft'. split; [|split; [congruence | split; [done | by etrans]]].
  split; [exact Hw' | congruence | congruence | congruence | by etrans].
Qed.

Lemma local_in_peers : p ∈ peers region.
Proof.
  unfold local_peer_of, FindPeerByStore in Hp. apply List.find_some in Hp as [Hin _].
  by apply list_elem_of_In.
Qed.

Lemma born_plays w :
  born data_dir local_store stores region w → views w.1 peers_net → plays w peers_net.
Proof.
  intros Hborn Hv. exists (fresh_raft p region).
  split; [by apply (born_living data_dir local_store stores)|]. split; [|split; [split; [done|] | done]].
  - destruct w as [net w], Hborn as (d & Hd & Hf & Hrun).
    destruct (Bootstrap_fresh data_dir local_store stores region p d Hd Hf Hp) as (d' & e & Hrun' & _).
    cbn [snd] in *. rewrite Hrun in Hrun'. by apply pair_equal_spec in Hrun' as [_ ->].
  - cbn. unfold fresh_raft. apply elem_of_list_to_map_1.
    + by rewrite <-list_fmap_compose, list_fmap_id.
    + apply list_elem_of_fmap. exists (peer_id p). split; [done|].
      apply list_elem_of_fmap_2, local_in_peers.
Qed.

(** A process that starts again. *)
Lemma restart_plays w d n raft g r :
  living (Net := W) data_dir region p (w, (d, n)) raft → takes_part (peer_id p) w g raft → reaches peers_net g →
  region_id r = region_id region → peers r = peers region →
  ∃ g', reaches g g' ∧ plays (do_duty data_dir local_store stores (Restarts r) (w, (d, n))).2 g'.
Proof.
  intros Hw Hpart Hg Hr Hps.
  destruct (restart_living data_dir local_store stores region p Hp Hvalid w d n raft r Hw Hr Hps)
    as (w' & -> & Hw' & _ & Hst).
  destruct (own_event (peer_id p) w g raft (Crash (peer_id p) (commit_index_ raft) (last_applied_ raft)) Hpart eq_refl)
    as [Hpart' Hg'].
  { unfold can_happen. cbn [who]. by rewrite (proj2 Hpart). }
  eexists. split; [exact Hg'|]. eexists. split; [exact Hw'|]. split; [exact Hst|]. split; [exact Hpart' | by etrans].
Qed.

Lemma duty_plays x w g :
  plays w g → duty_ok region x w → was_sent x g →
  ∃ g', reaches g g' ∧ plays (do_duty data_dir local_store stores x w).2 g'.
Proof.
  destruct w as [w [d n]]. intros (raft & Hw & Hst & Hpart & Hg) Hok Hsent.
  specialize (Hok raft (living_raft _ _ _ _ _ Hw)).
  pose proof (plays_shaped _ _ _ _ _ Hw Hst Hg) as Hshape. pose proof Hw as [Halive _ _ _ Hsame].
  cbn [fst snd] in *. destruct x as [m | command | target | r]; cbn [do_duty].
  - assert (region_id_ raft = region_id region) as Hid by apply Hsame. rewrite <-Hid in Hok.
    destruct (serve_group (peer_id p) _ w d n raft g m Halive Hpart Hok Hsent) as (x & raft' & g' & Hrun & Hland).
    rewrite (local_run _ w (d, n) _ _ Hrun). exists g'. split; [apply Hland | by eapply lands_plays].
  - destruct Hok as (Hcmd & Hne & Hterm & Hlen).
    pose proof (ProposeAndReplicate_group (peer_id p) _ w d n raft g command Halive Hpart Hshape Hterm Hlen Hcmd Hne) as Hrun.
    destruct (ProposeAndReplicate command _) as [q out]. destruct Hrun as (raft' & g' & Hland & _).
    exists g'. split; [apply Hland | by eapply lands_plays].
  - unfold TransferLeader. rewrite local_node_bind. destruct (negb _); [by exists g; split; [|exists raft]|].
    set (n1 := with_region (region_led target (dn_region n)) n).
    pose proof (alive_led _ d n raft target Halive) as Hw1. fold n1 in Hw1.
    assert (shaped (peer_id p) n1 g) as Hshape1 by by destruct Hshape.
    pose proof (EnsureLeader_group (peer_id p) _ w d n1 raft g Hw1 Hpart Hshape1 Hok) as Hrun.
    change ((_ ← local (update_node _); EnsureLeader) (w, (d, n))) with (EnsureLeader (w, (d, n1))).
    destruct (EnsureLeader (w, (d, n1))) as [q out]. destruct Hrun as (raft' & g' & Hland & _).
    exists g'. split; [apply Hland|]. eapply (lands_plays w d n1 raft); [|done..].
    destruct Hw as [_ ? ? ? ?]. by split.
  - destruct Hok as [Hr Hps]. by eapply restart_plays.
Qed.
End joined.
