(* ===== verification/ReplicaSafety.v ===== *)
(** What the group gives the replicas of src/store/distributed_region_node.cpp, with a
    network on which everything is possible: each call follows a plan of what the
    other nodes do meanwhile, whether the request arrives and whether the answer does. *)

From S2P Require Import Prelude Types Raft RaftSafety Consensus ConsensusSafety.
From S2P Require Import Text Codec Service Engine RaftStorage Keyspace RaftWire.
From S2P Require Import Distributed DistributedSpec NodeRestart Replication ReplicaLife ReplicaGroup.

(** * A network with a plan *)

(** One call: what the others do before it, whether it arrives, and its answer. *)
Record turn := mkTurn { meanwhile : list event; arrives : bool; answered : bool }.

Record Sched := mkSched { world : Net; plan : list turn }.

(** The others' events that can happen, in order. *)
Fixpoint allowed (self : N) (es : list event) (g : Net) : list event :=
  match es with
  | [] => []
  | e :: rest =>
      if decide (who e ≠ self ∧ can_happen e g) then e :: allowed self rest (happen e g)
      else allowed self rest g
  end.

(** A request on the wire, and its delivery to a node. *)
Definition wire_request (rq : RpcRequest) : option raft_message :=
  match DecodeFields (rq_payload rq) with
  | Ok fields =>
      if decide (rq_method rq = "store.RaftRequestVote") then
        match GetRequestVoteFields fields with Ok r => Some (VoteMessage r) | _ => None end
      else if decide (rq_method rq = "store.RaftAppendEntries") then
        match GetAppendEntriesFields fields with Ok r => Some (AppendMessage r) | _ => None end
      else None
  | _ => None
  end.

Definition delivery (j : N) (m : raft_message) : event :=
  match m with VoteMessage r => Vote j r | AppendMessage r => Append j r end.

(** The request is on its way. *)
Definition posted (m : raft_message) (g : Net) : Net :=
  match m with
  | VoteMessage r => mkNet (group g) (r :: asked g) (sent g) (held g)
  | AppendMessage r => mkNet (group g) (asked g) (r :: sent g) (held g)
  end.

(** What the node answers, on the wire. *)
Definition reply (m : raft_message) (n : RaftNode) : option FieldMap :=
  match m with
  | VoteMessage r =>
      let resp := (Raft.HandleRequestVote r n).1 in
      if decide (rv_resp_term resp < two64)%N then Some (PutRequestVoteResponseFields ∅ resp) else None
  | AppendMessage r =>
      match (Raft.HandleAppendEntries r n).1 with
      | Ok resp =>
          if decide (ae_resp_term resp < two64 ∧ ae_match_index resp < two64)%N
          then Some (PutAppendEntriesResponseFields ∅ resp) else None
      | _ => None
      end
  end.

Definition no_answer (rq : RpcRequest) : RpcResponse :=
  MakeRpcError rq (ErrorCodeName kRpcError) "failed to read tcp rpc response".

(** A call at the node [j]. *)
Definition sched_call (self j : N) (rq : RpcRequest) (s : Sched) : RpcResponse * Sched :=
  match wire_request rq, plan s with
  | Some m, t :: later =>
      let g0 := posted m (world s) in
      let g1 := run_net (allowed self (meanwhile t) g0) g0 in
      if arrives t then
        let g2 := run_net (allowed self [delivery j m] g1) g1 in
        match members (group g1) !! j with
        | Some n =>
            match reply m n with
            | Some fields =>
                if answered t && bool_decide (j ≠ self)
                then (MakeRpcOk rq (EncodeFields fields), mkSched g2 later)
                else (no_answer rq, mkSched g2 later)
            | None => (no_answer rq, mkSched g2 later)
            end
        | None => (no_answer rq, mkSched g2 later)
        end
      else (no_answer rq, mkSched g1 later)
  | _, _ => (no_answer rq, s)
  end.

(** * It keeps the contract *)

(** The world the network knows and the group differ in the node [self] only, and
    the network knows no message, ballot or acknowledgement the group does not. *)
Record agrees (self : N) (w g : Net) : Prop := {
  ag_nodes j : j ≠ self → members (group w) !! j = members (group g) !! j;
  ag_size : size (members (group w)) = size (members (group g));
  ag_ballots : ballots (group w) ⊆ ballots (group g);
  ag_asked : asked w ⊆ asked g;
  ag_sent : sent w ⊆ sent g;
  ag_held : held w ⊆ held g;
}.

Lemma subset_app_both {A} (k l l' : list A) : l ⊆ l' → k ++ l ⊆ k ++ l'.
Proof. intros Hl x [Hx | Hx]%elem_of_app; apply elem_of_app; [by left | right; by apply Hl]. Qed.

Lemma subset_app_later {A} (k l l' : list A) : l ⊆ l' → l ⊆ k ++ l'.
Proof. intros Hl x Hx. apply elem_of_app. right. by apply Hl. Qed.

Lemma voters_grow t c g g' : ballots g ⊆ ballots g' → voters t c g ⊆ voters t c g'.
Proof. intros Hb v Hv%elem_of_voters. apply elem_of_voters. by apply Hb. Qed.

Lemma agrees_can self w g e : agrees self w g → who e ≠ self → can_happen e w → can_happen e g.
Proof.
  intros [Hn Hsize Hb Ha Hs Hh] He. unfold can_happen. rewrite (Hn _ He).
  destruct (members (group g) !! who e) as [n|]; [|done].
  destruct e as [|i r|i| | |i r|i| | |]; try done.
  - apply Ha.
  - intros [Hr Hel]. split; [done|]. unfold elected in *. rewrite <-Hsize.
    pose proof (subseteq_size _ _ (voters_grow (current_term_ n) i _ _ Hb)). lia.
  - apply Hs.
  - intros (Hr & Ht & Hmaj). split_and!; [done..|]. rewrite <-Hsize.
    pose proof (subseteq_size _ _ (holders_grow (current_term_ n) (length (log_ n)) _ _ Hh)). lia.
Qed.

Lemma agrees_happen self w g e :
  agrees self w g → who e ≠ self → can_happen e w → agrees self (happen e w) (happen e g).
Proof.
  intros [Hn Hsize Hb Ha Hs Hh] He Hc. unfold can_happen in Hc.
  destruct (members (group w) !! who e) as [n|] eqn:Hw; [clear Hc|done].
  pose proof Hw as Hg. rewrite (Hn _ He) in Hg.
  destruct (happen_grows e w) as [_ Hsw], (happen_grows e g) as [_ Hsg].
  destruct (happen_fields e w n Hw) as (Hm1 & Hb1 & Ha1 & Hs1 & Hh1).
  destruct (happen_fields e g n Hg) as (Hm2 & Hb2 & Ha2 & Hs2 & Hh2).
  split; rewrite ?Hb1, ?Hb2, ?Ha1, ?Ha2, ?Hs1, ?Hs2, ?Hh1, ?Hh2; try by apply subset_app_both.
  - intros j Hj. rewrite Hm1, Hm2. destruct (decide (who e = j)) as [<-|Hne]; [by rewrite !lookup_insert_eq|].
    rewrite !lookup_insert_ne by done. by apply Hn.
  - congruence.
Qed.

Lemma agrees_run self es : ∀ w g,
  agrees self w g → Forall (λ e, who e ≠ self) es → can_run es w →
  can_run es g ∧ agrees self (run_net es w) (run_net es g).
Proof.
  induction es as [|e es IH]; intros w g Hag Hes Hrun; [done|].
  apply Forall_cons in Hes as [He Hes]. destruct Hrun as [Hc Hrun]. cbn [run_net can_run].
  destruct (IH (happen e w) (happen e g)) as [? ?]; [by apply agrees_happen | done..|].
  split; [|done]. split; [by eapply agrees_can | done].
Qed.

Lemma agrees_own self w g e : agrees self w g → who e = self → can_happen e g → agrees self w (happen e g).
Proof.
  intros [Hn Hsize Hb Ha Hs Hh] He Hc. unfold can_happen in Hc.
  destruct (members (group g) !! who e) as [n|] eqn:Hg; [clear Hc|done].
  destruct (happen_grows e g) as [_ Hsg].
  destruct (happen_fields e g n Hg) as (Hm2 & Hb2 & Ha2 & Hs2 & Hh2).
  split; rewrite ?Hb2, ?Ha2, ?Hs2, ?Hh2; try by apply subset_app_later.
  2: congruence.
  intros j Hj. rewrite Hm2, lookup_insert_ne by congruence. by apply Hn.
Qed.

Lemma allowed_run self es : ∀ g,
  Forall (λ e, who e ≠ self) (allowed self es g) ∧ can_run (allowed self es g) g.
Proof.
  induction es as [|e es IH]; intros g; cbn [allowed]; [by split; [constructor|]|].
  case_decide as He; [|apply IH]. destruct (IH (happen e g)) as [H1 H2].
  split; [constructor; [apply He | done] | split; [apply He | done]].
Qed.

Definition message_sent (m : raft_message) (g : Net) : Prop := was_sent (Serves m) g.

Lemma agrees_posted self m w g : agrees self w g → message_sent m g → agrees self (posted m w) g.
Proof. 
  intros [Hn Hsize Hb Ha Hs Hh] Hm. destruct m as [r|r]; split; cbn [posted group asked sent held]; try done;
    intros x [-> | Hx]%elem_of_cons; auto.
 Qed.

Lemma message_kept m es : ∀ g, message_sent m g → message_sent m (run_net es g).
Proof.
  induction es as [|e es IH]; intros g Hm; [done|]. cbn [run_net]. apply IH.
  destruct (members (group g) !! who e) as [n|] eqn:Hn; [|unfold happen; by rewrite Hn].
  destruct (happen_fields e g n Hn) as (_ & _ & Ha & Hs & _).
  destruct m as [r|r]; unfold message_sent in *; cbn [was_sent] in *; rewrite ?Ha, ?Hs;
    apply elem_of_app; by right.
Qed.

Lemma delivery_can_happen j m g n :
  members (group g) !! j = Some n → message_sent m g → can_happen (delivery j m) g.
Proof. intros Hn Hm. unfold can_happen. destruct m; cbn [delivery who]; by rewrite Hn. Qed.

(** A call goes on with the group; an answer is the node's. *)
Lemma sched_call_kept self j rq s m g response s' :
  agrees self (world s) g → message_sent m g → wire_request rq = Some m →
  sched_call self j rq s = (response, s') →
  ∃ es, Forall (λ e, who e ≠ self) es ∧ can_run es g ∧ agrees self (world s') (run_net es g) ∧
    (rs_ok response = true → ∃ n fields g1, rs_payload response = EncodeFields fields ∧
       reply m n = Some fields ∧ members (group g1) !! j = Some n ∧ run_net es g = happen (delivery j m) g1).
Proof.
  intros Hag Hm Hrq. unfold sched_call. rewrite Hrq.
  destruct (plan s) as [|t later].
  { intros [= <- <-]. by exists []. }
  set (g0 := posted m (world s)). set (g1 := run_net (allowed self (meanwhile t) g0) g0).
  pose proof (agrees_posted self m _ _ Hag Hm) as Hag0. fold g0 in Hag0.
  destruct (allowed_run self (meanwhile t) g0) as [Hes1 Hrun1].
  destruct (agrees_run self _ g0 g Hag0 Hes1 Hrun1) as [Hcan1 Hag1].
  set (es1 := allowed self (meanwhile t) g0) in *. fold g1 in Hag1.
  destruct (arrives t); [|intros [= <- <-]; by exists es1].
  destruct (allowed_run self [delivery j m] g1) as [Hes2 Hrun2].
  destruct (agrees_run self _ g1 _ Hag1 Hes2 Hrun2) as [Hcan2 Hag2].
  set (es2 := allowed self [delivery j m] g1) in *.
  assert (∀ q, rs_ok q = false → (q, mkSched (run_net es2 g1) later) = (response, s') →
    ∃ es, Forall (λ e, who e ≠ self) es ∧ can_run es g ∧ agrees self (world s') (run_net es g) ∧
    (rs_ok response = true → ∃ n fields g1, rs_payload response = EncodeFields fields ∧
       reply m n = Some fields ∧ members (group g1) !! j = Some n ∧ run_net es g = happen (delivery j m) g1)) as Hno.
  { intros q Hq [= <- <-]. exists (es1 ++ es2). rewrite run_net_app, can_run_app.
    split; [by apply Forall_app|]. split; [done|]. split; [done|]. intros Hyes. congruence. }
  destruct (members (group g1) !! j) as [n|] eqn:Hn; [|by apply Hno].
  destruct (reply m n) as [fields|] eqn:Hreply; [|by apply Hno].
  destruct (answered t && bool_decide (j ≠ self)) eqn:Hans; [|by apply Hno].
  apply andb_prop in Hans as [_ Hj%bool_decide_eq_true]. intros [= <- <-].
  assert (es2 = [delivery j m]) as Heq.
  { unfold es2. cbn [allowed]. rewrite decide_True; [done|]. split; [by destruct m|].
    apply (delivery_can_happen _ _ _ n Hn), message_kept. unfold g0, message_sent.
    destruct m; apply list_elem_of_here. }
  exists (es1 ++ es2). rewrite run_net_app, can_run_app. split; [by apply Forall_app|].
  split; [done|]. split; [done|]. intros _. exists n, fields, (run_net es1 g).
  rewrite Heq. split_and!; try done. rewrite <-(ag_nodes _ _ _ Hag1) by done. done.
Qed.

Lemma wire_vote rq r : rq_method rq = "store.RaftRequestVote" →
  rq_payload rq = EncodeFields (PutRequestVoteFields ∅ r) → vote_request_ok r →
  wire_request rq = Some (VoteMessage r).
Proof.
  intros Hm Hp Hr. unfold wire_request. by rewrite Hp, DecodeFields_encode, Hm, vote_request_roundtrip.
Qed.

Lemma wire_append rq r : rq_method rq = "store.RaftAppendEntries" →
  rq_payload rq = EncodeFields (PutAppendEntriesFields ∅ r) → append_request_ok r →
  wire_request rq = Some (AppendMessage r).
Proof.
  intros Hm Hp Hr. unfold wire_request. by rewrite Hp, DecodeFields_encode, Hm, append_request_roundtrip.
Qed.

Section sched.
Context (self : N) (address : Endpoint → N).

#[local] Instance sched_transport : Transport Sched := λ endpoint rq s, sched_call self (address endpoint) rq s.

#[local, program] Instance sched_network : GroupNetwork Sched self := {|
  views s g := agrees self (world s) g;
  node_of := address;
|}.
Next Obligation. intros s g e Hag He Hc. by apply agrees_own. Qed.
Next Obligation.
  intros s g ep rq r response s' Hag Hr Hm Hp Hok Hcall. cbn in *.
  destruct (sched_call_kept self (address ep) rq s (AppendMessage r) g response s' Hag Hr)
    as (es & Hes & Hcan & Hag' & Hyes); [by apply wire_append | done |].
  exists es. split_and!; [done..|]. intros fields answer Hrs Hf Ha Hs.
  destruct (Hyes Hrs) as (n & fs & g1 & Hpay & Hreply & Hn & Hrun). rewrite Hrun. cbn [delivery].
  destruct (happen_fields (Append (address ep) r) g1 n Hn) as (_ & _ & _ & _ & ->). cbn [takes_up].
  rewrite Hpay, DecodeFields_encode in Hf. injection Hf as <-.
  cbn [reply] in Hreply. unfold accepts. destruct (Raft.HandleAppendEntries r n).1 as [resp|st|f]; try done.
  case_decide as Hsmall; [|done]. injection Hreply as <-.
  rewrite append_response_roundtrip in Ha by apply Hsmall. injection Ha as <-.
  rewrite Hs. apply list_elem_of_here.
Qed.
Next Obligation.
  intros s g ep rq r response s' Hag Hr Hm Hp Hok Hcall. cbn in *.
  destruct (sched_call_kept self (address ep) rq s (VoteMessage r) g response s' Hag Hr)
    as (es & Hes & Hcan & Hag' & Hyes); [by apply wire_vote | done |].
  exists es. split_and!; [done..|]. intros fields answer Hrs Hf Ha Hs.
  destruct (Hyes Hrs) as (n & fs & g1 & Hpay & Hreply & Hn & Hrun). rewrite Hrun. cbn [delivery].
  destruct (happen_fields (Vote (address ep) r) g1 n Hn) as (_ & -> & _).
  rewrite Hpay, DecodeFields_encode in Hf. injection Hf as <-.
  cbn [reply] in Hreply. case_decide as Hsmall; [|done]. injection Hreply as <-.
  rewrite vote_response_roundtrip in Ha by exact Hsmall. injection Ha as <-.
  unfold casts. cbn [does votes_cast]. rewrite Hs. apply list_elem_of_here.
Qed.
End sched.

(** * The theorems *)

(** C3: A replica is a node of the Raft group. Let a replica start in a directory
    without its region, on a network that belongs to the group, in a region whose
    peers have different ids and whose stores are where the replica looks for them.
    Then it plays one node of the group; and whatever it is asked to do (a vote or
    append request the group sent, a write, a leader transfer, a restart of its
    process), however that ends and whatever the other nodes do while its calls
    last, what it did is a sequence of events of the group (candidacies with the
    request it sends, elections it won by votes cast, entries it took as leader,
    requests it could send, commits a majority took), after which it plays the node
    still; as it does after events of others. *)
Theorem replica_joins_group {W} `{!Transport W} data_dir local_store stores region p
    `{!GroupNetwork W (peer_id p)} :
  local_peer_of local_store region = Some p →
  (region_id region < two64)%N ∧ peer_id p ≠ 0%N ∧ (peer_id p < two64)%N →
  NoDup (peer_id <$> peers region) → stores_known stores region p →
  (∀ w, born data_dir local_store stores region w → views w.1 (peers_net region) →
     plays data_dir stores region p w (peers_net region)) ∧
  (∀ x w g, plays data_dir stores region p w g → duty_ok region x w → was_sent x g →
     ∃ es, can_run es g ∧
       plays data_dir stores region p (do_duty data_dir local_store stores x w).2 (run_net es g)) ∧
  (∀ net net' w g es, plays data_dir stores region p (net, w) g →
     Forall (λ e, who e ≠ peer_id p) es → can_run es g → views net' (run_net es g) →
     plays data_dir stores region p (net', w) (run_net es g)).
Proof.
  intros Hp Hvalid Hpeers Hstores. split; [|split].
  - intros w. by apply born_plays.
  - intros x w g Hw Hok Hsent.
    destruct (duty_plays data_dir local_store stores region p Hp Hvalid Hpeers Hstores x w g Hw Hok Hsent)
      as (g' & (es & Hes & <-) & Hplays). by exists es.
  - intros net net' w g es (raft & [Ha Hr Hps Hl Hs] & Hst & Hpart & Hg) Hes Hcan Hv.
    destruct (others_events (peer_id p) net net' g raft es Hpart Hes Hcan Hv) as [Hpart' Hg'].
    exists raft. split; [by split|]. split; [done|]. split; [done | by etrans].
Qed.

(** C1: An acknowledged write stays. When a write of a replica returns success, at
    whatever point of the life of the group, its command is the last entry of the
    replica's log; and from then on, whatever happens in the group, messages delayed
    or lost, leaders changing, nodes restarting: no node ever commits another entry
    at that position, and every leader of this term or a later one has the entry
    there. *)
Theorem acknowledged_write_stays {W} `{!Transport W} data_dir local_store stores region p
    `{!GroupNetwork W (peer_id p)} command w w' g :
  local_peer_of local_store region = Some p →
  (region_id region < two64)%N ∧ peer_id p ≠ 0%N ∧ (peer_id p < two64)%N →
  NoDup (peer_id <$> peers region) → stores_known stores region p →
  plays data_dir stores region p w g → duty_ok region (Writes command) w →
  ProposeAndReplicate command w = (Ok tt, w') →
  ∃ es raft e, can_run es g ∧ plays data_dir stores region p w' (run_net es g) ∧
    dn_raft w'.2.2 = Some raft ∧ last (log_ raft) = Some e ∧ e_command e = command ∧
    let k := pred (length (log_ raft)) in
    ∀ later j n, can_run later (run_net es g) →
      members (group (run_net later (run_net es g))) !! j = Some n →
      (k < N.to_nat (commit_index_ n) → log_ n !! k = Some e) ∧
      (role_ n = kLeader → (current_term_ raft <= current_term_ n)%N → log_ n !! k = Some e).
Proof.
  intros Hp Hvalid Hpeers Hstores Hplays Hok Hrun. destruct w as [net [d n0]].
  pose proof Hplays as (raft0 & Hw & Hst & Hpart & Hg).
  specialize (Hok raft0 (living_raft _ _ _ _ _ Hw)) as (Hcmd & Hne & Hterm & Hlen).
  pose proof (plays_shaped _ _ _ _ Hpeers Hstores _ _ _ _ _ Hw Hst Hg) as Hshape.
  pose proof (ProposeAndReplicate_group (peer_id p) _ net d n0 raft0 g command (lv_alive _ _ _ _ _ Hw) Hpart Hshape
    Hterm Hlen Hcmd Hne) as Hdone.
  rewrite Hrun in Hdone. destruct Hdone as (raft & g' & Hland & Hcommit).
  destruct (Hcommit eq_refl) as (e & Hcommand & Hlog & Hci). pose proof Hland as ((es & Hes & Hg') & Halive & Hpart' & _).
  subst g'. exists es, raft, e. split; [done|].
  split; [by eapply lands_plays|]. split; [destruct w' as [? []]; apply (replica_raft _ _ _ _ (proj1 Halive))|].
  split; [by rewrite Hlog, last_snoc|]. split; [done|]. intros k later j n Hlater Hj.
  destruct Hg as (es0 & Hes0 & <-).
  destruct (run_net_ok (region_id region) (es0 ++ es) _ _ (new_net_ok (peer_id <$> peers region) (region_id region)))
    as (h & _ & Hnet); [by apply can_run_app|]. rewrite run_net_app in Hnet.
  destruct (committed_decided _ h _ (peer_id p) raft later Hnet Hlater (proj2 Hpart')) as (h' & Hnet' & Hd).
  rewrite Hci, Nat2N.id, firstn_all in Hd.
  assert (log_ raft !! k = Some e) as He by (unfold k; rewrite <-last_lookup, Hlog; apply last_snoc).
  split; [intros Hk; by eapply decided_entry|].
  intros Hrole Hle. eapply prefix_lookup_Some; [exact He | by eapply decided_led].
Qed.

(** * A write with one answer *)

Definition test_address (ep : Endpoint) : N := Z.to_N (port ep - 8090).

#[local] Instance test_transport : Transport Sched := sched_transport 11 test_address.
#[local] Instance test_network : GroupNetwork Sched 11 := sched_network 11 test_address.

(** Store 2 votes, the request to store 3 is lost; store 2 takes the entry, store 3
    too, but its answer is lost; meanwhile store 3 asks for votes, in vain. *)
Definition test_plan : list turn :=
  [mkTurn [] true true; mkTurn [] false false; mkTurn [] true true; mkTurn [] true false;
   mkTurn [Campaign 13; Campaign 13] true true; mkTurn [] true true].

Definition test_start : Sched * LocalW := (mkSched (peers_net test_region) test_plan, (first_life 1).2).
Definition test_command : string := EncodePutCommand "k" "v".
Definition test_done : Sched * LocalW := (ProposeAndReplicate test_command test_start).2.

Abbreviation test_peer := (mkPeer 11 1 kVoter).

Lemma agrees_refl self g : agrees self g g.
Proof. by split. Qed.

Lemma test_peers_differ : NoDup (peer_id <$> peers test_region).
Proof. apply (bool_decide_unpack _). vm_compute. exact I. Qed.

Lemma test_stores_known : stores_known test_stores test_region test_peer.
Proof.
  intros q s Hq. cbn in Hq. rewrite !elem_of_cons, elem_of_nil in Hq.
  destruct Hq as [-> | [-> | [-> | []]]]; cbn; by intros [= <-].
Qed.

Lemma test_starts : born "data" (test_store 1) test_stores test_region test_start.
Proof.
  destruct (first_life_born 1 test_peer eq_refl) as (d & Hd & Hf & Hrun). by exists d.
Qed.

Lemma test_views : views test_start.1 (peers_net test_region).
Proof. apply agrees_refl. Qed.

Lemma test_plays : plays "data" test_stores test_region test_peer test_start (peers_net test_region).
Proof.
  apply (born_plays "data" (test_store 1) test_stores test_region test_peer eq_refl).
  - by apply test_region_valid, list_elem_of_here.
  - exact test_peers_differ.
  - exact test_starts.
  - exact test_views.
Qed.

Lemma test_write_ok : duty_ok test_region (Writes test_command) test_start.
Proof.
  intros raft Hraft. vm_compute in Hraft. injection Hraft as <-.
  split; [by apply put_command_ok|]. split; [discriminate|]. done.
Qed.

Lemma replica_joins_group_witness :
  plays "data" test_stores test_region test_peer test_start (peers_net test_region) ∧
  ∃ es, can_run es (peers_net test_region) ∧
    plays "data" test_stores test_region test_peer
      (do_duty "data" (test_store 1) test_stores (Writes test_command) test_start).2
      (run_net es (peers_net test_region)).
Proof.
  assert (Hjoins := replica_joins_group "data" (test_store 1) test_stores test_region test_peer eq_refl
    (test_region_valid _ (list_elem_of_here _ _)) test_peers_differ test_stores_known).
  split.
  - apply (proj1 Hjoins); [exact test_starts | exact test_views].
  - exact (proj1 (proj2 Hjoins) (Writes test_command) test_start (peers_net test_region) test_plays
      test_write_ok I).
Defined.

Lemma acknowledged_write_stays_witness :
  ∃ es raft e, can_run es (peers_net test_region) ∧
    plays "data" test_stores test_region test_peer test_done (run_net es (peers_net test_region)) ∧
    dn_raft test_done.2.2 = Some raft ∧ last (log_ raft) = Some e ∧ e_command e = "PUT 6b 76" ∧
    let k := pred (length (log_ raft)) in
    ∀ later j n, can_run later (run_net es (peers_net test_region)) →
      members (group (run_net later (run_net es (peers_net test_region)))) !! j = Some n →
      (k < N.to_nat (commit_index_ n) → log_ n !! k = Some e) ∧
      (role_ n = kLeader → (current_term_ raft <= current_term_ n)%N → log_ n !! k = Some e).
Proof.
  apply (acknowledged_write_stays "data" (test_store 1) test_stores test_region test_peer test_command
    test_start test_done (peers_net test_region)).
  - reflexivity.
  - exact (test_region_valid _ (list_elem_of_here _ _)).
  - exact test_peers_differ.
  - exact test_stores_known.
  - exact test_plays.
  - exact test_write_ok.
  - vm_compute. reflexivity.
Defined.
