(* ===== verification/StoreNode.v ===== *)
(** The store process of the distributed mode,
    src/store/distributed_store_node.cpp: one replica per region this store has
    a peer in, each request checked against the region it names. *)

From S2P Require Import Prelude Types Text Codec Service Engine Raft RaftStorage RaftWire Distributed.

Record DistributedStoreNode := mkStoreNode {
  sn_local_store : StoreInfo;
  sn_stores : list StoreInfo;
  sn_data_dir : string;
  sn_regions : gmap N DistributedRegionNode;
}.

Definition new_store_node : DistributedStoreNode := mkStoreNode default_store [] "" ∅.

Abbreviation StoreW := (Disk * DistributedStoreNode)%type.

Definition the_store : IO StoreW DistributedStoreNode := gets snd.
Definition set_nodes (rs : gmap N DistributedRegionNode) (s : DistributedStoreNode) :
    DistributedStoreNode :=
  mkStoreNode (sn_local_store s) (sn_stores s) (sn_data_dir s) rs.

Definition FindRegion (id : N) (s : DistributedStoreNode) : option DistributedRegionNode :=
  sn_regions s !! id.

(** A call on a region's node that stays in the process. *)
Definition on_node {A} (id : N) (m : IO LocalW A) : IO StoreW A := λ '(d, s),
  match sn_regions s !! id with
  | None => (Fault ExnOutOfRange, (d, s))
  | Some n =>
      let '(r, (d', n')) := m (d, n) in (r, (d', set_nodes (<[id := n']> (sn_regions s)) s))
  end.

(** A call on a node object that is not yet in the table. *)
Definition on_new_node (n : DistributedRegionNode) (m : IO LocalW unit) :
    IO StoreW DistributedRegionNode := λ '(d, s),
  let '(r, (d', n')) := m (d, n) in
  (match r with Ok _ => Ok n' | Err st => Err st | Fault f => Fault f end, (d', s)).

Definition hosts (store : N) (region : RegionInfo) : bool :=
  existsb (λ p, (peer_store_id p =? store)%N) (peers region).

Fixpoint bootstrap_nodes (regions : list RegionInfo) : IO StoreW unit :=
  match regions with
  | [] => mret tt
  | region :: rest =>
      s ← the_store;
      if negb (hosts (store_id (sn_local_store s)) region) then bootstrap_nodes rest
      else
        node ← on_new_node new_node
          (Distributed.Bootstrap (sn_data_dir s) (sn_local_store s) (sn_stores s) region);
        _ ← modify (λ w : StoreW,
              (w.1, set_nodes (<[region_id region := node]> (sn_regions w.2)) w.2));
        bootstrap_nodes rest
  end.

Definition Bootstrap (data_dir : string) (local_store : StoreInfo) (stores : list StoreInfo)
    (regions : list RegionInfo) : IO StoreW unit :=
  if decide (regions = []) then
    fail (InvalidArgument "distributed store needs at least one region")
  else
    _ ← modify (λ w : StoreW, (w.1, mkStoreNode local_store stores data_dir ∅));
    _ ← bootstrap_nodes regions;
    s ← the_store;
    if decide (sn_regions s = ∅) then
      fail (InvalidArgument "local store has no peer in any region")
    else mret tt.

Definition CheckRegionKey (id : N) (key : string) (s : DistributedStoreNode) : res unit :=
  match FindRegion id s with
  | None => Err (mkStatus kRegionNotFound "region not found in local store")
  | Some n =>
      if negb (ContainsKey (dn_region n) key) then
        Err (mkStatus kStaleEpoch "request key is outside target region")
      else Ok tt
  end.

Fixpoint check_keys (id : N) (keys : list string) (s : DistributedStoreNode) : res unit :=
  match keys with
  | [] => Ok tt
  | key :: rest => _ ← CheckRegionKey id key s; check_keys id rest s
  end.

Definition Get (id : N) (key : string) (consistency : Consistency) : IO StoreW string :=
  s ← the_store;
  _ ← lift (CheckRegionKey id key s);
  on_node id (Distributed.Get key consistency).

Definition HandleRequestVote (request : RequestVoteRequest) : IO StoreW RequestVoteResponse :=
  s ← the_store;
  match FindRegion (rv_region_id request) s with
  | None => mret (mkVoteResponse 0 false)
  | Some _ => on_node (rv_region_id request) (Distributed.HandleRequestVote request)
  end.

Definition HandleAppendEntries (request : AppendEntriesRequest) :
    IO StoreW AppendEntriesResponse :=
  s ← the_store;
  match FindRegion (ae_region_id request) s with
  | None => mret (mkAppendResponse 0 false 0)
  | Some _ => on_node (ae_region_id request) (Distributed.HandleAppendEntries request)
  end.

Definition ListRegions (s : DistributedStoreNode) : list RegionInfo :=
  (λ kv, dn_region kv.2) <$> kvs (sn_regions s).

Section network.
Context {Net : Type} `{!Transport Net}.

Abbreviation ProcessW := (Net * StoreW)%type.

(** A call on a region's node that may call other stores. *)
Definition on_region {A} (id : N) (m : IO (Net * LocalW) A) : IO ProcessW A :=
  λ '(net, (d, s)),
  match sn_regions s !! id with
  | None => (Fault ExnOutOfRange, (net, (d, s)))
  | Some n =>
      let '(r, (net', (d', n'))) := m (net, (d, n)) in
      (r, (net', (d', set_nodes (<[id := n']> (sn_regions s)) s)))
  end.

Definition store_state : IO ProcessW DistributedStoreNode := gets (λ w, w.2.2).

Definition Put (id : N) (key value : string) : IO ProcessW unit :=
  s ← store_state;
  _ ← lift (CheckRegionKey id key s);
  on_region id (Distributed.Put key value).

Definition Delete (id : N) (key : string) : IO ProcessW unit :=
  s ← store_state;
  _ ← lift (CheckRegionKey id key s);
  on_region id (Distributed.Delete key).

Definition Batch (id : N) (mutations : list KvMutation) : IO ProcessW unit :=
  s ← store_state;
  _ ← lift (check_keys id (mut_key <$> mutations) s);
  match FindRegion id s with
  | None => fail (mkStatus kRegionNotFound "region not found in local store")
  | Some _ => on_region id (Distributed.Batch mutations)
  end.

Definition TransferLeader (id target_peer_id : N) : IO ProcessW unit :=
  s ← store_state;
  match FindRegion id s with
  | None => fail (mkStatus kRegionNotFound "region not found in local store")
  | Some _ => on_region id (Distributed.TransferLeader target_peer_id)
  end.
End network.
