(* ===== verification/StoreService.v ===== *)
(** The RPC face of a store, src/store/store_service.cpp, over one of four
    back ends: a single-region cluster, a multi-region cluster, the replica of a
    region, or the store process of the distributed mode. *)

From S2P Require Import Prelude Types Text Codec Service Engine Raft RaftStorage RaftWire.
From S2P Require Import Cluster Multi Distributed StoreNode.

(** The four pointers; a constructor of the class sets one of them. *)
Record StoreService := mkService {
  single_cluster_ : option SingleRegionCluster;
  multi_cluster_ : option MultiRegionCluster;
  distributed_node_ : option DistributedRegionNode;
  distributed_store_ : option DistributedStoreNode;
}.

Definition over_single (c : option SingleRegionCluster) : StoreService := mkService c None None None.
Definition over_multi (m : option MultiRegionCluster) : StoreService := mkService None m None None.
Definition over_node (n : option DistributedRegionNode) : StoreService := mkService None None n None.
Definition over_store (s : option DistributedStoreNode) : StoreService := mkService None None None s.

Definition ParseConsistency (value : string) : Consistency :=
  if decide (value = "eventual") then kEventual else kLinearizable.

Definition ValidateRoute (cluster : option MultiRegionCluster) (fields : FieldMap)
    (key : string) : res unit :=
  match cluster with
  | None => Ok tt
  | Some m =>
      let expected := GetOr fields "region_id" "" in
      if decide (expected = "") then Ok tt
      else match FindRegionByKey key m with
           | None => Err (mkStatus kRegionNotFound "region not found for key")
           | Some actual_region =>
               expected_region_id ← stoull expected;
               if (region_id actual_region =? expected_region_id)%N then Ok tt
               else Err (mkStatus kStaleEpoch "request route is stale")
           end
  end.

(** The mutations of a batch request. *)
Definition batch_mutation (fields : FieldMap) (i : N) : KvMutation :=
  let prefix := indexed "op" i in
  mkMutation (if decide (GetOr fields (Key prefix "type") "put" = "delete") then kDelete else kPut)
    (field fields (Key prefix "key")) (GetOr fields (Key prefix "value") "").

Definition batch_mutations (fields : FieldMap) : res (list KvMutation) :=
  count ← stoull (GetOr fields "op_count" "0");
  Ok (batch_mutation fields <$> indices count).

(** * Calls on the back end *)

Section service.
Context {Net : Type} `{!Transport Net}.

Abbreviation ServiceW := (Net * (Disk * StoreService))%type.

Definition the_service : IO ServiceW StoreService := gets (λ w, w.2.2).

Definition on_single {A} (m : IO ClusterW A) : IO ServiceW A := λ '(net, (d, s)),
  match single_cluster_ s with
  | None => (Fault Undefined, (net, (d, s)))
  | Some c =>
      let '(r, (d', c')) := m (d, c) in
      (r, (net, (d', mkService (Some c') (multi_cluster_ s) (distributed_node_ s)
                       (distributed_store_ s))))
  end.

Definition on_multi {A} (m : IO MultiW A) : IO ServiceW A := λ '(net, (d, s)),
  match multi_cluster_ s with
  | None => (Fault Undefined, (net, (d, s)))
  | Some c =>
      let '(r, (d', c')) := m (d, c) in
      (r, (net, (d', mkService (single_cluster_ s) (Some c') (distributed_node_ s)
                       (distributed_store_ s))))
  end.

Definition on_node {A} (m : IO (Net * LocalW) A) : IO ServiceW A := λ '(net, (d, s)),
  match distributed_node_ s with
  | None => (Fault Undefined, (net, (d, s)))
  | Some n =>
      let '(r, (net', (d', n'))) := m (net, (d, n)) in
      (r, (net', (d', mkService (single_cluster_ s) (multi_cluster_ s) (Some n')
                        (distributed_store_ s))))
  end.

Definition on_store {A} (m : IO (Net * StoreNode.StoreW) A) : IO ServiceW A := λ '(net, (d, s)),
  match distributed_store_ s with
  | None => (Fault Undefined, (net, (d, s)))
  | Some n =>
      let '(r, (net', (d', n'))) := m (net, (d, n)) in
      (r, (net', (d', mkService (single_cluster_ s) (multi_cluster_ s) (distributed_node_ s)
                        (Some n'))))
  end.

(** The cascade of null checks every handler goes through. *)
Definition on_backend {A} (store : IO (Net * StoreNode.StoreW) A) (node : IO (Net * LocalW) A)
    (multi : IO MultiW A) (single : IO ClusterW A) : IO ServiceW A :=
  s ← the_service;
  match distributed_store_ s, distributed_node_ s, multi_cluster_ s with
  | Some _, _, _ => on_store store
  | None, Some _, _ => on_node node
  | None, None, Some _ => on_multi multi
  | None, None, None => on_single single
  end.

Definition in_process {W A} (m : IO W A) : IO (Net * W) A :=
  zoom snd (λ (w' : W) (w : Net * W), (w.1, w')) m.

Definition validate (fields : FieldMap) (key : string) : IO ServiceW unit :=
  s ← the_service; lift (ValidateRoute (multi_cluster_ s) fields key).
Definition request_region (fields : FieldMap) : IO ServiceW N :=
  lift (stoull (GetOr fields "region_id" "0")).

(** * Handlers *)

Definition HandlePut : RpcHandler ServiceW := λ request, respond request (
  fields ← payload_fields request;
  let key := field fields "key" in
  let value := field fields "value" in
  _ ← validate fields key;
  region_id ← request_region fields;
  _ ← on_backend (StoreNode.Put region_id key value) (Distributed.Put key value)
        (Multi.Put key value) (Cluster.Put key value);
  mret "").

Definition HandleDelete : RpcHandler ServiceW := λ request, respond request (
  fields ← payload_fields request;
  let key := field fields "key" in
  _ ← validate fields key;
  region_id ← request_region fields;
  _ ← on_backend (StoreNode.Delete region_id key) (Distributed.Delete key)
        (Multi.Delete key) (Cluster.Delete key);
  mret "").

(** The read of the single-region back end always asks the leader. *)
Definition leader_get (key : string) : IO ClusterW string :=
  c ← the_cluster;
  match Leader c with
  | None => fail (mkStatus kNotLeader "no leader")
  | Some leader => at_store leader (Store_Get key)
  end.

Definition HandleGet : RpcHandler ServiceW := λ request, respond request (
  fields ← payload_fields request;
  let key := field fields "key" in
  _ ← validate fields key;
  region_id ← request_region fields;
  let consistency := ParseConsistency (GetOr fields "consistency" "") in
  value ← on_backend (in_process (StoreNode.Get region_id key consistency))
            (in_process (Distributed.Get key consistency))
            (Multi.Get key consistency) (leader_get key);
  mret (EncodeFields (<["value" := value]> (∅ : FieldMap)))).

Definition HandleBatch : RpcHandler ServiceW := λ request, respond request (
  fields ← payload_fields request;
  _ ← match fields !! "op_count" with
      | Some count =>
          if decide (count = "0") then mret tt else validate fields (field fields "op0.key")
      | None => mret tt
      end;
  mutations ← lift (batch_mutations fields);
  region_id ← request_region fields;
  _ ← on_backend (StoreNode.Batch region_id mutations) (Distributed.Batch mutations)
        (Multi.Batch mutations) (Cluster.Batch mutations);
  mret "").

(** [distributed_store_ != nullptr || distributed_node_ != nullptr]. *)
Definition is_distributed (s : StoreService) : bool :=
  match distributed_store_ s, distributed_node_ s with None, None => false | _, _ => true end.

Definition HandleSplitRegion : RpcHandler ServiceW := λ request, respond request (
  s ← the_service;
  if is_distributed s then fail (InvalidArgument "distributed split is not implemented yet")
  else if bool_decide (multi_cluster_ s = None) then
    fail (InvalidArgument "split requires multi-region cluster")
  else
    fields ← payload_fields request;
    region_id ← lift (field_u64 fields "region_id");
    halves ← on_multi (Multi.SplitRegion region_id (field fields "split_key"));
    mret (EncodeFields (PutRegionFields (PutRegionFields ∅ halves.1 "left") halves.2 "right"))).

Definition HandleTransferLeader : RpcHandler ServiceW := λ request, respond request (
  fields ← payload_fields request;
  region_id ← lift (field_u64 fields "region_id");
  target_peer_id ← lift (field_u64 fields "target_peer_id");
  _ ← on_backend (StoreNode.TransferLeader region_id target_peer_id)
        (Distributed.TransferLeader target_peer_id)
        (Multi.TransferLeader region_id target_peer_id)
        (Cluster.TransferLeader target_peer_id);
  mret "").

Definition HandleAddPeer : RpcHandler ServiceW := λ request, respond request (
  fields ← payload_fields request;
  region_id ← lift (field_u64 fields "region_id");
  store_id ← lift (field_u64 fields "store_id");
  peer_id ← lift (field_u64 fields "peer_id");
  _ ← on_backend (fail (InvalidArgument "distributed store add peer is not implemented yet"))
        (fail (InvalidArgument "distributed store add peer is not implemented yet"))
        (Multi.AddPeer region_id store_id peer_id) (Cluster.AddPeer store_id peer_id);
  mret "").

Definition HandleRemovePeer : RpcHandler ServiceW := λ request, respond request (
  fields ← payload_fields request;
  region_id ← lift (field_u64 fields "region_id");
  peer_id ← lift (field_u64 fields "peer_id");
  _ ← on_backend (fail (InvalidArgument "distributed store remove peer is not implemented yet"))
        (fail (InvalidArgument "distributed store remove peer is not implemented yet"))
        (Multi.RemovePeer region_id peer_id) (Cluster.RemovePeer peer_id);
  mret "").

(** ** Status *)

Definition raft_fields (raft : option RaftNode) : list (string * string) :=
  match raft with
  | None => []
  | Some r =>
      [ ("runtime_role", RaftRoleName (role_ r));
        ("runtime_commit_index", to_string (commit_index_ r));
        ("runtime_last_applied", to_string (last_applied_ r));
        ("runtime_last_log_index", to_string (last_log_index r)) ]
  end.

Definition node_fields (n : DistributedRegionNode) : list (string * string) :=
  [ ("local_store_id", to_string (store_id (dn_local_store n)));
    ("local_peer_id", to_string (peer_id (dn_local_peer n))) ] ++ raft_fields (dn_raft n).

(** The leader's peer id and the number of stores, when there is a leader. *)
Definition cluster_fields (c : option SingleRegionCluster) : list (string * string) :=
  match c with
  | None => []
  | Some c =>
      match Leader c ≫= (sc_stores c !!.) with
      | None => []
      | Some leader =>
          [ ("runtime_leader_peer_id", to_string (Cluster.peer_id_ leader));
            ("runtime_peer_count", to_string (N.of_nat (length (sc_stores c)))) ]
      end
  end.

Definition put_status {A} (region : A → RegionInfo) (runtime : A → list (string * string))
    (fields : FieldMap) (x : A) (prefix : string) : FieldMap :=
  put_all (PutRegionFields fields (region x) prefix) (prefixed prefix (runtime x)).

Definition region_count {A} (l : list A) : FieldMap :=
  <["region_count" := to_string (N.of_nat (length l))]> (∅ : FieldMap).

(** What the back end reports; [FindRegion] of a listed region finds the node
    under the id its region carries. *)
Definition status_fields (s : StoreService) : FieldMap :=
  match distributed_store_ s, distributed_node_ s, multi_cluster_ s with
  | Some store, _, _ =>
      let regions := StoreNode.ListRegions store in
      put_indexed (put_status (λ r, r)
          (λ r, match FindRegion (region_id r) store with
                | None => []
                | Some n => node_fields n
                end)) "region" 0 regions (region_count regions)
  | None, Some n, _ =>
      put_status (λ n, dn_region n) node_fields (region_count [n]) n "region0"
  | None, None, Some m =>
      put_indexed (put_status (λ r, r) (λ r, cluster_fields (FindRegionCluster (region_id r) m)))
        "region" 0 (mc_regions m) (region_count (mc_regions m))
  | None, None, None =>
      put_all (<["region0.region_id" := match single_cluster_ s with
                                         | Some _ => "1"
                                         | None => "0"
                                         end]>
               (<["region_count" := "1"]> (∅ : FieldMap)))
        (prefixed "region0" (cluster_fields (single_cluster_ s)))
  end.

Definition HandleStatus : RpcHandler ServiceW := λ request, respond request (
  s ← the_service;
  mret (EncodeFields (status_fields s))).

(** ** Raft messages *)

(** The store's entry point, or that of the region's replica. *)
Definition on_replica {A} (store : IO StoreNode.StoreW A) (node : IO LocalW A) : IO ServiceW A :=
  s ← the_service;
  match distributed_store_ s with
  | Some _ => on_store (in_process store)
  | None => on_node (in_process node)
  end.

Definition HandleRaftRequestVote : RpcHandler ServiceW := λ request, respond request (
  s ← the_service;
  if negb (is_distributed s) then
    fail (InvalidArgument "raft request vote requires distributed store node")
  else
    fields ← payload_fields request;
    vote_request ← lift (GetRequestVoteFields fields);
    vote_response ← on_replica (StoreNode.HandleRequestVote vote_request)
                      (Distributed.HandleRequestVote vote_request);
    mret (EncodeFields (PutRequestVoteResponseFields ∅ vote_response))).

Definition HandleRaftAppendEntries : RpcHandler ServiceW := λ request, respond request (
  s ← the_service;
  if negb (is_distributed s) then
    fail (InvalidArgument "raft append entries requires distributed store node")
  else
    fields ← payload_fields request;
    append_request ← lift (GetAppendEntriesFields fields);
    append_response ← on_replica (StoreNode.HandleAppendEntries append_request)
                        (Distributed.HandleAppendEntries append_request);
    mret (EncodeFields (PutAppendEntriesResponseFields ∅ append_response))).

Definition store_handlers : list (string * RpcHandler ServiceW) :=
  [ ("store.KvPut", HandlePut);
    ("store.KvDelete", HandleDelete);
    ("store.KvGet", HandleGet);
    ("store.KvBatch", HandleBatch);
    ("store.SplitRegion", HandleSplitRegion);
    ("store.TransferLeader", HandleTransferLeader);
    ("store.AddPeer", HandleAddPeer);
    ("store.RemovePeer", HandleRemovePeer);
    ("store.Status", HandleStatus);
    ("store.RaftRequestVote", HandleRaftRequestVote);
    ("store.RaftAppendEntries", HandleRaftAppendEntries) ].

(** [RegisterHandlers]: [None] is a null server. *)
Definition RegisterHandlers (server : option (RpcServer ServiceW)) : res (RpcServer ServiceW) :=
  match server with
  | None => Err (InvalidArgument "rpc server must not be null")
  | Some srv => register_all store_handlers srv
  end.
End service.

(** The server with the service's handlers. *)
Definition store_rpc_server {Net} `{!Transport Net} : RpcServer (Net * (Disk * StoreService)) :=
  mkServer (list_to_map (reverse store_handlers)).

Lemma RegisterHandlers_store {Net} `{!Transport Net} :
  RegisterHandlers (Some (mkServer ∅)) = Ok store_rpc_server.
Proof. reflexivity. Qed.
