(* ===== verification/RpcGateway.v ===== *)
(** The gateway over RPC, src/gateway/rpc_gateway_client.cpp: it asks the
    placement driver for routes, keeps them in its cache, sends requests to the
    stores with the region it believes in, and once refreshes a route a store
    calls stale. *)

From S2P Require Import Prelude Types Text Codec Service Engine Raft Distributed Gateway.

(** The two [RpcClient] pointers may be null; a client call may throw when the
    server runs in the same process. *)
Record RpcGatewayClient (Net : Type) := mkRpcGateway {
  pd_client_ : option (RpcHandler Net);
  store_client_ : option (RpcHandler Net);
  dynamic_store_routing_ : bool;
  route_cache_ : RouteCache;
  next_request_id_ : N;
}.
Arguments mkRpcGateway {Net} _ _ _ _ _.
Arguments pd_client_ {Net} _.
Arguments store_client_ {Net} _.
Arguments dynamic_store_routing_ {Net} _.
Arguments route_cache_ {Net} _.
Arguments next_request_id_ {Net} _.

Definition new_rpc_gateway {Net} (pd store : option (RpcHandler Net)) (dynamic : bool) :
    RpcGatewayClient Net := mkRpcGateway pd store dynamic ∅ 1.

Definition RpcToStatus (response : RpcResponse) : res unit :=
  if rs_ok response then Ok tt
  else Err (mkStatus kRpcError
              (rs_error_code response +:+ ": " +:+ rs_error_message response)).

Definition ConsistencyName (consistency : Consistency) : string :=
  match consistency with kEventual => "eventual" | kLinearizable => "linearizable" end.

Definition IsRouteStaleError (response : RpcResponse) : bool :=
  negb (rs_ok response) &&
  (bool_decide (rs_error_code response = "STALE_EPOCH")
   || bool_decide (rs_error_code response = "REGION_NOT_FOUND")
   || bool_decide (rs_error_code response = "NOT_LEADER")).

(** Assignments under a fixed prefix, as [GetStatus] copies its answers. *)
Definition copied (prefix : string) (fields : FieldMap) : list (string * string) :=
  (λ kv, (prefix +:+ kv.1, kv.2)) <$> kvs fields.

Definition mutation_fields (m : KvMutation) : list (string * string) :=
  [ ("type", match mut_type m with kDelete => "delete" | kPut => "put" end);
    ("key", mut_key m); ("value", mut_value m) ].
Definition put_mutation (fields : FieldMap) (m : KvMutation) (prefix : string) : FieldMap :=
  put_all fields (prefixed prefix (mutation_fields m)).

Section gateway.
Context {Net : Type} `{!Transport Net}.

Abbreviation RpcGatewayW := (Net * RpcGatewayClient Net)%type.

Definition the_client : IO RpcGatewayW (RpcGatewayClient Net) := gets snd.

Definition set_routes (cache : RouteCache) (w : RpcGatewayW) : RpcGatewayW :=
  (w.1, mkRpcGateway (pd_client_ w.2) (store_client_ w.2) (dynamic_store_routing_ w.2) cache
          (next_request_id_ w.2)).

(** [name + std::to_string(next_request_id_++)]. *)
Definition take_request_id (name : string) : IO RpcGatewayW string := λ '(net, g),
  (Ok (name +:+ to_string (next_request_id_ g)),
   (net, mkRpcGateway (pd_client_ g) (store_client_ g) (dynamic_store_routing_ g)
           (route_cache_ g) (u64 (next_request_id_ g + 1)))).

(** [client->Call(request)] through one of the two pointers. *)
Definition through (client : option (RpcHandler Net)) (request : RpcRequest) :
    IO RpcGatewayW RpcResponse := λ '(net, g),
  match client with
  | None => (Fault Undefined, (net, g))
  | Some call => let '(r, net') := call request net in (r, (net', g))
  end.

Definition CallPd (method : string) (fields : FieldMap) : IO RpcGatewayW RpcResponse :=
  id ← take_request_id "gateway-pd-";
  g ← the_client;
  through (pd_client_ g) (mkRequest id method "gateway" "pd" 3000 (EncodeFields fields) ∅).

Definition CallStore (method : string) (fields : FieldMap) : IO RpcGatewayW RpcResponse :=
  id ← take_request_id "gateway-store-";
  g ← the_client;
  through (store_client_ g) (mkRequest id method "gateway" "store" 3000 (EncodeFields fields) ∅).

(** A call through a fresh [TcpRpcClient] to an endpoint. *)
Definition tcp (endpoint : Endpoint) (request : RpcRequest) : IO RpcGatewayW RpcResponse :=
  λ '(net, g),
  let '(response, net') := tcp_call endpoint request net in (Ok response, (net', g)).

Definition CallStoreAt (store : StoreInfo) (method : string) (fields : FieldMap) :
    IO RpcGatewayW RpcResponse :=
  id ← take_request_id "gateway-store-";
  tcp (client_endpoint store)
    (mkRequest id method "gateway" ("store-" +:+ to_string (store_id store)) 3000
       (EncodeFields fields) ∅).

Definition ResolveRoute (key : string) : IO RpcGatewayW RouteEntry :=
  g ← the_client;
  match pd_client_ g, store_client_ g with
  | None, _ | _, None => fail (InvalidArgument "gateway rpc clients are not initialized")
  | Some _, Some _ =>
      match cache_get key (route_cache_ g) with
      | Some cached => mret cached
      | None =>
          response ← CallPd "pd.GetRegionByKey" (<["key" := key]> (∅ : FieldMap));
          _ ← lift (RpcToStatus response);
          response_fields ← lift (DecodeFields (rs_payload response));
          let entry := mkRoute (GetRegionFields response_fields "region")
                         (GetStoreFields response_fields "leader_store") 0 in
          _ ← modify (λ w : RpcGatewayW, set_routes (cache_put entry (route_cache_ w.2)) w);
          mret entry
      end
  end.

(** The response made up when a route cannot be resolved. *)
Definition synthetic_error (name : string) (st : Status) : IO RpcGatewayW RpcResponse :=
  id ← take_request_id name;
  mret (MakeRpcError (mkRequest id "" "" "" 3000 "" ∅) (ErrorCodeName (code_ st)) (message_ st)).

(** The lambda [call_for_key]. *)
Definition call_for_key (method key : string) (fields : FieldMap) :
    IO RpcGatewayW RpcResponse :=
  g ← the_client;
  if negb (dynamic_store_routing_ g) then CallStore method fields
  else
    resolved ← status_of (ResolveRoute key);
    match resolved with
    | inr st => synthetic_error "gateway-route-" st
    | inl route => CallStoreAt (re_leader_store route) method fields
    end.

Definition CallStoreWithRouteRetry (method key : string) (fields : FieldMap) :
    IO RpcGatewayW RpcResponse :=
  response ← call_for_key method key fields;
  if negb (IsRouteStaleError response) then mret response
  else
    _ ← modify (set_routes cache_clear);
    resolved ← status_of (ResolveRoute key);
    match resolved with
    | inr st => synthetic_error "gateway-refresh-" st
    | inl refreshed =>
        call_for_key method key
          (<["region_id" := to_string (region_id (re_region refreshed))]> fields)
    end.

(** * Requests *)

Definition Put (key value : string) : IO RpcGatewayW unit :=
  route ← ResolveRoute key;
  response ← CallStoreWithRouteRetry "store.KvPut" key
    (put_all ∅ [("key", key); ("value", value);
                ("region_id", to_string (region_id (re_region route)))]);
  lift (RpcToStatus response).

Definition Delete (key : string) : IO RpcGatewayW unit :=
  route ← ResolveRoute key;
  response ← CallStoreWithRouteRetry "store.KvDelete" key
    (put_all ∅ [("key", key); ("region_id", to_string (region_id (re_region route)))]);
  lift (RpcToStatus response).

(** The routes of the batch's keys, each in the region [id]. *)
Fixpoint same_route (id : N) (ms : list KvMutation) : IO RpcGatewayW unit :=
  match ms with
  | [] => mret tt
  | m :: rest =>
      route ← ResolveRoute (mut_key m);
      if decide (region_id (re_region route) = id) then same_route id rest
      else fail (InvalidArgument "batch must target a single region")
  end.

Definition Batch (mutations : list KvMutation) : IO RpcGatewayW unit :=
  match mutations with
  | [] => mret tt
  | first :: _ =>
      route ← ResolveRoute (mut_key first);
      let id := region_id (re_region route) in
      _ ← same_route id mutations;
      response ← CallStoreWithRouteRetry "store.KvBatch" (mut_key first)
        (put_indexed put_mutation "op" 0 mutations
          (put_all ∅ [("op_count", to_string (N.of_nat (length mutations)));
                      ("region_id", to_string id)]));
      lift (RpcToStatus response)
  end.

Definition Get (key : string) (consistency : Consistency) : IO RpcGatewayW string :=
  route ← ResolveRoute key;
  response ← CallStoreWithRouteRetry "store.KvGet" key
    (put_all ∅ [("key", key); ("consistency", ConsistencyName consistency);
                ("region_id", to_string (region_id (re_region route)))]);
  _ ← lift (RpcToStatus response);
  response_fields ← lift (DecodeFields (rs_payload response));
  mret (field response_fields "value").

(** * Cluster management: the placement driver first, then the store *)

(** The end of every operation below: the cache is cleared either way. *)
Definition finish (response : RpcResponse) : IO RpcGatewayW unit :=
  _ ← modify (set_routes cache_clear);
  lift (RpcToStatus response).

Definition SplitRegion (id : N) (split_key : string) : IO RpcGatewayW unit :=
  let fields := put_all ∅ [("region_id", to_string id); ("split_key", split_key)] in
  pd_response ← CallPd "pd.SplitRegion" fields;
  _ ← lift (RpcToStatus pd_response);
  store_response ← CallStore "store.SplitRegion" fields;
  finish store_response.

(** The loops over the regions and the stores of the driver's status. *)
Definition target_store_id (fields : FieldMap) (count id target_peer_id : N) : N :=
  match List.find (λ r, (region_id r =? id)%N)
          ((λ i, GetRegionFields fields (indexed "region" i)) <$> indices count) with
  | None => 0
  | Some region =>
      match List.find (λ p, (peer_id p =? target_peer_id)%N) (peers region) with
      | None => 0
      | Some p => peer_store_id p
      end
  end.

Definition target_store (fields : FieldMap) (count id : N) : option StoreInfo :=
  List.find (λ s, (store_id s =? id)%N)
    ((λ i, GetStoreFields fields (indexed "store" i)) <$> indices count).

(** The target peer's store, told by the driver. *)
Definition transfer_target (id target_peer_id : N) : IO RpcGatewayW StoreInfo :=
  status_response ← CallPd "pd.Status" ∅;
  _ ← lift (RpcToStatus status_response);
  status_fields ← lift (DecodeFields (rs_payload status_response));
  region_count ← lift (field_u64 status_fields "region_count");
  let target := target_store_id status_fields region_count id target_peer_id in
  if (target =? 0)%N then fail (InvalidArgument "target peer store not found")
  else
    store_count ← lift (field_u64 status_fields "store_count");
    match target_store status_fields store_count target with
    | None => fail (InvalidArgument "target store not found")
    | Some store => mret store
    end.

Definition TransferLeader (id target_peer_id : N) : IO RpcGatewayW unit :=
  let fields := put_all ∅ [("region_id", to_string id);
                           ("target_peer_id", to_string target_peer_id)] in
  pd_response ← CallPd "pd.TransferLeader" fields;
  _ ← lift (RpcToStatus pd_response);
  g ← the_client;
  store_response ←
    (if dynamic_store_routing_ g then
       store ← transfer_target id target_peer_id;
       CallStoreAt store "store.TransferLeader" fields
     else CallStore "store.TransferLeader" fields);
  finish store_response.

Definition AddPeer (id store_id : N) : IO RpcGatewayW unit :=
  let fields := put_all ∅ [("region_id", to_string id); ("store_id", to_string store_id)] in
  pd_response ← CallPd "pd.AddPeer" fields;
  _ ← lift (RpcToStatus pd_response);
  response_fields ← lift (DecodeFields (rs_payload pd_response));
  store_response ← CallStore "store.AddPeer"
    (<["peer_id" := field response_fields "peer_id"]> fields);
  finish store_response.

Definition RemovePeer (id peer_id : N) : IO RpcGatewayW unit :=
  let fields := put_all ∅ [("region_id", to_string id); ("peer_id", to_string peer_id)] in
  pd_response ← CallPd "pd.RemovePeer" fields;
  _ ← lift (RpcToStatus pd_response);
  store_response ← CallStore "store.RemovePeer" fields;
  finish store_response.

(** [GetStatus]: the fields written so far come back with the status. *)
Definition GetStatus : IO RpcGatewayW (res unit * FieldMap) :=
  g ← the_client;
  let fields := <["gateway.route_cache_size" :=
                    to_string (N.of_nat (size (route_cache_ g)))]> (∅ : FieldMap) in
  pd_response ← CallPd "pd.Status" ∅;
  match RpcToStatus pd_response, DecodeFields (rs_payload pd_response) with
  | Ok _, Ok pd_fields =>
      let fields := put_all fields (copied "pd." pd_fields) in
      store_response ← CallStore "store.Status" ∅;
      match RpcToStatus store_response, DecodeFields (rs_payload store_response) with
      | Ok _, Ok store_fields => mret (Ok tt, put_all fields (copied "store." store_fields))
      | Ok _, bad => mret (_ ← bad; Ok tt, fields)
      | bad, _ => mret (bad, fields)
      end
  | Ok _, bad => mret (_ ← bad; Ok tt, fields)
  | bad, _ => mret (bad, fields)
  end.
End gateway.
