(* ===== verification/GatewayService.v ===== *)
(** The RPC face of the gateway, src/gateway/gateway_service.cpp. *)

From S2P Require Import Prelude Types Text Codec Service Engine Raft Distributed StoreService.
From S2P Require Import Gateway RpcGateway.

Section service.
Context {Net : Type} `{!Transport Net}.

Abbreviation RpcGatewayW := (Net * RpcGatewayClient Net)%type.

Definition DecodeBatchMutations (fields : FieldMap) : res (list KvMutation) :=
  count ← stoull (GetOr fields "op_count" "0");
  Ok ((λ i, let prefix := indexed "op" i in
       mkMutation
         (if decide (GetOr fields (Key prefix "type") "put" = "delete") then kDelete else kPut)
         (GetOr fields (Key prefix "key") "") (GetOr fields (Key prefix "value") ""))
      <$> indices count).

Definition HandlePut : RpcHandler RpcGatewayW := λ request, respond request (
  fields ← payload_fields request;
  _ ← RpcGateway.Put (field fields "key") (field fields "value");
  mret "").

Definition HandleDelete : RpcHandler RpcGatewayW := λ request, respond request (
  fields ← payload_fields request;
  _ ← RpcGateway.Delete (field fields "key");
  mret "").

Definition HandleGet : RpcHandler RpcGatewayW := λ request, respond request (
  fields ← payload_fields request;
  value ← RpcGateway.Get (field fields "key")
            (ParseConsistency (GetOr fields "consistency" ""));
  mret (EncodeFields (<["value" := value]> (∅ : FieldMap)))).

Definition HandleBatch : RpcHandler RpcGatewayW := λ request, respond request (
  fields ← payload_fields request;
  mutations ← lift (DecodeBatchMutations fields);
  _ ← RpcGateway.Batch mutations;
  mret "").

Definition HandleSplitRegion : RpcHandler RpcGatewayW := λ request, respond request (
  fields ← payload_fields request;
  region_id ← lift (field_u64 fields "region_id");
  _ ← RpcGateway.SplitRegion region_id (field fields "split_key");
  mret "").

Definition HandleTransferLeader : RpcHandler RpcGatewayW := λ request, respond request (
  fields ← payload_fields request;
  region_id ← lift (field_u64 fields "region_id");
  target_peer_id ← lift (field_u64 fields "target_peer_id");
  _ ← RpcGateway.TransferLeader region_id target_peer_id;
  mret "").

Definition HandleAddPeer : RpcHandler RpcGatewayW := λ request, respond request (
  fields ← payload_fields request;
  region_id ← lift (field_u64 fields "region_id");
  store_id ← lift (field_u64 fields "store_id");
  _ ← RpcGateway.AddPeer region_id store_id;
  mret "").

Definition HandleRemovePeer : RpcHandler RpcGatewayW := λ request, respond request (
  fields ← payload_fields request;
  region_id ← lift (field_u64 fields "region_id");
  peer_id ← lift (field_u64 fields "peer_id");
  _ ← RpcGateway.RemovePeer region_id peer_id;
  mret "").

Definition HandleStatus : RpcHandler RpcGatewayW := λ request, respond request (
  '(status, fields) ← GetStatus;
  _ ← lift status;
  mret (EncodeFields fields)).

Definition gateway_handlers : list (string * RpcHandler RpcGatewayW) :=
  [ ("kv.Put", HandlePut);
    ("kv.Delete", HandleDelete);
    ("kv.Get", HandleGet);
    ("kv.Batch", HandleBatch);
    ("cluster.SplitRegion", HandleSplitRegion);
    ("cluster.TransferLeader", HandleTransferLeader);
    ("cluster.AddPeer", HandleAddPeer);
    ("cluster.RemovePeer", HandleRemovePeer);
    ("cluster.Status", HandleStatus) ].

(** [RegisterHandlers]: [None] is a null server. *)
Definition RegisterHandlers (server : option (RpcServer RpcGatewayW)) :
    res (RpcServer RpcGatewayW) :=
  match server with
  | None => Err (InvalidArgument "rpc server must not be null")
  | Some srv => register_all gateway_handlers srv
  end.
End service.

(** The server with the gateway's handlers. *)
Definition gateway_rpc_server {Net} `{!Transport Net} : RpcServer (Net * RpcGatewayClient Net) :=
  mkServer (list_to_map (reverse gateway_handlers)).

Lemma RegisterHandlers_gateway {Net} `{!Transport Net} :
  RegisterHandlers (Some (mkServer ∅)) = Ok gateway_rpc_server.
Proof. reflexivity. Qed.
