(* ===== verification/KvSession.v ===== *)
(** Sessions of a gateway client, against whatever stores answer it: the
    placement driver behind its RPC service, the routes the gateway resolves and
    caches, and the interface [KvStore] a store side keeps so that a session of
    puts, deletes and reads returns what one map returns. A store that finds a
    request misrouted says so, and the one retry with a fresh route succeeds. *)

From S2P Require Import Prelude Types Text Codec Service Engine Raft RaftStorage Keyspace.
From S2P Require Import Cluster ClusterSpec Region Pd PdSpec PdSafety PdCatalog Multi MultiSpec MultiRegion.
From S2P Require Import Gateway GatewaySpec PdService Distributed Tcp StoreService RpcGateway.

(** * The client of the driver *)

(** A client of the driver next to a world [S]: a call the driver answers returns
    the answer, and leaves the world alone. *)
Class PdClient (S : Type) := {
  pd_client : RpcHandler (PdW * S);
  pd_client_ok : ∀ request p s r p',
    Handle pd_rpc_server request p = (Ok r, p') →
    pd_client request (p, s) = (Ok r, (p', s));
}.

Definition in_process_pd_client S : PdClient S.
Proof.
  refine {|
    pd_client := λ request '(p, s),
      let '(r, p') := InProcess_Call (Some pd_rpc_server) request p in (r, (p', s));
  |}; intros ????? Hr; unfold InProcess_Call; by rewrite Hr.
Defined.

(** What a caller gets from a server that handles the request, and from nobody. *)
Definition answered {S} (request : RpcRequest) (answer : res RpcResponse * S) : RpcResponse * S :=
  match answer with
  | (Ok response, s) => (response, s)
  | (_, s) => (ErrorResponse request (IoError "socket read failed"), s)
  end.
Definition refused {S} (request : RpcRequest) (s : S) : RpcResponse * S :=
  (MakeRpcError request (ErrorCodeName kRpcError) "failed to connect tcp rpc server", s).

(** The gateway with a cache and a request counter. *)
Definition routed {S} {pdc : PdClient S} (store : RpcHandler (PdW * S)) (dynamic : bool)
    (cache : RouteCache) (i : N) : RpcGatewayClient (PdW * S) :=
  mkRpcGateway (Some pd_client) (Some store) dynamic cache i.
(** A property of every cached route. *)
Definition cache_all (P : RouteEntry → Prop) (cache : RouteCache) : Prop :=
  map_Forall (λ _ e, P e) cache.

(** A cached region id is a [uint64_t]. *)
Definition route_fits (e : RouteEntry) : Prop := (region_id (re_region e) < two64)%N.
Abbreviation cache_fits := (cache_all route_fits).

(** * Routes *)

Section routes.
Context {S : Type} `{!Transport (PdW * S), !PdClient S}.
Context (pdw : PdW) (Hpd : meta_ok (metadata_ pdw.2)) (Hfits : catalog_ok (metadata_ pdw.2))
        (Hboot : ListRegions (metadata_ pdw.2) ≠ []).
Context (store : RpcHandler (PdW * S)) (dynamic : bool).

Definition pd_request (i : N) (method : string) (fields : FieldMap) : RpcRequest :=
  mkRequest ("gateway-pd-" +:+ to_string i) method "gateway" "pd" 3000 (EncodeFields fields) ∅.

Lemma CallPd_answer method fields s cache i r p' :
  Handle pd_rpc_server (pd_request i method fields) pdw = (Ok r, p') →
  CallPd method fields ((pdw, s), routed store dynamic cache i) =
    (Ok r, ((p', s), routed store dynamic cache (u64 (i + 1)))).
Proof.
  intros Hrun. unfold CallPd, take_request_id, the_client, routed, through. run.
  cbn. unfold mbind, M_bind, gets. cbn. fold (pd_request i method fields).
  by rewrite (pd_client_ok _ _ s _ _ Hrun).
Qed.

(** What the driver answers for a key. *)
Definition driver_route (key : string) (e : RouteEntry) : Prop :=
  ∃ st, GetRegionByKey (metadata_ pdw.2) key = Some (re_region e) ∧
    GetRegionLeaderStore (metadata_ pdw.2) (re_region e) = Some st ∧ re_leader_store e = wire_store st.

(** A route, cached or fresh; a fresh one is the driver's. *)
Lemma ResolveRoute_run (P : RouteEntry → Prop) key s cache i :
  (∀ e, driver_route key e → P e) → cache_all P cache →
  ∃ e cache' i', ResolveRoute key ((pdw, s), routed store dynamic cache i) =
      (Ok e, ((pdw, s), routed store dynamic cache' i')) ∧
    cache_all P cache' ∧ P e ∧
    (cache_get key cache = None → GetRegionByKey (metadata_ pdw.2) key = Some (re_region e)).
Proof.
  intros HP Hc. unfold ResolveRoute, the_client. run. cbn [snd routed pd_client_ store_client_ route_cache_].
  destruct (cache_get key cache) as [e|] eqn:Hget.
  { exists e, cache, i. split_and!; [done | done | | done].
    apply cache_get_sound in Hget as [_ (id & Hid)]. exact (Hc _ _ Hid). }
  set (rq := pd_request i "pd.GetRegionByKey" (<["key" := key]> (∅ : FieldMap))).
  destruct (route_answer pdw key rq Hpd Hfits Hboot eq_refl eq_refl)
    as (response & r & st & Hrun & Hok & Hr & Hst & Hdec).
  run_call ltac:(by apply CallPd_answer).
  unfold RpcToStatus. rewrite Hok, lift_ok_bind.
  unfold decoded_route in Hdec. destruct (DecodeFields (rs_payload response)) as [f|?|?]; [|done..].
  cbn [mbind result_bind] in Hdec. rewrite lift_ok_bind. run.
  assert (GetRegionFields f "region" = r) as Hdr by congruence.
  assert (GetStoreFields f "leader_store" = wire_store st) as Hds by congruence.
  rewrite Hdr, Hds.
  set (e := mkRoute r (wire_store st) 0). exists e, (cache_put e cache), (u64 (i + 1)).
  assert (P e) as He by (apply HP; exists st; exact (conj Hr (conj Hst eq_refl))).
  split; [reflexivity|]. split; [by apply map_Forall_insert_2|]. split; [exact He | intros _; exact Hr].
Qed.

Lemma driver_route_fits key e : driver_route key e → route_fits e.
Proof.
  intros (st & Hr & _). destruct (key_has_region _ key Hpd Hboot) as (r' & Hr' & Hin & _).
  assert (r' = re_region e) as -> by congruence.
  by destruct (regions_loadable _ _ Hpd Hfits Hin) as [[] _].
Qed.
End routes.

(** * Requests and answers *)

Lemma request_region_run `{!Transport Net} fields id (w : Net * (Disk * StoreService)) :
  fields !! "region_id" = Some (to_string id) → (id < two64)%N →
  request_region fields w = (Ok id, w).
Proof.
  intros Hf Hid. unfold request_region, GetOr, lift. rewrite Hf. by rewrite stoull_to_string.
Qed.

(** The fields of the three requests; the region comes last. *)
Definition put_fields (key value : string) (id : N) : FieldMap :=
  put_all ∅ [("key", key); ("value", value); ("region_id", to_string id)].
Definition delete_fields (key : string) (id : N) : FieldMap :=
  put_all ∅ [("key", key); ("region_id", to_string id)].
Definition get_fields (key : string) (c : Consistency) (id : N) : FieldMap :=
  put_all ∅ [("key", key); ("consistency", ConsistencyName c); ("region_id", to_string id)].

Lemma ConsistencyName_parse c : ParseConsistency (ConsistencyName c) = c.
Proof. by destruct c. Qed.

(** The request of an operation, with the region the gateway believes in. *)
Definition op_key (op : client_op) : string :=
  match op with CPut key _ | CDelete key | CGet key _ => key end.
Definition op_method (op : client_op) : string :=
  match op with CPut _ _ => "store.KvPut" | CDelete _ => "store.KvDelete" | CGet _ _ => "store.KvGet" end.
Definition op_fields (op : client_op) (id : N) : FieldMap :=
  match op with
  | CPut key value => put_fields key value id
  | CDelete key => delete_fields key id
  | CGet key c => get_fields key c id
  end.

(** The answer to a read. *)
Definition read_answer (key : string) (v : option string) (rq : RpcRequest) : RpcResponse :=
  match v with
  | Some v => MakeRpcOk rq (EncodeFields (<["value" := v]> (∅ : FieldMap)))
  | None => StatusToRpcError rq (key_not_found key)
  end.

(** What the right store answers when it holds [g]. *)
Definition op_answer (op : client_op) (g : DataMap) (rq : RpcRequest) : RpcResponse :=
  match op with
  | CPut _ _ | CDelete _ => MakeRpcOk rq ""
  | CGet key _ => read_answer key (g !! key) rq
  end.

Lemma op_fields_region op id id' :
  <["region_id" := to_string id']> (op_fields op id) = op_fields op id'.
Proof. destruct op; apply insert_insert_eq. Qed.

Lemma op_answer_not_stale op g rq : IsRouteStaleError (op_answer op g rq) = false.
Proof. destruct op as [| |key c]; [done..|]. cbn. by destruct (g !! key). Qed.

(** What a client sees of a status that crossed the wire. *)
Definition over_rpc {A} (r : res A) : res A :=
  match r with
  | Err st => Err (mkStatus kRpcError (ErrorCodeName (code_ st) +:+ ": " +:+ message_ st))
  | r => r
  end.

(** * The operations of a session *)

Section steps.
Context {Net : Type} `{!Transport Net}.

Definition rpc_step (op : client_op) (w : Net * RpcGatewayClient Net) :
    res (option string) * (Net * RpcGatewayClient Net) :=
  match op with
  | CPut k v => let '(r, w') := RpcGateway.Put k v w in (observe (λ _, None) r, w')
  | CDelete k => let '(r, w') := RpcGateway.Delete k w in (observe (λ _, None) r, w')
  | CGet k c => let '(r, w') := RpcGateway.Get k c w in (observe Some r, w')
  end.

Fixpoint rpc_session (ops : list client_op) (w : Net * RpcGatewayClient Net) :
    list (res (option string)) :=
  match ops with
  | [] => []
  | op :: rest => let '(r, w') := rpc_step op w in r :: rpc_session rest w'
  end.
End steps.

(** * The interface of the store side *)

Section interface.
Context {W : Type} `{!Transport (PdW * W), !PdClient W}.
Context (pdw : PdW) (store : RpcHandler (PdW * W)) (dynamic : bool).

Definition at_gateway (s : W) (cache : RouteCache) (i : N) :
    (PdW * W) * RpcGatewayClient (PdW * W) := ((pdw, s), routed store dynamic cache i).

(** A request for [op] that names region [id] reaches a store, which answers it
    when the region is [a], and refuses it with [refusal] otherwise, unchanged. *)
Definition reaches (P : RouteEntry → Prop) (refusal : Status) (op : client_op) (a : N)
    (s s' : W) (answer : RpcRequest → RpcResponse) : Prop :=
  ∀ cache i id, cache_all P cache → (id < two64)%N → ∃ rq cache' i',
    call_for_key (op_method op) (op_key op) (op_fields op id) (at_gateway s cache i) =
      (Ok (if (a =? id)%N then answer rq else StatusToRpcError rq refusal),
       at_gateway (if (a =? id)%N then s' else s) cache' i') ∧ cache_all P cache'.

(** [kv_serves k s g]: the stores in state [s] hold the map [g] and are good for
    [k] more operations. *)
Class KvStore := {
  kv_route : RouteEntry → Prop;
  kv_refusal : Status;
  kv_ok : client_op → Prop;
  kv_serves : nat → W → DataMap → Prop;
  kv_route_fits : ∀ e, kv_route e → route_fits e;
  kv_refusal_stale : ∀ rq, IsRouteStaleError (StatusToRpcError rq kv_refusal) = true;
  kv_step : ∀ k s g op, kv_ok op → kv_serves (S k) s g →
    ∃ s' a, (∀ e, driver_route pdw (op_key op) e → kv_route e ∧ region_id (re_region e) = a) ∧
      reaches kv_route kv_refusal op a s s' (op_answer op g) ∧
      kv_serves k s' (spec_client_step op g).2;
}.
End interface.
Arguments KvStore {W} {_ _} _ _ _.
Arguments kv_route {W _ _ pdw store dynamic _} _.
Arguments kv_refusal {W _ _ pdw store dynamic _}.
Arguments kv_ok {W _ _ pdw store dynamic _} _.
Arguments kv_serves {W _ _ pdw store dynamic _} _ _ _.
Arguments kv_route_fits {W _ _ pdw store dynamic _} _ _.
Arguments kv_refusal_stale {W _ _ pdw store dynamic _} _.
Arguments kv_step {W _ _ pdw store dynamic _} _ _ _ _ _ _.

Section sessions.
Context {W : Type} `{!Transport (PdW * W), !PdClient W}.
Context (pdw : PdW) (Hpd : meta_ok (metadata_ pdw.2)) (Hfits : catalog_ok (metadata_ pdw.2))
        (Hboot : ListRegions (metadata_ pdw.2) ≠ []).
Context (store : RpcHandler (PdW * W)) (dynamic : bool) `{!KvStore pdw store dynamic}.
Abbreviation at_gw := (at_gateway pdw store dynamic).
Abbreviation kv_cache := (cache_all kv_route).

(** Whatever region the gateway believes in, the right store answers. *)
Lemma retry_run op a s s' answer cache i id :
  reaches pdw store dynamic kv_route kv_refusal op a s s' answer →
  (∀ e, driver_route pdw (op_key op) e → kv_route e ∧ region_id (re_region e) = a) →
  (∀ rq, IsRouteStaleError (answer rq) = false) → kv_cache cache → (id < two64)%N →
  ∃ rq cache' i', CallStoreWithRouteRetry (op_method op) (op_key op) (op_fields op id) (at_gw s cache i) =
      (Ok (answer rq), at_gw s' cache' i') ∧ kv_cache cache'.
Proof.
  intros Hreach Hdriver Hans Hc Hid. unfold CallStoreWithRouteRetry.
  destruct (Hreach cache i id Hc Hid) as (rq & cache1 & i1 & Hrun & Hc1).
  unfold mbind at 1, M_bind at 1. rewrite Hrun. destruct (a =? id)%N eqn:Heq.
  { exists rq, cache1, i1. rewrite (Hans rq). split; [reflexivity | exact Hc1]. }
  rewrite kv_refusal_stale. cbn [negb]. run.
  destruct (ResolveRoute_run pdw Hpd Hfits Hboot store dynamic
    (λ e, kv_route e ∧ region_id (re_region e) = a) (op_key op) s cache_clear i1)
    as (e & cache2 & i2 & Hroute & Hc2 & [He Hea] & _); [exact Hdriver | apply map_Forall_empty|].
  run_call ltac:(eapply status_of_ok, Hroute). rewrite op_fields_region.
  destruct (Hreach cache2 i2 (region_id (re_region e))) as (rq2 & cache3 & i3 & Hrun2 & Hc3).
  - intros id' e' He'. apply (Hc2 id' e' He').
  - by apply kv_route_fits in He.
  - rewrite Hea in *. rewrite N.eqb_refl in Hrun2. exists rq2, cache3, i3. split; [exact Hrun2 | exact Hc3].
Qed.

(** The first route and the retry. *)
Lemma gateway_run {A} op a s s' answer (f : RpcResponse → IO ((PdW * W) * RpcGatewayClient (PdW * W)) A)
    cache i :
  reaches pdw store dynamic kv_route kv_refusal op a s s' answer →
  (∀ e, driver_route pdw (op_key op) e → kv_route e ∧ region_id (re_region e) = a) →
  (∀ rq, IsRouteStaleError (answer rq) = false) → kv_cache cache →
  ∃ rq cache' i', kv_cache cache' ∧
    (route ← RpcGateway.ResolveRoute (op_key op);
     response ← CallStoreWithRouteRetry (op_method op) (op_key op)
       (op_fields op (region_id (re_region route)));
     f response) (at_gw s cache i) = f (answer rq) (at_gw s' cache' i').
Proof.
  intros Hreach Hdriver Hans Hc.
  destruct (ResolveRoute_run pdw Hpd Hfits Hboot store dynamic kv_route
    (op_key op) s cache i) as (e & cache1 & i1 & Hroute & Hc1 & He & _);
    [by intros e [? _]%Hdriver | exact Hc |].
  destruct (retry_run op a s s' answer cache1 i1 (region_id (re_region e)) Hreach Hdriver Hans Hc1)
    as (rq & cache2 & i2 & Hrun & Hc2); [by apply kv_route_fits in He|].
  exists rq, cache2, i2. split; [exact Hc2|]. run_call ltac:(exact Hroute).
  run_call ltac:(exact Hrun). reflexivity.
Qed.

Lemma read_decoded {S} key v rq (w : S) :
  (_ ← lift (RpcToStatus (read_answer key v rq));
   response_fields ← lift (DecodeFields (rs_payload (read_answer key v rq)));
   mret (field response_fields "value")) w =
  (over_rpc (match v with Some v => Ok v | None => Err (key_not_found key) end), w).
Proof.
  destruct v as [v|]; [|reflexivity]. unfold read_answer, RpcToStatus.
  cbn [MakeRpcOk rs_ok rs_payload]. rewrite lift_ok_bind, DecodeFields_encode, lift_ok_bind.
  by rewrite (field_some _ _ v) by apply lookup_insert_eq.
Qed.

Lemma rpc_step_serves k s g op cache i :
  kv_ok op → kv_serves (S k) s g → kv_cache cache →
  ∃ s' cache' i',
    rpc_step op (at_gw s cache i) = (over_rpc (spec_client_step op g).1, at_gw s' cache' i') ∧
    kv_serves k s' (spec_client_step op g).2 ∧ kv_cache cache'.
Proof.
  intros Hok Hs Hc. destruct (kv_step k s g op Hok Hs) as (s' & a & Hdriver & Hreach & Hs').
  destruct op as [key v|key|key c]; unfold rpc_step.
  - destruct (gateway_run (CPut key v) a s s' _ (λ response, lift (RpcToStatus response)) cache i
      Hreach Hdriver (op_answer_not_stale _ _) Hc) as (rq & cache' & i' & Hc' & Hrun).
    exists s', cache', i'. unfold RpcGateway.Put. cbn [op_key op_method op_fields] in Hrun.
    unfold put_fields in Hrun. rewrite Hrun. split; [reflexivity | split; [exact Hs' | exact Hc']].
  - destruct (gateway_run (CDelete key) a s s' _ (λ response, lift (RpcToStatus response)) cache i
      Hreach Hdriver (op_answer_not_stale _ _) Hc) as (rq & cache' & i' & Hc' & Hrun).
    exists s', cache', i'. unfold RpcGateway.Delete. cbn [op_key op_method op_fields] in Hrun.
    unfold delete_fields in Hrun. rewrite Hrun. split; [reflexivity | split; [exact Hs' | exact Hc']].
  - destruct (gateway_run (CGet key c) a s s' _ (λ response, _ ← lift (RpcToStatus response);
       response_fields ← lift (DecodeFields (rs_payload response));
       mret (field response_fields "value")) cache i
      Hreach Hdriver (op_answer_not_stale _ _) Hc) as (rq & cache' & i' & Hc' & Hrun).
    exists s', cache', i'. unfold RpcGateway.Get. cbn [op_key op_method op_fields op_answer] in Hrun.
    unfold get_fields in Hrun. rewrite Hrun, read_decoded. cbn [spec_client_step fst].
    split; [by destruct (g !! key) | split; [exact Hs' | exact Hc']].
Qed.

Lemma rpc_session_serves ops : ∀ k s g cache i,
  Forall kv_ok ops → kv_serves (length ops + k) s g →
  kv_cache cache →
  rpc_session ops (at_gw s cache i) = over_rpc <$> spec_session ops g.
Proof.
  induction ops as [|op ops IH]; intros k s g cache i Hok Hs Hc; [done|].
  apply list.Forall_cons in Hok as [Hop Hok]. cbn [rpc_session spec_session length] in *.
  destruct (rpc_step_serves (length ops + k) s g op cache i Hop Hs Hc)
    as (s' & cache' & i' & -> & Hs' & Hc').
  destruct (spec_client_step op g) as [r g']. cbn [fmap list_fmap]. f_equal. by eapply IH.
Qed.
End sessions.
