(* ===== verification/RpcSession.v ===== *)
(** The whole stack over RPC: a gateway client that asks the placement driver's
    service for routes and sends its requests to a store service over the
    regions of one process. Whatever routes the gateway has cached, a session
    reads as one map: the regions keep the interface of KvSession.v. *)

From S2P Require Import Prelude Types Text Codec Service Engine Raft RaftStorage Keyspace.
From S2P Require Import Cluster ClusterSpec Region Pd PdSpec PdSafety PdCatalog Multi MultiSpec MultiRegion.
From S2P Require Import Gateway GatewaySpec PdService Distributed Tcp StoreService RpcGateway KvSession.

(** * The servers *)

(** The driver's process and the store's, each with its disk. *)
Abbreviation StoreProcess := (unit * (Disk * StoreService))%type.
Abbreviation World := (PdW * StoreProcess)%type.

(** The gateway's clients of the two servers. *)
Class Clients := {
  clients_pd :: PdClient StoreProcess;
  store_client : RpcHandler World;
  store_client_ok : ∀ request p s r s',
    Handle store_rpc_server request s = (Ok r, s') →
    store_client request (p, s) = (Ok r, (p, s'));
}.

(** [InProcessRpcClient]s. *)
#[export] Instance in_process_clients : Clients.
Proof.
  refine {|
    clients_pd := in_process_pd_client StoreProcess;
    store_client := λ request '(p, s),
      let '(r, s') := InProcess_Call (Some store_rpc_server) request s in (r, (p, s'));
  |}; intros ????? Hr; unfold InProcess_Call; by rewrite Hr.
Defined.

Definition over_regions (d : Disk) (m : MultiRegionCluster) : StoreProcess :=
  (tt, (d, over_multi (Some m))).

(** The gateway with a cache and a request counter. *)
Definition gateway {clients : Clients} (cache : RouteCache) (i : N) : RpcGatewayClient World :=
  routed store_client false cache i.

(** The driver and the store agree on which region holds a key. *)
Definition same_regions (meta : PdMetadataStore) (m : MultiRegionCluster) : Prop :=
  ∀ key r, GetRegionByKey meta key = Some r →
    ∃ a, FindRegionByKey key m = Some a ∧ region_id a = region_id r.

(** * Requests at the store *)

(** The region table changes with splits and membership only. *)
Lemma on_cluster_regions {A} id (f : IO ClusterW A) d m r d' m' :
  on_cluster id f (d, m) = (r, (d', m')) → mc_regions m' = mc_regions m.
Proof.
  unfold on_cluster. destruct (mc_clusters m !! id) as [c|]; [|by intros [= _ _ <-]].
  destruct (f (d, c)) as [q [d1 c1]]. by intros [= _ _ <-].
Qed.

Lemma routed_regions {A} key (f : IO ClusterW A) d m r d' m' :
  (id ← route key; on_cluster id f) (d, m) = (r, (d', m')) → mc_regions m' = mc_regions m.
Proof.
  assert (route key (d, m) = (match FindRegionByKey key m with
    | None => Err (mkStatus kRegionNotFound "region not found for key")
    | Some a => Ok (region_id a)
    end, (d, m))) as Hroute
    by (unfold route, the_multi; run; cbn [snd]; by destruct (FindRegionByKey key m)).
  unfold mbind at 1, M_bind at 1. rewrite Hroute.
  destruct (FindRegionByKey key m) as [a|]; [apply on_cluster_regions | by intros [= _ _ <-]].
Qed.

Lemma same_regions_kept meta m m' :
  mc_regions m' = mc_regions m → same_regions meta m → same_regions meta m'.
Proof.
  intros Heq Hs key r Hr. destruct (Hs key r Hr) as (a & Ha & Hid). exists a.
  unfold FindRegionByKey in *. by rewrite Heq.
Qed.

Section session.
Context `{!Transport World, !Clients}.

Definition store_request (i : N) (method : string) (fields : FieldMap) : RpcRequest :=
  mkRequest ("gateway-store-" +:+ to_string i) method "gateway" "store" 3000
    (EncodeFields fields) ∅.

Definition stale_route : Status := mkStatus kStaleEpoch "request route is stale".

(** The outcome of the route check of a request that names region [id]. *)
Lemma validate_run fields key id d m a :
  fields !! "region_id" = Some (to_string id) → (id < two64)%N →
  FindRegionByKey key m = Some a →
  validate fields key (over_regions d m) =
    (if (region_id a =? id)%N then Ok tt else Err stale_route, over_regions d m).
Proof.
  intros Hf Hid Ha. unfold validate, the_service, over_regions. run.
  cbn [snd over_multi multi_cluster_]. unfold ValidateRoute, GetOr, lift. rewrite Hf, Ha.
  rewrite decide_False by (intros Heq; pose proof (to_string_word id) as Hw; by rewrite Heq in Hw).
  rewrite stoull_to_string by done. cbn [mbind result_bind]. by case_match.
Qed.

Lemma on_backend_regions {A} store node (multi : IO MultiW A) single d m r d' m' :
  multi (d, m) = (r, (d', m')) →
  StoreService.on_backend store node multi single (over_regions d m) = (r, over_regions d' m').
Proof.
  intros Hrun. unfold StoreService.on_backend, the_service, over_regions. run.
  cbn [snd over_multi distributed_store_ distributed_node_ multi_cluster_]. unfold on_multi.
  cbn [over_multi multi_cluster_]. by rewrite Hrun.
Qed.

(** A store's answer to a request that names region [id], the key being in [a]. *)
Definition region_answer (request : RpcRequest) (a id : N) (d : Disk) (m : MultiRegionCluster)
    (right : res RpcResponse * StoreProcess) : res RpcResponse * StoreProcess :=
  if (a =? id)%N then right else (Ok (StatusToRpcError request stale_route), over_regions d m).

Lemma put_answer request key value id d m a r d' m' :
  rq_method request = "store.KvPut" →
  rq_payload request = EncodeFields (put_fields key value id) → (id < two64)%N →
  FindRegionByKey key m = Some a → Multi.Put key value (d, m) = (r, (d', m')) →
  Handle store_rpc_server request (over_regions d m) =
    region_answer request (region_id a) id d m
      (respond request (_ ← lift r; mret "") (over_regions d' m')).
Proof.
  intros Hm Hp Hid Ha Hrun.
  rewrite (handle_run _ _ _ _ StoreService.HandlePut Hm) by reflexivity.
  unfold StoreService.HandlePut, respond, region_answer.
  run_call ltac:(by apply payload_run).
  rewrite (field_some _ "key" key) by done. rewrite (field_some _ "value" value) by done.
  unfold mbind at 1, M_bind at 1. rewrite (validate_run _ key id d m a) by done.
  destruct (region_id a =? id)%N; [|done].
  run_call ltac:(by apply request_region_run).
  unfold mbind at 1, M_bind at 1. by rewrite (on_backend_regions _ _ _ _ d m r d' m' Hrun).
Qed.

Lemma delete_answer request key id d m a r d' m' :
  rq_method request = "store.KvDelete" →
  rq_payload request = EncodeFields (delete_fields key id) → (id < two64)%N →
  FindRegionByKey key m = Some a → Multi.Delete key (d, m) = (r, (d', m')) →
  Handle store_rpc_server request (over_regions d m) =
    region_answer request (region_id a) id d m
      (respond request (_ ← lift r; mret "") (over_regions d' m')).
Proof.
  intros Hm Hp Hid Ha Hrun.
  rewrite (handle_run _ _ _ _ StoreService.HandleDelete Hm) by reflexivity.
  unfold StoreService.HandleDelete, respond, region_answer.
  run_call ltac:(by apply payload_run). rewrite (field_some _ "key" key) by done.
  unfold mbind at 1, M_bind at 1. rewrite (validate_run _ key id d m a) by done.
  destruct (region_id a =? id)%N; [|done].
  run_call ltac:(by apply request_region_run).
  unfold mbind at 1, M_bind at 1. by rewrite (on_backend_regions _ _ _ _ d m r d' m' Hrun).
Qed.

Lemma get_answer request key c id d m a r d' m' :
  rq_method request = "store.KvGet" →
  rq_payload request = EncodeFields (get_fields key c id) → (id < two64)%N →
  FindRegionByKey key m = Some a → Multi.Get key c (d, m) = (r, (d', m')) →
  Handle store_rpc_server request (over_regions d m) =
    region_answer request (region_id a) id d m
      (respond request (value ← lift r; mret (EncodeFields (<["value" := value]> (∅ : FieldMap))))
         (over_regions d' m')).
Proof.
  intros Hm Hp Hid Ha Hrun.
  rewrite (handle_run _ _ _ _ StoreService.HandleGet Hm) by reflexivity.
  unfold StoreService.HandleGet, respond, region_answer.
  run_call ltac:(by apply payload_run). rewrite (field_some _ "key" key) by done.
  unfold mbind at 1, M_bind at 1. rewrite (validate_run _ key id d m a) by done.
  destruct (region_id a =? id)%N; [|done].
  run_call ltac:(by apply request_region_run).
  unfold GetOr.
  assert (get_fields key c id !! "consistency" = Some (ConsistencyName c)) as -> by done.
  rewrite ConsistencyName_parse.
  unfold mbind at 1, M_bind at 1. by rewrite (on_backend_regions _ _ _ _ d m r d' m' Hrun).
Qed.

(** The answer to an operation, and the regions it leaves. *)
Lemma op_served k d m g op a :
  session_ok op → serves (S k) m g → disk_ok d → FindRegionByKey (op_key op) m = Some a →
  ∃ d' m', disk_ok d' ∧ serves k m' (spec_client_step op g).2 ∧ mc_regions m' = mc_regions m ∧
    ∀ request id, rq_method request = op_method op →
      rq_payload request = EncodeFields (op_fields op id) → (id < two64)%N →
      Handle store_rpc_server request (over_regions d m) =
        region_answer request (region_id a) id d m (Ok (op_answer op g request), over_regions d' m').
Proof.
  intros Hok Hs Hd Ha. destruct op as [key v|key|key c]; cbn [session_ok op_key spec_client_step snd] in *.
  - destruct Hok as [Hne Hk].
    destruct (Put_serves k m g key v d Hs Hd Hne Hk) as (d' & m' & Hrun & Hd' & Hs').
    exists d', m'. split_and!; [done | done | by eapply routed_regions |]. intros request id Hm Hp Hid.
    by rewrite (put_answer request key v id d m a (Ok tt) d' m').
  - destruct (Delete_serves k m g key d Hs Hd Hok) as (d' & m' & Hrun & Hd' & Hs').
    exists d', m'. split_and!; [done | done | by eapply routed_regions |]. intros request id Hm Hp Hid.
    by rewrite (delete_answer request key id d m a (Ok tt) d' m').
  - pose proof (Get_serves (S k) m g key c d Hs Hok) as Hrun.
    exists d, m. split_and!; [done | by apply serves_less | done |]. intros request id Hm Hp Hid.
    rewrite (get_answer request key c id d m a _ d m Hm Hp Hid Ha Hrun). cbn [op_answer].
    by destruct (g !! key).
Qed.

Lemma CallStore_answer (pdw : PdW) method fields s cache i r s' :
  Handle store_rpc_server (store_request i method fields) s = (Ok r, s') →
  CallStore method fields (((pdw, s) : World), gateway cache i) =
    (Ok r, ((pdw, s'), gateway cache (u64 (i + 1)))).
Proof.
  intros Hrun. unfold CallStore, take_request_id, the_client, gateway, routed, through. run.
  cbn. unfold mbind, M_bind, gets. cbn. fold (store_request i method fields).
  by rewrite (store_client_ok _ pdw _ _ _ Hrun).
Qed.

End session.

Section instance.
Context `{!Transport World, !Clients}.
Context (pdw : PdW) (Hpd : meta_ok (metadata_ pdw.2)) (Hfits : catalog_ok (metadata_ pdw.2))
        (Hboot : ListRegions (metadata_ pdw.2) ≠ []).

(** The store's regions hold [g], and the driver knows them. *)
Definition regions_serve (k : nat) (s : StoreProcess) (g : DataMap) : Prop :=
  ∃ d m, s = over_regions d m ∧ disk_ok d ∧ serves k m g ∧ same_regions (metadata_ pdw.2) m.

Lemma regions_step k s g op :
  session_ok op → regions_serve (S k) s g →
  ∃ s' a, (∀ e, driver_route pdw (op_key op) e → route_fits e ∧ region_id (re_region e) = a) ∧
    reaches pdw store_client false route_fits stale_route op a s s' (op_answer op g) ∧
    regions_serve k s' (spec_client_step op g).2.
Proof.
  intros Hok (d & m & -> & Hd & Hs & Hsame).
  destruct (region_of_key m (op_key op)) as (a & Ha & Hk); [apply Hs|].
  assert (FindRegionByKey (op_key op) m = Some a) as Hfind by (apply FindRegionByKey_ok; [apply Hs | done | done]).
  destruct (op_served k d m g op a Hok Hs Hd Hfind) as (d' & m' & Hd' & Hs' & Hregs & Hhandle).
  exists (over_regions d' m'), (region_id a). split_and!.
  - intros e He. split; [by eapply driver_route_fits|]. destruct He as (st & Hr & _).
    destruct (Hsame _ _ Hr) as (a' & Ha' & <-). by simplify_eq.
  - intros cache i id Hc Hid. eexists _, cache, (u64 (i + 1)). split; [|exact Hc].
    unfold call_for_key, the_client. run. cbn [snd at_gateway routed dynamic_store_routing_ negb].
    pose proof (Hhandle (store_request i (op_method op) (op_fields op id)) id eq_refl eq_refl Hid) as Hans.
    unfold region_answer in Hans.
    destruct (region_id a =? id)%N; exact (CallStore_answer pdw _ _ _ cache i _ _ Hans).
  - exists d', m'. split_and!; [done | done | done |]. by eapply same_regions_kept.
Qed.

#[local] Instance regions_store : KvStore pdw store_client false := {
  kv_route := route_fits;
  kv_refusal := stale_route;
  kv_ok := session_ok;
  kv_serves := regions_serve;
  kv_route_fits e He := He;
  kv_refusal_stale rq := eq_refl;
  kv_step k s g op Hok Hs := regions_step k s g op Hok Hs;
}.
End instance.

Definition served `{!Clients} (pdw : PdW) (d : Disk) (m : MultiRegionCluster) (cache : RouteCache)
    (i : N) : World * RpcGatewayClient World := ((pdw, over_regions d m), gateway cache i).

Abbreviation SessionW := (World * RpcGatewayClient World)%type.

(** C9: The stack over RPC reads as one map. A gateway client, a placement driver
    with any history that has bootstrapped, behind its RPC service, and a store
    service over regions with any history. Provided that the driver and the store
    agree on the region of every key (a split that only one of them carries out ends
    that), a session of puts, deletes and reads of keys that are not the program's
    own, no put of the empty key, returns, operation by operation, what a single map
    returns (an error as the RPC error that carries it), for any routes the gateway
    has cached. A request with a stale route is refused by the store without effect,
    and succeeds on the retry. *)
Theorem rpc_session_is_one_map `{!Transport World, !Clients} pdw dir n rs d m0 j w g cache i ops :
  pd_reachable pdw → catalog_ok (metadata_ pdw.2) → ListRegions (metadata_ pdw.2) ≠ [] →
  partition rs → dir ≠ "" → disk_ok d → n ≠ 0 → (N.of_nat (j + length ops) + 2 < two64)%N →
  history (Multi.Bootstrap dir n rs true (d, m0)).2 j w g →
  same_regions (metadata_ pdw.2) w.2 → cache_fits cache → Forall session_ok ops →
  rpc_session ops (served pdw w.1 w.2 cache i) = over_rpc <$> spec_session ops g.
Proof.
  intros Hpd%reachable_meta_ok Hfits Hboot Hp Hdir Hd Hn Hj Hh Hsame Hc Hok. destruct w as [dw mw].
  destruct (Bootstrap_serves (j + length ops) dir n rs d m0 Hp Hdir Hd Hn)
    as (d' & m' & Hrun & Hd' & Hs & _); [lia|].
  rewrite Hrun in Hh. destruct (history_serves _ _ _ _ (length ops) Hh Hd' Hs) as [Hdw Hsw]; [lia|].
  apply (rpc_session_serves (W := StoreProcess) pdw Hpd Hfits Hboot store_client false
    (KvStore0 := regions_store pdw Hpd Hfits Hboot) ops 0); [done | | done].
  exists dw, mw. rewrite Nat.add_0_r. by split_and!.
Qed.

(** Agreement follows from equal tables of ids and ranges. *)
Definition ranges (rs : list RegionInfo) : list (N * string * string) :=
  (λ r, (region_id r, start_key r, end_key r)) <$> rs.

Lemma same_ranges meta m :
  meta_ok meta → ListRegions meta ≠ [] → partition (mc_regions m) →
  ranges (ListRegions meta) = ranges (mc_regions m) → same_regions meta m.
Proof.
  intros Hm Hne Hp Heq key r Hr.
  destruct (key_has_region _ key Hm Hne) as (r' & Hr' & Hin & Hk).
  assert (r' = r) as -> by congruence.
  assert ((region_id r, start_key r, end_key r) ∈ ranges (mc_regions m)) as Ha.
  { rewrite <-Heq. by apply (list_elem_of_fmap_2 (λ r, (region_id r, start_key r, end_key r))). }
  apply list_elem_of_fmap in Ha as (a & Ha & Hina). injection Ha as Hid Hst Hen.
  exists a. split; [|done]. apply FindRegionByKey_ok; [done | done |].
  rewrite <-Hk. unfold ContainsKey. by rewrite Hst, Hen.
Qed.

Lemma demo_partition : partition (mc_regions demo_multi.2).
Proof.
  destruct (Bootstrap_serves 5 "data" 3 [whole_space] (mkDisk ∅ []) new_multi whole_space_partition)
    as (d' & m' & Hrun & Hd' & Hs & _); [done | done | done | vm_compute; done |].
  pose proof demo_multi_history as Hh. unfold demo_boot in Hh. rewrite Hrun in Hh.
  by destruct (history_serves _ _ _ _ 0 Hh Hd' Hs) as [_ []].
Qed.

Lemma demo_same_regions : same_regions (metadata_ demo_pd.2) demo_multi.2.
Proof.
  apply same_ranges; [exact (reachable_meta_ok _ demo_reachable) | by vm_compute
    | exact demo_partition | vm_compute; reflexivity].
Qed.

(** A world that is its servers only. *)
Definition servers_only : Transport World := λ _ request w,
  (ErrorResponse request (Internal "failed to connect"), w).

(** The regions of the sample history, and a cache that misroutes every key. *)
Lemma rpc_session_is_one_map_witness :
  rpc_session (Transport0 := servers_only) demo_session
    (served demo_pd demo_multi.1 demo_multi.2 stale_cache 1) =
  [Ok (Some "3"); Ok None; Ok (Some "4"); Ok None;
   Err (mkStatus kRpcError "KEY_NOT_FOUND: key not found: melon")].
Proof.
  rewrite (rpc_session_is_one_map (Transport0 := servers_only) demo_pd "data" 3 [whole_space]
    (mkDisk ∅ []) new_multi 5 demo_multi demo_map stale_cache 1 demo_session demo_reachable
    catalog_ok_demo).
  - vm_compute. reflexivity.
  - by vm_compute.
  - exact whole_space_partition.
  - discriminate.
  - reflexivity.
  - discriminate.
  - reflexivity.
  - exact demo_multi_history.
  - exact demo_same_regions.
  - apply map_Forall_singleton. reflexivity.
  - repeat constructor; discriminate.
Defined.
