(* ===== verification/Cli.v ===== *)
(** The command line client, src/tools/rstone_cli.cpp: one invocation is one
    request to the gateway, whose answer is printed. Invocations against a gateway
    over a running cluster print what a map would. *)

From S2P Require Import Prelude Types Text Codec Service Engine Raft RaftStorage Keyspace.
From S2P Require Import Cluster ClusterSpec Region Pd PdSpec PdSafety PdCatalog Multi MultiSpec MultiRegion.
From S2P Require Import Gateway GatewaySpec PdService Distributed Tcp StoreService RpcGateway GatewayService KvSession.

(** What the process has written. *)
Record Console := mkConsole { cout_ : string; cerr_ : string }.

Definition usage_lines : list string :=
  [ " --endpoint host:port put <key> <value>";
    " --endpoint host:port get <key> [linearizable|eventual]";
    " --endpoint host:port store-get <key> [linearizable|eventual]";
    " --endpoint host:port delete <key>";
    " --endpoint host:port split <region_id> <split_key>";
    " --endpoint host:port transfer-leader <region_id> <peer_id>";
    " --endpoint host:port add-peer <region_id> <store_id>";
    " --endpoint host:port remove-peer <region_id> <peer_id>";
    " --endpoint host:port status" ].

Definition Usage (program : string) : string :=
  "Usage:" +:+ newline +:+
  foldr (λ line text, "  " +:+ program +:+ line +:+ newline +:+ text) "" usage_lines.

Definition ParseEndpoint (value : string) : res Endpoint :=
  match split_at ":" value with
  | None => Ok (mkEndpoint value 18080)
  | Some (host, rest) => port ← stoi rest; Ok (mkEndpoint host port)
  end.

(** The method and the fields of a command; [None] prints the usage. Further
    arguments are ignored. *)
Definition two_fields (method name1 name2 : string) (args : list string) : option (string * FieldMap) :=
  match args with
  | a :: b :: _ => Some (method, put_all ∅ [(name1, a); (name2, b)])
  | _ => None
  end.
Definition read_fields (method : string) (args : list string) : option (string * FieldMap) :=
  match args with
  | key :: rest =>
      Some (method, put_all ∅ [("key", key); ("consistency", default "linearizable" (head rest))])
  | [] => None
  end.

Definition command_request (command : string) (args : list string) : option (string * FieldMap) :=
  if decide (command = "put") then two_fields "kv.Put" "key" "value" args
  else if decide (command = "get") then read_fields "kv.Get" args
  else if decide (command = "store-get") then read_fields "store.KvGet" args
  else if decide (command = "delete") then
    match args with key :: _ => Some ("kv.Delete", <["key" := key]> (∅ : FieldMap)) | [] => None end
  else if decide (command = "split") then
    two_fields "cluster.SplitRegion" "region_id" "split_key" args
  else if decide (command = "transfer-leader") then
    two_fields "cluster.TransferLeader" "region_id" "target_peer_id" args
  else if decide (command = "add-peer") then
    two_fields "cluster.AddPeer" "region_id" "store_id" args
  else if decide (command = "remove-peer") then
    two_fields "cluster.RemovePeer" "region_id" "peer_id" args
  else if decide (command = "status") then Some ("cluster.Status", ∅)
  else None.

Section cli.
Context {Net : Type} `{!Transport Net}.

Abbreviation CliW := (Net * Console)%type.

Definition cout (text : string) : IO CliW unit :=
  modify (λ w : CliW, (w.1, mkConsole (cout_ w.2 +:+ text) (cerr_ w.2))).
Definition cerr (text : string) : IO CliW unit :=
  modify (λ w : CliW, (w.1, mkConsole (cout_ w.2) (cerr_ w.2 +:+ text))).

Definition Call (client : Endpoint) (method : string) (fields : FieldMap) : IO CliW RpcResponse :=
  λ '(net, console),
  let '(response, net') :=
    tcp_call client (mkRequest "cli-1" method "cli" "gateway" 3000 (EncodeFields fields) ∅) net in
  (Ok response, (net', console)).

(** Print the decoded payload, or why it does not decode. *)
Definition print_fields (response : RpcResponse) (text : FieldMap → string) : IO CliW Z :=
  decoded ← status_of (lift (DecodeFields (rs_payload response)));
  match decoded with
  | inr status => _ ← cerr (Status_ToString status +:+ newline); mret 1%Z
  | inl fields => _ ← cout (text fields); mret 0%Z
  end.

Definition report (command : string) (response : RpcResponse) : IO CliW Z :=
  if negb (rs_ok response) then
    _ ← cerr (rs_error_code response +:+ ": " +:+ rs_error_message response +:+ newline);
    mret 1%Z
  else if decide (command = "get" ∨ command = "store-get") then
    print_fields response (λ fields, field fields "value" +:+ newline)
  else if decide (command = "status") then
    print_fields response (λ fields,
      foldr (λ kv text, kv.1 +:+ "=" +:+ kv.2 +:+ newline +:+ text) "" (kvs fields))
  else _ ← cout ("OK" +:+ newline); mret 0%Z.

(** The endpoint and the words of the command. *)
Definition endpoint_args (args : list string) : string * list string :=
  match args with
  | flag :: endpoint :: rest =>
      if decide (flag = "--endpoint") then (endpoint, rest) else ("127.0.0.1:18080", args)
  | _ => ("127.0.0.1:18080", args)
  end.

(** [main]: the exit code. [args] are the arguments after the program's name. *)
Definition main (program : string) (args : list string) : IO CliW Z :=
  let usage := _ ← cerr (Usage program); mret 2%Z in
  match endpoint_args args with
  | (_, []) => usage
  | (endpoint_arg, command :: rest) =>
      endpoint ← lift (ParseEndpoint endpoint_arg);
      match command_request command rest with
      | None => usage
      | Some (method, fields) =>
          response ← Call endpoint method fields;
          report command response
      end
  end.

(** One invocation after the other, each with what it printed. *)
Fixpoint invocations (program : string) (lines : list (list string)) (net : Net) :
    list (res Z * Console) :=
  match lines with
  | [] => []
  | args :: rest =>
      let '(r, (net', console)) := main program args (net, mkConsole "" "") in
      (r, console) :: invocations program rest net'
  end.
End cli.

(** * What an invocation prints *)

(** The arguments a user types for an operation. *)
Definition command_line (endpoint : string) (op : client_op) : list string :=
  ["--endpoint"; endpoint] ++
  match op with
  | CPut key value => ["put"; key; value]
  | CDelete key => ["delete"; key]
  | CGet key c => ["get"; key; ConsistencyName c]
  end.

(** The exit code and the text for a result. *)
Definition printed (r : res (option string)) : res Z * Console :=
  match r with
  | Ok (Some value) => (Ok 0%Z, mkConsole (value +:+ newline) "")
  | Ok None => (Ok 0%Z, mkConsole ("OK" +:+ newline) "")
  | Err st => (Ok 1%Z, mkConsole "" (ErrorCodeName (code_ st) +:+ ": " +:+ message_ st +:+ newline))
  | Fault f => (Fault f, mkConsole "" "")
  end.

(** The gateway listens at an endpoint: what it answers is what a call to the
    endpoint returns. *)
Class GatewayAt {Net} `{!Transport Net, !Transport (Net * RpcGatewayClient Net)}
    (endpoint : Endpoint) : Prop :=
  gateway_answers : ∀ request (w : Net * RpcGatewayClient Net) r w',
    Handle gateway_rpc_server request w = (Ok r, w') → tcp_call endpoint request w = (r, w').

Section run.
Context {Net : Type} `{!Transport Net, !Transport (Net * RpcGatewayClient Net)}.
Context (endpoint : Endpoint) `{!GatewayAt endpoint}.
Abbreviation ClientW := (Net * RpcGatewayClient Net)%type.

(** The response to a request handled with outcome [r]. *)
Definition outcome {A} (request : RpcRequest) (payload : A → string) (r : res A) : RpcResponse :=
  match r with
  | Ok a => MakeRpcOk request (payload a)
  | Err st => StatusToRpcError request st
  | Fault _ => MakeRpcOk request ""
  end.

Lemma respond_outcome {A} (f : IO ClientW A) (payload : A → string) request w r w' :
  f w = (r, w') → (∀ x, r ≠ Fault x) →
  respond request (a ← f; mret (payload a)) w = (Ok (outcome request payload r), w').
Proof.
  intros Hrun Hr. unfold respond, mbind at 1, M_bind at 1. rewrite Hrun.
  destruct r as [a|st|x]; [done | done | by destruct (Hr x)].
Qed.

Lemma Call_run method fields w r w' console :
  (∀ request, rq_method request = method → rq_payload request = EncodeFields fields →
     Handle gateway_rpc_server request w = (Ok (r request), w')) →
  ∃ request, Call endpoint method fields (w, console) = (Ok (r request), (w', console)).
Proof. intros Hh. eexists. unfold Call. by erewrite gateway_answers by (by apply Hh). Qed.

Lemma report_error command request st w console :
  report (Net := ClientW) command (StatusToRpcError request st) (w, console) =
  (Ok 1%Z, (w, mkConsole (cout_ console)
                 (cerr_ console +:+ ErrorCodeName (code_ st) +:+ ": " +:+ message_ st +:+ newline))).
Proof. reflexivity. Qed.

(** The requests of the three commands, handled by the gateway. *)
Lemma put_handled key value request (w : ClientW) r w' :
  rq_method request = "kv.Put" →
  rq_payload request = EncodeFields (put_all ∅ [("key", key); ("value", value)]) →
  RpcGateway.Put key value w = (r, w') → (∀ x, r ≠ Fault x) →
  Handle gateway_rpc_server request w = (Ok (outcome request (λ _, "") r), w').
Proof.
  intros Hm Hp Hrun Hr.
  rewrite (handle_run _ _ _ _ GatewayService.HandlePut Hm) by reflexivity.
  rewrite <-(respond_outcome _ _ request _ _ _ Hrun Hr). unfold GatewayService.HandlePut, respond.
  by run_call ltac:(by apply payload_run).
Qed.

Lemma delete_handled key request (w : ClientW) r w' :
  rq_method request = "kv.Delete" →
  rq_payload request = EncodeFields (<["key" := key]> (∅ : FieldMap)) →
  RpcGateway.Delete key w = (r, w') → (∀ x, r ≠ Fault x) →
  Handle gateway_rpc_server request w = (Ok (outcome request (λ _, "") r), w').
Proof.
  intros Hm Hp Hrun Hr.
  rewrite (handle_run _ _ _ _ GatewayService.HandleDelete Hm) by reflexivity.
  rewrite <-(respond_outcome _ _ request _ _ _ Hrun Hr). unfold GatewayService.HandleDelete, respond.
  by run_call ltac:(by apply payload_run).
Qed.

Lemma get_handled key c request (w : ClientW) r w' :
  rq_method request = "kv.Get" →
  rq_payload request =
    EncodeFields (put_all ∅ [("key", key); ("consistency", ConsistencyName c)]) →
  RpcGateway.Get key c w = (r, w') → (∀ x, r ≠ Fault x) →
  Handle gateway_rpc_server request w =
    (Ok (outcome request (λ value, EncodeFields (<["value" := value]> (∅ : FieldMap))) r), w').
Proof.
  intros Hm Hp Hrun Hr.
  rewrite (handle_run _ _ _ _ GatewayService.HandleGet Hm) by reflexivity.
  rewrite <-(respond_outcome _ _ request _ _ _ Hrun Hr). unfold GatewayService.HandleGet, respond.
  run_call ltac:(by apply payload_run). unfold GetOr.
  assert (put_all (∅ : FieldMap) [("key", key); ("consistency", ConsistencyName c)] !! "consistency" =
    Some (ConsistencyName c)) as -> by done.
  by rewrite ConsistencyName_parse.
Qed.

(** The command of an operation reaches [main]'s request. *)
Lemma main_call program text op method fields (w w' : ClientW) (response : RpcRequest → RpcResponse) :
  ParseEndpoint text = Ok endpoint →
  (∃ command args, command_line text op = ["--endpoint"; text; command] ++ args ∧
     command_request command args = Some (method, fields)) →
  (∀ request, rq_method request = method → rq_payload request = EncodeFields fields →
     Handle gateway_rpc_server request w = (Ok (response request), w')) →
  ∃ request, main program (command_line text op) (w, mkConsole "" "") =
    report (nth 2 (command_line text op) "") (response request) (w', mkConsole "" "").
Proof.
  intros Hep (command & args & Hline & Hreq) Hh.
  destruct (Call_run method fields w response w' (mkConsole "" "") Hh) as (request & Hcall).
  exists request. rewrite Hline. unfold main, endpoint_args. cbn [app].
  rewrite decide_True by done. rewrite Hep, lift_ok_bind, Hreq. by run_call ltac:(exact Hcall).
Qed.

Lemma main_run program text op (w w' : ClientW) q :
  ParseEndpoint text = Ok endpoint → rpc_step op w = (q, w') → (∀ x, q ≠ Fault x) →
  main program (command_line text op) (w, mkConsole "" "") =
    ((printed q).1, (w', (printed q).2)).
Proof.
  intros Hep Hstep Hq. destruct op as [key value|key|key c]; cbn [rpc_step] in Hstep.
  - destruct (RpcGateway.Put key value w) as [r w1] eqn:Hrun.
    apply pair_equal_spec in Hstep as [<- <-].
    destruct (main_call program text (CPut key value) "kv.Put"
      (put_all ∅ [("key", key); ("value", value)]) w w1 (λ rq, outcome rq (λ _, "") r) Hep) as (request & ->).
    + by exists "put", [key; value].
    + intros request Hm Hp. apply (put_handled key value request w r w1 Hm Hp Hrun).
      intros x ->. by destruct (Hq x).
    + destruct r as [a|st|x]; [reflexivity | apply report_error | by destruct (Hq x)].
  - destruct (RpcGateway.Delete key w) as [r w1] eqn:Hrun.
    apply pair_equal_spec in Hstep as [<- <-].
    destruct (main_call program text (CDelete key) "kv.Delete"
      (<["key" := key]> ∅) w w1 (λ rq, outcome rq (λ _, "") r) Hep) as (request & ->).
    + by exists "delete", [key].
    + intros request Hm Hp. apply (delete_handled key request w r w1 Hm Hp Hrun).
      intros x ->. by destruct (Hq x).
    + destruct r as [a|st|x]; [reflexivity | apply report_error | by destruct (Hq x)].
  - destruct (RpcGateway.Get key c w) as [r w1] eqn:Hrun.
    apply pair_equal_spec in Hstep as [<- <-].
    destruct (main_call program text (CGet key c) "kv.Get"
      (put_all ∅ [("key", key); ("consistency", ConsistencyName c)]) w w1
      (λ rq, outcome rq (λ value, EncodeFields (<["value" := value]> (∅ : FieldMap))) r) Hep) as (request & ->).
    + by exists "get", [key; ConsistencyName c].
    + intros request Hm Hp. apply (get_handled key c request w r w1 Hm Hp Hrun).
      intros x ->. by destruct (Hq x).
    + destruct r as [v|st|x]; [|apply report_error | by destruct (Hq x)].
      unfold report, print_fields, outcome. cbn [MakeRpcOk rs_ok rs_payload negb command_line nth app].
      rewrite decide_True by (by left).
      run_call ltac:(apply status_of_ok; unfold lift; by rewrite DecodeFields_encode).
      unfold field. by rewrite lookup_insert_eq.
Qed.
End run.

(** * Invocations against a running cluster *)

Lemma spec_no_fault op g x : over_rpc (spec_client_step op g).1 ≠ Fault x.
Proof. destruct op as [k v|k|k c]; cbn; [done..|]. by destruct (g !! k). Qed.

Section invocations.
Context {W : Type} `{!Transport (PdW * W), !PdClient W}.
Context `{!Transport ((PdW * W) * RpcGatewayClient (PdW * W))}.
Context (pdw : PdW) (Hpd : meta_ok (metadata_ pdw.2)) (Hfits : catalog_ok (metadata_ pdw.2))
        (Hboot : ListRegions (metadata_ pdw.2) ≠ []).
Context (store : RpcHandler (PdW * W)) (dynamic : bool) `{!KvStore pdw store dynamic}.
Context (endpoint : Endpoint) `{!GatewayAt endpoint}.

Lemma invocations_serve program text ops : ParseEndpoint text = Ok endpoint →
  ∀ k s g cache i,
  Forall kv_ok ops → kv_serves (length ops + k) s g → cache_all kv_route cache →
  invocations program (command_line text <$> ops) (at_gateway pdw store dynamic s cache i) =
    (λ r, printed (over_rpc r)) <$> spec_session ops g.
Proof.
  intros Hep. induction ops as [|op ops IH]; intros k s g cache i Hok Hs Hc; [done|].
  apply list.Forall_cons in Hok as [Hop Hok]. cbn [fmap list_fmap invocations spec_session length] in *.
  destruct (rpc_step_serves pdw Hpd Hfits Hboot store dynamic (length ops + k) s g op cache i Hop Hs Hc)
    as (s' & cache' & i' & Hstep & Hs' & Hc').
  pose proof (main_run endpoint program text op _ _ _ Hep Hstep (spec_no_fault op g)) as Hmain.
  destruct (main program (command_line text op) _) as [r [net console]].
  destruct (spec_client_step op g) as [q g']. cbn [fst snd] in *.
  apply pair_equal_spec in Hmain as [-> Hw]. apply pair_equal_spec in Hw as [-> ->].
  cbn [fmap list_fmap]. rewrite <-surjective_pairing. f_equal. by eapply IH.
Qed.
End invocations.
