(* ===== verification/Config.v ===== *)
(** The configuration files of the processes, src/common/config.cpp: an
    indented outline of sections and settings, read line by line into a table of
    dotted keys. *)

From S2P Require Import Prelude Types Text Codec Engine.

(** * Text *)

(** [value.erase(find_if(rbegin, rend, not_space).base(), end)]. *)
Fixpoint trim_end (s : string) : string :=
  match s with
  | "" => ""
  | String c r =>
      match trim_end r with
      | "" => if Ascii.is_space c then "" else String c ""
      | t => String c t
      end
  end.

Definition Trim (value : string) : string := trim_end (skip_ws value).

Definition single_quote : ascii := "'".

Fixpoint last_char (s : string) : option ascii :=
  match s with
  | "" => None
  | String c "" => Some c
  | String _ r => last_char r
  end.

(** Front and back of the value are the quote [q]. *)
Definition quoted_by (q : ascii) (s : string) : bool :=
  match s with
  | String c (String _ _) => bool_decide (c = q) && bool_decide (last_char s = Some q)
  | _ => false
  end.

Definition StripQuotes (value : string) : string :=
  if quoted_by double_quote value || quoted_by single_quote value
  then String.substring 1 (String.length value - 2) value else value.

(** * The parser *)

Definition strip_comment (line : string) : string :=
  match split_at "#" line with None => line | Some (before, _) => before end.

(** [line.find_first_not_of(' ') / 2]. *)
Definition depth_of (line : string) : nat :=
  String.length (span (λ c, bool_decide (c = " "%char)) line).1 `div` 2.

(** A section header; [sections[depth]] is not checked. *)
Definition enter_section (sections : list string) (depth : nat) (name : string) :
    res (list string) :=
  let sections := if decide (depth < length sections) then take depth sections else sections in
  if decide (length sections = depth) then Ok (sections ++ [name]) else Fault Undefined.

(** The key under the enclosing sections; an empty name adds nothing. *)
Definition join_sections (sections : list string) : string :=
  foldl (λ key s, if decide (s = "") then key
                  else (if decide (key = "") then "" else key +:+ ".") +:+ s) "" sections.
Definition qualified (sections : list string) (name : string) : string :=
  let prefix := join_sections sections in
  (if decide (prefix = "") then "" else prefix +:+ ".") +:+ name.

(** The open sections and the values read. *)
Abbreviation Outline := (list string * gmap string string)%type.

(** One line. The text before the first colon decides: none is an error, nothing
    after it makes a header. *)
Definition parse_line (line : string) (o : Outline) : res Outline :=
  let line := strip_comment line in
  let trimmed := Trim line in
  if decide (trimmed = "") then Ok o
  else
    let depth := depth_of line in
    match split_at ":" trimmed with
    | None => Err (InvalidArgument ("invalid config line: " +:+ trimmed))
    | Some (name, "") =>
        sections ← enter_section o.1 depth name;
        Ok (sections, o.2)
    | Some (name, rest) =>
        let sections := if decide (depth < length o.1) then take depth o.1 else o.1 in
        Ok (sections, <[qualified sections (Trim name) := StripQuotes (Trim rest)]> o.2)
    end.

(** The loop; the values read before a bad line stay. *)
Fixpoint parse_lines (lines : list string) (o : Outline) : res unit * gmap string string :=
  match lines with
  | [] => (Ok tt, o.2)
  | line :: rest =>
      match parse_line line o with
      | Ok o' => parse_lines rest o'
      | Err st => (Err st, o.2)
      | Fault f => (Fault f, o.2)
      end
  end.

(** * Config *)

Record Config := mkConfig { values_ : gmap string string }.

Abbreviation ConfigW := (Disk * Config)%type.

Definition load_text (text : string) : IO ConfigW unit := λ '(d, _),
  let '(r, values) := parse_lines (getlines text) ([], ∅) in (r, (d, mkConfig values)).

Definition LoadFromFile (path : string) : IO ConfigW unit :=
  _ ← io_or (λ _, IoError ("failed to open config file: " +:+ path));
  text ← read_file path;
  match text with
  | None => fail (IoError ("failed to open config file: " +:+ path))
  | Some text => load_text text
  end.

Definition GetString (key : string) (c : Config) : option string := values_ c !! key.
Definition GetStringOr (key fallback : string) (c : Config) : string :=
  default fallback (GetString key c).

(** Any exception of [std::stoi] gives the fallback. *)
Definition GetIntOr (key : string) (fallback : Z) (c : Config) : Z :=
  match GetString key c with
  | None => fallback
  | Some value => match stoi (E := Status) value with Ok z => z | _ => fallback end
  end.

(** The items successive [std::getline(ss, item, ',')] calls deliver. *)
Fixpoint getitems (s : string) : list string :=
  match s with
  | "" => []
  | String a r =>
      if decide (a = ","%char) then "" :: getitems r
      else match getitems r with
           | [] => [String a ""]
           | l :: ls => String a l :: ls
           end
  end.

Definition GetList (key : string) (c : Config) : list string :=
  match GetString key c with
  | None => []
  | Some value => Trim <$> getitems value
  end.

Definition ParseRole (value : string) : Role :=
  if decide (value = "pd") then kPd
  else if decide (value = "gateway") then kGateway
  else if decide (value = "store") then kStore
  else kUnknown.

Definition RoleName (role : Role) : string :=
  match role with kPd => "pd" | kGateway => "gateway" | kStore => "store" | kUnknown => "unknown" end.

Definition GetRole (c : Config) : Role := ParseRole (GetStringOr "role" "" c).

(** * Outlines *)

(** A configuration as its author sees it. *)
Inductive item :=
  | Setting (name value : string)
  | Block (name : string) (items : list item).

Fixpoint spaces (n : nat) : string := match n with O => "" | S n => String " " (spaces n) end.

(** The text of an item, two spaces per level, values in double quotes. *)
Fixpoint render (depth : nat) (i : item) : string :=
  match i with
  | Setting name value =>
      spaces (2 * depth) +:+ name +:+ ": " +:+ String double_quote (value +:+ String double_quote newline)
  | Block name items =>
      spaces (2 * depth) +:+ name +:+ String ":" newline +:+
      (fix all (l : list item) := match l with [] => "" | i :: l => render (S depth) i +:+ all l end) items
  end.

Fixpoint render_all (depth : nat) (l : list item) : string :=
  match l with [] => "" | i :: l => render depth i +:+ render_all depth l end.

(** The settings of an item, keys spelled with the names of the sections. *)
Fixpoint settings (path : list string) (i : item) : list (string * string) :=
  match i with
  | Setting name value => [(String.concat "." (path ++ [name]), value)]
  | Block name items => flat_map (settings (path ++ [name])) items
  end.

Definition name_char (c : ascii) : bool :=
  negb (Ascii.is_space c) && negb (bool_decide (c = "#"%char)) && negb (bool_decide (c = ":"%char)).
Definition name_ok (s : string) : bool := negb (bool_decide (s = "")) && str_all name_char s.
Definition value_ok (s : string) : bool :=
  str_all (λ c, negb (bool_decide (c = nl)) && negb (bool_decide (c = "#"%char))) s.

Fixpoint item_ok (i : item) : bool :=
  match i with
  | Setting name value => name_ok name && value_ok value
  | Block name items => name_ok name && forallb item_ok items
  end.

Definition sample_outline : list item :=
  [Setting "role" "store";
   Block "store" [Setting "host" "127.0.0.1"; Block "raft" [Setting "port" " 7102 "]; Setting "mode" ""]].
Example outline_parses :
  parse_lines (getlines (render_all 0 sample_outline)) ([], ∅) =
  (Ok tt, foldl (λ m kv, <[kv.1 := kv.2]> m) ∅ (flat_map (settings []) sample_outline)).
Proof. vm_compute. reflexivity. Qed.

(** * The parser reads outlines back *)

Lemma spaces_length n : String.length (spaces n) = n.
Proof. induction n; [done|]. simpl. by f_equal. Qed.

Lemma spaces_all n : str_all (λ c, bool_decide (c = " "%char)) (spaces n) = true.
Proof. by induction n. Qed.

Lemma skip_ws_spaces n s : skip_ws (spaces n +:+ s) = skip_ws s.
Proof. induction n; [done|]. cbn [spaces]. rewrite sapp_cons. by rewrite skip_ws_space. Qed.

Lemma depth_of_spaces k c r :
  c ≠ " "%char → depth_of (spaces (2 * k) +:+ String c r) = k.
Proof.
  intros Hc. unfold depth_of. rewrite span_all; [|apply spaces_all|].
  - cbn [fst]. rewrite spaces_length, Nat.mul_comm. by apply Nat.div_mul.
  - cbn. by apply bool_decide_eq_false_2.
Qed.

Lemma last_char_app s c : last_char (s +:+ String c "") = Some c.
Proof.
  induction s as [|a s IH]; [done|]. rewrite sapp_cons. cbn [last_char]. rewrite IH.
  by destruct s.
Qed.

Lemma trim_end_last s c : last_char s = Some c → Ascii.is_space c = false → trim_end s = s.
Proof.
  induction s as [|a s IH]; [done|]. intros Hl Hc. destruct s as [|b s].
  - cbn in Hl |- *. injection Hl as ->. by rewrite Hc.
  - change (last_char (String b s) = Some c) in Hl. specialize (IH Hl Hc).
    change (trim_end (String a (String b s))) with
      (match trim_end (String b s) with
       | "" => if Ascii.is_space a then "" else String a ""
       | t => String a t
       end). by rewrite IH.
Qed.

(** A line of text between spaces. *)
Lemma Trim_spaces n a s c :
  Ascii.is_space a = false → last_char (String a s) = Some c → Ascii.is_space c = false →
  Trim (spaces n +:+ String a s) = String a s.
Proof.
  intros Ha Hl Hc. unfold Trim. rewrite skip_ws_spaces, skip_ws_head by done.
  by eapply trim_end_last.
Qed.

Lemma split_at_none c s :
  str_all (λ a, negb (bool_decide (a = c))) s = true → split_at c s = None.
Proof.
  induction s as [|a s IH]; [done|]. cbn. intros [Ha Hs]%andb_true_iff.
  rewrite negb_true_iff, bool_decide_eq_false in Ha. rewrite decide_False by done. by rewrite IH.
Qed.

Lemma substring_prefix s t : String.substring 0 (String.length s) (s +:+ t) = s.
Proof.
  induction s as [|a s IH]; [by destruct t|]. rewrite sapp_cons. cbn. by rewrite IH.
Qed.

Lemma StripQuotes_quoted v :
  StripQuotes (String double_quote (v +:+ String double_quote "")) = v.
Proof.
  unfold StripQuotes. set (s := String double_quote _).
  assert (quoted_by double_quote s = true) as ->.
  { unfold quoted_by, s. rewrite <-sapp_cons, last_char_app.
    rewrite bool_decide_eq_true_2 by done. rewrite bool_decide_eq_true_2 by done.
    by destruct v. }
  cbn [orb]. unfold s. cbn [String.length]. rewrite slength_app. cbn [String.length].
  replace (S (String.length v + 1) - 2) with (String.length v) by lia.
  change (String.substring 1 (String.length v) (String double_quote (v +:+ String double_quote "")))
    with (String.substring 0 (String.length v) (v +:+ String double_quote "")).
  apply substring_prefix.
Qed.

(** ** Keys *)

Lemma concat_snoc l s :
  l ≠ [] → String.concat "." (l ++ [s]) = String.concat "." l +:+ "." +:+ s.
Proof.
  induction l as [|x l IH]; [done|]. intros _. destruct l as [|y l]; [done|].
  change (String.concat "." ((x :: y :: l) ++ [s]))
    with (x +:+ "." +:+ String.concat "." ((y :: l) ++ [s])).
  change (String.concat "." (x :: y :: l)) with (x +:+ "." +:+ String.concat "." (y :: l)).
  rewrite IH by done. by rewrite !sapp_assoc.
Qed.

Lemma join_sections_snoc l s :
  s ≠ "" → join_sections (l ++ [s]) =
    (if decide (join_sections l = "") then "" else join_sections l +:+ ".") +:+ s.
Proof.
  intros Hs. unfold join_sections at 1. rewrite foldl_app. cbn. by rewrite decide_False.
Qed.

Lemma sapp_nonempty s t : t ≠ "" → s +:+ t ≠ "".
Proof. intros Ht Heq. apply Ht. by destruct s. Qed.

Lemma join_sections_concat l :
  Forall (λ s, s ≠ "") l →
  join_sections l = String.concat "." l ∧ (l ≠ [] → join_sections l ≠ "").
Proof.
  induction l as [|s l IH] using rev_ind; [done|]. intros Hall.
  apply list.Forall_app in Hall as [Hl Hs]. inversion Hs as [|? ? Hs' _]. subst.
  destruct (IH Hl) as [Heq Hne].
  rewrite join_sections_snoc by exact Hs'. split; [|intros _; by apply sapp_nonempty].
  destruct (decide (l = [])) as [-> | Hnil]; [by rewrite sapp_nil_l|].
  rewrite decide_False by by apply Hne. rewrite Heq, concat_snoc by done. by rewrite sapp_assoc.
Qed.

Lemma qualified_concat l name :
  Forall (λ s, s ≠ "") l → qualified l name = String.concat "." (l ++ [name]).
Proof.
  intros Hl. destruct (join_sections_concat l Hl) as [Heq Hne]. unfold qualified.
  destruct (decide (l = [])) as [-> | Hnil]; [done|].
  rewrite decide_False by by apply Hne. rewrite Heq, concat_snoc by done. by rewrite sapp_assoc.
Qed.

(** ** Lines *)

(** What the parser is after the sections [path]: deeper ones may still be open. *)
Definition inside (path sections : list string) : Prop :=
  take (length path) sections = path ∧ length path ≤ length sections.

Lemma inside_cut path sections :
  inside path sections →
  (if decide (length path < length sections) then take (length path) sections else sections) = path.
Proof.
  intros [Ht Hl]. case_decide; [done|]. by rewrite take_ge in Ht by lia.
Qed.

Lemma enter_section_inside path sections name :
  inside path sections → enter_section sections (length path) name = Ok (path ++ [name]).
Proof.
  intros Hin. unfold enter_section. rewrite (inside_cut path) by done. by rewrite decide_True.
Qed.

Lemma inside_refl path : inside path path.
Proof. split; [by rewrite take_ge | done]. Qed.

Lemma inside_prefix path more sections : inside (path ++ more) sections → inside path sections.
Proof.
  intros [Ht Hl]. rewrite length_app in Hl. split; [|lia].
  pose proof (f_equal (take (length path)) Ht) as Hp.
  rewrite take_take, take_app_length, Nat.min_l in Hp by (rewrite length_app; lia). done.
Qed.

Lemma name_char_spec c :
  name_char c = true ↔ Ascii.is_space c = false ∧ c ≠ "#"%char ∧ c ≠ ":"%char.
Proof.
  unfold name_char. rewrite !andb_true_iff, !negb_true_iff, !bool_decide_eq_false. tauto.
Qed.

Lemma name_ok_head s : name_ok s = true → ∃ c r, s = String c r ∧ Ascii.is_space c = false.
Proof.
  unfold name_ok. destruct s as [|c r]; [done|]. cbn. rewrite !andb_true_iff, name_char_spec.
  intros (_ & (? & _) & _). by exists c, r.
Qed.

Lemma name_all s (p : ascii → bool) :
  (∀ c, name_char c = true → p c = true) → name_ok s = true → str_all p s = true.
Proof. intros Hp [_ Hs]%andb_true_iff. by eapply str_all_mono. Qed.

Lemma name_no_colon s : name_ok s = true → str_all (λ a, negb (bool_decide (a = ":"%char))) s = true.
Proof.
  apply name_all. intros c (_ & _ & ?)%name_char_spec. by rewrite bool_decide_eq_false_2.
Qed.

Lemma name_no_hash s : name_ok s = true → str_all (λ a, negb (bool_decide (a = "#"%char))) s = true.
Proof.
  apply name_all. intros c (_ & ? & _)%name_char_spec. by rewrite bool_decide_eq_false_2.
Qed.

Lemma name_no_newline s : name_ok s = true → no_newline s = true.
Proof.
  apply name_all. intros c (Hc & _ & _)%name_char_spec. rewrite bool_decide_eq_false_2; [done|].
  by intros ->.
Qed.

Lemma Trim_name s : name_ok s = true → Trim s = s.
Proof.
  intros Hs. destruct (name_ok_head s Hs) as (c & r & -> & Hc).
  assert (∃ l, last_char (String c r) = Some l ∧ Ascii.is_space l = false) as (l & Hl & Hls).
  { apply andb_true_iff in Hs as [_ Hs]. clear Hc. revert c Hs.
    induction r as [|a r IH]; intros c Hs.
    - cbn in Hs. rewrite andb_true_r, name_char_spec in Hs. exists c. split; [done | apply Hs].
    - cbn [str_all] in Hs. apply andb_true_iff in Hs as [_ Hs]. by apply IH. }
  by apply (Trim_spaces 0 c r l).
Qed.

Lemma spaces_class p n : p " "%char = true → str_all p (spaces n) = true.
Proof. intros Hp. induction n; [done|]. cbn. by rewrite Hp. Qed.

(** The line of a header. *)
Lemma header_line depth name :
  name_ok name = true →
  let line := spaces (2 * depth) +:+ name +:+ ":" in
  strip_comment line = line ∧ Trim line = name +:+ ":" ∧ name +:+ ":" ≠ "" ∧
  depth_of line = depth ∧ split_at ":" (name +:+ ":") = Some (name, "").
Proof.
  intros Hn line. pose proof Hn as (c & r & -> & Hc)%name_ok_head. unfold line. split_and!.
  - unfold strip_comment. rewrite split_at_none; [done|].
    by rewrite !str_all_app, (name_no_hash (String c r)), spaces_class by done.
  - rewrite sapp_cons. apply (Trim_spaces _ c _ ":"%char); [done | | done].
    by rewrite <-sapp_cons, last_char_app.
  - done.
  - rewrite sapp_cons. apply depth_of_spaces. by intros ->.
  - by apply split_at_app, name_no_colon.
Qed.

Lemma parse_header path sections values name :
  inside path sections → name_ok name = true →
  parse_line (spaces (2 * length path) +:+ name +:+ ":") (sections, values) =
    Ok (path ++ [name], values).
Proof.
  intros Hin Hn. destruct (header_line (length path) name Hn) as (Hs & Ht & Hne & Hd & Hsplit).
  unfold parse_line. rewrite Hs, Ht, decide_False, Hd, Hsplit by done. cbn [fst snd].
  by rewrite enter_section_inside.
Qed.

(** A header two levels below the open section writes past the end of the
    sections. *)
Lemma deep_header_undefined sections values name depth :
  name_ok name = true → length sections < depth →
  parse_line (spaces (2 * depth) +:+ name +:+ ":") (sections, values) = Fault Undefined.
Proof.
  intros Hn Hlt. destruct (header_line depth name Hn) as (Hs & Ht & Hne & Hd & Hsplit).
  unfold parse_line. rewrite Hs, Ht, decide_False, Hd, Hsplit by done. cbn [fst snd].
  unfold enter_section. rewrite (decide_False (P := depth < length sections)) by lia.
  by rewrite decide_False by lia.
Qed.

(** The line of a setting. *)
Lemma parse_setting path sections values name value :
  inside path sections → Forall (λ s, s ≠ "") path → name_ok name = true → value_ok value = true →
  parse_line (spaces (2 * length path) +:+ name +:+ ": " +:+
              String double_quote (value +:+ String double_quote "")) (sections, values) =
    Ok (path, <[String.concat "." (path ++ [name]) := value]> values).
Proof.
  intros Hin Hpath Hn Hv. pose proof Hn as (c & r & -> & Hc)%name_ok_head. unfold parse_line.
  set (quoted := String double_quote _).
  assert (last_char quoted = Some double_quote) as Hlast
    by (unfold quoted; rewrite <-sapp_cons; apply last_char_app).
  assert (strip_comment (spaces (2 * length path) +:+ String c r +:+ ": " +:+ quoted) =
    spaces (2 * length path) +:+ String c r +:+ ": " +:+ quoted) as ->.
  { unfold strip_comment. rewrite split_at_none; [done|].
    rewrite !str_all_app, (name_no_hash (String c r)), spaces_class by done. cbn [andb].
    unfold quoted. cbn [str_all]. rewrite str_all_app.
    assert (str_all (λ a, negb (bool_decide (a = "#"%char))) value = true) as ->; [|done].
    eapply str_all_mono; [|exact Hv]. by intros a [_ ?]%andb_true_iff. }
  rewrite sapp_cons, (Trim_spaces _ c _ double_quote); [|done| |done].
  2:{ rewrite <-sapp_cons. assert (∀ s, last_char (s +:+ ": " +:+ quoted) = Some double_quote) as ->; [|done].
      intros s. unfold quoted. rewrite <-(sapp_cons double_quote value), <-!sapp_assoc.
      apply last_char_app. }
  rewrite decide_False by done. rewrite depth_of_spaces by by intros ->.
  change (": " +:+ quoted) with (String ":" (String " " quoted)).
  rewrite <-sapp_cons, split_at_app by by apply name_no_colon. cbn [fst snd].
  rewrite (inside_cut path) by done. rewrite Trim_name by done. rewrite qualified_concat by done.
  change (String " " quoted) with (spaces 1 +:+ quoted).
  unfold quoted at 1. rewrite (Trim_spaces 1 double_quote _ double_quote) by done.
  by rewrite StripQuotes_quoted.
Qed.

(** ** Outlines *)

Lemma item_induction (P : item → Prop) :
  (∀ name value, P (Setting name value)) →
  (∀ name items, Forall P items → P (Block name items)) → ∀ i, P i.
Proof.
  intros HS HB. fix IH 1. intros [name value|name items]; [apply HS | apply HB].
  induction items; constructor; [apply IH | done].
Qed.

Lemma render_block depth name items :
  render depth (Block name items) =
  spaces (2 * depth) +:+ name +:+ String ":" newline +:+ render_all (S depth) items.
Proof.
  cbn [render]. do 3 f_equal. induction items as [|i items IH]; [done|]. cbn [render_all].
  by rewrite <-IH.
Qed.

Definition add_all (values : gmap string string) (l : list (string * string)) : gmap string string :=
  foldl (λ m kv, <[kv.1 := kv.2]> m) values l.

(** After the text of [i] the parser has its settings and is still inside [path]. *)
Definition reads (i : item) : Prop :=
  item_ok i = true → ∀ path sections values rest,
    inside path sections → Forall (λ s, s ≠ "") path →
    ∃ sections', inside path sections' ∧
      parse_lines (getlines (render (length path) i +:+ rest)) (sections, values) =
      parse_lines (getlines rest) (sections', add_all values (settings path i)).

Lemma reads_all items :
  Forall reads items → forallb item_ok items = true →
  ∀ path sections values rest, inside path sections → Forall (λ s, s ≠ "") path →
  ∃ sections', inside path sections' ∧
    parse_lines (getlines (render_all (length path) items +:+ rest)) (sections, values) =
    parse_lines (getlines rest) (sections', add_all values (flat_map (settings path) items)).
Proof.
  induction 1 as [|i items Hi Hitems IH]; cbn [forallb]; intros Hok path sections values rest Hin Hpath.
  { by exists sections. }
  apply andb_true_iff in Hok as [Hoki Hok].
  destruct (Hi Hoki path sections values (render_all (length path) items +:+ rest) Hin Hpath)
    as (s1 & Hin1 & Hrun1).
  destruct (IH Hok path s1 (add_all values (settings path i)) rest Hin1 Hpath) as (s2 & Hin2 & Hrun2).
  exists s2. split; [done|]. cbn [render_all flat_map]. rewrite sapp_assoc, Hrun1, Hrun2.
  unfold add_all. by rewrite foldl_app.
Qed.

(** One line of the text. *)
Lemma parse_lines_cons line rest o o' :
  no_newline line = true → parse_line line o = Ok o' →
  parse_lines (getlines (line +:+ String nl rest)) o = parse_lines (getlines rest) o'.
Proof. intros Hl Hp. rewrite getlines_cons by done. cbn [parse_lines]. by rewrite Hp. Qed.

Lemma spaces_no_newline n : no_newline (spaces n) = true.
Proof. unfold no_newline. by apply spaces_class. Qed.

Lemma no_newline_app s t : no_newline (s +:+ t) = no_newline s && no_newline t.
Proof. apply str_all_app. Qed.

Lemma reads_item i : reads i.
Proof.
  induction i as [name value|name items IH] using item_induction;
    intros Hok path sections values rest Hin Hpath; cbn [item_ok] in Hok;
    apply andb_true_iff in Hok as [Hn Hok].
  - exists path. split; [apply inside_refl|]. cbn [render settings add_all foldl fst snd].
    replace ((spaces (2 * length path) +:+ name +:+ ": " +:+
      String double_quote (value +:+ String double_quote newline)) +:+ rest) with
      ((spaces (2 * length path) +:+ name +:+ ": " +:+
        String double_quote (value +:+ String double_quote "")) +:+ String nl rest)
      by (unfold newline; by snorm).
    apply parse_lines_cons; [|by apply parse_setting].
    rewrite !no_newline_app, spaces_no_newline, name_no_newline by done. cbn [andb].
    unfold no_newline. cbn [str_all]. rewrite str_all_app.
    assert (str_all (λ a, negb (bool_decide (a = nl))) value = true) as ->; [|done].
    eapply str_all_mono; [|exact Hok]. by intros a [? _]%andb_true_iff.
  - assert (Forall (λ s, s ≠ "") (path ++ [name])) as Hpath'.
    { apply list.Forall_app. split; [done|]. constructor; [|done].
      by destruct (name_ok_head name Hn) as (c & r & -> & _). }
    destruct (reads_all items IH Hok (path ++ [name]) (path ++ [name]) values rest (inside_refl _) Hpath')
      as (s' & Hin' & Hrun).
    exists s'. split; [by eapply inside_prefix|]. rewrite render_block. cbn [settings].
    replace ((spaces (2 * length path) +:+ name +:+ String ":" newline +:+
      render_all (S (length path)) items) +:+ rest) with
      ((spaces (2 * length path) +:+ name +:+ ":") +:+
        String nl (render_all (S (length path)) items +:+ rest)) by (unfold newline; by snorm).
    rewrite (parse_lines_cons _ _ _ (path ++ [name], values)); [| |by apply parse_header].
    + rewrite length_app, Nat.add_1_r in Hrun. exact Hrun.
    + by rewrite !no_newline_app, spaces_no_newline, name_no_newline by done.
Qed.

(** C37: A configuration file reads back as the outline it was written from. For
    an outline of sections, nested to any depth, and settings (names without
    white space, colons or hashes; values any text without hashes and line
    breaks, in double quotes), written with two spaces per level, [LoadFromFile]
    succeeds, and the table it builds, replacing whatever was loaded before, has
    exactly the settings, under their section names joined with dots, a later
    setting of a key replacing an earlier one. *)
Theorem config_roundtrip items path d c :
  io_faults d = [] → files d !! path = Some (render_all 0 items) →
  forallb item_ok items = true →
  LoadFromFile path (d, c) =
    (Ok tt, (d, mkConfig (add_all ∅ (flat_map (settings []) items)))).
Proof.
  intros Hio Hf Hok. unfold LoadFromFile.
  run_call ltac:(unfold io_or, io, mbind, M_bind; rewrite Hio; reflexivity).
  run_call ltac:(unfold read_file, gets; rewrite Hf; reflexivity). unfold load_text.
  assert (Forall reads items) as Hall by (apply list.Forall_forall; intros i _; apply reads_item).
  destruct (reads_all items Hall Hok [] [] ∅ "" (inside_refl []) ltac:(constructor)) as (s' & _ & Hrun).
  cbn [length] in Hrun. rewrite sapp_nil_r in Hrun. rewrite Hrun. reflexivity.
Qed.

Lemma config_roundtrip_witness :
  LoadFromFile "store.yaml" (mkDisk {["store.yaml" := render_all 0 sample_outline]} [], mkConfig ∅) =
    (Ok tt, (mkDisk {["store.yaml" := render_all 0 sample_outline]} [],
       mkConfig (add_all ∅ [("role", "store"); ("store.host", "127.0.0.1");
                            ("store.raft.port", " 7102 "); ("store.mode", "")]))).
Proof.
  apply (config_roundtrip sample_outline "store.yaml"); [reflexivity | apply lookup_singleton_eq | reflexivity].
Defined.

(** Numbers read back through the table. *)
Lemma GetIntOr_to_string key fallback z c :
  values_ c !! key = Some (to_string_Z z) → (- two31 ≤ z < two31)%Z → GetIntOr key fallback c = z.
Proof.
  intros Hk Hz. unfold GetIntOr, GetString. rewrite Hk. unfold stoi.
  by rewrite sto_signed_to_string by exact Hz.
Qed.
