(* ===== verification/StatusJson.v ===== *)
(** The status page's data, src/dashboard/status_json.cpp: the fields of the
    gateway's status as JSON text, with warnings drawn from them; and a reading
    of JSON text it is checked against. *)

From S2P Require Import Prelude Types Text Codec.

(** * Text *)

(** Other control characters stay as they are. *)
Definition escape_char (ch : ascii) : string :=
  if decide (ch = "\"%char) then "\\"
  else if decide (ch = double_quote) then String "\" (String double_quote "")
  else if decide (ch = Ascii.ascii_of_nat 10) then "\n"
  else if decide (ch = Ascii.ascii_of_nat 13) then "\r"
  else if decide (ch = Ascii.ascii_of_nat 9) then "\t"
  else String ch "".

Fixpoint JsonEscape (value : string) : string :=
  match value with "" => "" | String ch rest => escape_char ch +:+ JsonEscape rest end.

(** [s] between double quotes. *)
Definition quoted (s : string) : string := String double_quote (s +:+ String double_quote "").

Definition AppendJsonString (value : string) : string := quoted (JsonEscape value).

Definition AppendJsonField (name value : string) (comma : bool) : string :=
  AppendJsonString name +:+ ":" +:+ AppendJsonString value +:+ (if comma then "," else "").

(** A literal name in the text, and the loops that put commas between items. *)
Definition named (name : string) : string := quoted name +:+ ":".
Definition separated (items : list string) : string := String.concat "," items.

Definition AppendWarningArray (warnings : list string) : string :=
  named "warnings" +:+ "[" +:+ separated (AppendJsonString <$> warnings) +:+ "]".

(** * Warnings *)

Definition pd_region (i : N) : string := "pd.region" +:+ to_string i +:+ ".".
Definition pd_store (i : N) : string := "pd.store" +:+ to_string i +:+ ".".
Definition store_region (i : N) : string := "store.region" +:+ to_string i +:+ ".".

Definition count_warnings (store_count region_count : N) : list string :=
  (if (store_count =? 0)%N then ["PD has no registered Store"]
   else if (store_count <? 3)%N then
     ["Store count is below the recommended replication factor"]
   else []) ++
  (if (region_count =? 0)%N then ["PD has no Region metadata"] else []).

Definition leader_warning (fields : FieldMap) (i : N) : list string :=
  if decide (GetOr fields (pd_region i +:+ "leader_peer_id") "0" = "0") then
    ["Region " +:+ GetOr fields (pd_region i +:+ "region_id") "?" +:+ " has no leader"]
  else [].

Definition apply_warning (fields : FieldMap) (i : N) : list string :=
  let commit := GetOr fields (store_region i +:+ "runtime_commit_index") "" in
  let applied := GetOr fields (store_region i +:+ "runtime_last_applied") "" in
  if decide (commit ≠ "" ∧ applied ≠ "" ∧ commit ≠ applied) then
    ["Region " +:+ GetOr fields (store_region i +:+ "region_id") "?" +:+ " has unapplied committed logs"]
  else [].

Definition BuildWarnings (fields : FieldMap) : list string :=
  let store_count := GetUint64Or fields "pd.store_count" 0 in
  let region_count := GetUint64Or fields "pd.region_count" 0 in
  let runtime_region_count := GetUint64Or fields "store.region_count" 0 in
  count_warnings store_count region_count ++
  concat (leader_warning fields <$> indices region_count) ++
  concat (apply_warning fields <$> indices runtime_region_count).

(** * The page *)

(** [AppendJsonField(output, name, GetOr(fields, prefix + name, fallback), comma)]. *)
Definition copied_field (fields : FieldMap) (prefix name fallback : string) (comma : bool) : string :=
  AppendJsonField name (GetOr fields (prefix +:+ name) fallback) comma.

Definition append_store (fields : FieldMap) (i : N) : string :=
  let prefix := pd_store i in
  "{" +:+
  copied_field fields prefix "store_id" "0" true +:+
  AppendJsonField "client_endpoint"
    (GetOr fields (prefix +:+ "client_host") "127.0.0.1" +:+ ":" +:+
     GetOr fields (prefix +:+ "client_port") "0") true +:+
  AppendJsonField "raft_endpoint"
    (GetOr fields (prefix +:+ "raft_host") "127.0.0.1" +:+ ":" +:+
     GetOr fields (prefix +:+ "raft_port") "0") true +:+
  copied_field fields prefix "state" "Unknown" true +:+
  copied_field fields prefix "last_heartbeat_ms" "0" false +:+
  "}".

Definition AppendStores (fields : FieldMap) : string :=
  let count := GetUint64Or fields "pd.store_count" 0 in
  named "stores" +:+ "[" +:+ separated (append_store fields <$> indices count) +:+ "]".

Definition append_peer (fields : FieldMap) (prefix : string) (i : N) : string :=
  let peer_prefix := prefix +:+ "peer" +:+ to_string i +:+ "." in
  "{" +:+
  copied_field fields peer_prefix "peer_id" "0" true +:+
  copied_field fields peer_prefix "store_id" "0" true +:+
  copied_field fields peer_prefix "role" "Voter" false +:+
  "}".

Definition append_region (fields : FieldMap) (i : N) : string :=
  let prefix := pd_region i in
  let peer_count := GetUint64Or fields (prefix +:+ "peer_count") 0 in
  "{" +:+
  copied_field fields prefix "region_id" "0" true +:+
  copied_field fields prefix "start_key" "" true +:+
  copied_field fields prefix "end_key" "" true +:+
  copied_field fields prefix "conf_ver" "1" true +:+
  copied_field fields prefix "version" "1" true +:+
  copied_field fields prefix "leader_peer_id" "0" true +:+
  named "peers" +:+ "[" +:+ separated (append_peer fields prefix <$> indices peer_count) +:+
  "]}".

Definition AppendRegions (fields : FieldMap) : string :=
  let count := GetUint64Or fields "pd.region_count" 0 in
  named "regions" +:+ "[" +:+ separated (append_region fields <$> indices count) +:+ "]".

Definition append_runtime_region (fields : FieldMap) (i : N) : string :=
  let prefix := store_region i in
  "{" +:+
  copied_field fields prefix "region_id" "0" true +:+
  copied_field fields prefix "local_store_id" "" true +:+
  copied_field fields prefix "local_peer_id" "" true +:+
  copied_field fields prefix "runtime_role" "" true +:+
  copied_field fields prefix "runtime_leader_peer_id" "" true +:+
  copied_field fields prefix "runtime_peer_count" "" true +:+
  copied_field fields prefix "runtime_commit_index" "" true +:+
  copied_field fields prefix "runtime_last_applied" "" true +:+
  copied_field fields prefix "runtime_last_log_index" "" false +:+
  "}".

Definition AppendRuntimeRegions (fields : FieldMap) : string :=
  let count := GetUint64Or fields "store.region_count" 0 in
  named "runtime_regions" +:+ "[" +:+
  separated (append_runtime_region fields <$> indices count) +:+ "]".

Definition AppendRaw (fields : FieldMap) : string :=
  named "raw" +:+ "{" +:+
  separated ((λ kv, AppendJsonString kv.1 +:+ ":" +:+ AppendJsonString kv.2) <$> kvs fields) +:+ "}".

Definition bool_text (b : bool) : string := if b then "true" else "false".

Definition page_warnings (fields : FieldMap) (ok : bool) (error_message : string) : list string :=
  if ok then BuildWarnings fields else [error_message].

Definition BuildDashboardStatusJson (fields : FieldMap) (ok : bool) (error_message : string)
    (refresh_cost_ms timestamp_ms : Z) : string :=
  let warnings := page_warnings fields ok error_message in
  let store_count := GetOr fields "pd.store_count" "0" in
  let region_count := GetOr fields "pd.region_count" "0" in
  let route_cache_size := GetOr fields "gateway.route_cache_size" "0" in
  "{" +:+
  named "ok" +:+ bool_text ok +:+ "," +:+
  named "timestamp_ms" +:+ to_string_Z timestamp_ms +:+ "," +:+
  named "refresh_cost_ms" +:+ to_string_Z refresh_cost_ms +:+ "," +:+
  AppendJsonField "error" (if ok then "" else error_message) true +:+
  named "summary" +:+ "{" +:+
  named "healthy" +:+ bool_text (ok && bool_decide (warnings = [])) +:+ "," +:+
  AppendJsonField "store_count" store_count true +:+
  AppendJsonField "region_count" region_count true +:+
  AppendJsonField "route_cache_size" route_cache_size true +:+
  AppendWarningArray warnings +:+
  "}," +:+
  named "gateway" +:+ "{" +:+
  AppendJsonField "route_cache_size" route_cache_size false +:+
  "}," +:+
  named "pd" +:+ "{" +:+
  AppendJsonField "store_count" store_count true +:+
  AppendJsonField "region_count" region_count true +:+
  AppendStores fields +:+ "," +:+
  AppendRegions fields +:+
  "}," +:+
  named "store" +:+ "{" +:+
  AppendJsonField "region_count" (GetOr fields "store.region_count" "0") true +:+
  AppendRuntimeRegions fields +:+
  "}," +:+
  AppendRaw fields +:+
  "}".

(** * JSON *)

Inductive json :=
  | JString (s : string)
  | JBool (b : bool)
  | JNumber (z : Z)
  | JArray (items : list json)
  | JObject (members : list (string * json)).

Fixpoint print (j : json) : string :=
  match j with
  | JString s => AppendJsonString s
  | JBool b => bool_text b
  | JNumber z => to_string_Z z
  | JArray items => "[" +:+ separated (print <$> items) +:+ "]"
  | JObject members =>
      "{" +:+ separated ((λ m : string * json, AppendJsonString m.1 +:+ ":" +:+ print m.2) <$> members)
      +:+ "}"
  end.

(** ** The page as a document *)

Definition text_member (name value : string) : string * json := (name, JString value).
Definition copied_member (fields : FieldMap) (prefix name fallback : string) : string * json :=
  text_member name (GetOr fields (prefix +:+ name) fallback).

Definition store_document (fields : FieldMap) (i : N) : json :=
  let prefix := pd_store i in
  JObject
    [ copied_member fields prefix "store_id" "0";
      text_member "client_endpoint"
        (GetOr fields (prefix +:+ "client_host") "127.0.0.1" +:+ ":" +:+
         GetOr fields (prefix +:+ "client_port") "0");
      text_member "raft_endpoint"
        (GetOr fields (prefix +:+ "raft_host") "127.0.0.1" +:+ ":" +:+
         GetOr fields (prefix +:+ "raft_port") "0");
      copied_member fields prefix "state" "Unknown";
      copied_member fields prefix "last_heartbeat_ms" "0" ].

Definition peer_document (fields : FieldMap) (prefix : string) (i : N) : json :=
  let peer_prefix := prefix +:+ "peer" +:+ to_string i +:+ "." in
  JObject
    [ copied_member fields peer_prefix "peer_id" "0";
      copied_member fields peer_prefix "store_id" "0";
      copied_member fields peer_prefix "role" "Voter" ].

Definition region_document (fields : FieldMap) (i : N) : json :=
  let prefix := pd_region i in
  JObject
    [ copied_member fields prefix "region_id" "0";
      copied_member fields prefix "start_key" "";
      copied_member fields prefix "end_key" "";
      copied_member fields prefix "conf_ver" "1";
      copied_member fields prefix "version" "1";
      copied_member fields prefix "leader_peer_id" "0";
      ("peers", JArray (peer_document fields prefix <$>
                        indices (GetUint64Or fields (prefix +:+ "peer_count") 0))) ].

Definition runtime_document (fields : FieldMap) (i : N) : json :=
  let prefix := store_region i in
  JObject
    [ copied_member fields prefix "region_id" "0";
      copied_member fields prefix "local_store_id" "";
      copied_member fields prefix "local_peer_id" "";
      copied_member fields prefix "runtime_role" "";
      copied_member fields prefix "runtime_leader_peer_id" "";
      copied_member fields prefix "runtime_peer_count" "";
      copied_member fields prefix "runtime_commit_index" "";
      copied_member fields prefix "runtime_last_applied" "";
      copied_member fields prefix "runtime_last_log_index" "" ].

Definition counted_array (fields : FieldMap) (key : string) (f : N → json) : json :=
  JArray (f <$> indices (GetUint64Or fields key 0)).

Definition status_document (fields : FieldMap) (ok : bool) (error_message : string)
    (refresh_cost_ms timestamp_ms : Z) : json :=
  let warnings := page_warnings fields ok error_message in
  let store_count := text_member "store_count" (GetOr fields "pd.store_count" "0") in
  let region_count := text_member "region_count" (GetOr fields "pd.region_count" "0") in
  let route_cache_size :=
    text_member "route_cache_size" (GetOr fields "gateway.route_cache_size" "0") in
  JObject
    [ ("ok", JBool ok);
      ("timestamp_ms", JNumber timestamp_ms);
      ("refresh_cost_ms", JNumber refresh_cost_ms);
      text_member "error" (if ok then "" else error_message);
      ("summary", JObject
        [ ("healthy", JBool (ok && bool_decide (warnings = [])));
          store_count; region_count; route_cache_size;
          ("warnings", JArray (JString <$> warnings)) ]);
      ("gateway", JObject [ route_cache_size ]);
      ("pd", JObject
        [ store_count; region_count;
          ("stores", counted_array fields "pd.store_count" (store_document fields));
          ("regions", counted_array fields "pd.region_count" (region_document fields)) ]);
      ("store", JObject
        [ text_member "region_count" (GetOr fields "store.region_count" "0");
          ("runtime_regions", counted_array fields "store.region_count" (runtime_document fields)) ]);
      ("raw", JObject ((λ kv, (kv.1, JString kv.2)) <$> kvs fields)) ].

(** ** The text is the document's *)

(** A member of a printed object. *)
Definition member_text (m : string * json) : string :=
  AppendJsonString m.1 +:+ ":" +:+ print m.2.

Lemma print_object members : print (JObject members) = "{" +:+ separated (member_text <$> members) +:+ "}".
Proof. done. Qed.

Lemma print_array items : print (JArray items) = "[" +:+ separated (print <$> items) +:+ "]".
Proof. done. Qed.

Lemma separated_cons x y l : separated (x :: y :: l) = x +:+ "," +:+ separated (y :: l).
Proof. done. Qed.
Lemma separated_one x : separated [x] = x.
Proof. done. Qed.

Lemma field_comma name value : AppendJsonField name value true = member_text (text_member name value) +:+ ",".
Proof. unfold AppendJsonField, member_text. cbn [fst snd text_member print]. by snorm. Qed.
Lemma field_last name value : AppendJsonField name value false = member_text (text_member name value).
Proof. unfold AppendJsonField, member_text. cbn [fst snd text_member print]. by snorm. Qed.

Lemma named_member name j :
  JsonEscape name = name → named name +:+ print j = member_text (name, j).
Proof.
  intros Hn. unfold named, member_text, AppendJsonString. cbn [fst snd]. rewrite Hn.
  by rewrite sapp_assoc.
Qed.

Lemma append_store_print fields i : append_store fields i = print (store_document fields i).
Proof.
  unfold append_store, store_document, copied_field, copied_member.
  rewrite print_object. cbn [fmap list_fmap]. rewrite !separated_cons, separated_one.
  rewrite !field_comma, field_last. by snorm.
Qed.

Ltac print_parts :=
  rewrite ?print_object, ?print_array; cbn [fmap list_fmap];
  rewrite ?separated_cons, ?separated_one.

Lemma append_peer_print fields prefix i :
  append_peer fields prefix i = print (peer_document fields prefix i).
Proof.
  unfold append_peer, peer_document, copied_field, copied_member. print_parts.
  rewrite !field_comma, field_last. by snorm.
Qed.

Lemma append_runtime_print fields i :
  append_runtime_region fields i = print (runtime_document fields i).
Proof.
  unfold append_runtime_region, runtime_document, copied_field, copied_member. print_parts.
  rewrite !field_comma, field_last. by snorm.
Qed.

(** A counted array under its name. *)
Lemma array_print {A} name (f : A → string) (g : A → json) l :
  JsonEscape name = name → (∀ x, f x = print (g x)) →
  named name +:+ "[" +:+ separated (f <$> l) +:+ "]" = member_text (name, JArray (g <$> l)).
Proof.
  intros Hn Hf. rewrite <-named_member by done. rewrite print_array. do 4 f_equal.
  rewrite <-list_fmap_compose. apply list_fmap_ext. intros i x _. apply Hf.
Qed.

Lemma append_region_print fields i : append_region fields i = print (region_document fields i).
Proof.
  unfold append_region, region_document, copied_field, copied_member.
  rewrite print_object. cbn [fmap list_fmap]. fold (@fmap list list_fmap _ _ (peer_document fields (pd_region i))).
  rewrite !separated_cons, separated_one, !field_comma.
  rewrite <-(array_print "peers" (append_peer fields (pd_region i))); [by snorm | done |].
  intros x. apply append_peer_print.
Qed.

Lemma raw_print fields :
  AppendRaw fields = member_text ("raw", JObject ((λ kv, (kv.1, JString kv.2)) <$> kvs fields)).
Proof.
  unfold AppendRaw. rewrite <-named_member by done. rewrite print_object. do 4 f_equal.
  rewrite <-list_fmap_compose. done.
Qed.

Lemma stores_print fields :
  AppendStores fields = member_text ("stores", counted_array fields "pd.store_count" (store_document fields)).
Proof. apply array_print; [done|]. intros i. apply append_store_print. Qed.

Lemma regions_print fields :
  AppendRegions fields = member_text ("regions", counted_array fields "pd.region_count" (region_document fields)).
Proof. apply array_print; [done|]. intros i. apply append_region_print. Qed.

Lemma runtime_regions_print fields :
  AppendRuntimeRegions fields =
    member_text ("runtime_regions", counted_array fields "store.region_count" (runtime_document fields)).
Proof. apply array_print; [done|]. intros i. apply append_runtime_print. Qed.

Lemma warnings_print warnings :
  AppendWarningArray warnings = member_text ("warnings", JArray (JString <$> warnings)).
Proof. by apply array_print. Qed.

(** Members whose value is not text. *)
Lemma member_object name members :
  JsonEscape name = name →
  member_text (name, JObject members) = named name +:+ "{" +:+ separated (member_text <$> members) +:+ "}".
Proof. intros Hn. by rewrite <-named_member, print_object by done. Qed.

Lemma member_plain name j : JsonEscape name = name → member_text (name, j) = named name +:+ print j.
Proof. intros Hn. by rewrite named_member. Qed.

Lemma status_json_print fields ok error_message cost now :
  BuildDashboardStatusJson fields ok error_message cost now =
  print (status_document fields ok error_message cost now).
Proof.
  unfold BuildDashboardStatusJson, status_document. set (warnings := page_warnings _ _ _).
  rewrite print_object. cbn [fmap list_fmap]. rewrite !separated_cons, separated_one.
  rewrite (member_plain "ok"), (member_plain "timestamp_ms"), (member_plain "refresh_cost_ms") by done.
  rewrite (member_object "summary"), (member_object "gateway"), (member_object "pd"),
    (member_object "store") by done.
  cbn [fmap list_fmap]. rewrite !separated_cons, !separated_one. rewrite (member_plain "healthy") by done.
  rewrite <-warnings_print, <-stores_print, <-regions_print, <-runtime_regions_print, <-raw_print.
  rewrite !field_comma, field_last. cbn [print]. by snorm.
Qed.

(** * Reading JSON text *)

(** The character a backslash and [e] stand for. *)
Definition unescape_char (e : ascii) : option ascii :=
  if decide (e = "\"%char) then Some "\"%char
  else if decide (e = double_quote) then Some double_quote
  else if decide (e = "n"%char) then Some (Ascii.ascii_of_nat 10)
  else if decide (e = "r"%char) then Some (Ascii.ascii_of_nat 13)
  else if decide (e = "t"%char) then Some (Ascii.ascii_of_nat 9)
  else None.

(** The control characters, which JSON text holds in a string only when they are
    escaped. *)
Definition control (c : ascii) : bool := (Ascii.N_of_ascii c <? 32)%N.

(** The rest of a string literal after its opening quote. *)
Fixpoint read_string (s : string) : option (string * string) :=
  match s with
  | "" => None
  | String c r =>
      if decide (c = double_quote) then Some ("", r)
      else if decide (c = "\"%char) then
        match r with
        | "" => None
        | String e r' =>
            match unescape_char e, read_string r' with
            | Some x, Some (v, rest) => Some (String x v, rest)
            | _, _ => None
            end
        end
      else if control c then None
      else match read_string r with Some (v, rest) => Some (String c v, rest) | None => None end
  end.

Definition read_literal (literal : string) (j : json) (s : string) : option (json * string) :=
  if String.prefix literal s
  then Some (j, String.substring (String.length literal) (String.length s) s) else None.

Definition read_number (s : string) : option (json * string) :=
  match scan_number s with
  | None => None
  | Some (neg, v, rest) => Some (JNumber (signed neg v), rest)
  end.

(** Values, the items of an array after its bracket, the members of an object
    after its brace; one unit of fuel per call. *)
Fixpoint read_value (n : nat) (s : string) : option (json * string) :=
  match n with
  | O => None
  | S n =>
      match s with
      | "" => None
      | String c r =>
          if decide (c = double_quote) then
            match read_string r with Some (v, rest) => Some (JString v, rest) | None => None end
          else if decide (c = "["%char) then
            match r with
            | String "]" rest => Some (JArray [], rest)
            | _ => match read_items n r with Some (l, rest) => Some (JArray l, rest) | None => None end
            end
          else if decide (c = "{"%char) then
            match r with
            | String "}" rest => Some (JObject [], rest)
            | _ => match read_members n r with Some (l, rest) => Some (JObject l, rest) | None => None end
            end
          else if decide (c = "t"%char) then read_literal "true" (JBool true) s
          else if decide (c = "f"%char) then read_literal "false" (JBool false) s
          else read_number s
      end
  end
with read_items (n : nat) (s : string) : option (list json * string) :=
  match n with
  | O => None
  | S n =>
      match read_value n s with
      | Some (j, String "," rest) =>
          match read_items n rest with Some (l, rest') => Some (j :: l, rest') | None => None end
      | Some (j, String "]" rest) => Some ([j], rest)
      | _ => None
      end
  end
with read_members (n : nat) (s : string) : option (list (string * json) * string) :=
  match n with
  | O => None
  | S n =>
      match s with
      | "" => None
      | String c r =>
          if decide (c = double_quote) then
            match read_string r with
            | Some (name, String ":" r') =>
                match read_value n r' with
                | Some (j, String "," rest) =>
                    match read_members n rest with
                    | Some (l, rest') => Some ((name, j) :: l, rest')
                    | None => None
                    end
                | Some (j, String "}" rest) => Some ([(name, j)], rest)
                | _ => None
                end
            | _ => None
            end
          else None
      end
  end.

Definition read_json (s : string) : option (json * string) := read_value (String.length s) s.

Definition sample_status : FieldMap :=
  list_to_map [("pd.store_count", "1"); ("pd.store0.store_id", "1"); ("pd.region_count", "1");
    ("pd.region0.start_key", String double_quote "\a"); ("pd.region0.leader_peer_id", "1");
    ("pd.region0.peer_count", "1"); ("store.region_count", "0")].

Example sample_page_reads :
  read_json (BuildDashboardStatusJson sample_status true "" 5 1000) =
  Some (status_document sample_status true "" 5 1000, "").
Proof. vm_compute. reflexivity. Qed.

(** ** What is printed reads back *)

(** The characters that are printed so that they read back: all but the control
    characters the page does not escape. *)
Definition shown_char (c : ascii) : bool :=
  negb (control c) || bool_decide (c = Ascii.ascii_of_nat 10 ∨ c = Ascii.ascii_of_nat 13 ∨
                                   c = Ascii.ascii_of_nat 9).

Definition shown (s : string) : bool := str_all shown_char s.

Fixpoint shown_json (j : json) : bool :=
  match j with
  | JString s => shown s
  | JBool _ | JNumber _ => true
  | JArray items => forallb shown_json items
  | JObject members => forallb (λ m : string * json, shown m.1 && shown_json m.2) members
  end.

Lemma read_string_escape v rest :
  shown v = true → read_string (JsonEscape v +:+ String double_quote rest) = Some (v, rest).
Proof.
  induction v as [|c v IH]; [done|]. intros [Hc Hv]%andb_true_iff.
  cbn [JsonEscape]. unfold escape_char.
  repeat case_decide; subst; snorm; cbn [read_string];
    rewrite ?(decide_True (P := double_quote = double_quote)) by done; try by rewrite IH.
  rewrite !decide_False by done.
  assert (control c = false) as ->.
  { unfold shown_char in Hc. rewrite bool_decide_eq_false_2, orb_false_r in Hc by tauto.
    by apply negb_true_iff. }
  by rewrite IH.
Qed.

(** What a reader takes from a text is shown. *)
Lemma read_string_shown s v rest : read_string s = Some (v, rest) → shown v = true.
Proof.
  assert (∀ n s v rest, String.length s ≤ n → read_string s = Some (v, rest) → shown v = true) as Hn;
    [|by apply (Hn (String.length s))].
  clear. induction n as [|n IH]; intros [|c r] v rest Hlen Hread; cbn in Hlen; try done; try lia.
  cbn [read_string] in Hread. case_decide; [by injection Hread as <- <-|].
  case_decide as Hback.
  - destruct r as [|e r]; [done|]. cbn in Hlen.
    destruct (unescape_char e) as [x|] eqn:Hx; [|done].
    destruct (read_string r) as [[v' rest']|] eqn:Hr; [|done]. injection Hread as <- <-.
    cbn [shown str_all]. apply andb_true_iff. split; [|eapply (IH r); [lia | exact Hr]].
    unfold unescape_char in Hx. repeat case_decide; simplify_eq/=; reflexivity.
  - destruct (control c) eqn:Hc; [done|].
    destruct (read_string r) as [[v' rest']|] eqn:Hr; [|done]. injection Hread as <- <-.
    cbn [shown str_all]. apply andb_true_iff. split; [by unfold shown_char; rewrite Hc|].
    eapply (IH r); [lia | exact Hr].
Qed.

Lemma read_literal_shown l b s j rest : read_literal l (JBool b) s = Some (j, rest) → shown_json j = true.
Proof. unfold read_literal. case_match; [|done]. by intros [= <- <-]. Qed.

Lemma read_number_shown s j rest : read_number s = Some (j, rest) → shown_json j = true.
Proof. unfold read_number. destruct (scan_number s) as [[[neg v] r]|]; [|done]. by intros [= <- <-]. Qed.

Lemma read_items_shown n :
  (∀ s j rest, read_value n s = Some (j, rest) → shown_json j = true) →
  (∀ s l rest, read_items n s = Some (l, rest) → forallb shown_json l = true) →
  ∀ s l rest, read_items (S n) s = Some (l, rest) → forallb shown_json l = true.
Proof.
  intros Hv Hi s l rest Hread. cbn [read_items] in Hread.
  destruct (read_value n s) as [[j r]|] eqn:Hj; [|done]. apply Hv in Hj.
  destruct r as [|c r]; [done|].
  destruct (decide (c = ","%char)) as [->|Hc].
  - destruct (read_items n r) as [[l' r']|] eqn:Hl; [|done]. injection Hread as <- <-.
    cbn [forallb]. by rewrite Hj, (Hi _ _ _ Hl).
  - destruct (decide (c = "]"%char)) as [->|Hc'].
    + injection Hread as <- <-. cbn [forallb]. by rewrite Hj.
    + by destruct c as [[] [] [] [] [] [] [] []].
Qed.

Lemma read_members_shown n :
  (∀ s j rest, read_value n s = Some (j, rest) → shown_json j = true) →
  (∀ s l rest, read_members n s = Some (l, rest) → shown_json (JObject l) = true) →
  ∀ s l rest, read_members (S n) s = Some (l, rest) → shown_json (JObject l) = true.
Proof.
  intros Hv Hm s l rest Hread. cbn [read_members] in Hread. destruct s as [|q r]; [done|].
  case_decide; [|done]. destruct (read_string r) as [[name r1]|] eqn:Hname; [|done].
  apply read_string_shown in Hname. destruct r1 as [|c r1]; [done|].
  destruct (decide (c = ":"%char)) as [->|Hc]; [|by destruct c as [[] [] [] [] [] [] [] []]].
  destruct (read_value n r1) as [[j r2]|] eqn:Hj; [|done]. apply Hv in Hj. destruct r2 as [|c2 r2]; [done|].
  destruct (decide (c2 = ","%char)) as [->|Hc2].
  - destruct (read_members n r2) as [[l' r']|] eqn:Hl; [|done]. injection Hread as <- <-.
    cbn [shown_json forallb fst snd]. rewrite Hname, Hj. exact (Hm _ _ _ Hl).
  - destruct (decide (c2 = "}"%char)) as [->|Hc'].
    + injection Hread as <- <-. cbn [shown_json forallb fst snd]. by rewrite Hname, Hj.
    + by destruct c2 as [[] [] [] [] [] [] [] []].
Qed.

Lemma read_value_shown n s j rest : read_value n s = Some (j, rest) → shown_json j = true.
Proof.
  assert (∀ n,
    (∀ s j rest, read_value n s = Some (j, rest) → shown_json j = true) ∧
    (∀ s l rest, read_items n s = Some (l, rest) → forallb shown_json l = true) ∧
    (∀ s l rest, read_members n s = Some (l, rest) → shown_json (JObject l) = true)) as H;
    [|by apply (H n)].
  clear. induction n as [|n (IHv & IHi & IHm)]; [done|].
  split_and!; [|by apply read_items_shown | by apply read_members_shown].
  intros s j rest Hread. cbn [read_value] in Hread. destruct s as [|c r]; [done|].
  case_decide.
  { destruct (read_string r) as [[v r']|] eqn:Hr; [|done]. injection Hread as <- <-.
    by apply read_string_shown in Hr. }
  assert (∀ q : option (list json * string), (∀ l r', q = Some (l, r') → forallb shown_json l = true) →
    match q with Some (l, rest) => Some (JArray l, rest) | None => None end = Some (j, rest) →
    shown_json j = true) as Harray.
  { intros [[l r']|] Hq; [|done]. intros [= <- <-]. by apply (Hq _ _ eq_refl). }
  assert (∀ q : option (list (string * json) * string),
    (∀ l r', q = Some (l, r') → shown_json (JObject l) = true) →
    match q with Some (l, rest) => Some (JObject l, rest) | None => None end = Some (j, rest) →
    shown_json j = true) as Hobject.
  { intros [[l r']|] Hq; [|done]. intros [= <- <-]. by apply (Hq _ _ eq_refl). }
  case_decide; [|case_decide].
  - destruct r as [|c2 r]; [by eapply Harray, Hread; eauto|].
    destruct (decide (c2 = "]"%char)) as [->|Hc2]; [by injection Hread as <- <-|].
    eapply (Harray (read_items n (String c2 r))); [eauto|].
    by destruct c2 as [[] [] [] [] [] [] [] []].
  - destruct r as [|c2 r]; [by eapply Hobject, Hread; eauto|].
    destruct (decide (c2 = "}"%char)) as [->|Hc2]; [by injection Hread as <- <-|].
    eapply (Hobject (read_members n (String c2 r))); [eauto|].
    by destruct c2 as [[] [] [] [] [] [] [] []].
  - case_decide; [by eapply read_literal_shown|]. case_decide; [by eapply read_literal_shown|].
    by eapply read_number_shown.
Qed.

Lemma json_induction (P : json → Prop) :
  (∀ s, P (JString s)) → (∀ b, P (JBool b)) → (∀ z, P (JNumber z)) →
  (∀ items, Forall P items → P (JArray items)) →
  (∀ members, Forall (λ m, P m.2) members → P (JObject members)) → ∀ j, P j.
Proof.
  intros HS HB HN HA HO. fix IH 1. intros [s|b|z|items|members]; [apply HS | apply HB | apply HN | |].
  - apply HA. induction items; constructor; [apply IH | done].
  - apply HO. induction members; constructor; [apply IH | done].
Qed.

Lemma substring_all n s : String.length s ≤ n → String.substring 0 n s = s.
Proof.
  revert n. induction s as [|c s IH]; intros [|n] Hn; cbn in *; [done | done | lia |].
  by rewrite IH by lia.
Qed.

Lemma prefix_append l rest : String.prefix l (l +:+ rest) = true.
Proof.
  induction l as [|c l IH]; [by destruct rest|]. rewrite sapp_cons. cbn [String.prefix].
  by destruct (Ascii.ascii_dec c c).
Qed.

Lemma substring_append l n rest :
  String.length rest ≤ n → String.substring (String.length l) n (l +:+ rest) = rest.
Proof.
  intros Hn. induction l as [|c l IH]; [by apply substring_all|]. rewrite sapp_cons. exact IH.
Qed.

Lemma read_literal_append l j rest : read_literal l j (l +:+ rest) = Some (j, rest).
Proof.
  unfold read_literal. rewrite prefix_append. rewrite substring_append; [done|].
  rewrite slength_app. lia.
Qed.

Lemma read_bool n b rest : read_value (S n) (bool_text b +:+ rest) = Some (JBool b, rest).
Proof.
  destruct b; [exact (read_literal_append "true" (JBool true) rest)
              | exact (read_literal_append "false" (JBool false) rest)].
Qed.

(** The first character of a printed number. *)
Lemma number_head z : ∃ c r, to_string_Z z = String c r ∧ (is_digit c = true ∨ c = "-"%char).
Proof.
  assert (∀ n, ∃ c r, to_string n = String c r ∧ is_digit c = true) as Hpos.
  { intros n. destruct (to_string_spec n) as (Hd & Hne & _).
    destruct (to_string n) as [|c r]; [done|]. exists c, r. split; [done|].
    by apply andb_true_iff in Hd as [? _]. }
  destruct z as [|p|p].
  - destruct (Hpos 0%N) as (c & r & Hs & Hc). exists c, r. split; [exact Hs | by left].
  - destruct (Hpos (Npos p)) as (c & r & Hs & Hc). exists c, r. split; [exact Hs | by left].
  - rewrite to_string_Z_neg. by exists "-"%char, (to_string (Npos p)); split; [|right].
Qed.

Lemma read_number_text z rest :
  ends_class is_digit rest → read_number (to_string_Z z +:+ rest) = Some (JNumber z, rest).
Proof.
  intros Hr. unfold read_number. destruct z as [|p|p].
  - change (to_string_Z 0) with (to_string 0). by rewrite scan_to_string.
  - change (to_string_Z (Zpos p)) with (to_string (Npos p)). by rewrite scan_to_string.
  - rewrite to_string_Z_neg, sapp_cons. destruct (to_string_spec (Npos p)) as (Hd & Hne & Hv).
    rewrite scan_minus by done. by rewrite Hv.
Qed.

Lemma read_value_number n z rest :
  ends_class is_digit rest → read_value (S n) (to_string_Z z +:+ rest) = Some (JNumber z, rest).
Proof.
  intros Hr. pose proof (read_number_text z rest Hr) as Hread.
  destruct (number_head z) as (c & r & Hz & Hc). rewrite Hz, sapp_cons in Hread |- *.
  cbn [read_value].
  assert (c ≠ double_quote ∧ c ≠ "["%char ∧ c ≠ "{"%char ∧ c ≠ "t"%char ∧ c ≠ "f"%char)
    as (?&?&?&?&?) by (split_and!; intros ->; by destruct Hc).
  by rewrite !decide_False by done.
Qed.

(** Printed values are not empty and do not start with a closing bracket. *)
Lemma print_head j : ∃ c r, print j = String c r ∧ c ≠ "]"%char ∧ c ≠ "}"%char.
Proof.
  destruct j as [s|b|z|items|members]; cbn [print].
  - by do 2 eexists.
  - by destruct b; do 2 eexists.
  - destruct (number_head z) as (c & r & -> & Hc). do 2 eexists.
    split; [done|]. by split; intros ->; destruct Hc.
  - by do 2 eexists.
  - by do 2 eexists.
Qed.

(** The value [j] reads back from its text, with enough fuel. *)
Definition reads_back (j : json) : Prop :=
  shown_json j = true → ∀ n rest, String.length (print j) ≤ n → ends_class is_digit rest →
    read_value n (print j +:+ rest) = Some (j, rest).

Lemma separated_length x l : String.length x ≤ String.length (separated (x :: l)).
Proof. destruct l; [done|]. rewrite separated_cons, slength_app. lia. Qed.

Lemma read_items_back items :
  Forall reads_back items → forallb shown_json items = true → items ≠ [] → ∀ n rest,
  String.length (separated (print <$> items)) < n →
  read_items n (separated (print <$> items) +:+ String "]" rest) = Some (items, rest).
Proof.
  induction 1 as [|j items Hj Hitems IH]; [done|]. intros [Hs Hss]%andb_true_iff _ n rest Hn.
  specialize (Hj Hs). specialize (IH Hss). destruct n as [|n]; [lia|]. cbn [read_items fmap list_fmap] in *.
  pose proof (separated_length (print j) (print <$> items)) as Hlen.
  destruct items as [|j2 items].
  - cbn [fmap list_fmap] in *. rewrite separated_one in *. by rewrite Hj by (done || lia).
  - cbn [fmap list_fmap] in *. rewrite separated_cons, !slength_app in Hn.
    rewrite separated_cons, !sapp_assoc.
    rewrite Hj by (done || lia). change ("," +:+ ?x) with (String "," x).
    cbn [String.length] in Hn. cbv beta iota. rewrite IH; [done | done |].
    destruct (print_head j) as (c & r & Hp & _). rewrite Hp in Hn. cbn [String.length] in Hn. lia.
Qed.

Lemma member_read_back m n rest l rest' :
  shown m.1 = true → shown_json m.2 = true →
  reads_back m.2 → String.length (print m.2) ≤ n → ends_class is_digit rest →
  (match rest with
   | String "," rest => match read_members n rest with
       | Some (l, rest') => Some ((m.1, m.2) :: l, rest')
       | None => None
       end
   | String "}" rest => Some ([(m.1, m.2)], rest)
   | _ => None
   end) = Some (l, rest') →
  read_members (S n) (member_text m +:+ rest) = Some (l, rest').
Proof.
  intros Hname Hj Hm Hn Hr Hrest. unfold member_text, AppendJsonString, quoted. rewrite !sapp_assoc, sapp_cons.
  cbn [read_members]. rewrite decide_True by done.
  rewrite sapp_assoc, sapp_cons, sapp_nil_l, read_string_escape by done.
  change (":" +:+ print m.2 +:+ rest) with (String ":" (print m.2 +:+ rest)).
  cbv beta iota. rewrite Hm by done. exact Hrest.
Qed.

Lemma read_members_back members :
  Forall (λ m, reads_back m.2) members → shown_json (JObject members) = true → members ≠ [] → ∀ n rest,
  String.length (separated (member_text <$> members)) < n →
  read_members n (separated (member_text <$> members) +:+ String "}" rest) = Some (members, rest).
Proof.
  assert (∀ m, String.length (print m.2) ≤ String.length (member_text m)) as Hle
    by (intros m; unfold member_text; rewrite !slength_app; lia).
  assert (∀ m, 0 < String.length (member_text m)) as Hpos
    by (intros m; unfold member_text; rewrite !slength_app; cbn; lia).
  induction 1 as [|m members Hm Hmembers IH]; [done|].
  intros [[Hs1 Hs2]%andb_true_iff Hss]%andb_true_iff _ n rest Hn. specialize (IH Hss).
  destruct n as [|n]; [lia|]. cbn [fmap list_fmap] in *.
  pose proof (separated_length (member_text m) (member_text <$> members)) as Hlen.
  specialize (Hle m). specialize (Hpos m).
  destruct members as [|m2 members].
  - cbn [fmap list_fmap] in *. rewrite separated_one in *.
    apply member_read_back; [done.. | lia | done | by destruct m].
  - cbn [fmap list_fmap] in *. rewrite separated_cons, !slength_app in Hn. cbn [String.length] in Hn.
    rewrite separated_cons, !sapp_assoc.
    apply member_read_back; [done.. | lia | done |]. change ("," +:+ ?x) with (String "," x).
    cbv beta iota. rewrite IH; [by destruct m | done | lia].
Qed.

Lemma print_reads_back j : reads_back j.
Proof.
  induction j as [s|b|z|items IH|members IH] using json_induction; intros Hj n rest Hn Hr.
  - cbn [print] in *. unfold AppendJsonString, quoted in *. destruct n as [|n]; [cbn in Hn; lia|].
    rewrite sapp_cons. cbn [read_value]. rewrite decide_True by done.
    by rewrite sapp_assoc, sapp_cons, sapp_nil_l, read_string_escape by done.
  - destruct n as [|n]; [destruct b; cbn in Hn; lia|]. apply read_bool.
  - destruct n as [|n]; [|by apply read_value_number].
    destruct (number_head z) as (c & r & Hz & _). cbn [print] in Hn. rewrite Hz in Hn. cbn in Hn. lia.
  - rewrite print_array in *. destruct n as [|n]; [rewrite slength_app in Hn; cbn [String.length] in Hn; lia|].
    rewrite !sapp_assoc. change ("[" +:+ ?x) with (String "[" x). cbn [read_value].
    rewrite decide_False by done. rewrite decide_True by done.
    destruct items as [|j items]; [done|]. rewrite !slength_app in Hn. cbn [String.length] in Hn.
    change ("]" +:+ rest) with (String "]" rest).
    rewrite (read_items_back (j :: items) IH Hj) by (done || lia).
    cbn [fmap list_fmap]. destruct (print_head j) as (c & r & Hp & Hc & _).
    assert (∃ r', separated (print j :: (print <$> items)) +:+ String "]" rest = String c r') as (r' & ->).
    { rewrite Hp. destruct items; cbn [fmap list_fmap]; rewrite ?separated_cons, ?separated_one, sapp_cons;
        by eexists. }
    by destruct c as [[] [] [] [] [] [] [] []].
  - rewrite print_object in *. destruct n as [|n]; [rewrite slength_app in Hn; cbn [String.length] in Hn; lia|].
    rewrite !sapp_assoc. change ("{" +:+ ?x) with (String "{" x). cbn [read_value].
    rewrite decide_False by done. rewrite decide_False by done. rewrite decide_True by done.
    destruct members as [|m members]; [done|]. rewrite !slength_app in Hn. cbn [String.length] in Hn.
    change ("}" +:+ rest) with (String "}" rest).
    rewrite (read_members_back (m :: members) IH Hj) by (done || lia).
    cbn [fmap list_fmap].
    assert (∃ r', separated (member_text m :: (member_text <$> members)) +:+ String "}" rest =
      String double_quote r') as (r' & ->); [|done].
    destruct members; cbn [fmap list_fmap]; rewrite ?separated_cons, ?separated_one;
      unfold member_text at 1; unfold AppendJsonString, quoted; rewrite !sapp_cons; by eexists.
Qed.

(** ** Health *)

Lemma concat_nil {A} (f : N → list A) n :
  concat (f <$> indices n) = [] ↔ ∀ i, (i < n)%N → f i = [].
Proof.
  rewrite concat_nil_Forall, list.Forall_fmap, list.Forall_forall. unfold indices. split.
  - intros H i Hi. apply (H i). apply list_elem_of_fmap. exists (N.to_nat i).
    split; [by rewrite N2Nat.id | apply elem_of_seq; lia].
  - intros H i Hi. apply list_elem_of_fmap in Hi as (j & -> & Hj%elem_of_seq). apply H. lia.
Qed.

(** The cluster the page calls healthy. *)
Definition healthy (fields : FieldMap) : Prop :=
  (3 <= GetUint64Or fields "pd.store_count" 0)%N ∧ (1 <= GetUint64Or fields "pd.region_count" 0)%N ∧
  (∀ i, (i < GetUint64Or fields "pd.region_count" 0)%N →
     GetOr fields (pd_region i +:+ "leader_peer_id") "0" ≠ "0") ∧
  (∀ i, (i < GetUint64Or fields "store.region_count" 0)%N →
     let commit := GetOr fields (store_region i +:+ "runtime_commit_index") "" in
     let applied := GetOr fields (store_region i +:+ "runtime_last_applied") "" in
     commit = "" ∨ applied = "" ∨ commit = applied).

Lemma BuildWarnings_healthy fields : BuildWarnings fields = [] ↔ healthy fields.
Proof.
  unfold BuildWarnings, healthy. rewrite !app_nil, !concat_nil.
  set (sc := GetUint64Or fields "pd.store_count" 0). set (rc := GetUint64Or fields "pd.region_count" 0).
  assert (count_warnings sc rc = [] ↔ (3 <= sc)%N ∧ (1 <= rc)%N) as ->.
  { unfold count_warnings. rewrite app_nil. destruct (N.eqb_spec sc 0), (N.ltb_spec sc 3),
      (N.eqb_spec rc 0); split; intros []; try done; try lia; split; done || lia. }
  assert (∀ i, leader_warning fields i = [] ↔
    GetOr fields (pd_region i +:+ "leader_peer_id") "0" ≠ "0") as Hl
    by (intros i; unfold leader_warning; by case_decide).
  assert (∀ i, apply_warning fields i = [] ↔
    (let commit := GetOr fields (store_region i +:+ "runtime_commit_index") "" in
     let applied := GetOr fields (store_region i +:+ "runtime_last_applied") "" in
     commit = "" ∨ applied = "" ∨ commit = applied)) as Ha.
  { intros i. unfold apply_warning. cbv zeta.
    set (commit := GetOr _ _ _). set (applied := GetOr _ (_ +:+ "runtime_last_applied") _).
    case_decide as Hc; split; try done.
    - intros [?|[?|?]]; tauto.
    - intros _. destruct (decide (commit = "")), (decide (applied = "")),
        (decide (commit = applied)); tauto. }
  setoid_rewrite Hl. setoid_rewrite Ha. tauto.
Qed.

(** ** Which statuses the page shows *)

(** No name, value or message holds a control character but line breaks and
    tabs. *)
Definition shown_status (fields : FieldMap) (ok : bool) (error_message : string) : Prop :=
  map_Forall (λ name value, shown name = true ∧ shown value = true) fields ∧
  (ok = false → shown error_message = true).

Lemma shown_app s t : shown (s +:+ t) = shown s && shown t.
Proof. apply str_all_app. Qed.

Lemma forallb_fmap {A B} (p : B → bool) (f : A → B) l : forallb p (f <$> l) = forallb (p ∘ f) l.
Proof. induction l as [|x l IH]; [done|]. cbn. by rewrite IH. Qed.

Lemma forallb_all {A} (p : A → bool) l : (∀ x, p x = true) → forallb p l = true.
Proof. intros Hp. apply forallb_forall. intros x _. apply Hp. Qed.

Section shown.
Context (fields : FieldMap).
Hypothesis shown_fields : map_Forall (λ name value, shown name = true ∧ shown value = true) fields.

Lemma shown_GetOr key fallback : shown fallback = true → shown (GetOr fields key fallback) = true.
Proof.
  intros Hf. unfold GetOr. destruct (fields !! key) as [v|] eqn:Hv; [|done]. by apply (shown_fields key).
Qed.

Lemma shown_counted key f : (∀ i, shown_json (f i) = true) → shown_json (counted_array fields key f) = true.
Proof. intros Hf. cbn [counted_array shown_json]. rewrite forallb_fmap. by apply forallb_all. Qed.

Ltac shown_members :=
  cbn [shown_json forallb fst snd copied_member text_member]; rewrite ?shown_app, ?shown_GetOr by done;
  try reflexivity.

Lemma shown_store i : shown_json (store_document fields i) = true.
Proof. unfold store_document. shown_members. Qed.

Lemma shown_peer prefix i : shown_json (peer_document fields prefix i) = true.
Proof. unfold peer_document. shown_members. Qed.

Lemma shown_region i : shown_json (region_document fields i) = true.
Proof.
  unfold region_document. shown_members. rewrite forallb_fmap, forallb_all; [done|].
  intros j. apply shown_peer.
Qed.

Lemma shown_runtime i : shown_json (runtime_document fields i) = true.
Proof. unfold runtime_document. shown_members. Qed.

Lemma shown_warnings ok error_message :
  (ok = false → shown error_message = true) →
  forallb shown (page_warnings fields ok error_message) = true.
Proof.
  intros He. destruct ok; cbn [page_warnings]; [|cbn; by rewrite He].
  assert (∀ (f : N → list string) n, (∀ i, forallb shown (f i) = true) →
    forallb shown (concat (f <$> indices n)) = true) as Hconcat.
  { intros f n Hf. induction (indices n) as [|i l IH]; [done|]. cbn. by rewrite forallb_app, Hf, IH. }
  unfold BuildWarnings. rewrite !forallb_app, !andb_true_iff. split_and!.
  - unfold count_warnings. by repeat case_match.
  - apply Hconcat. intros i. unfold leader_warning. case_decide; [|done]. cbn [forallb].
    by rewrite !shown_app, shown_GetOr.
  - apply Hconcat. intros i. unfold apply_warning. case_decide; [|done]. cbn [forallb].
    by rewrite !shown_app, shown_GetOr.
Qed.

Lemma shown_raw : shown_json (JObject ((λ kv, (kv.1, JString kv.2)) <$> kvs fields)) = true.
Proof.
  cbn [shown_json]. rewrite forallb_fmap. apply forallb_forall. intros [k v] Hkv%list_elem_of_In%elem_of_kvs.
  change (shown k && shown v = true). by destruct (shown_fields k v Hkv) as [-> ->].
Qed.
End shown.

Lemma status_shown fields ok error_message cost now :
  shown_json (status_document fields ok error_message cost now) = true ↔
  shown_status fields ok error_message.
Proof.
  split.
  - intros Hs. unfold status_document in Hs. cbn [shown_json forallb fst snd text_member] in Hs.
    rewrite !andb_true_iff in Hs. destruct_and!. split.
    + intros k v Hkv%elem_of_kvs.
      match goal with H : forallb _ ((λ kv, (kv.1, JString kv.2)) <$> kvs fields) = true |- _ =>
        rewrite forallb_fmap, forallb_forall in H;
        by apply andb_true_iff, (H (k, v)), list_elem_of_In
      end.
    + by intros ->.
  - intros [Hf He]. unfold status_document. cbn [shown_json forallb fst snd text_member].
    rewrite !shown_counted by
      (first [apply shown_store | apply shown_region | apply shown_runtime]; exact Hf).
    rewrite !(shown_GetOr fields Hf) by done.
    pose proof (shown_warnings fields Hf ok error_message He) as Hw.
    pose proof (shown_raw fields Hf) as Hraw. cbn [shown_json] in Hraw. rewrite Hraw.
    rewrite forallb_fmap. change (shown_json ∘ JString) with shown. rewrite Hw.
    destruct ok; [reflexivity|]. by rewrite He.
Qed.

Lemma status_reads fields ok error_message cost now :
  read_json (BuildDashboardStatusJson fields ok error_message cost now) =
    Some (status_document fields ok error_message cost now, "") ↔
  shown_status fields ok error_message.
Proof.
  rewrite <-(status_shown _ _ _ cost now), status_json_print. unfold read_json.
  set (doc := status_document _ _ _ _ _). split; [apply read_value_shown|]. intros Hs.
  pose proof (print_reads_back doc Hs (String.length (print doc)) "") as H.
  rewrite sapp_nil_r in H. by apply H.
Qed.

(** C38: The status page is well-formed JSON and says what the status says,
    exactly when it shows no control character but line breaks and tabs. The text
    read as JSON is the document with the summary, the stores, the regions with
    their peers, the runtime of the regions and the raw fields, and nothing follows
    it, if and only if no field's name or value, nor the error message of a failed
    status, holds another control character; quotes, backslashes, line breaks and
    tabs are escaped. Without an error, there is no warning exactly when at least
    three stores and one region are known, every region has a leader, and no region
    has committed entries it has not applied. *)
Theorem status_json_reads_back fields ok error_message cost now :
  (read_json (BuildDashboardStatusJson fields ok error_message cost now) =
    Some (status_document fields ok error_message cost now, "") ↔
   shown_status fields ok error_message) ∧
  (page_warnings fields true error_message = [] ↔ healthy fields).
Proof. split; [apply status_reads | apply BuildWarnings_healthy]. Qed.

(** A key of the store with another control character: the page does not read. *)
Example raw_control_character :
  read_json (BuildDashboardStatusJson {["pd.region0.start_key" := String (Ascii.ascii_of_nat 1) ""]}
    true "" 5 1000) = None.
Proof. vm_compute. reflexivity. Qed.
