(* ===== verification/Dashboard.v ===== *)
(** The gateway's dashboard, src/dashboard/dashboard_server.cpp: one HTTP
    request per connection, answered with a page of the disk or with the status
    of the cluster; and what the page shows and leaves alone. *)

From S2P Require Import Prelude Types Text Codec Service Engine Raft RaftStorage Keyspace.
From S2P Require Import Cluster ClusterSpec Region Pd PdSpec PdSafety PdCatalog Multi MultiSpec MultiRegion.
From S2P Require Import Gateway GatewaySpec PdService Distributed Tcp StoreService RpcGateway KvSession RpcSession.
From S2P Require Import StatusJson Threads ThreadsSpec.

(** * HTTP *)

Definition crlf : string := String (Ascii.ascii_of_nat 13) newline.

(** [WriteAll], with the fuel of the loop as in Tcp.v. *)
Fixpoint http_write_all (fuel : nat) (payload : string) : IO Socket unit :=
  match fuel with
  | O => mret tt
  | S fuel =>
      if decide (payload = "") then mret tt
      else
        written ← send payload;
        if decide (written = 0) then fail (IoError "http socket write failed")
        else http_write_all fuel (str_drop written payload)
  end.

(** One [recv] of a buffer: a request split over packets is cut short. *)
Definition ReadHttpRequest : IO Socket string := recv 4096.

Definition ExtractPath (request : string) : string :=
  let '(method, input) := get_word (istringstream request) in
  let '(path, _) := get_word input in
  if decide (method ≠ "GET" ∨ path = "") then ""
  else match split_at "?" path with None => path | Some (before, _) => before end.

Definition HttpResponse (status_code : N) (status_text content_type body : string) : string :=
  "HTTP/1.1 " +:+ to_string status_code +:+ " " +:+ status_text +:+ crlf +:+
  "Content-Type: " +:+ content_type +:+ crlf +:+
  "Content-Length: " +:+ to_string (size_of body) +:+ crlf +:+
  "Cache-Control: no-store" +:+ crlf +:+
  "Connection: close" +:+ crlf +:+
  crlf +:+ body.

Definition not_found (body : string) : string :=
  HttpResponse 404 "Not Found" "text/plain; charset=utf-8" body.

(** [DashboardServer::Start] up to the thread that accepts connections. The
    gateway pointer may be null. *)
Definition Start {G} (k : Kernel) (gateway : option G) (host : string) (port : Z) : res Z :=
  match gateway with
  | None => Err (InvalidArgument "dashboard gateway client must not be null")
  | Some _ =>
      if negb (kernel_socket k) then Err (IoError "failed to create dashboard socket")
      else if negb (kernel_pton k host) then
        Err (InvalidArgument ("invalid dashboard host: " +:+ host))
      else if negb (kernel_bind k host (uint16 port)) then
        Err (IoError "failed to bind dashboard server")
      else
        let bound_port := match kernel_sockname k host (uint16 port) with
                          | Some bound => Z.of_N bound
                          | None => port
                          end in
        if negb (kernel_listen k) then Err (IoError "failed to listen dashboard server")
        else Ok bound_port
  end.

(** * Requests *)

(** The threads of the connections share the gateway's client without a lock:
    every access to one of its fields is a section of its own, and so are a call
    through one of its RPC clients, a reading of the clock and the reading of a
    file. *)
Section dashboard.
Context {Net : Type} `{!Transport Net}.

Abbreviation GatewayW := (Net * RpcGatewayClient Net)%type.

(** The gateway process: the readings of the clock that are still to come, its
    disk, and its client with the world outside. *)
Abbreviation DashboardW := (list Z * (Disk * GatewayW))%type.

Definition NowMs : Act DashboardW Z := atomic (λ w, (Ok (hd 0%Z w.1), (tail w.1, w.2))).

Definition on_disk {A} (m : IO (Disk * GatewayW) A) : Act DashboardW A :=
  atomic (zoom snd (λ w' (w : DashboardW), (w.1, w')) m).

Definition on_gateway {A} (m : IO GatewayW A) : Act DashboardW A :=
  on_disk (zoom snd (λ w' (w : Disk * GatewayW), (w.1, w')) m).

Definition set_request_id (i : N) (w : GatewayW) : GatewayW :=
  (w.1, mkRpcGateway (pd_client_ w.2) (store_client_ w.2) (dynamic_store_routing_ w.2)
          (route_cache_ w.2) i).

(** [name + std::to_string(next_request_id_++)]: two threads may read the same
    number before one of them writes the next. *)
Definition next_request_id (name : string) : Act DashboardW string :=
  i ← on_gateway (gets (λ w : GatewayW, next_request_id_ w.2));
  _ ← on_gateway (modify (set_request_id (u64 (i + 1))));
  mret (name +:+ to_string i).

Definition CallPd_act (method : string) (fields : FieldMap) : Act DashboardW RpcResponse :=
  id ← next_request_id "gateway-pd-";
  g ← on_gateway the_client;
  on_gateway (through (pd_client_ g)
    (mkRequest id method "gateway" "pd" 3000 (EncodeFields fields) ∅)).

Definition CallStore_act (method : string) (fields : FieldMap) : Act DashboardW RpcResponse :=
  id ← next_request_id "gateway-store-";
  g ← on_gateway the_client;
  on_gateway (through (store_client_ g)
    (mkRequest id method "gateway" "store" 3000 (EncodeFields fields) ∅)).

(** [RpcGatewayClient::GetStatus] on a client that other threads use. *)
Definition GetStatus_act : Act DashboardW (res unit * FieldMap) :=
  g ← on_gateway the_client;
  let fields := <["gateway.route_cache_size" :=
                    to_string (N.of_nat (size (route_cache_ g)))]> (∅ : FieldMap) in
  pd_response ← CallPd_act "pd.Status" ∅;
  match RpcToStatus pd_response, DecodeFields (rs_payload pd_response) with
  | Ok _, Ok pd_fields =>
      let fields := put_all fields (copied "pd." pd_fields) in
      store_response ← CallStore_act "store.Status" ∅;
      match RpcToStatus store_response, DecodeFields (rs_payload store_response) with
      | Ok _, Ok store_fields => mret (Ok tt, put_all fields (copied "store." store_fields))
      | Ok _, bad => mret (_ ← bad; Ok tt, fields)
      | bad, _ => mret (bad, fields)
      end
  | Ok _, bad => mret (_ ← bad; Ok tt, fields)
  | bad, _ => mret (bad, fields)
  end.

Definition ServeFile (path content_type : string) : Act DashboardW string :=
  on_disk (
    fault ← io;
    text ← read_file path;
    mret match fault, text with
         | None, Some body => HttpResponse 200 "OK" content_type body
         | _, _ => not_found ("missing dashboard asset: " +:+ path +:+ newline)
         end).

Definition BuildStatusResponse : Act DashboardW string :=
  start ← NowMs;
  result ← GetStatus_act;
  now ← NowMs;
  let page ok message :=
    BuildDashboardStatusJson result.2 ok message (now - start) now in
  match result.1 with
  | Ok _ => mret (HttpResponse 200 "OK" "application/json; charset=utf-8" (page true ""))
  | Err st => mret (HttpResponse 503 "Service Unavailable" "application/json; charset=utf-8"
                      (page false (message_ st)))
  | Fault f => Return (Fault f)
  end.

Definition health_body (now : Z) : string :=
  "{" +:+ named "ok" +:+ "true," +:+ named "service" +:+ quoted "rstone-dashboard" +:+ "," +:+
  named "timestamp_ms" +:+ to_string_Z now +:+ "}".

Definition HandleRequest (request : string) : Act DashboardW string :=
  let path := ExtractPath request in
  if decide (path = "/" ∨ path = "/index.html") then
    ServeFile "web/index.html" "text/html; charset=utf-8"
  else if decide (path = "/app.js") then
    ServeFile "web/app.js" "application/javascript; charset=utf-8"
  else if decide (path = "/style.css") then
    ServeFile "web/style.css" "text/css; charset=utf-8"
  else if decide (path = "/api/health") then
    now ← NowMs;
    mret (HttpResponse 200 "OK" "application/json; charset=utf-8" (health_body now))
  else if decide (path = "/api/status") then BuildStatusResponse
  else mret (not_found ("not found" +:+ newline)).

Definition dashboard_reply (response : string) : IO Socket unit :=
  http_write_all (String.length response) response.

(** [HandleClient] of a thread nobody interrupts. *)
Definition HandleClient : IO (Socket * DashboardW) unit :=
  request ← zoom fst (λ s' (w : Socket * DashboardW), (s', w.2)) ReadHttpRequest;
  response ← zoom snd (λ s' (w : Socket * DashboardW), (w.1, s')) (alone (HandleRequest request));
  ignore (zoom fst (λ s' (w : Socket * DashboardW), (s', w.2)) (dashboard_reply response)).

(** [DashboardServer::AcceptLoop], [Stop] and the threads of [HandleClient]: the
    runs of Threads with this [Start] and these handlers. *)
Definition dashboard_runs {G} (gateway : option G) :
    DashboardW → list (@event DashboardW string) → @process DashboardW string → Prop :=
  runs (λ k host port, Start k gateway host port) ReadHttpRequest HandleRequest dashboard_reply.

(** ** A thread on its own *)

(** The sections of [p] one after the other are [m] on the gateway. *)
Definition runs_as {A} (p : Act DashboardW A) (m : IO GatewayW A) : Prop :=
  ∀ clock d w, alone p (clock, (d, w)) = ((m w).1, (clock, (d, (m w).2))).

Lemma runs_as_bind {A B} (p : Act DashboardW A) (m : IO GatewayW A) (k : A → Act DashboardW B) n :
  runs_as p m → (∀ a, runs_as (k a) (n a)) → runs_as (p ≫= k) (m ≫= n).
Proof.
  intros Hp Hk clock d w. rewrite alone_bind. unfold mbind, M_bind. rewrite Hp.
  destruct (m w) as [[a|st|f] w']; cbn [fst snd]; [apply Hk | done | done].
Qed.

Lemma runs_as_gateway {A} (m : IO GatewayW A) : runs_as (on_gateway m) m.
Proof.
  intros clock d w. unfold on_gateway, on_disk. rewrite alone_atomic. unfold zoom. cbn [fst snd].
  by destruct (m w).
Qed.

Lemma runs_as_ret {A} (a : A) : runs_as (mret a) (mret a).
Proof. done. Qed.

Lemma next_request_id_alone name : runs_as (next_request_id name) (take_request_id name).
Proof. intros clock d [net g]. reflexivity. Qed.

Lemma CallPd_alone method fields : runs_as (CallPd_act method fields) (CallPd method fields).
Proof.
  apply runs_as_bind; [apply next_request_id_alone|]. intros id.
  apply runs_as_bind; [apply runs_as_gateway|]. intros g. apply runs_as_gateway.
Qed.

Lemma CallStore_alone method fields : runs_as (CallStore_act method fields) (CallStore method fields).
Proof.
  apply runs_as_bind; [apply next_request_id_alone|]. intros id.
  apply runs_as_bind; [apply runs_as_gateway|]. intros g. apply runs_as_gateway.
Qed.

(** A thread that runs alone collects what [GetStatus] collects. *)
Lemma GetStatus_alone : runs_as GetStatus_act GetStatus.
Proof.
  apply runs_as_bind; [apply runs_as_gateway|]. intros g.
  apply runs_as_bind; [apply CallPd_alone|]. intros r.
  destruct (RpcToStatus r), (DecodeFields (rs_payload r)); try apply runs_as_ret.
  apply runs_as_bind; [apply CallStore_alone|]. intros r'.
  destruct (RpcToStatus r'), (DecodeFields (rs_payload r')); apply runs_as_ret.
Qed.
End dashboard.

(** * Reading responses *)

(** The lines of the head up to the empty one, and what follows. *)
Fixpoint http_head (fuel : nat) (s : string) : option (list string * string) :=
  match fuel with
  | O => None
  | S fuel =>
      match split_at nl s with
      | None => None
      | Some (line, rest) =>
          if decide (line = String (Ascii.ascii_of_nat 13) "") then Some ([], rest)
          else match http_head fuel rest with
               | Some (lines, body) => Some (line :: lines, body)
               | None => None
               end
      end
  end.

Definition carriage (s : string) : string := s +:+ String (Ascii.ascii_of_nat 13) "".

(** The head a client reads from a response with this code and body. *)
Definition head_lines (status_code : N) (status_text content_type : string) (size : N) : list string :=
  [ carriage ("HTTP/1.1 " +:+ to_string status_code +:+ " " +:+ status_text);
    carriage ("Content-Type: " +:+ content_type);
    carriage ("Content-Length: " +:+ to_string size);
    carriage "Cache-Control: no-store"; carriage "Connection: close" ].

Lemma http_head_line fuel line rest :
  no_newline line = true → line ≠ "" →
  http_head (S fuel) (line +:+ crlf +:+ rest) =
  match http_head fuel rest with
  | Some (lines, body) => Some (carriage line :: lines, body)
  | None => None
  end.
Proof.
  intros Hl Hne. cbn [http_head].
  replace (line +:+ crlf +:+ rest) with (carriage line +:+ String nl rest)
    by (unfold carriage, crlf, newline; by snorm).
  rewrite split_at_app.
  - rewrite decide_False; [done|]. unfold carriage. destruct line as [|c [|? ?]]; [done|..];
      rewrite !sapp_cons; intros [=].
  - unfold carriage. rewrite str_all_app. by rewrite (Hl : str_all _ line = true).
Qed.

Lemma to_string_no_newline n : no_newline (to_string n) = true.
Proof.
  destruct (to_string_spec n) as (Hd & _). eapply str_all_mono; [|exact Hd]. intros c Hc.
  rewrite bool_decide_eq_false_2; [done|]. by intros ->.
Qed.

(** A response reads back: the head ends where the body starts, and announces
    the body's size. *)
Lemma HttpResponse_head code text content_type body :
  no_newline text = true → no_newline content_type = true →
  http_head 6 (HttpResponse code text content_type body) =
    Some (head_lines code text content_type (size_of body), body).
Proof.
  intros Ht Hc. unfold HttpResponse.
  replace ("HTTP/1.1 " +:+ to_string code +:+ " " +:+ text +:+ crlf +:+ "Content-Type: " +:+
    content_type +:+ crlf +:+ "Content-Length: " +:+ to_string (size_of body) +:+ crlf +:+
    "Cache-Control: no-store" +:+ crlf +:+ "Connection: close" +:+ crlf +:+ crlf +:+ body)
    with (("HTTP/1.1 " +:+ to_string code +:+ " " +:+ text) +:+ crlf +:+
      ("Content-Type: " +:+ content_type) +:+ crlf +:+
      ("Content-Length: " +:+ to_string (size_of body)) +:+ crlf +:+
      "Cache-Control: no-store" +:+ crlf +:+ "Connection: close" +:+ crlf +:+ crlf +:+ body)
    by (by rewrite !sapp_assoc).
  assert (∀ s, no_newline ("HTTP/1.1 " +:+ to_string code +:+ " " +:+ s) = no_newline s ∧
    no_newline ("Content-Type: " +:+ s) = no_newline s ∧
    no_newline ("Content-Length: " +:+ s) = no_newline s) as Hlit.
  { intros s. unfold no_newline. rewrite !str_all_app.
    by rewrite (to_string_no_newline code : str_all _ _ = true). }
  rewrite http_head_line; [|by rewrite (proj1 (Hlit _)) | done].
  rewrite http_head_line; [|by rewrite (proj1 (proj2 (Hlit _))) | done].
  rewrite http_head_line; [|rewrite (proj2 (proj2 (Hlit _))); apply to_string_no_newline | done].
  rewrite !http_head_line by done. done.
Qed.

(** * The dashboard of a running cluster *)

Section cluster.
Context `{!Transport World, !Clients}.

(** The fields a status request collects from the driver and the store. *)
Definition page_fields (meta : PdMetadataStore) (m : MultiRegionCluster) (cache : RouteCache) : FieldMap :=
  put_all
    (put_all (<["gateway.route_cache_size" := to_string (N.of_nat (size cache))]> (∅ : FieldMap))
       (copied "pd." (PdService.status_fields meta)))
    (copied "store." (StoreService.status_fields (over_multi (Some m)))).

Lemma pd_status_run pdw request :
  rq_method request = "pd.Status" →
  Handle pd_rpc_server request pdw =
    (Ok (MakeRpcOk request (EncodeFields (PdService.status_fields (metadata_ pdw.2)))), pdw).
Proof.
  intros Hm. rewrite (handle_run _ _ _ _ PdService.HandleStatus Hm) by reflexivity. by destruct pdw.
Qed.

Lemma store_status_run d m request :
  rq_method request = "store.Status" →
  Handle store_rpc_server request (over_regions d m) =
    (Ok (MakeRpcOk request (EncodeFields (StoreService.status_fields (over_multi (Some m))))),
     over_regions d m).
Proof.
  intros Hm. by rewrite (handle_run _ _ _ _ StoreService.HandleStatus Hm) by reflexivity.
Qed.

(** ** What every section leaves *)

Section reads.
Context (fs : gmap string string) (pdw : PdW) (d : Disk) (m : MultiRegionCluster) (cache : RouteCache).

Abbreviation ClusterW := (list Z * (Disk * (World * RpcGatewayClient World)))%type.

(** The files, the driver, the stores and the routes are as they were. *)
Definition untouched (w : ClusterW) : Prop :=
  ∃ clock faults i, w = (clock, (mkDisk fs faults, served pdw d m cache i)).

Lemma keeps_gateway {A} (Q : A → Prop) (f : IO (World * RpcGatewayClient World) A) :
  (∀ i, ∃ a i', f (served pdw d m cache i) = (Ok a, served pdw d m cache i') ∧ Q a) →
  keeps untouched Q (on_gateway f).
Proof.
  intros Hf. apply keeps_atomic. intros w (clock & faults & i & ->).
  destruct (Hf i) as (a & i' & Hrun & Ha). exists a, (clock, (mkDisk fs faults, served pdw d m cache i')).
  unfold zoom. cbn [fst snd]. rewrite Hrun. split_and!; [done | by exists clock, faults, i' | exact Ha].
Qed.

Lemma keeps_client (k : RpcGatewayClient World → Act ClusterW RpcResponse) (Q : RpcResponse → Prop) :
  (∀ i, keeps untouched Q (k (gateway cache i))) → keeps untouched Q (g ← on_gateway the_client; k g).
Proof.
  intros Hk. apply (keeps_then _ (λ g, ∃ i, g = gateway cache i)); [|by intros g [i ->]].
  apply keeps_gateway. intros i. exists (gateway cache i), i. split; [reflexivity | by exists i].
Qed.

Lemma keeps_request_id name : keeps untouched (λ _, True) (next_request_id name).
Proof.
  unfold next_request_id. apply (keeps_then _ (λ _, True)).
  - apply keeps_gateway. intros i. by exists i, i.
  - intros i _. apply (keeps_then _ (λ _, True)); [|done].
    apply keeps_gateway. intros j. by exists tt, (u64 (i + 1)).
Qed.

(** The driver and the store answer a status request from what they are. *)
Definition carries (fields : FieldMap) (response : RpcResponse) : Prop :=
  RpcToStatus response = Ok tt ∧ DecodeFields (rs_payload response) = Ok fields.

Lemma keeps_pd : keeps untouched (carries (PdService.status_fields (metadata_ pdw.2))) (CallPd_act "pd.Status" ∅).
Proof.
  apply (keeps_then _ (λ _, True)); [apply keeps_request_id|]. intros id _. apply keeps_client. intros j.
  apply keeps_gateway. intros i. do 2 eexists. split.
  - unfold through, served. cbn [gateway routed pd_client_].
    erewrite pd_client_ok; [reflexivity | by apply pd_status_run].
  - split; [done|]. cbn [MakeRpcOk rs_payload]. apply DecodeFields_encode.
Qed.

Lemma keeps_store :
  keeps untouched (carries (StoreService.status_fields (over_multi (Some m)))) (CallStore_act "store.Status" ∅).
Proof.
  apply (keeps_then _ (λ _, True)); [apply keeps_request_id|]. intros id _. apply keeps_client. intros j.
  apply keeps_gateway. intros i. do 2 eexists. split.
  - unfold through, served. cbn [gateway routed store_client_].
    erewrite store_client_ok; [reflexivity | by apply store_status_run].
  - split; [done|]. cbn [MakeRpcOk rs_payload]. apply DecodeFields_encode.
Qed.

Lemma keeps_GetStatus :
  keeps untouched (λ result, result = (Ok tt, page_fields (metadata_ pdw.2) m cache)) GetStatus_act.
Proof.
  apply (keeps_then _ (λ g, ∃ i, g = gateway cache i)).
  { apply keeps_gateway. intros i. exists (gateway cache i), i. split; [reflexivity | by exists i]. }
  intros g [i ->]. apply (keeps_then _ _ _ _ _ keeps_pd). intros r [-> ->].
  apply (keeps_then _ _ _ _ _ keeps_store). intros r' [-> ->]. reflexivity.
Qed.

Lemma keeps_NowMs : keeps untouched (λ _, True) NowMs.
Proof.
  apply keeps_atomic. intros w (clock & faults & i & ->). do 2 eexists.
  split_and!; [reflexivity | by exists (tail clock), faults, i | done].
Qed.

(** An answer to a request: it reads back as a response, and the status page is
    the status of the driver, the store and the routes, its text JSON exactly when
    no control character is in it. *)
Definition page_of (request response : string) : Prop :=
  ∃ code text content_type body,
    response = HttpResponse code text content_type body ∧
    http_head 6 response = Some (head_lines code text content_type (size_of body), body) ∧
    (ExtractPath request = "/api/status" → code = 200%N ∧
       let fields := page_fields (metadata_ pdw.2) m cache in
       ∃ cost now,
         body = BuildDashboardStatusJson fields true "" cost now ∧
         (read_json body = Some (status_document fields true "" cost now, "") ↔
          shown_status fields true "")).

Lemma page_of_other request code text content_type body :
  no_newline text = true → no_newline content_type = true → ExtractPath request ≠ "/api/status" →
  page_of request (HttpResponse code text content_type body).
Proof.
  intros Ht Hc Hne. exists code, text, content_type, body.
  split_and!; [done | by apply HttpResponse_head | done].
Qed.

Lemma keeps_ServeFile path content_type request :
  no_newline content_type = true → ExtractPath request ≠ "/api/status" →
  keeps untouched (page_of request) (ServeFile path content_type).
Proof.
  intros Hc Hne. apply keeps_atomic. intros w (clock & faults & i & ->).
  unfold zoom, io, mbind, M_bind, read_file, gets, not_found. cbn [fst snd io_faults files].
  destruct faults as [|[e|] faults]; cbn [files]; [destruct (fs !! path) | | destruct (fs !! path)];
    (do 2 eexists; split_and!;
     [reflexivity | by do 3 eexists | by apply page_of_other]).
Qed.

Lemma keeps_HandleRequest request : keeps untouched (page_of request) (HandleRequest request).
Proof.
  unfold HandleRequest.
  case_decide as H1; [apply keeps_ServeFile; [done | by destruct H1 as [-> | ->]]|].
  case_decide as H2; [apply keeps_ServeFile; [done | by rewrite H2]|].
  case_decide as H3; [apply keeps_ServeFile; [done | by rewrite H3]|].
  case_decide as H4.
  { apply (keeps_then _ _ _ _ _ keeps_NowMs). intros now _. apply page_of_other; [done..|]. by rewrite H4. }
  case_decide as H5; [|by apply page_of_other].
  apply (keeps_then _ _ _ _ _ keeps_NowMs). intros start _.
  apply (keeps_then _ _ _ _ _ keeps_GetStatus). intros result ->.
  apply (keeps_then _ _ _ _ _ keeps_NowMs). intros now _. cbn.
  do 4 eexists. split_and!; [reflexivity | by apply HttpResponse_head|]. intros _. split; [done|].
  exists (now - start)%Z, now. split; [done|]. apply status_reads.
Qed.
End reads.

(** C39: The dashboard answers every request and only reads. However the threads
    of its connections interleave, at every access to the client they share, every
    call through it and every reading of the clock or of a file, and whatever bytes
    the requests are: the files, the driver, the stores and the routes stay as they
    were, and every answer is an HTTP response whose head ends where its body starts
    and announces the body's size. [/api/status] is answered with 200 and the page of
    the status that the driver and the store report, which reads as JSON exactly when
    the status has no control character but line breaks and tabs. The cluster is one
    whose driver and store answer their clients and that nobody else writes to
    meanwhile; an access to a field of the client is one step. *)
Theorem dashboard_only_reads {G} (gateway : option G) clock fs faults pdw d m cache i tr st :
  dashboard_runs gateway (clock, (mkDisk fs faults, served pdw d m cache i)) tr st →
  (∃ clock' faults' i', shared_ st = (clock', (mkDisk fs faults', served pdw d m cache i'))) ∧
  (∀ j request response, Answered j request response ∈ tr → page_of pdw m cache request response).
Proof.
  intros Hruns. refine (runs_keep _ _ _ _ (untouched fs pdw d m cache) (page_of pdw m cache) _ _ _ _ _ Hruns).
  - intros request. apply keeps_HandleRequest.
  - by exists clock, faults, i.
Qed.
End cluster.

(** ** A visit *)

(** Two browsers ask for the status of the cluster of RpcSession's session, and
    another for a page that is not there. *)
Definition visit (path : string) : Socket :=
  mkSocket ("GET " +:+ path +:+ " HTTP/1.1" +:+ crlf +:+ crlf) "" [].

Definition visits : list turn :=
  [ CallsStart open_kernel "127.0.0.1" 9090; AcceptorTurn false 0; Connects (visit "/api/status");
    Connects (visit "/nowhere"); Connects (visit "/api/status"); AcceptorTurn false 0;
    AcceptorTurn false 1; AcceptorTurn false 1; AcceptorTurn false 2; AcceptorTurn false 2;
    ThreadTurn 0; ThreadTurn 1; ThreadTurn 2; ThreadTurn 1; ThreadTurn 1 ] ++
  flat_map (λ _, [ThreadTurn 0; ThreadTurn 2]) (seq 0 13).

Definition visited_state : list Z * (Disk * (World * RpcGatewayClient World)) :=
  ([5; 6; 7; 8]%Z, (mkDisk ∅ [], served demo_pd demo_multi.1 demo_multi.2 stale_cache 1)).

Definition visited :=
  run_of (λ k host port, Start k (Some tt) host port) ReadHttpRequest
    HandleRequest dashboard_reply visits visited_state.

Lemma visited_runs :
  dashboard_runs (Some tt) visited_state visited.1 visited.2.
Proof. exact (run_of_runs _ _ _ _ visits visited_state). Qed.

(** The ids of two interleaved requests for the status: each thread makes two
    calls, and the client counts two of the four. *)
Example request_ids_repeat :
  next_request_id_ (shared_ visited.2).2.2.2 = 3%N.
Proof. vm_compute. reflexivity. Qed.

Lemma dashboard_only_reads_witness :
  length visited.1 = 32 ∧
  (∃ clock' faults' i', shared_ visited.2 =
     (clock', (mkDisk ∅ faults', served demo_pd demo_multi.1 demo_multi.2 stale_cache i'))) ∧
  (∀ j request response, Answered j request response ∈ visited.1 →
     page_of demo_pd demo_multi.2 stale_cache request response).
Proof.
  split; [vm_compute; reflexivity|].
  exact (dashboard_only_reads (Some tt) _ _ _ _ _ _ _ _ _ _ visited_runs).
Defined.
