(* ===== verification/Processes.v ===== *)
(** The server program, src/main.cpp: command line and configuration, and what
    each of the three processes does until it waits forever. What the process
    does then is its RPC table, over the state it has built. *)

From S2P Require Import Prelude Types Text Logging Codec Service Engine Raft Cluster Multi Distributed.
From S2P Require Import StoreNode StoreService Pd PdService Gateway RpcGateway GatewayService Tcp Config StatusJson Dashboard.

(** * Logs and exits *)

(** [std::stoi] may throw. *)
Definition ParseEndpoint {E} (value : string) (fallback_port : Z) : result E Endpoint :=
  match split_at ":" value with
  | None => Ok (mkEndpoint (if decide (value = "") then "127.0.0.1" else value) fallback_port)
  | Some (host, rest) => port ← stoi rest; Ok (mkEndpoint host port)
  end.

Definition MakeDemoStore (client_port : Z) : StoreInfo :=
  mkStore 0 default_endpoint (mkEndpoint "127.0.0.1" client_port) "Up" ∅ 0.

(** [int] addition: an overflow is undefined. *)
Definition int_add {E} (a b : Z) : result E Z :=
  if decide (- two31 <= a + b < two31)%Z then Ok (a + b)%Z else Fault Undefined.

(** [static_cast<int>] of a size, and [static_cast<StoreId>] of an [int]. *)
Definition int_of_size (n : nat) : Z :=
  let z := (Z.of_nat n `mod` (2 * two31))%Z in
  if decide (z < two31)%Z then z else (z - 2 * two31)%Z.
Definition u64_of_int (z : Z) : N := Z.to_N (z `mod` Z.of_N two64).

(** What [pd.Status] told, as the two vectors. *)
Abbreviation Known := (list StoreInfo * list RegionInfo)%type.

(** [DecodePdStatus]: false leaves the vectors as they were; a count that is not
    a number throws. *)
Definition DecodePdStatus {E} (response : RpcResponse) (known : Known) : result E (bool * Known) :=
  if negb (rs_ok response) then Ok (false, known)
  else
    match DecodeFields (rs_payload response) with
    | Err _ => Ok (false, known)
    | Fault f => Fault f
    | Ok fields =>
        store_count ← field_u64 fields "store_count";
        let stores := (λ i, GetStoreFields fields (indexed "store" i)) <$> indices store_count in
        region_count ← field_u64 fields "region_count";
        let regions := (λ i, GetRegionFields fields (indexed "region" i)) <$> indices region_count in
        Ok (true, (stores, regions))
    end.

(** [bootstrap_fields], of the ids of the stores. *)
Definition bootstrap_fields (stores : list StoreInfo) : FieldMap :=
  put_all ∅ (("store_count", to_string (N.of_nat (length stores))) ::
             imap (λ i s, (indexed "store" (N.of_nat i), to_string (store_id s))) stores).

Section process.
Context {Net : Type} `{!Transport Net}.

(** A starting process: the network, the disk, and what it has logged. Its
    result is an exit code or what it has built. *)
Abbreviation ProcessW := ((Net * Disk) * list Line)%type.
Abbreviation Process := (M Z ProcessW).

Definition log (line : Line) : Process unit := modify (λ w : ProcessW, (w.1, w.2 ++ [line])).
Definition info (message : string) : Process unit := log (Logged "INFO" message).
Definition error (message : string) : Process unit := log (Logged "ERROR" message).

(** [if (!status.ok()) { RSTONE_LOG_ERROR(status.ToString()); return 1; }] *)
Definition or_exit {A} (m : IO (Net * Disk) A) : Process A := λ '(w, lines),
  match m w with
  | (Ok a, w') => (Ok a, (w', lines))
  | (Err st, w') => (Err 1%Z, (w', lines ++ [Logged "ERROR" (Status_ToString st)]))
  | (Fault f, w') => (Fault f, (w', lines))
  end.

(** A call on an object of this process, which is left changed. *)
Definition on_object {T A} (object : T) (m : IO (Disk * T) A) : IO (Net * Disk) (A * T) :=
  λ '(net, d),
  let '(r, (d', t')) := m (d, object) in
  (match r with Ok a => Ok (a, t') | Err st => Err st | Fault f => Fault f end, (net, d')).

(** * The demo *)

(** It always ends in an exit code. *)
Definition RunGatewayDemo {A} : Process A :=
  '(_, pd) ← or_exit (on_object new_pd
     (s1 ← RegisterStore (MakeDemoStore 8101);
      s2 ← RegisterStore (MakeDemoStore 8102);
      s3 ← RegisterStore (MakeDemoStore 8103);
      BootstrapDefaultRegion [store_id s1; store_id s2; store_id s3]));
  '(_, cluster) ← or_exit (on_object new_cluster
     (Cluster.Bootstrap "build/demo-cluster" 3 1 true));
  '(value, _) ← or_exit (on_object (gateway_over_cluster (Some pd) (Some cluster))
     (_ ← Gateway.Put "demo:user:1" "alice"; Gateway.Get "demo:user:1" kLinearizable));
  _ ← info ("gateway demo read demo:user:1=" +:+ value);
  fail (if decide (value = "alice") then 0%Z else 1%Z).

(** * The placement driver *)

(** What listens: the object behind the table, the table, and the bound port. *)
Definition RunPdService (kernel : Kernel) (config : Config) :
    Process (PdServer * RpcServer PdW * Z) :=
  '(_, pd) ← or_exit (on_object new_pd
     (Pd.Open (GetStringOr "pd.data_dir" "./data/pd1" config)));
  rpc_server ← or_exit (lift (PdService.RegisterHandlers (Some (mkServer ∅))));
  let host := GetStringOr "pd.host" "127.0.0.1" config in
  bound_port ← or_exit (lift (Tcp.Start kernel (Some rpc_server) host
                                (Config.GetIntOr "pd.client_port" 7000 config)));
  _ ← info ("PD TCP service listening on " +:+ host +:+ ":" +:+ to_string_Z bound_port);
  mret (pd, rpc_server, bound_port).

(** * Stores *)

(** Between two calls the other processes go on, which the network's state
    covers; sleeping does nothing else. *)
Definition CallRpc (client : Endpoint) (method : string) (fields : FieldMap)
    (request_id : string) : Process RpcResponse := λ '((net, d), lines),
  let '(response, net') :=
    tcp_call client
      (mkRequest request_id method "rstone-server" "remote" 3000 (EncodeFields fields) ∅) net in
  (Ok response, ((net', d), lines)).

Definition pd_endpoint (config : Config) : Process Endpoint :=
  lift (ParseEndpoint (GetStringOr "pd.endpoints" "127.0.0.1:7000" config) 7000).

(** The registered store, decoded from the driver's answer. *)
Definition decoded_store (response : RpcResponse) : Process StoreInfo :=
  fields ← or_exit (lift (DecodeFields (rs_payload response)));
  mret (GetStoreFields fields "").

Definition failed (what : string) (response : RpcResponse) {A} : Process A :=
  _ ← error (what +:+ rs_error_message response); fail 1%Z.

(** Calls until one is ok, [n] at most; the last response. *)
Fixpoint register_attempts (client : Endpoint) (fields : FieldMap) (name : string)
    (n : nat) (attempt : N) (last : RpcResponse) : Process RpcResponse :=
  match n with
  | O => mret last
  | S n =>
      response ← CallRpc client "pd.RegisterStore" fields (name +:+ to_string attempt);
      if rs_ok response then mret response
      else register_attempts client fields name n (attempt + 1) response
  end.

(** The loop that waits for the other stores and for the default region. *)
Fixpoint await_regions (client : Endpoint) (expected_store_count : Z) (n : nat) (attempt : N)
    (known : Known) : Process Known :=
  match n with
  | O => mret known
  | S n =>
      response ← CallRpc client "pd.Status" ∅ ("store-pd-status-" +:+ to_string attempt);
      '(decoded, known) ← lift (DecodePdStatus response known);
      if decoded && bool_decide (expected_store_count ≤ int_of_size (length known.1))%Z then
        if decide (known.2 = []) then
          response ← CallRpc client "pd.BootstrapDefaultRegion" (bootstrap_fields known.1)
                       "store-bootstrap-region";
          if negb (rs_ok response) then failed "failed to bootstrap default region: " response
          else await_regions client expected_store_count n (attempt + 1) known
        else mret known
      else await_regions client expected_store_count n (attempt + 1) known
  end.

(** What a store process listens with. *)
Abbreviation StoreListening := (StoreService * RpcServer (Net * (Disk * StoreService)) * Z)%type.

Definition serve_store (kernel : Kernel) (service : StoreService) (host : string) (port : Z) :
    Process StoreListening :=
  rpc_server ← or_exit (lift (StoreService.RegisterHandlers (Some (mkServer ∅))));
  bound_port ← or_exit (lift (Tcp.Start kernel (Some rpc_server) host port));
  _ ← info ("Store TCP service listening on " +:+ host +:+ ":" +:+ to_string_Z bound_port);
  mret (service, rpc_server, bound_port).

(** The store as the configuration describes it. *)
Definition local_store (config : Config) : StoreInfo :=
  let host := GetStringOr "store.host" "127.0.0.1" config in
  mkStore (u64_of_int (Config.GetIntOr "store.id" 0 config))
    (mkEndpoint host (Config.GetIntOr "store.raft_port" 7101 config))
    (mkEndpoint host (Config.GetIntOr "store.client_port" 8101 config)) "Up" ∅ 0.

(** [response] before the first call. *)
Definition no_response : RpcResponse := mkResponse "" true "" "" "" ∅.

Definition RunDistributedStoreService (kernel : Kernel) (config : Config) : Process StoreListening :=
  client ← pd_endpoint config;
  let store := local_store config in
  response ← register_attempts client (PutStoreFields ∅ store "")
               ("store-register-" +:+ to_string (store_id store) +:+ "-") 100 0 no_response;
  if negb (rs_ok response) then failed "failed to register store: " response
  else
    store ← decoded_store response;
    known ← await_regions client (Config.GetIntOr "cluster.store_count" 3 config) 200 0 ([], []);
    known ← (if decide (known.2 = []) then
               response ← CallRpc client "pd.Status" ∅ "store-pd-status-final";
               '(_, known) ← lift (DecodePdStatus response known);
               mret known
             else mret known);
    if decide (known.2 = []) then
      _ ← error "default region was not bootstrapped"; fail 1%Z
    else
      '(_, node) ← or_exit (on_object new_store_node
         (StoreNode.Bootstrap (GetStringOr "store.data_dir" "./data/store1" config)
            store known.1 known.2));
      serve_store kernel (over_store (Some node)) (host (client_endpoint store))
        (port (client_endpoint store)).

(** The three stores a process simulates, at consecutive ports. *)
Fixpoint register_stores (client : Endpoint) (config : Config) (offsets : list nat) :
    Process (list StoreInfo) :=
  match offsets with
  | [] => mret []
  | i :: rest =>
      client_port ← lift (int_add (Config.GetIntOr "store.client_port" 8101 config) (Z.of_nat i));
      let store := mkStore 0 default_endpoint
        (mkEndpoint (GetStringOr "store.host" "127.0.0.1" config) client_port) "Up" ∅ 0 in
      response ← CallRpc client "pd.RegisterStore" (PutStoreFields ∅ store "")
                   ("store-register-" +:+ to_string (N.of_nat i));
      if negb (rs_ok response) then failed "failed to register store: " response
      else
        store ← decoded_store response;
        stores ← register_stores client config rest;
        mret (store :: stores)
  end.

Definition default_region : RegionInfo := mkRegion 1 "" "" (mkEpoch 1 1) [] 0.

Definition RunStoreService (kernel : Kernel) (config : Config) : Process StoreListening :=
  if decide (GetStringOr "store.mode" "" config = "distributed") then
    RunDistributedStoreService kernel config
  else
    client ← pd_endpoint config;
    stores ← register_stores client config [0; 1; 2];
    response ← CallRpc client "pd.BootstrapDefaultRegion" (bootstrap_fields stores)
                 "store-bootstrap";
    if negb (rs_ok response) then failed "failed to bootstrap default region: " response
    else
      '(_, cluster) ← or_exit (on_object new_multi
         (Multi.Bootstrap (GetStringOr "store.data_dir" "./data/store1" config) 3
            [default_region] false));
      serve_store kernel (over_multi (Some cluster)) (GetStringOr "store.host" "127.0.0.1" config)
        (Config.GetIntOr "store.client_port" 8101 config).

(** * The gateway *)

Definition TcpRpcClient (endpoint : Endpoint) : RpcHandler Net := λ request net,
  let '(response, net') := tcp_call endpoint request net in (Ok response, net').

(** The gateway, its table and port, and the dashboard's port when it is on. *)
Abbreviation GatewayListening :=
  (RpcGatewayClient Net * RpcServer (Net * RpcGatewayClient Net) * Z * option Z)%type.

Definition RunGatewayService (kernel dashboard_kernel : Kernel) (config : Config) :
    Process GatewayListening :=
  pd ← pd_endpoint config;
  store ← lift (ParseEndpoint (GetStringOr "store.endpoint" "127.0.0.1:8101" config) 8101);
  let gateway := new_rpc_gateway (Some (TcpRpcClient pd)) (Some (TcpRpcClient store))
    (bool_decide (GetStringOr "gateway.store_routing" "" config = "dynamic")) in
  rpc_server ← or_exit (lift (GatewayService.RegisterHandlers (Some (mkServer ∅))));
  let host := GetStringOr "gateway.host" "127.0.0.1" config in
  bound_port ← or_exit (lift (Tcp.Start kernel (Some rpc_server) host
                                (Config.GetIntOr "gateway.http_port" 18080 config)));
  _ ← info ("Gateway TCP service listening on " +:+ host +:+ ":" +:+ to_string_Z bound_port);
  dashboard ← (if decide (GetStringOr "dashboard.enabled" "false" config = "true") then
      let host := GetStringOr "dashboard.host" "127.0.0.1" config in
      bound ← or_exit (lift (Dashboard.Start dashboard_kernel (Some gateway) host
                               (Config.GetIntOr "dashboard.port" 9090 config)));
      _ ← info ("Dashboard HTTP service listening on " +:+ host +:+ ":" +:+ to_string_Z bound);
      mret (Some bound)
    else mret None);
  mret (gateway, rpc_server, bound_port, dashboard).

(** * The program *)

Record Options := mkOptions {
  role_arg : string;
  config_path : string;
  demo : bool;
  serve : bool;
}.

Definition usage (program : string) : Line :=
  Plain ("Usage: " +:+ program +:+
         " --role <pd|gateway|store> --config <path> [--demo] [--serve]" +:+ newline).

(** The options, or an exit code and what is printed. *)
Fixpoint parse_args (program : string) (args : list string) (o : Options) :
    (Z * list Line) + Options :=
  match args with
  | [] => inr o
  | arg :: rest =>
      let other :=
        if decide (arg = "--demo") then
          parse_args program rest (mkOptions (role_arg o) (config_path o) true (serve o))
        else if decide (arg = "--serve") then
          parse_args program rest (mkOptions (role_arg o) (config_path o) (demo o) true)
        else if decide (arg = "--help" ∨ arg = "-h") then inl (0%Z, [usage program])
        else inl (2%Z, [Plain ("Unknown argument: " +:+ arg +:+ newline); usage program]) in
      match rest with
      | value :: rest =>
          if decide (arg = "--role") then
            parse_args program rest (mkOptions value (config_path o) (demo o) (serve o))
          else if decide (arg = "--config") then
            parse_args program rest (mkOptions (role_arg o) value (demo o) (serve o))
          else other
      | [] => other
      end
  end.

Inductive Running :=
  | RunsPd (pd : PdServer * RpcServer PdW * Z)
  | RunsGateway (gateway : GatewayListening)
  | RunsStore (store : StoreListening).

(** [main]: the process that waits forever, or the exit code. The kernels answer
    the RPC port and the dashboard's. *)
Definition main (kernel dashboard_kernel : Kernel) (program : string) (args : list string) :
    Process Running :=
  match parse_args program args (mkOptions "" "" false false) with
  | inl (code, lines) => _ ← modify (λ w : ProcessW, (w.1, w.2 ++ lines)); fail code
  | inr o =>
      if decide (config_path o = "") then _ ← log (usage program); fail 2%Z
      else
        '(_, config) ← or_exit (on_object (mkConfig ∅) (LoadFromFile (config_path o)));
        let role := if decide (role_arg o = "") then GetRole config else ParseRole (role_arg o) in
        if decide (role = kUnknown) then _ ← error "unknown or missing role"; fail 2%Z
        else
          _ ← info ("starting rstone-server role=" +:+ RoleName role +:+
                    " config=" +:+ config_path o);
          match role with
          | kPd =>
              _ ← info "PD service skeleton initialized";
              if serve o then listening ← RunPdService kernel config; mret (RunsPd listening)
              else fail 0%Z
          | kGateway =>
              _ ← info "Gateway service skeleton initialized";
              if demo o then RunGatewayDemo
              else if serve o then
                listening ← RunGatewayService kernel dashboard_kernel config;
                mret (RunsGateway listening)
              else fail 0%Z
          | kStore =>
              _ ← info "Store service skeleton initialized";
              if serve o then listening ← RunStoreService kernel config; mret (RunsStore listening)
              else fail 0%Z
          | kUnknown => fail 0%Z
          end
  end.
End process.
