(* ===== verification/Group.v ===== *)
(** A group of store processes as the network of one of them: each process of
    the group hosts a replica of one region and serves Raft messages through its
    RPC service, calling nobody while it does. The group keeps the contract of Replication.v, and a write
    succeeds as long as a majority answers. *)

From S2P Require Import Prelude Types Text Codec Service Engine Raft RaftStorage Keyspace RaftWire.
From S2P Require Import Distributed Tcp DistributedSpec NodeRestart Replication StoreNode StoreService.

(** * The processes *)

#[export] Instance Endpoint_countable : Countable Endpoint.
Proof.
  apply (inj_countable' (λ e, (host e, port e)) (λ '(h, p), mkEndpoint h p)). by intros [].
Defined.

(** The running processes by the endpoint they listen on. *)
Abbreviation Group := (gmap Endpoint (Disk * DistributedStoreNode)).

(** A call: nobody listening is a failed connection; a process that dies of the
    call sends no response and is gone. *)
#[export] Instance group_transport : Transport Group := λ endpoint request g,
  match g !! endpoint with
  | None => (ErrorResponse request (Internal "failed to connect"), g)
  | Some (d, s) =>
      match Handle store_rpc_server request (tt, (d, over_store (Some s))) with
      | (Ok response, (_, (d', service))) =>
          (response, <[endpoint := (d', default s (distributed_store_ service))]> g)
      | (_, (d', _)) =>
          (ErrorResponse request (Internal "connection closed"), delete endpoint g)
      end
  end.

(** * Messages over the wire *)

Lemma in_store {A} (m : IO StoreW A) d s (r : res A) d' s' :
  m (d, s) = (r, (d', s')) →
  on_store (Net := unit) (in_process m) (tt, (d, over_store (Some s))) =
    (r, (tt, (d', over_store (Some s')))).
Proof. intros Hm. unfold on_store, in_process, zoom. cbn. by rewrite Hm. Qed.

Lemma call_append ep rq r (g : Group) d s answer d' s' :
  rq_method rq = "store.RaftAppendEntries" →
  rq_payload rq = EncodeFields (PutAppendEntriesFields ∅ r) → append_request_ok r →
  g !! ep = Some (d, s) → StoreNode.HandleAppendEntries r (d, s) = (Ok answer, (d', s')) →
  tcp_call ep rq g =
    (MakeRpcOk rq (EncodeFields (PutAppendEntriesResponseFields ∅ answer)), <[ep := (d', s')]> g).
Proof.
  intros Hm Hp Hr Hg Hrun. unfold tcp_call, group_transport. rewrite Hg.
  rewrite (handle_run _ _ _ _ HandleRaftAppendEntries Hm) by reflexivity. unfold HandleRaftAppendEntries.
  rewrite (respond_run _ _ (EncodeFields (PutAppendEntriesResponseFields ∅ answer)) _
    (tt, (d', over_store (Some s')))); [done|]. unfold the_service. run. cbn [snd over_store is_distributed
    distributed_store_ distributed_node_ negb]. run_call ltac:(by apply payload_run).
  rewrite append_request_roundtrip by done. rewrite lift_ok_bind.
  unfold on_replica, the_service. run_call ltac:(cbn; by apply in_store). done.
Qed.

Lemma call_vote ep rq r (g : Group) d s answer d' s' :
  rq_method rq = "store.RaftRequestVote" →
  rq_payload rq = EncodeFields (PutRequestVoteFields ∅ r) → vote_request_ok r →
  g !! ep = Some (d, s) → StoreNode.HandleRequestVote r (d, s) = (Ok answer, (d', s')) →
  tcp_call ep rq g =
    (MakeRpcOk rq (EncodeFields (PutRequestVoteResponseFields ∅ answer)), <[ep := (d', s')]> g).
Proof.
  intros Hm Hp Hr Hg Hrun. unfold tcp_call, group_transport. rewrite Hg.
  rewrite (handle_run _ _ _ _ HandleRaftRequestVote Hm) by reflexivity. unfold HandleRaftRequestVote.
  rewrite (respond_run _ _ (EncodeFields (PutRequestVoteResponseFields ∅ answer)) _
    (tt, (d', over_store (Some s')))); [done|]. unfold the_service. run. cbn [snd over_store is_distributed
    distributed_store_ distributed_node_ negb]. run_call ltac:(by apply payload_run).
  rewrite vote_request_roundtrip by done. rewrite lift_ok_bind.
  unfold on_replica, the_service. run_call ltac:(cbn; by apply in_store). done.
Qed.

(** * The replica of a process *)

(** The directory a process keeps region [id] in. *)
Definition replica_dir (data_dir : string) (id : N) : string :=
  path_join data_dir ("region-" +:+ to_string id).

(** The process hosts one replica, in good order and on disk, of region [id]. *)
Definition hosts_replica (id : N) (d : Disk) (s : DistributedStoreNode) (raft : RaftNode) : Prop :=
  ∃ n, sn_regions s = {[id := n]} ∧ node_kept (replica_dir (sn_data_dir s) id) (d, n) raft ∧
    region_id_ raft = id.

Lemma hosts_replica_fun id d s raft id' raft' :
  hosts_replica id d s raft → hosts_replica id' d s raft' → id' = id ∧ raft' = raft.
Proof.
  intros (n & Hn & [[_ _ Hr _ _ _ _ _] _] & _) (n' & Hn' & [[_ _ Hr' _ _ _ _ _] _] & _).
  rewrite Hn in Hn'. cbn [snd] in *.
  assert (id = id' ∧ n = n') as [-> ->]; [|split; [done | congruence]].
  pose proof (f_equal (.!! id') Hn') as H. cbv beta in H. rewrite lookup_singleton_eq in H.
  apply lookup_singleton_Some in H. done.
Qed.

Lemma on_node_run {A} id (m : IO LocalW A) d s n (r : res A) d' n' :
  sn_regions s = {[id := n]} → m (d, n) = (r, (d', n')) →
  StoreNode.on_node id m (d, s) = (r, (d', set_nodes {[id := n']} s)).
Proof.
  intros Hs Hm. unfold StoreNode.on_node. rewrite Hs, lookup_singleton_eq, Hm.
  by rewrite insert_singleton_eq.
Qed.

(** A message for another region is answered no. *)
Lemma append_elsewhere id d s raft r :
  hosts_replica id d s raft → ae_region_id r ≠ id →
  StoreNode.HandleAppendEntries r (d, s) = (Ok (mkAppendResponse 0 false 0), (d, s)).
Proof.
  intros (n & Hn & _) Hne. unfold StoreNode.HandleAppendEntries, the_store. run. cbn [snd].
  unfold FindRegion. by rewrite Hn, lookup_singleton_ne by done.
Qed.

Lemma vote_elsewhere id d s raft r :
  hosts_replica id d s raft → rv_region_id r ≠ id →
  StoreNode.HandleRequestVote r (d, s) = (Ok (mkVoteResponse 0 false), (d, s)).
Proof.
  intros (n & Hn & _) Hne. unfold StoreNode.HandleRequestVote, the_store. run. cbn [snd].
  unfold FindRegion. by rewrite Hn, lookup_singleton_ne by done.
Qed.

(** What the Raft node becomes: the node hands out what it commits. *)
Definition settled (resp : AppendEntriesResponse) (raft : RaftNode) : RaftNode :=
  if ae_success resp then applied raft else raft.

Lemma append_at d s raft r :
  hosts_replica (ae_region_id r) d s raft → append_ok (ae_region_id r) r →
  ∃ resp raft1 d' s',
    StoreNode.HandleAppendEntries r (d, s) = (Ok resp, (d', s')) ∧
    append_outcome raft r resp raft1 ∧ hosts_replica (ae_region_id r) d' s' (settled resp raft1).
Proof.
  intros (n & Hn & [Hw _] & Hid) Hr. rewrite <-Hid in Hr.
  destruct (HandleAppendEntries_good _ d n raft r Hw Hr) as (resp & raft1 & d' & e' & Hq & Hrun & Hg).
  destruct (HandleAppendEntries_outcome raft r (ng_wf _ _ _ Hw) (proj1 Hr))
    as (resp2 & raft2 & Hq2 & Hout & _).
  rewrite Hq in Hq2. injection Hq2 as <- <-. fold (settled resp raft1) in Hrun, Hg.
  exists resp, raft1, d', (set_nodes {[ae_region_id r := with_parts e' (settled resp raft1) n]} s).
  split_and!; [|done|].
  - unfold StoreNode.HandleAppendEntries, the_store. run. cbn [snd]. replace (FindRegion _ s) with (Some n)
      by (unfold FindRegion; by rewrite Hn, lookup_singleton_eq).
    by eapply on_node_run.
  - eexists. split_and!; [done | by apply node_stored_kept |]. rewrite (ng_region _ _ _ (proj1 Hg)). cbn.
    by rewrite <-Hid, (ng_region _ _ _ Hw).
Qed.

Lemma vote_here d s raft r :
  hosts_replica (rv_region_id r) d s raft → vote_ok r →
  ∃ d' s', StoreNode.HandleRequestVote r (d, s) =
      (Ok (Raft.HandleRequestVote r raft).1, (d', s')) ∧
    hosts_replica (rv_region_id r) d' s' (Raft.HandleRequestVote r raft).2.
Proof.
  intros (n & Hn & [Hw _] & Hid) Hr.
  destruct (HandleRequestVote_good _ d n raft r Hw Hr) as (d' & e' & Hrun & Hg).
  exists d', (set_nodes {[rv_region_id r := with_parts e' (Raft.HandleRequestVote r raft).2 n]} s).
  split.
  - unfold StoreNode.HandleRequestVote, the_store. run. cbn [snd]. replace (FindRegion _ s) with (Some n)
      by (unfold FindRegion; by rewrite Hn, lookup_singleton_eq).
    by eapply on_node_run.
  - eexists. split_and!; [done | by apply node_stored_kept |].
    by pose proof (HandleRequestVote_fields r raft) as (_ & _ & _ & -> & _).
Qed.

(** * The log of a process *)

(** The log has an entry of this index and term. *)
Definition has_entry (log : list LogEntry) (e : LogEntry) : Prop :=
  ∃ x, log !! N.to_nat (e_index e - 1) = Some x ∧ e_index x = e_index e ∧ e_term x = e_term e.

Lemma has_entry_lookup g log i x e :
  log_from g 0 log → log !! i = Some x → e_index e = (N.of_nat i + 1)%N → e_term x = e_term e →
  has_entry log e.
Proof.
  intros Hl Hi He Ht. exists x. rewrite He.
  replace (N.to_nat (N.of_nat i + 1 - 1)) with i by lia. split_and!; [done| |done].
  apply Hl in Hi as [_ ->]. lia.
Qed.

Lemma merged_has g log p es k l e :
  log_from g 0 log → log_from g (N.of_nat p) es → p ≤ length log → merged log p es k l →
  e ∈ es → has_entry l e.
Proof.
  intros Hlog Hes Hp Hm (j & Hj)%list_elem_of_lookup.
  pose proof (merged_log_from g log p es k l Hlog Hes Hm) as Hl.
  apply Hes in Hj as Hix. destruct Hix as [_ Hix].
  destruct Hm as [Hmatch | k Hpk Hk Hlen Hmatch _].
  - destruct (Hmatch j e Hj) as (x & Hx & Ht). eapply has_entry_lookup; [done..| |done]. lia.
  - destruct (decide (j < k - p)) as [Hlt | Hge].
    + destruct (Hmatch j e) as (x & Hx & Ht); [by rewrite lookup_take_lt|].
      apply (has_entry_lookup g _ (p + j) x); [done| |lia|done].
      by rewrite lookup_app_l, lookup_take_lt by (rewrite ?length_take_le by done; lia).
    + apply (has_entry_lookup g _ (p + j) e); [done| |lia|done].
      rewrite lookup_app_r, length_take_le, lookup_drop by (rewrite ?length_take_le by done; lia).
      by replace (k - p + (p + j - k)) with j by lia.
Qed.

Lemma merged_prefix_has g log p es k l e :
  log_from g 0 log → p ≤ length log → merged log p es k l → has_entry log e →
  (e_index e <= N.of_nat p)%N → has_entry l e.
Proof.
  intros Hl Hp Hm (x & Hx & Hi & Ht) He. exists x. split; [|done].
  apply Hl in Hx as Hix. destruct Hix as [_ Hix].
  assert (N.to_nat (e_index e - 1) < p) as Hlt by lia.
  rewrite <-(lookup_take_lt l p), (merged_take _ _ _ _ _ Hp Hm), lookup_take_lt by done. done.
Qed.

(** * The group keeps the contract *)

(** Every process of the group hosts a replica in good order. *)
Definition group_ok (g : Group) : Prop :=
  map_Forall (λ _ w, ∃ id raft, hosts_replica id w.1 w.2 raft) g.

Definition group_has (g : Group) (ep : Endpoint) (id : N) (e : LogEntry) : Prop :=
  ∃ d s raft, g !! ep = Some (d, s) ∧ hosts_replica id d s raft ∧ has_entry (log_ raft) e.

(** A call either fails and changes nothing, or is answered by the replica. *)
Lemma append_call ep rq r (g : Group) response g' :
  group_ok g → rq_method rq = "store.RaftAppendEntries" →
  rq_payload rq = EncodeFields (PutAppendEntriesFields ∅ r) →
  append_request_ok r → append_ok (ae_region_id r) r →
  tcp_call ep rq g = (response, g') →
  (g' = g ∧ (rs_ok response = true → ∃ answer, ae_success answer = false ∧
     answer = mkAppendResponse 0 false 0 ∧
     rs_payload response = EncodeFields (PutAppendEntriesResponseFields ∅ answer))) ∨
  ∃ d s raft answer raft1 d' s',
    g !! ep = Some (d, s) ∧ hosts_replica (ae_region_id r) d s raft ∧
    append_outcome raft r answer raft1 ∧
    hosts_replica (ae_region_id r) d' s' (settled answer raft1) ∧ g' = <[ep := (d', s')]> g ∧
    response = MakeRpcOk rq (EncodeFields (PutAppendEntriesResponseFields ∅ answer)).
Proof.
  intros Hg Hm Hp Hrok Haok Hcall.
  destruct (g !! ep) as [[d s]|] eqn:Hep.
  - destruct (Hg ep (d, s) Hep) as (id & raft & Hh). cbn [fst snd] in Hh.
    destruct (decide (ae_region_id r = id)) as [<- | Hne].
    + right. destruct (append_at d s raft r Hh Haok) as (answer & raft1 & d' & s' & Hrun & Hout & Hh').
      rewrite (call_append ep rq r g d s answer d' s' Hm Hp Hrok Hep Hrun) in Hcall.
      apply pair_equal_spec in Hcall as [<- <-]. by exists d, s, raft, answer, raft1, d', s'.
    + left. pose proof (append_elsewhere id d s raft r Hh Hne) as Hrun.
      rewrite (call_append ep rq r g d s _ d s Hm Hp Hrok Hep Hrun) in Hcall.
      apply pair_equal_spec in Hcall as [<- <-]. split; [by apply insert_id|]. intros _. by exists (mkAppendResponse 0 false 0).
  - left. unfold tcp_call, group_transport in Hcall. rewrite Hep in Hcall.
    apply pair_equal_spec in Hcall as [<- <-]. by split; [|intros [=]].
Qed.

Lemma group_ok_insert (g : Group) ep d s id raft :
  group_ok g → hosts_replica id d s raft → group_ok (<[ep := (d, s)]> g).
Proof. intros Hg Hh. apply map_Forall_insert_2; [by exists id, raft | done]. Qed.

(** An entry stays when the replica it is in keeps it. *)
Lemma group_has_insert (g : Group) ep d s raft d' s' raft' id ep' id' e :
  g !! ep = Some (d, s) → hosts_replica id d s raft → hosts_replica id d' s' raft' →
  (id' = id → has_entry (log_ raft) e → has_entry (log_ raft') e) →
  group_has g ep' id' e → group_has (<[ep := (d', s')]> g) ep' id' e.
Proof.
  intros Hep Hh Hh' Hkeep (d0 & s0 & raft0 & Hep0 & Hh0 & He).
  destruct (decide (ep = ep')) as [<- | Hne].
  - rewrite Hep in Hep0. injection Hep0 as <- <-.
    destruct (hosts_replica_fun _ _ _ _ _ _ Hh0 Hh) as [<- <-].
    exists d', s', raft'. rewrite lookup_insert_eq. split_and!; [done..|by apply Hkeep].
  - exists d0, s0, raft0. by rewrite lookup_insert_ne.
Qed.

Lemma hosts_replica_wf id d s raft : hosts_replica id d s raft → wf raft ∧ region_id_ raft = id.
Proof. intros (n & _ & [Hw _] & Hid). split; [apply Hw | done]. Qed.

Lemma hosts_replica_fits id d s raft : hosts_replica id d s raft → raft_fits raft.
Proof. intros (n & _ & [Hw _] & _). apply Hw. Qed.

(** What the outcome of a request does to the log. *)
Lemma outcome_log raft r answer raft1 :
  append_outcome raft r answer raft1 →
  (ae_success answer = false ∧ log_ (settled answer raft1) = log_ raft) ∨
  (ae_success answer = true ∧ HasLogAt raft (ae_prev_log_index r) (ae_prev_log_term r) = true ∧
   ∃ k, merged (log_ raft) (N.to_nat (ae_prev_log_index r)) (ae_entries r) k
          (log_ (settled answer raft1))).
Proof.
  intros [Hlt | Hge Hhas | k l Hge Hhas Hm].
  - by left.
  - left. split; [done|]. by pose proof (accept_term_fields (ae_term r) raft Hge) as (Hl & _).
  - right. split; [done|]. split; [done|]. exists k. cbn. unfold follow_commit. by case_match.
Qed.

Lemma outcome_fits raft r answer raft1 :
  append_outcome raft r answer raft1 → (ae_term r < two64)%N → raft_fits raft →
  raft_fits (settled answer raft1) →
  (ae_resp_term answer < two64)%N ∧ (ae_match_index answer < two64)%N.
Proof.
  intros Hout Ht (Hterm & _ & _ & Hlen) (_ & _ & _ & Hlen').
  destruct Hout as [Hlt | Hge Hhas | k l Hge Hhas Hm]; cbn in *; [done..|].
  split; [done|]. unfold follow_commit in Hlen'. by case_match.
Qed.

(** The answer the caller decodes. *)
Lemma decoded_answer answer fields decoded :
  (ae_resp_term answer < two64)%N → (ae_match_index answer < two64)%N →
  DecodeFields (EncodeFields (PutAppendEntriesResponseFields ∅ answer)) = Ok fields →
  GetAppendEntriesResponseFields fields = Ok decoded → decoded = answer.
Proof.
  intros Ht Hm. rewrite DecodeFields_encode. intros [= <-].
  rewrite append_response_roundtrip by done. by intros [= <-].
Qed.

Lemma group_append_contract ep rq r (g : Group) response g' :
  group_ok g → rq_method rq = "store.RaftAppendEntries" →
  rq_payload rq = EncodeFields (PutAppendEntriesFields ∅ r) →
  append_request_ok r → append_ok (ae_region_id r) r →
  tcp_call ep rq g = (response, g') →
  group_ok g' ∧
  (∀ ep id e, group_has g ep id e →
     (e ∈ ae_entries r ∨ e_index e <= ae_prev_log_index r)%N → group_has g' ep id e) ∧
  (∀ fields answer, rs_ok response = true → DecodeFields (rs_payload response) = Ok fields →
     GetAppendEntriesResponseFields fields = Ok answer → ae_success answer = true →
     ∀ e, e ∈ ae_entries r ∨ (e_index e ≠ 0%N ∧ e_index e = ae_prev_log_index r ∧
                              e_term e = ae_prev_log_term r) →
          group_has g' ep (ae_region_id r) e).
Proof.
  intros Hg Hm Hp Hrok Haok Hcall.
  destruct (append_call ep rq r g response g' Hg Hm Hp Hrok Haok Hcall)
    as [[-> Hno] | (d & s & raft & answer & raft1 & d' & s' & Hep & Hh & Hout & Hh' & -> & ->)].
  { split_and!; [done | done |]. intros fields decoded Hok Hf Hd Hs.
    destruct (Hno Hok) as (answer & Hans & -> & Hpay). rewrite Hpay in Hf.
    rewrite (decoded_answer (mkAppendResponse 0 false 0) fields decoded eq_refl eq_refl Hf Hd) in Hs.
    discriminate Hs. }
  destruct (hosts_replica_wf _ _ _ _ Hh) as [[Hlog _ _] Hid].
  destruct Haok as (Hreq & _ & Ht & _). unfold request_ok in Hreq.
  destruct (outcome_fits _ _ _ _ Hout Ht (hosts_replica_fits _ _ _ _ Hh)
    (hosts_replica_fits _ _ _ _ Hh')) as [Ht' Hi'].
  rewrite Hid in Hlog. pose proof (outcome_log _ _ _ _ Hout) as Hcase.
  assert (HasLogAt raft (ae_prev_log_index r) (ae_prev_log_term r) = true →
    N.to_nat (ae_prev_log_index r) ≤ length (log_ raft)) as Hprev
    by (intros H%HasLogAt_length; lia).
  replace (ae_prev_log_index r) with (N.of_nat (N.to_nat (ae_prev_log_index r))) in Hreq by lia.
  split_and!.
  - by eapply group_ok_insert.
  - intros ep' id' e Hhas Hcover. eapply group_has_insert; [done.. | | done].
    intros _ He. destruct Hcase as [[_ ->] | (_ & Hhasat & k & Hmerged)]; [done|].
    destruct Hcover as [Hin | Hle].
    + eapply merged_has; [exact Hlog | exact Hreq | auto | exact Hmerged | done].
    + eapply merged_prefix_has; [exact Hlog | auto | exact Hmerged | done | lia].
  - intros fields decoded _ Hf Hd Hs e Hcover. cbn [MakeRpcOk rs_payload] in Hf.
    rewrite (decoded_answer answer fields decoded Ht' Hi' Hf Hd) in Hs.
    destruct Hcase as [[? _] | (_ & Hhasat & k & Hmerged)]; [congruence|].
    exists d', s', (settled answer raft1). rewrite lookup_insert_eq. split_and!; [done..|].
    destruct Hcover as [Hin | (Hne & Hi & Hte)].
    + eapply merged_has; [exact Hlog | exact Hreq | auto | exact Hmerged | done].
    + eapply merged_prefix_has; [exact Hlog | auto | exact Hmerged | | lia].
      apply HasLogAt_spec in Hhasat as [[? _] | (_ & x & Hx & Hxt)]; [congruence|].
      rewrite <-Hi in Hx. eapply has_entry_lookup; [exact Hlog | exact Hx | lia | congruence].
Qed.

Lemma group_vote_contract ep rq r (g : Group) response g' :
  group_ok g → rq_method rq = "store.RaftRequestVote" →
  rq_payload rq = EncodeFields (PutRequestVoteFields ∅ r) →
  vote_request_ok r → vote_ok r → tcp_call ep rq g = (response, g') →
  group_ok g' ∧ (∀ ep id e, group_has g ep id e → group_has g' ep id e).
Proof.
  intros Hg Hm Hp Hrok Hvok Hcall.
  destruct (g !! ep) as [[d s]|] eqn:Hep.
  - destruct (Hg ep (d, s) Hep) as (id & raft & Hh). cbn [fst snd] in Hh.
    destruct (decide (rv_region_id r = id)) as [<- | Hne].
    + destruct (vote_here d s raft r Hh Hvok) as (d' & s' & Hrun & Hh').
      rewrite (call_vote ep rq r g d s _ d' s' Hm Hp Hrok Hep Hrun) in Hcall.
      apply pair_equal_spec in Hcall as [_ <-]. split; [by eapply group_ok_insert|].
      intros ep' id' e. eapply group_has_insert; [done..|]. intros _.
      by pose proof (HandleRequestVote_fields r raft) as (-> & _).
    + pose proof (vote_elsewhere id d s raft r Hh Hne) as Hrun.
      rewrite (call_vote ep rq r g d s _ d s Hm Hp Hrok Hep Hrun) in Hcall.
      apply pair_equal_spec in Hcall as [_ <-]. rewrite (insert_id g ep (d, s) Hep).
      split; [exact Hg | intros ? ? ? H; exact H].
  - unfold tcp_call, group_transport in Hcall. rewrite Hep in Hcall.
    apply pair_equal_spec in Hcall as [_ <-]. split; [exact Hg | intros ? ? ? H; exact H].
Qed.

#[export] Instance group_contract : ReplicaContract Group := {
  replicas_ok := group_ok;
  replica_has := group_has;
  contract_append g ep rq r response g' Hg Hm Hp Hrok Haok Hcall :=
    group_append_contract ep rq r g response g' Hg Hm Hp Hrok Haok Hcall;
  contract_vote g ep rq r response g' Hg Hm Hp Hrok Hvok Hcall :=
    group_vote_contract ep rq r g response g' Hg Hm Hp Hrok Hvok Hcall;
}.

(** ** A group of three *)

(** A replica started on an empty disk. *)
Definition test_replica (i : N) : LocalW :=
  (Distributed.Bootstrap "data" (test_store i) test_stores test_region (mkDisk ∅ [], new_node)).2.
Definition test_process (i : N) : Disk * DistributedStoreNode :=
  let '(d, n) := test_replica i in
  (d, mkStoreNode (test_store i) test_stores "data" {[region_id test_region := n]}).

(** The leader runs in store 1; store 2 listens, store 3 does not. *)
Definition test_group : Group := {[client_endpoint (test_store 2) := test_process 2]}.

Lemma test_replica_good i p :
  local_peer_of (test_store i) test_region = Some p →
  ∃ d e, test_replica i = (d, booted (test_store i) test_stores test_region p e (fresh_raft p test_region)) ∧
    node_good (node_dir "data" test_region)
      (d, booted (test_store i) test_stores test_region p e (fresh_raft p test_region))
      (fresh_raft p test_region) ∧ data_ e = ∅.
Proof.
  intros Hp. destruct (Bootstrap_fresh "data" (test_store i) test_stores test_region p (mkDisk ∅ []))
    as (d & e & Hrun & Hgood); [done | done | done |].
  exists d, e. unfold test_replica. by rewrite Hrun.
Qed.

Lemma test_process_good i p :
  local_peer_of (test_store i) test_region = Some p →
  hosts_replica 5 (test_process i).1 (test_process i).2 (fresh_raft p test_region).
Proof.
  intros (d & e & Hr & Hgood & He)%test_replica_good. unfold test_process. rewrite Hr.
  eexists. split_and!; [done | split; [exact Hgood | by right] | done].
Qed.

Lemma test_group_ok : group_ok test_group.
Proof.
  apply map_Forall_singleton. exists 5%N, (fresh_raft (mkPeer 12 2 kVoter) test_region).
  by apply test_process_good.
Qed.

Lemma test_leader_good :
  replica_node (node_dir "data" test_region) (test_replica 1)
    (fresh_raft (mkPeer 11 1 kVoter) test_region).
Proof.
  destruct (test_replica_good 1 (mkPeer 11 1 kVoter)) as (d & e & -> & Hgood & _); [done|].
  by split; cbn [snd booted].
Qed.

Definition test_command : string := EncodePutCommand "k" "v".

Lemma test_write_acknowledged :
  (ProposeAndReplicate test_command (test_group, test_replica 1)).1 = Ok tt.
Proof. vm_compute. reflexivity. Qed.

Lemma acknowledged_write_on_majority_witness :
  ∃ g' w' raft' e qs,
    ProposeAndReplicate test_command (test_group, test_replica 1) = (Ok tt, (g', w')) ∧
    node_stored (node_dir "data" test_region) w' raft' ∧ log_ raft' = [e] ∧
    e_command e = test_command ∧ Forall (holder g' (test_replica 1).2 e) qs ∧ length qs ≠ 0.
Proof.
  pose proof test_leader_good as Hn. pose proof test_write_acknowledged as Hok.
  destruct (ProposeAndReplicate test_command (test_group, test_replica 1)) as [r [g' w']] eqn:Hrun.
  cbn [fst] in Hok. subst r. destruct (test_replica 1) as [d n] eqn:Hr.
  destruct (acknowledged_write_on_majority (node_dir "data" test_region) test_command test_group
    d n (fresh_raft (mkPeer 11 1 kVoter) test_region) g' w')
    as (raft' & e & qs & Hst & Hlog & Hcmd & _ & _ & _ & Hmaj & Hqs).
  - exact Hn.
  - exact test_group_ok.
  - reflexivity.
  - apply put_command_ok; [discriminate | reflexivity].
  - discriminate.
  - exact Hrun.
  - exists g', w', raft', e, qs. split_and!; [reflexivity | exact Hst | exact Hlog | exact Hcmd | exact Hqs |].
    destruct (test_replica_good 1 (mkPeer 11 1 kVoter)) as (d1 & e1 & Hr1 & _); [reflexivity|].
    rewrite Hr in Hr1. apply pair_equal_spec in Hr1 as [_ ->].
    change (length (peers _)) with 3 in Hmaj. lia.
Defined.
