(* ===== verification/Liveness.v ===== *)
(** Writes succeed while a majority answers: the leading replica of a group of
    processes (Group.v), some of them down and the others possibly behind, gets
    every write acknowledged, applied and readable. *)

From S2P Require Import Prelude Types Text Codec Service Engine Raft RaftStorage Keyspace RaftWire.
From S2P Require Import Distributed Tcp DistributedSpec NodeRestart Replication StoreNode StoreService Group.

(** * Followers *)

(** A process that hosts the region's replica, its log being the start of the
    leader's and its term not above the leader's. *)
Definition follows (id : N) (log : list LogEntry) (term : N) (w : Disk * DistributedStoreNode) : Prop :=
  ∃ raft, hosts_replica id w.1 w.2 raft ∧ log_ raft `prefix_of` log ∧ (current_term_ raft <= term)%N.

Definition followers (id : N) (log : list LogEntry) (term : N) (g : Group) : Prop :=
  map_Forall (λ _ w, follows id log term w) g.

Lemma followers_ok id log term g : followers id log term g → group_ok g.
Proof. intros Hg ep w Hw. destruct (Hg ep w Hw) as (raft & Hh & _). by exists id, raft. Qed.

Lemma followers_mono id log log' term term' g :
  followers id log term g → log `prefix_of` log' → (term <= term')%N → followers id log' term' g.
Proof.
  intros Hg Hl Ht ep w Hw. destruct (Hg ep w Hw) as (raft & Hh & Hp & Hr).
  exists raft. split_and!; [done | by etrans | lia].
Qed.

(** ** Merging the leader's suffix *)

Lemma merged_prefix F L p k l :
  F `prefix_of` L → p ≤ length F → merged F p (drop p L) k l → l = L.
Proof.
  intros HF Hp Hm. destruct Hm as [Hmatch | k Hpk Hk Hlen Hmatch Hconf].
  - apply prefix_length_eq; [done|].
    destruct (decide (length L ≤ p)) as [|Hlt]; [lia|].
    destruct (lookup_lt_is_Some_2 (drop p L) (length L - p - 1)) as [x Hx]; [rewrite length_drop; lia|].
    destruct (Hmatch _ _ Hx) as (y & Hy & _). apply lookup_lt_Some in Hy. lia.
  - rewrite length_drop in Hk. rewrite drop_drop.
    replace (p + (k - p)) with k by lia.
    assert (k = length F) as ->.
    { destruct (decide (k < length F)) as [Hlt|]; [|lia].
      destruct (lookup_lt_is_Some_2 F k Hlt) as [x Hx]. exfalso.
      apply (Hconf x x Hx); [|done]. rewrite lookup_drop.
      replace (p + (k - p)) with k by lia. by eapply prefix_lookup_Some. }
    rewrite firstn_all. destruct HF as [rest ->]. by rewrite drop_app_length.
Qed.

(** A request a leader with log [L] builds for the suffix from [prev + 1] on. *)
Definition suffix_request (L : list LogEntry) (r : AppendEntriesRequest) : Prop :=
  ae_entries r = drop (N.to_nat (ae_prev_log_index r)) L ∧
  ((ae_prev_log_index r = 0 ∧ ae_prev_log_term r = 0)%N ∨
   (ae_prev_log_index r ≠ 0%N ∧ ∃ x, L !! N.to_nat (ae_prev_log_index r - 1) = Some x ∧
      e_term x = ae_prev_log_term r)).

(** A follower that has the entry before the suffix takes the log over; one that
    is behind says how long its log is. *)
Lemma outcome_follower raft L r answer raft1 :
  append_outcome raft r answer raft1 → log_ raft `prefix_of` L → suffix_request L r →
  (current_term_ raft <= ae_term r)%N →
  (current_term_ (settled answer raft1) <= ae_term r)%N ∧
  ((ae_success answer = true ∧ log_ (settled answer raft1) = L) ∨
   (ae_success answer = false ∧ log_ (settled answer raft1) = log_ raft ∧
    ae_match_index answer = N.of_nat (length (log_ raft)) ∧
    (N.of_nat (length (log_ raft)) < ae_prev_log_index r)%N)).
Proof.
  intros Hout HF (Hes & Hprev) Ht.
  pose proof (accept_term_fields (ae_term r) raft Ht) as (Hl & _ & _ & _ & Hterm & _).
  destruct Hout as [Hlt | Hge Hno | k l Hge Hhas Hm]; [lia| |].
  - split; [cbn; lia|]. right. split_and!; [done | done | done |].
    destruct (N.lt_ge_cases (N.of_nat (length (log_ raft))) (ae_prev_log_index r)) as [|Hle]; [done|].
    exfalso. assert (HasLogAt raft (ae_prev_log_index r) (ae_prev_log_term r) = true); [|congruence].
    apply HasLogAt_spec. destruct Hprev as [|(Hne & x & Hx & Hxt)]; [by left|]. right. split; [done|].
    exists x. split; [|done]. destruct HF as [rest HF]. rewrite HF in Hx.
    rewrite lookup_app_l in Hx by lia. done.
  - destruct (accepted_fields (ae_leader_commit r) k l (ae_term r) raft Hge) as (Hl1 & _ & Ht1 & _).
    split; [cbn; lia|]. left. split; [done|]. cbn. rewrite Hl1.
    rewrite Hes in Hm. apply HasLogAt_length in Hhas. eapply merged_prefix; [done| |done]. lia.
Qed.

(** * Replication to a follower *)

Lemma append_request_suffix dir d n raft next commit :
  replica_node dir (d, n) raft → (next <= N.of_nat (length (log_ raft)) + 1)%N →
  ∃ r, append_request n raft next commit = Ok r ∧ ae_term r = current_term_ raft ∧
    suffix_request (log_ raft) r ∧ ae_prev_log_index r = (next - 1)%N.
Proof.
  intros Hn Hnext. pose proof (rn_good _ _ _ Hn) as [_ _ _ Hreg [Hlog _ _] _ _ _].
  cbn [fst snd] in *. unfold append_request.
  remember (if (next =? 0)%N then 0%N else (next - 1)%N) as prev eqn:Hprev.
  assert (prev = next - 1)%N as -> by (subst prev; destruct (N.eqb_spec next 0); lia). clear Hprev.
  rewrite Hreg in Hlog. rewrite (filter_from _ 0 next) by exact Hlog. rewrite N.sub_0_r.
  destruct (N.eqb_spec (next - 1) 0) as [H0 | H0]; cbn [mbind result_bind].
  - eexists. split_and!; [reflexivity | done | | done]. rewrite H0. split; [done | by left].
  - destruct (lookup_lt_is_Some_2 (log_ raft) (N.to_nat (next - 1 - 1))) as [x Hx]; [lia|].
    rewrite Hx. cbn [mbind result_bind].
    eexists. split_and!; [reflexivity | done | | done]. split; [done|]. right.
    split; [done|]. by exists x.
Qed.

(** One attempt at a follower succeeds, or teaches the leader where to go on. *)
Lemma replicate_step dir k store next commit (g : Group) d n raft d1 s1 F :
  replica_node dir (d, n) raft → (commit < two64)%N →
  (next <= N.of_nat (length (log_ raft)) + 1)%N →
  g !! client_endpoint store = Some (d1, s1) →
  hosts_replica (region_id (dn_region n)) d1 s1 F → log_ F `prefix_of` log_ raft →
  (current_term_ F <= current_term_ raft)%N →
  ∃ w1 F' i, hosts_replica (region_id (dn_region n)) w1.1 w1.2 F' ∧
    (current_term_ F' <= current_term_ raft)%N ∧
    let w' := (<[client_endpoint store := w1]> g, (d, with_request_id i n)) in
    (log_ F' = log_ raft ∧ replicate (S k) store next commit (g, (d, n)) = (Ok true, w') ∨
     log_ F' = log_ F ∧ (N.of_nat (length (log_ F)) < next - 1)%N ∧
     replicate (S k) store next commit (g, (d, n)) =
       replicate k store (if (N.of_nat (length (log_ F)) =? 0)%N then 1%N
                          else N.of_nat (length (log_ F))) commit w').
Proof.
  intros Hn Hc Hnext Hep Hh HF Ht.
  destruct (append_request_suffix dir d n raft next commit Hn Hnext) as (r & Hreq & Hrt & Hsuf & Hprev).
  destruct (append_request_shape dir d n raft next commit r Hn Hc Hreq) as (Hrok & Haok & Hrid & _).
  rewrite <-Hrid in Hh. rewrite <-Hrt in Ht.
  destruct (append_at d1 s1 F r Hh Haok) as (answer & F1 & d2 & s2 & Hrun & Hout & Hh2).
  destruct (outcome_follower F _ r answer F1 Hout HF Hsuf Ht) as [Ht2 Hcase].
  destruct (outcome_fits _ _ _ _ Hout (proj1 (proj2 (proj2 Haok))) (hosts_replica_fits _ _ _ _ Hh)
    (hosts_replica_fits _ _ _ _ Hh2)) as [Hb1 Hb2].
  exists (d2, s2), (settled answer F1), (u64 (dn_next_request_id n + 1)).
  rewrite <-Hrid, <-Hrt. split_and!; [done | done |]. cbv zeta.
  destruct (CallStore_run store "store.RaftAppendEntries" (PutAppendEntriesFields ∅ r) g d n)
    as (response & g1 & Hcs & rq & Hm & Hp & Hcall).
  rewrite (call_append _ rq r g d1 s1 answer d2 s2 Hm Hp Hrok Hep Hrun) in Hcall.
  apply pair_equal_spec in Hcall as [<- <-].
  assert (∀ x, (if ae_success answer then mret true
     else replicate k store (if (ae_match_index answer =? 0)%N then 1%N
            else ae_match_index answer) commit)
       (<[client_endpoint store:=(d2, s2)]> g, (d, with_request_id (u64 (dn_next_request_id n + 1)) n)) = x →
     replicate (S k) store next commit (g, (d, n)) = x) as Hstep.
  { intros x Hx. cbn [replicate]. rewrite local_node_bind, (local_raft_bind _ _ _ _ raft)
      by by eapply replica_raft.
    rewrite Hreq, lift_ok_bind. run_call ltac:(exact Hcs). cbn [MakeRpcOk rs_ok rs_payload negb].
    rewrite DecodeFields_encode, lift_ok_bind, append_response_roundtrip, lift_ok_bind by done.
    exact Hx. }
  destruct Hcase as [[Hs Hl] | (Hs & Hl & Hmi & Hlt)]; rewrite Hs in Hstep; [left | right].
  - split; [done|]. by apply Hstep.
  - split_and!; [done | by rewrite <-Hprev |]. rewrite <-Hmi. by apply Hstep.
Qed.

Lemma ReplicateToStore_live dir store next commit (g : Group) d n raft w0 :
  replica_node dir (d, n) raft → (commit < two64)%N →
  (next <= N.of_nat (length (log_ raft)) + 1)%N →
  g !! client_endpoint store = Some w0 →
  follows (region_id (dn_region n)) (log_ raft) (current_term_ raft) w0 →
  ∃ w1 i, follows (region_id (dn_region n)) (log_ raft) (current_term_ raft) w1 ∧
    ReplicateToStore store next commit (g, (d, n)) =
      (Ok true, (<[client_endpoint store := w1]> g, (d, with_request_id i n))).
Proof.
  intros Hn Hc Hnext Hep (F & Hh & HF & Ht). destruct w0 as [d1 s1].
  unfold ReplicateToStore. rewrite local_node_bind, (replica_raft _ _ _ _ Hn).
  destruct (replicate_step dir 7 store next commit g d n raft d1 s1 F Hn Hc Hnext Hep Hh HF Ht)
    as ([d2 s2] & F2 & i & Hh2 & Ht2 & [[Hl2 Hrun] | (Hl2 & Hlt & Hrun)]).
  { exists (d2, s2), i. split; [|exact Hrun]. exists F2. by rewrite Hl2. }
  set (next2 := if (N.of_nat (length (log_ F)) =? 0)%N then _ else _) in Hrun.
  assert (next2 <= N.of_nat (length (log_ F)) + 1)%N as Hn2
    by (unfold next2; case_match; lia).
  apply prefix_length in HF as Hlen. rewrite <-Hl2 in HF.
  destruct (replicate_step dir 6 store next2 commit (<[client_endpoint store := (d2, s2)]> g) d
    (with_request_id i n) raft d2 s2 F2)
    as (w3 & F3 & j & Hh3 & Ht3 & [[Hl3 Hrun3] | (Hl3 & Hlt3 & _)]);
    [by apply replica_node_calls | done | lia | by rewrite lookup_insert_eq | done..| |].
  - exists w3, j. split; [exists F3; by rewrite Hl3|]. rewrite Hrun, Hrun3.
    by rewrite insert_insert_eq.
  - rewrite Hl2 in Hlt3. lia.
Qed.

(** * The loops over the peers *)

(** The store of another peer is up. *)
Definition answering (up : gset Endpoint) (n : DistributedRegionNode) (p : Peer) : bool :=
  negb (bool_decide (peer_id p = peer_id (dn_local_peer n))) &&
  match FindStoreByPeer (peer_id p) n with
  | None => false
  | Some s => bool_decide (client_endpoint s ∈ up)
  end.

Definition answers_of (up : gset Endpoint) (n : DistributedRegionNode) (ps : list Peer) : nat :=
  length (List.filter (answering up n) ps).

Lemma answers_of_cons up n p ps :
  answers_of up n (p :: ps) = (if answering up n p then 1 else 0) + answers_of up n ps.
Proof. unfold answers_of. cbn. by destruct (answering up n p). Qed.

Lemma answering_store up n p s :
  peer_id p ≠ peer_id (dn_local_peer n) → FindStoreByPeer (peer_id p) n = Some s →
  answering up n p = bool_decide (client_endpoint s ∈ up).
Proof. intros Hne Hs. unfold answering. by rewrite bool_decide_eq_false_2, Hs. Qed.

Lemma answering_no_store up n p :
  FindStoreByPeer (peer_id p) n = None → answering up n p = false.
Proof. intros Hs. unfold answering. rewrite Hs. by rewrite andb_false_r. Qed.

Lemma answering_self up n p :
  peer_id p = peer_id (dn_local_peer n) → answering up n p = false.
Proof. intros Hs. unfold answering. by rewrite bool_decide_eq_true_2. Qed.

(** The state of the group as the leader's loops keep it. *)
Record reachable (up : gset Endpoint) (id : N) (log : list LogEntry) (term : N) (g : Group) : Prop := {
  rc_up : dom g = up;
  rc_followers : followers id log term g;
}.

Lemma reachable_insert up id log term (g : Group) ep w :
  reachable up id log term g → is_Some (g !! ep) → follows id log term w →
  reachable up id log term (<[ep := w]> g).
Proof.
  intros [Hup Hf] Hep Hw. split.
  - rewrite dom_insert_lookup_L; [done | exact Hep].
  - by apply map_Forall_insert_2.
Qed.

(** Nobody listens there: no response that is ok, and nothing changes. *)
Lemma call_down ep rq (g : Group) :
  g !! ep = None → tcp_call ep rq g = (ErrorResponse rq (Internal "failed to connect"), g).
Proof. intros Hep. unfold tcp_call, group_transport. by rewrite Hep. Qed.

Lemma ReplicateToStore_down dir store next commit (g : Group) d n raft :
  replica_node dir (d, n) raft → (next <= N.of_nat (length (log_ raft)) + 1)%N →
  g !! client_endpoint store = None →
  ∃ i, ReplicateToStore store next commit (g, (d, n)) = (Ok false, (g, (d, with_request_id i n))).
Proof.
  intros Hn Hnext Hep. exists (u64 (dn_next_request_id n + 1)).
  unfold ReplicateToStore. rewrite local_node_bind, (replica_raft _ _ _ _ Hn).
  destruct (append_request_suffix dir d n raft next commit Hn Hnext) as (r & Hreq & _).
  destruct (CallStore_run store "store.RaftAppendEntries" (PutAppendEntriesFields ∅ r) g d n)
    as (response & g1 & Hcs & rq & Hm & Hp & Hcall).
  rewrite call_down in Hcall by done. apply pair_equal_spec in Hcall as [<- <-].
  cbn [replicate]. rewrite local_node_bind, (local_raft_bind _ _ _ _ raft)
    by by eapply replica_raft.
  rewrite Hreq, lift_ok_bind. by run_call ltac:(exact Hcs).
Qed.

(** A peer's store, up or down: replication says which. *)
Lemma ReplicateToStore_any dir up store next commit (g : Group) d n raft :
  replica_node dir (d, n) raft → (commit < two64)%N →
  (next <= N.of_nat (length (log_ raft)) + 1)%N →
  reachable up (region_id (dn_region n)) (log_ raft) (current_term_ raft) g →
  ∃ g' i, reachable up (region_id (dn_region n)) (log_ raft) (current_term_ raft) g' ∧
    ReplicateToStore store next commit (g, (d, n)) =
      (Ok (bool_decide (client_endpoint store ∈ up)), (g', (d, with_request_id i n))).
Proof.
  intros Hn Hc Hnext Hg. destruct (g !! client_endpoint store) as [w0|] eqn:Hep.
  - destruct (ReplicateToStore_live dir store next commit g d n raft w0 Hn Hc Hnext Hep)
      as (w1 & i & Hw1 & Hrun); [by apply (rc_followers _ _ _ _ _ Hg (client_endpoint store))|].
    exists (<[client_endpoint store := w1]> g), i. split; [by apply reachable_insert|].
    rewrite bool_decide_eq_true_2; [done|]. rewrite <-(rc_up _ _ _ _ _ Hg).
    by apply elem_of_dom_2 in Hep.
  - destruct (ReplicateToStore_down dir store next commit g d n raft Hn Hnext Hep) as (i & Hrun).
    exists g, i. split; [done|]. rewrite bool_decide_eq_false_2; [done|].
    rewrite <-(rc_up _ _ _ _ _ Hg). by apply not_elem_of_dom_2.
Qed.

Lemma replicate_all_live dir up ps index : ∀ k (g : Group) d n raft,
  replica_node dir (d, n) raft → (index <= N.of_nat (length (log_ raft)) + 1)%N →
  reachable up (region_id (dn_region n)) (log_ raft) (current_term_ raft) g →
  ∃ g' i, reachable up (region_id (dn_region n)) (log_ raft) (current_term_ raft) g' ∧
    replicate_all ps index k (g, (d, n)) =
      (Ok (k + answers_of up n ps), (g', (d, with_request_id i n))).
Proof.
  induction ps as [|p ps IH]; intros k g d n raft Hn Hidx Hg.
  { exists g, (dn_next_request_id n). split; [done|]. cbn. rewrite with_request_id_same.
    unfold answers_of. cbn. by rewrite Nat.add_0_r. }
  rewrite answers_of_cons. cbn [replicate_all]. rewrite local_node_bind.
  case_decide as Hself; [rewrite (answering_self up n p Hself); by apply (IH k g d n raft)|].
  destruct (FindStoreByPeer (peer_id p) n) as [s|] eqn:Hs;
    [|rewrite (answering_no_store up n p Hs); by apply (IH k g d n raft)].
  rewrite (answering_store up n p s Hself Hs).
  rewrite (local_raft_bind _ _ _ _ raft) by by eapply replica_raft.
  assert (commit_index_ raft < two64)%N as Hc.
  { pose proof (rn_good _ _ _ Hn) as [_ _ _ _ [_ ? _] _ _ (_ & _ & _ & ?)]. lia. }
  destruct (ReplicateToStore_any dir up s index (commit_index_ raft) g d n raft Hn Hc Hidx Hg)
    as (g1 & i & Hg1 & Hrun).
  destruct (IH (if bool_decide (client_endpoint s ∈ up) then S k else k) g1 d (with_request_id i n) raft)
    as (g2 & j & Hg2 & Hrun2); [by apply replica_node_calls | done | done |].
  exists g2, j. split; [done|]. run_call ltac:(exact Hrun). rewrite Hrun2. cbn.
  change (answers_of up (with_request_id i n) ps) with (answers_of up n ps).
  do 2 f_equal. case_bool_decide; lia.
Qed.

Lemma broadcast_live dir up ps commit : ∀ (g : Group) d n raft,
  replica_node dir (d, n) raft → (commit < two64)%N →
  reachable up (region_id (dn_region n)) (log_ raft) (current_term_ raft) g →
  ∃ g' i, reachable up (region_id (dn_region n)) (log_ raft) (current_term_ raft) g' ∧
    broadcast ps commit (g, (d, n)) = (Ok tt, (g', (d, with_request_id i n))).
Proof.
  induction ps as [|p ps IH]; intros g d n raft Hn Hc Hg.
  { exists g, (dn_next_request_id n). split; [done|]. cbn. by rewrite with_request_id_same. }
  cbn [broadcast]. rewrite local_node_bind. case_decide; [by apply (IH g d n raft)|].
  destruct (FindStoreByPeer (peer_id p) n) as [s|]; [|by apply (IH g d n raft)].
  rewrite (local_raft_bind _ _ _ _ raft) by by eapply replica_raft.
  pose proof (rn_good _ _ _ Hn) as [_ _ _ _ Hwf _ _ _].
  assert (u64 (last_log_index raft + 1) <= N.of_nat (length (log_ raft)) + 1)%N as Hnext.
  { rewrite wf_last_index by done. apply N.Div0.mod_le. }
  destruct (ReplicateToStore_any dir up s _ commit g d n raft Hn Hc Hnext Hg) as (g1 & i & Hg1 & Hrun).
  destruct (IH g1 d (with_request_id i n) raft) as (g2 & j & Hg2 & Hrun2);
    [by apply replica_node_calls | done | done |].
  exists g2, j. split; [done|]. unfold mbind at 1, M_bind at 1, ignore. rewrite Hrun. exact Hrun2.
Qed.

(** * Election *)

(** Terms grow along the log, and the node's term is not below them. *)
Definition terms_ordered (raft : RaftNode) : Prop :=
  Forall (λ e, e_term e <= last_log_term raft)%N (log_ raft) ∧
  (last_log_term raft <= current_term_ raft)%N.

Lemma last_log_term_prefix F L :
  log_ F `prefix_of` log_ L → terms_ordered L → (last_log_term F <= last_log_term L)%N.
Proof.
  intros HF [Hall _]. rewrite list.Forall_forall in Hall. unfold last_log_term at 1.
  destruct (last (log_ F)) as [x|] eqn:Hx; [|lia]. apply Hall.
  apply last_Some_elem_of in Hx. destruct HF as [rest ->]. apply elem_of_app. by left.
Qed.

(** A follower that has not voted in the term of the request, or has voted for
    this candidate. *)
Definition may_vote (r : RequestVoteRequest) (F : RaftNode) : Prop :=
  (current_term_ F < rv_term r)%N ∨
  current_term_ F = rv_term r ∧ voted_for_ F = Some (rv_candidate_id r).

(** It votes for the candidate when its log is the start of the candidate's. *)
Lemma vote_granted F L r :
  wf F → wf L → log_ F `prefix_of` log_ L → terms_ordered L → may_vote r F →
  rv_last_log_index r = last_log_index L → rv_last_log_term r = last_log_term L →
  (Raft.HandleRequestVote r F).1 = mkVoteResponse (rv_term r) true ∧
  may_vote r (Raft.HandleRequestVote r F).2.
Proof.
  intros HwF HwL HF Hord Hmay Hi Hlt.
  set (F1 := if (current_term_ F <? rv_term r)%N then BecomeFollower (rv_term r) F else F).
  assert (log_ F1 = log_ F ∧ current_term_ F1 = rv_term r ∧
    (voted_for_ F1 = None ∨ voted_for_ F1 = Some (rv_candidate_id r))) as (Hl & Ht & Hv).
  { destruct (BecomeFollower_fields (rv_term r) F) as (Hl & _). unfold F1.
    destruct (N.ltb_spec (current_term_ F) (rv_term r)) as [Hlt' | Hge].
    - split; [done|]. unfold BecomeFollower. cbn.
      destruct (N.ltb_spec (current_term_ F) (rv_term r)); [by split; [|left] | lia].
    - destruct Hmay as [|[? ?]]; [lia|]. by split_and!; [| |right]. }
  assert (IsCandidateLogUpToDate F1 (rv_last_log_index r) (rv_last_log_term r) = true) as Hup.
  { apply up_to_date_spec. unfold last_log_term at 1 2, last_log_index at 1. rewrite Hl.
    fold (last_log_term F) (last_log_index F). rewrite Hi, Hlt, !wf_last_index by done.
    pose proof (last_log_term_prefix F L HF Hord). apply prefix_length in HF. lia. }
  assert ((rv_term r <? current_term_ F)%N = false) as Hnew
    by (apply N.ltb_ge; destruct Hmay as [|[]]; lia).
  unfold Raft.HandleRequestVote. rewrite Hnew. fold F1. rewrite Hup, andb_true_r.
  assert (match voted_for_ F1 with None => true | Some c => (c =? rv_candidate_id r)%N end = true) as ->
    by (destruct Hv as [-> | ->]; [done | apply N.eqb_refl]).
  cbn. rewrite Ht. split; [done|]. right. done.
Qed.

(** A process that will vote for the candidate. *)
Definition voter (id : N) (L : RaftNode) (r : RequestVoteRequest) (w : Disk * DistributedStoreNode) : Prop :=
  ∃ F, hosts_replica id w.1 w.2 F ∧ log_ F `prefix_of` log_ L ∧ may_vote r F.

Lemma vote_live r L d s :
  voter (rv_region_id r) L r (d, s) → vote_ok r → wf L → terms_ordered L →
  rv_last_log_index r = last_log_index L → rv_last_log_term r = last_log_term L →
  ∃ w, StoreNode.HandleRequestVote r (d, s) = (Ok (mkVoteResponse (rv_term r) true), w) ∧
    voter (rv_region_id r) L r w.
Proof.
  intros (F & Hh & HF & Hmay) Hv HwL Hord Hi Hlt.
  destruct (hosts_replica_wf _ _ _ _ Hh) as [HwF _].
  destruct (vote_here d s F r Hh Hv) as (d' & s' & Hrun & Hh').
  destruct (vote_granted F L r HwF HwL HF Hord Hmay Hi Hlt) as [Hg Hmay'].
  exists (d', s'). rewrite Hrun, Hg. split; [done|].
  exists (Raft.HandleRequestVote r F).2. split_and!; [done| |done].
  by pose proof (HandleRequestVote_fields r F) as (-> & _).
Qed.

Lemma request_votes_live dir up ps request L : ∀ votes (g : Group) d n raft,
  replica_node dir (d, n) raft →
  vote_request_ok request → vote_ok request → wf L → terms_ordered L →
  rv_last_log_index request = last_log_index L → rv_last_log_term request = last_log_term L →
  dom g = up → map_Forall (λ _, voter (rv_region_id request) L request) g →
  ∃ g' i, dom g' = up ∧ map_Forall (λ _, voter (rv_region_id request) L request) g' ∧
    request_votes request ps votes (g, (d, n)) =
      (Ok (votes + answers_of up n ps), (g', (d, with_request_id i n))).
Proof.
  induction ps as [|p ps IH]; intros votes g d n raft Hn Hrok Hvok HwL Hord Hi Hlt Hup Hg.
  { exists g, (dn_next_request_id n). rewrite with_request_id_same. unfold answers_of. cbn.
    by rewrite Nat.add_0_r. }
  rewrite answers_of_cons. cbn [request_votes]. rewrite local_node_bind.
  case_decide as Hself; [rewrite (answering_self up n p Hself); by apply (IH votes g d n raft)|].
  destruct (FindStoreByPeer (peer_id p) n) as [s|] eqn:Hs;
    [|rewrite (answering_no_store up n p Hs); by apply (IH votes g d n raft)].
  rewrite (answering_store up n p s Hself Hs).
  destruct (CallStore_run s "store.RaftRequestVote" (PutRequestVoteFields ∅ request) g d n)
    as (response & g1 & Hcs & rq & Hm & Hp & Hcall).
  set (n1 := with_request_id _ n) in Hcs.
  assert (replica_node dir (d, n1) raft) as Hn1 by by apply replica_node_calls.
  destruct (g !! client_endpoint s) as [[d1 s1]|] eqn:Hep.
  - destruct (vote_live request L d1 s1 (Hg _ _ Hep) Hvok HwL Hord Hi Hlt) as ([d2 s2] & Hrun & Hw).
    rewrite (call_vote _ rq request g d1 s1 _ d2 s2 Hm Hp Hrok Hep Hrun) in Hcall.
    apply pair_equal_spec in Hcall as [<- <-].
    rewrite bool_decide_eq_true_2 by (rewrite <-Hup; by apply elem_of_dom_2 in Hep).
    destruct (IH (S votes) (<[client_endpoint s := (d2, s2)]> g) d n1 raft)
      as (g2 & j & Hup2 & Hg2 & Hrun2); [exact Hn1 | exact Hrok | exact Hvok | exact HwL | exact Hord
      | exact Hi | exact Hlt | by rewrite dom_insert_lookup_L | by apply map_Forall_insert_2 |].
    exists g2, j. split; [exact Hup2|]. split; [exact Hg2|]. run_call ltac:(exact Hcs).
    cbn [MakeRpcOk rs_ok rs_payload negb]. rewrite DecodeFields_encode, lift_ok_bind.
    rewrite vote_response_roundtrip, lift_ok_bind by apply Hvok. cbn [rv_granted].
    rewrite Hrun2. change (answers_of up n1 ps) with (answers_of up n ps). do 2 f_equal. lia.
  - rewrite call_down in Hcall by done. apply pair_equal_spec in Hcall as [<- <-].
    rewrite bool_decide_eq_false_2 by (rewrite <-Hup; by apply not_elem_of_dom_2).
    destruct (IH votes g d n1 raft Hn1 Hrok Hvok HwL Hord Hi Hlt Hup Hg) as (g2 & j & Hup2 & Hg2 & Hrun2).
    exists g2, j. split; [exact Hup2|]. split; [exact Hg2|]. run_call ltac:(exact Hcs). exact Hrun2.
Qed.

(** * Writing *)

(** The leader of a group, or the peer designated to become it, with a majority
    of the region's peers up, itself included. *)
Record ready (dir : string) (up : gset Endpoint) (g : Group) (w : LocalW) (raft : RaftNode) : Prop := {
  rd_node : replica_node dir w raft;
  rd_group : reachable up (region_id (dn_region w.2)) (log_ raft) (current_term_ raft) g;
  rd_majority : length (peers (dn_region w.2)) < 2 * S (answers_of up w.2 (peers (dn_region w.2)));
  rd_lead : role_ raft = kLeader ∨ leader_peer_id (dn_region w.2) = peer_id (dn_local_peer w.2);
  rd_terms : terms_ordered raft;
}.

Lemma majority_reached p a : p < 2 * S a → ¬ (1 + a ≤ p `div` 2).
Proof. intros Hp. pose proof (Nat.mul_div_le p 2). lia. Qed.

Lemma answers_of_identity up n n' ps :
  same_identity n n' → answers_of up n' ps = answers_of up n ps.
Proof.
  intros (Hr & Hs & Hp & Hst). unfold answers_of. f_equal. apply List.filter_ext. intros p.
  unfold answering, FindStoreByPeer. by rewrite Hr, Hp, Hst.
Qed.

Lemma EnsureLeader_live dir up g d n raft :
  ready dir up g (d, n) raft → (current_term_ raft + 1 < two64)%N →
  ∃ g' d' n' raft', EnsureLeader (g, (d, n)) = (Ok tt, (g', (d', n'))) ∧
    ready dir up g' (d', n') raft' ∧ role_ raft' = kLeader ∧ log_ raft' = log_ raft ∧
    last_applied_ raft' = last_applied_ raft ∧ same_identity n n' ∧
    (current_term_ raft <= current_term_ raft' <= current_term_ raft + 1)%N ∧
    user_part (data_ (dn_engine n')) = user_part (data_ (dn_engine n)).
Proof.
  intros [Hn Hg Hmaj Hlead Hord] Hterm. cbn [snd] in *.
  pose proof (replica_raft _ _ _ _ Hn) as Hr.
  unfold EnsureLeader. rewrite local_node_bind, Hr.
  case_decide as Hrole; [exists g, d, n, raft; split_and!; (done || lia)|].
  destruct Hlead as [?|Hdes]; [done|]. rewrite (proj2 (N.eqb_eq _ _)) by done. cbn [negb].
  pose proof (rn_good _ _ _ Hn) as [_ _ _ _ Hwf _ Hes (Ht & Hv & _ & Hlen)].
  pose proof (rn_self _ _ _ Hn) as Hself. pose proof (rn_peer _ _ _ Hn) as [Hp0 Hplt].
  pose proof (rn_region _ _ _ Hn) as Hrlt. cbn [snd] in *.
  set (raft1 := BecomeCandidate raft).
  assert (current_term_ raft1 = (current_term_ raft + 1)%N) as Ht1 by (cbn; by apply u64_small).
  assert (raft_fits raft1) as Hfit1.
  { split_and!; [by rewrite Ht1 | cbn; congruence | cbn; congruence | done]. }
  assert (wf raft1) as Hwf1 by by apply (wf_same_log raft).
  assert (terms_ordered raft1) as Hord1.
  { destruct Hord as [Hall Hle]. split; [done|]. change (last_log_term raft1) with (last_log_term raft). lia. }
  destruct (replica_role dir BecomeCandidate d n raft Hn) as (d1 & e1 & Hc1 & Hs1 & Hn1 & Hu1);
    [done | done | done | exact Hwf1 | done |].
  fold raft1 in Hc1, Hs1, Hn1, Hu1.
  run_call ltac:(apply local_run; exact Hc1). run_call ltac:(apply local_run; exact Hs1).
  rewrite (local_raft_bind _ _ _ _ raft1) by by eapply replica_raft.
  set (request := mkVoteRequest _ _ _ _ _).
  assert (vote_request_ok request ∧ vote_ok request) as [Hrq Hvok].
  { split; [|split_and!; cbn [request rv_term rv_candidate_id]; lia].
    split_and!; cbn [request rv_region_id rv_term rv_candidate_id rv_last_log_index rv_last_log_term];
      [done | lia | done | |]; [change (last_log_index raft1) with (last_log_index raft);
      rewrite wf_last_index by done; lia | destruct Hord1; lia]. }
  destruct (request_votes_live dir up (peers (dn_region n)) request raft1 1 g d1
    (with_parts e1 raft1 n) raft1) as (g2 & i & Hup2 & Hg2 & Hrun); [exact Hn1 | exact Hrq | exact Hvok
    | exact Hwf1 | exact Hord1 | reflexivity | reflexivity | by apply Hg | |].
  { intros ep w Hw. destruct (rc_followers _ _ _ _ _ Hg ep w Hw) as (F & Hh & HF & HtF).
    exists F. split_and!; [done | done |]. left. cbn [request rv_term]. lia. }
  run_call ltac:(exact Hrun).
  change (answers_of up (with_parts e1 raft1 n) (peers (dn_region n)))
    with (answers_of up n (peers (dn_region n))).
  rewrite decide_False by (by apply majority_reached).
  destruct (replica_role dir BecomeLeader d1 (with_request_id i (with_parts e1 raft1 n)) raft1)
    as (d2 & e2 & Hc2 & Hs2 & Hn2 & Hu2); [by apply replica_node_calls | done | done | done |
      by apply (wf_same_log raft) | done |].
  run_call ltac:(apply local_run; exact Hc2).
  exists g2, d2. eexists _, (BecomeLeader raft1).
  split; [apply local_run; exact Hs2|]. split; [|split_and!; [done | done | done | done | | |]].
  - split; [exact Hn2 | | exact Hmaj | by left | exact Hord1].
    split; [done|]. intros ep w Hw. destruct (Hg2 ep w Hw) as (F & Hh & HF & Hmay).
    exists F. split_and!; [exact Hh | exact HF |]. change (current_term_ F <= rv_term request)%N.
    destruct Hmay as [|[]]; lia.
  - change (current_term_ raft <= current_term_ raft1)%N. lia.
  - change (current_term_ raft1 <= current_term_ raft + 1)%N. lia.
  - cbn. rewrite Hu2. exact Hu1.
Qed.

(** ** What the entries do to the contents *)

Lemma apply_entries_app l1 l2 w :
  apply_entries (l1 ++ l2) w = (_ ← apply_entries l1; apply_entries l2) w.
Proof.
  revert w. induction l1 as [|x l1 IH]; intros w; [done|]. cbn [app apply_entries].
  case_decide; [apply IH|]. unfold mbind, M_bind in *.
  destruct (ApplyKvCommand (e_command x) w) as [[[]|st|f] w1]; [apply IH | done..].
Qed.

Lemma append_all_keeps ms w r w' : append_all ms w = (r, w') → w'.2 = w.2.
Proof.
  revert w. induction ms as [|m ms IH]; intros [d e] H; [by injection H as _ <-|].
  cbn [append_all] in H. unfold mbind, M_bind in H.
  destruct (AppendMutation_frame m d e) as (q & d1 & Hm & [-> | [st ->]]);
    rewrite Hm in H; [by apply IH in H | by injection H as _ <-].
Qed.

Lemma WriteBatch_data ms w w' :
  Engine.WriteBatch ms w = (Ok tt, w') → data_ w'.2 = apply_batch (data_ w.2) ms.
Proof.
  intros H. apply bind_Ok_inv in H as ([] & w1 & Ha & Hm). apply append_all_keeps in Ha.
  unfold modify_data, modify in Hm. destruct w1 as [d1 e1]. injection Hm as <-. cbn in *. by rewrite Ha.
Qed.

(** Applying entries of which the last one is a put. *)
Lemma apply_put_last l e k v w w' :
  apply_entries (l ++ [e]) w = (Ok tt, w') → e_type e = kNormal →
  e_command e = EncodePutCommand k v → k ≠ "" →
  data_ w'.2 !! k = Some v ∧
  (l = [] → ∀ k', k' ≠ k → data_ w'.2 !! k' = data_ w.2 !! k').
Proof.
  rewrite apply_entries_app. intros ([] & w1 & H1 & H2)%bind_Ok_inv Ht Hc Hk.
  cbn [apply_entries] in H2. rewrite Ht, decide_False in H2 by done.
  apply bind_Ok_inv in H2 as ([] & w2 & H2 & H3). injection H3 as ->.
  rewrite Hc, (apply_put_command (S := EngineW)) in H2 by done.
  apply (WriteBatch_data [mkMutation kPut k v]) in H2. rewrite H2. cbn.
  split; [by rewrite lookup_insert_eq|]. intros -> k' Hne. rewrite lookup_insert_ne by done.
  by injection H1 as ->.
Qed.

(** ** A write *)

Lemma terms_ordered_push e raft :
  terms_ordered raft → e_term e = current_term_ raft → terms_ordered (push_entry e raft).
Proof.
  intros [Hall Hle] He.
  assert (last_log_term (push_entry e raft) = current_term_ raft) as Hlast.
  { unfold last_log_term. cbn [push_entry log_ with_log]. by rewrite last_snoc. }
  unfold terms_ordered. rewrite Hlast. split; [|done]. cbn [push_entry log_ with_log].
  apply list.Forall_app. split; [|apply list.Forall_singleton; lia].
  eapply list.Forall_impl; [exact Hall|]. cbn. intros x Hx. lia.
Qed.

Lemma pending_commit_last e raft :
  wf raft → wf (push_entry e raft) → e_index e = (N.of_nat (length (log_ raft)) + 1)%N →
  pending (SetCommitIndex (e_index e) (push_entry e raft)) =
    drop (N.to_nat (last_applied_ raft)) (log_ raft) ++ [e].
Proof.
  intros [_ Hc Ha] Hwf He.
  assert (last_log_index (push_entry e raft) = e_index e) as Hlast.
  { rewrite wf_last_index by done. cbn. rewrite length_app. cbn. lia. }
  unfold pending. cbn [SetCommitIndex commit_index_ last_applied_ log_ with_log push_entry].
  change (last_log_index (with_log _ _ _ _)) with (last_log_index (push_entry e raft)).
  rewrite Hlast, N.min_id, He, drop_app_le by lia. apply take_ge.
  rewrite length_app, length_drop. cbn [length]. lia.
Qed.

Lemma write_live dir up g d n raft command :
  ready dir up g (d, n) raft → (current_term_ raft + 1 < two64)%N →
  (N.of_nat (length (log_ raft)) + 1 < two64)%N → command_ok command → command ≠ "" →
  ∃ g' d' n' raft' e,
    ProposeAndReplicate command (g, (d, n)) = (Ok tt, (g', (d', n'))) ∧
    ready dir up g' (d', n') raft' ∧ node_stored dir (d', n') raft' ∧
    log_ raft' = log_ raft ++ [e] ∧ e_type e = kNormal ∧ e_command e = command ∧
    last_applied_ raft' = N.of_nat (length (log_ raft')) ∧
    same_identity n n' ∧ (current_term_ raft <= current_term_ raft' <= current_term_ raft + 1)%N ∧
    ∃ w0 w1, user_part (data_ w0.2) = user_part (data_ (dn_engine n)) ∧
      apply_entries (drop (N.to_nat (last_applied_ raft)) (log_ raft) ++ [e]) w0 = (Ok tt, w1) ∧
      user_part (data_ (dn_engine n')) = user_part (data_ w1.2).
Proof.
  intros Hready Hterm Hlen Hcmd Hne.
  destruct (EnsureLeader_live dir up g d n raft Hready Hterm)
    as (g1 & d1 & n1 & raft1 & Hrun1 & [Hn1 Hg1 Hmaj Hlead Hord] & Hrole & Hl1 & Ha1 & Hid1 & Hinc1 & Hu1).
  cbn [snd] in *. rewrite <-Hl1 in Hlen |- *. rewrite <-Ha1.
  destruct (propose_replica dir d1 n1 raft1 command Hn1 Hrole Hlen Hcmd Hne)
    as (Hprop & d2 & e2 & Hstore & Hn2 & Hu2).
  set (e := proposed raft1 command) in *. set (raft2 := push_entry e raft1) in *.
  set (n2 := with_parts e2 raft2 n1) in *.
  assert (reachable up (region_id (dn_region n1)) (log_ raft2) (current_term_ raft2) g1) as Hg2.
  { split; [apply Hg1|]. eapply followers_mono; [apply Hg1 | by eexists | done]. }
  destruct (replicate_all_live dir up (peers (dn_region n1)) (e_index e) 1 g1 d2 n2 raft2 Hn2)
    as (g3 & i & Hg3 & Hrun3); [cbn; rewrite length_app; lia | exact Hg2 |].
  pose proof (replica_node_calls _ _ _ _ i Hn2) as Hn3.
  destruct (commit_replica dir d2 (with_request_id i n2) raft2 e Hn3 (last_snoc _ _))
    as (d4 & n4 & d5 & e5 & Hset & Happly & Hpersist & Hst & Hn5 & _ & Hl5 & d0 & e0 & Happ & Hu5).
  set (raft5 := applied _) in *. set (n5 := with_parts e5 raft5 (with_request_id i n2)) in *.
  assert (reachable up (region_id (dn_region n5)) (log_ raft5) (current_term_ raft5) g3) as Hg5
    by (rewrite Hl5; exact Hg3).
  destruct (broadcast_live dir up (peers (dn_region n1)) (e_index e) g3 d5 n5 raft5 Hn5 Hlen Hg5)
    as (g6 & j & Hg6 & Hrun6).
  pose proof (rn_good _ _ _ Hn1) as [_ _ _ _ Hwf1 _ _ _].
  pose proof (rn_good _ _ _ Hn2) as [_ _ _ _ Hwf2 _ _ _].
  exists g6, d5, (with_request_id j n5), raft5, e. split_and!.
  - unfold ProposeAndReplicate. run_call ltac:(exact Hrun1).
    run_call ltac:(apply local_run; exact Hprop). run_call ltac:(apply local_run; exact Hstore).
    rewrite local_node_bind. fold n2. run_call ltac:(exact Hrun3).
    change (answers_of up n2 (peers (dn_region n1)))
      with (answers_of up n1 (peers (dn_region n1))).
    rewrite decide_False by (by apply majority_reached).
    run_call ltac:(apply local_run; exact Hset). run_call ltac:(apply local_run; exact Happly).
    run_call ltac:(apply local_run; exact Hpersist).
    unfold BroadcastCommit. rewrite local_node_bind. exact Hrun6.
  - split; [by apply replica_node_calls | exact Hg6 | exact Hmaj | by left |].
    change (terms_ordered raft5) with (terms_ordered raft2). by apply terms_ordered_push.
  - destruct Hst as [[] Hhard]. by split.
  - exact Hl5.
  - done.
  - done.
  - cbn. change (last_log_index _) with (last_log_index raft2).
    rewrite wf_last_index by done. cbn. rewrite length_app. cbn. lia.
  - exact Hid1.
  - exact (proj1 Hinc1).
  - exact (proj2 Hinc1).
  - exists (d2, e2), (d0, e0). split_and!; [cbn; by rewrite Hu2, Hu1 | | exact Hu5].
    pose proof (pending_commit_last e raft1 Hwf1 Hwf2 eq_refl) as Hpend. fold raft2 in Hpend.
    rewrite Hpend in Happ. exact Happ.
Qed.

Lemma user_part_get (data data' : DataMap) k :
  user_part data = user_part data' → user_key k → data !! k = data' !! k.
Proof. intros Hd Hk. by rewrite <-(lookup_user_part data), Hd, lookup_user_part. Qed.

Lemma node_get k c d n v :
  data_ (dn_engine n) !! k = Some v → Distributed.Get k c (d, n) = (Ok v, (d, n)).
Proof.
  intros Hk. unfold Distributed.Get.
  rewrite (node_engine_run _ d n (Ok v) d (dn_engine n)); [by destruct n|].
  rewrite Engine.Get_spec. cbn. by rewrite Hk.
Qed.

(** C12: Writes succeed while a majority answers. Take a group of store processes
    and the replica that leads it, or is designated to, its Raft node, disk and
    engine in agreement. Of the other processes those that are down may be in any
    state; those that are up have a term no newer than the leader's and a log that is
    a prefix of the leader's, however far behind (a longer log of a follower makes the
    leader read outside its own). If the peers whose stores are up make a majority
    together with the leader, a [Put] of a key that is not empty and has no [raft/]
    prefix returns success
    (electing the leader first when needed, each lagging follower catching up
    within two of the eight attempts), the value is read back at once, the other
    keys are untouched when no earlier entry was waiting to be applied, state and
    disk agree, and the group is ready for the next write. *)
Theorem writes_succeed_with_majority dir up g d n raft k v c :
  ready dir up g (d, n) raft → (current_term_ raft + 1 < two64)%N →
  (N.of_nat (length (log_ raft)) + 1 < two64)%N → k ≠ "" → user_key k →
  ∃ g' d' n' raft',
    Distributed.Put k v (g, (d, n)) = (Ok tt, (g', (d', n'))) ∧
    Distributed.Get k c (d', n') = (Ok v, (d', n')) ∧
    (last_applied_ raft = N.of_nat (length (log_ raft)) →
     ∀ k', user_key k' → k' ≠ k → data_ (dn_engine n') !! k' = data_ (dn_engine n) !! k') ∧
    ready dir up g' (d', n') raft' ∧ node_stored dir (d', n') raft' ∧
    last_applied_ raft' = N.of_nat (length (log_ raft')).
Proof.
  intros Hready Hterm Hlen Hk Hu.
  destruct (write_live dir up g d n raft (EncodePutCommand k v) Hready Hterm Hlen)
    as (g' & d' & n' & raft' & e & Hrun & Hready' & Hst & Hlog & Ht & Hc & Ha & _ & _ & w0 & w1 & H0 & Happ & H1);
    [by apply put_command_ok | done |].
  destruct (apply_put_last _ e k v w0 w1 Happ Ht Hc Hk) as [Hv Hother].
  exists g', d', n', raft'. split; [exact Hrun|]. split; [|split; [|done]].
  - apply node_get. rewrite <-Hv. by apply user_part_get.
  - intros Hall k' Hu' Hne. rewrite (user_part_get _ _ k' H1 Hu').
    rewrite Hother; [by apply user_part_get | | done]. apply drop_ge. lia.
Qed.

(** Store 2 of three is up, store 1 is designated to lead. *)
Lemma test_ready :
  ready (node_dir "data" test_region) {[client_endpoint (test_store 2)]} test_group
    (test_replica 1) (fresh_raft (mkPeer 11 1 kVoter) test_region).
Proof.
  pose proof test_leader_good as Hn.
  destruct (test_replica_good 1 (mkPeer 11 1 kVoter)) as (d & e & Hr & _); [reflexivity|].
  split; [exact Hn | | | right; rewrite Hr; reflexivity | split; [constructor | discriminate]].
  - split; [apply dom_singleton_L|]. rewrite Hr. apply map_Forall_singleton.
    exists (fresh_raft (mkPeer 12 2 kVoter) test_region). split; [by apply test_process_good|].
    split; [done | discriminate].
  - rewrite Hr. vm_compute. lia.
Qed.

Lemma writes_succeed_with_majority_witness :
  ∃ g' d' n' raft',
    Distributed.Put "k" "v" (test_group, test_replica 1) = (Ok tt, (g', (d', n'))) ∧
    Distributed.Get "k" kLinearizable (d', n') = (Ok "v", (d', n')) ∧
    ready (node_dir "data" test_region) {[client_endpoint (test_store 2)]} g' (d', n') raft'.
Proof.
  pose proof test_ready as Hready. destruct (test_replica 1) as [d n].
  destruct (writes_succeed_with_majority _ _ _ d n _ "k" "v" kLinearizable Hready)
    as (g' & d' & n' & raft' & Hput & Hget & _ & Hready' & _).
  - reflexivity.
  - reflexivity.
  - discriminate.
  - reflexivity.
  - exists g', d', n', raft'. split; [exact Hput|]. split; [exact Hget | exact Hready'].
Defined.

(** * A follower that is ahead *)

(** The request after an answer whose [match_index] lies beyond the log. *)
Lemma append_request_beyond n raft next commit :
  (N.of_nat (length (log_ raft)) + 2 <= next)%N → append_request n raft next commit = Fault Undefined.
Proof.
  intros Hnext. unfold append_request. destruct (N.eqb_spec next 0); [lia|]. cbv zeta.
  destruct (N.eqb_spec (next - 1) 0); [lia|]. by rewrite lookup_ge_None_2 by lia.
Qed.

(** A longer, conflicting log at a follower takes the leader down. When the
    follower's log does not have the entry before the leader's suffix and is at
    least two entries longer than the leader's (entries of an earlier term that
    were never committed), it answers with the length of its log, and the leader,
    which goes on from there, reads its own log past the end. *)
Theorem longer_follower_undefined dir store next commit (g : Group) d n raft d1 s1 F :
  replica_node dir (d, n) raft → (commit < two64)%N →
  (next <= N.of_nat (length (log_ raft)) + 1)%N →
  g !! client_endpoint store = Some (d1, s1) →
  hosts_replica (region_id (dn_region n)) d1 s1 F →
  (current_term_ F <= current_term_ raft)%N →
  (∀ x, log_ raft !! N.to_nat (next - 2) = Some x →
     HasLogAt F (next - 1) (e_term x) = false) → (2 <= next)%N →
  length (log_ raft) + 2 ≤ length (log_ F) →
  (ReplicateToStore store next commit (g, (d, n))).1 = Fault Undefined.
Proof.
  intros Hn Hc Hnext Hep Hh Ht Hno Hnz Hlong. pose proof (replica_raft _ _ _ _ Hn) as Hr.
  destruct (append_request_suffix dir d n raft next commit Hn Hnext) as (r & Hreq & Hrt & Hsuf & Hprev).
  destruct (append_request_shape dir d n raft next commit r Hn Hc Hreq) as (Hrok & Haok & Hrid & _).
  rewrite <-Hrid in Hh. rewrite <-Hrt in Ht.
  destruct (append_at d1 s1 F r Hh Haok) as (answer & F1 & d2 & s2 & Hrun & Hout & Hh2).
  destruct (outcome_fits _ _ _ _ Hout (proj1 (proj2 (proj2 Haok))) (hosts_replica_fits _ _ _ _ Hh)
    (hosts_replica_fits _ _ _ _ Hh2)) as [Hb1 Hb2].
  assert (HasLogAt F (ae_prev_log_index r) (ae_prev_log_term r) = false) as Hnot.
  { destruct Hsuf as (_ & [[? _] | (_ & x & Hx & <-)]); [lia|]. rewrite Hprev in Hx |- *.
    apply Hno. by replace (next - 2)%N with (next - 1 - 1)%N by lia. }
  assert (ae_success answer = false ∧ ae_match_index answer = N.of_nat (length (log_ F))) as [Hs Hm]
    by (destruct Hout; [done | done | congruence]).
  destruct (CallStore_run store "store.RaftAppendEntries" (PutAppendEntriesFields ∅ r) g d n)
    as (response & g1 & Hcs & rq & Hrm & Hrp & Hcall).
  rewrite (call_append _ rq r g d1 s1 answer d2 s2 Hrm Hrp Hrok Hep Hrun) in Hcall.
  apply pair_equal_spec in Hcall as [<- <-].
  unfold ReplicateToStore. rewrite local_node_bind, Hr. cbn [replicate].
  rewrite local_node_bind, (local_raft_bind _ _ _ _ raft) by done. rewrite Hreq, lift_ok_bind.
  run_call ltac:(exact Hcs). cbn [MakeRpcOk rs_ok rs_payload negb].
  rewrite DecodeFields_encode, lift_ok_bind, append_response_roundtrip, lift_ok_bind by done.
  rewrite Hs, Hm. rewrite local_node_bind, (local_raft_bind _ _ _ _ raft) by done.
  destruct (N.eqb_spec (N.of_nat (length (log_ F))) 0); [lia|].
  rewrite append_request_beyond by lia. done.
Qed.

(** The leader of term 2 has two entries; a store kept four of term 1. *)
Definition test_log (term : N) (count : nat) : list LogEntry :=
  (λ i, mkEntry 5 (N.of_nat i) term kNormal test_command) <$> seq 1 count.
Definition test_append (term : N) (count : nat) : AppendEntriesRequest :=
  mkAppendRequest 5 term 13 0 0 (test_log term count) 0.

Lemma test_append_ok term count :
  (term < two64)%N → count ≤ 4 → append_ok 5 (test_append term count).
Proof.
  intros Ht Hc. unfold append_ok, test_append, test_log.
  cbn [ae_entries ae_term ae_prev_log_index]. split_and!; [| |done|
    rewrite length_fmap, length_seq; apply (N.le_lt_trans _ 4); [lia | done]].
  - intros i e Hi. cbn [ae_entries] in Hi. apply list_lookup_fmap_Some in Hi as (j & -> & Hj).
    apply lookup_seq in Hj as [-> ?]. cbn. split; [done | lia].
  - apply list.Forall_fmap, list.Forall_forall. intros i [? ?]%elem_of_seq. cbn.
    apply put_entry_valid; [done | apply (N.lt_trans _ 5); [lia | done] | done | done | done].
Qed.

Definition test_fed (i term : N) (count : nat) : LocalW :=
  (Distributed.HandleAppendEntries (test_append term count) (test_replica i)).2.
Definition test_fed_raft (p : Peer) (term : N) (count : nat) : RaftNode :=
  (Raft.HandleAppendEntries (test_append term count) (fresh_raft p test_region)).2.

Lemma test_fed_good i p term count :
  local_peer_of (test_store i) test_region = Some p → (term < two64)%N → count ≤ 4 →
  ∃ d n raft, test_fed i term count = (d, n) ∧ node_stored (node_dir "data" test_region) (d, n) raft ∧
    log_ raft = log_ (test_fed_raft p term count) ∧
    current_term_ raft = current_term_ (test_fed_raft p term count) ∧
    self_id_ raft = self_id_ (test_fed_raft p term count) ∧
    dn_local_peer n = p ∧ dn_region n = test_region.
Proof.
  intros Hp Ht Hc. destruct (test_replica_good i p Hp) as (d & e & Hr & Hgood & _).
  destruct (HandleAppendEntries_good _ _ _ _ (test_append term count) Hgood) as
    (resp & raft1 & d' & e' & Hq & Hrun & Hg); [by apply test_append_ok|].
  unfold test_fed, test_fed_raft. rewrite Hr, Hrun, Hq. do 3 eexists.
  split_and!; [reflexivity | exact Hg | by case_match..| done | done].
Qed.

Definition ahead_process : Disk * DistributedStoreNode :=
  let '(d, n) := test_fed 2 1 4 in
  (d, mkStoreNode (test_store 2) test_stores "data" {[region_id test_region := n]}).

Lemma longer_follower_undefined_witness :
  (ReplicateToStore (test_store 2) 3 0
    ({[client_endpoint (test_store 2) := ahead_process]}, test_fed 1 2 2)).1 = Fault Undefined.
Proof.
  destruct (test_fed_good 1 (mkPeer 11 1 kVoter) 2 2)
    as (d & n & raft & Hl & Hgl & Hlog & Hterm & Hself & Hpeer & Hreg); [reflexivity | reflexivity | lia |].
  destruct (test_fed_good 2 (mkPeer 12 2 kVoter) 1 4)
    as (d2 & n2 & F & Hf & Hgf & Hlogf & Htermf & _ & _ & Hregf); [reflexivity | reflexivity | lia |].
  unfold ahead_process. rewrite Hl, Hf.
  eapply (longer_follower_undefined _ _ 3 0 _ d n raft).
  - split; [exact (proj1 Hgl) | | |]; cbn [snd]; rewrite ?Hpeer, ?Hreg, ?Hself; [reflexivity | | reflexivity].
    split; [discriminate | reflexivity].
  - reflexivity.
  - rewrite Hlog. vm_compute. discriminate.
  - apply lookup_singleton_eq.
  - exists n2. rewrite Hreg. split; [reflexivity|]. split; [exact (node_stored_kept _ _ _ Hgf)|].
    rewrite (ng_region _ _ _ (proj1 Hgf)). cbn [snd]. by rewrite Hregf.
  - rewrite Htermf, Hterm. vm_compute. discriminate.
  - intros x Hx. rewrite Hlog in Hx. unfold HasLogAt. rewrite Hlogf.
    vm_compute in Hx. injection Hx as <-. vm_compute. reflexivity.
  - discriminate.
  - rewrite Hlog, Hlogf. vm_compute. lia.
Defined.
