(* ===== verification/GroupSession.v ===== *)
(** Sessions against a cluster of store processes: clients of a gateway with
    dynamic routing, the placement driver behind its RPC service, and the region
    replicated by the processes of a group (Group.v), some of which may be down.
    The group keeps the store interface of KvSession.v while a majority runs. *)

From S2P Require Import Prelude Types Text Codec Service Engine Raft RaftStorage Keyspace RaftWire.
From S2P Require Import Cluster ClusterSpec Region StoreNode Pd PdSpec PdSafety PdCatalog Multi MultiSpec MultiRegion.
From S2P Require Import Gateway GatewaySpec PdService Distributed Tcp DistributedSpec NodeRestart Replication.
From S2P Require Import StoreService Group RpcGateway GatewayService KvSession RpcSession Cli Config Processes Liveness.

(** * A write at the leading replica *)

Lemma apply_one e ms w w' :
  apply_entries [e] w = (Ok tt, w') → e_type e = kNormal →
  (ApplyKvCommand (e_command e) : IO EngineW unit) = Engine.WriteBatch ms →
  data_ w'.2 = apply_batch (data_ w.2) ms.
Proof.
  cbn [apply_entries]. intros Hrun Ht Hc. rewrite Ht, decide_False in Hrun by done.
  apply bind_Ok_inv in Hrun as ([] & w2 & H2 & H3). injection H3 as ->.
  rewrite Hc in H2. by apply (WriteBatch_data ms).
Qed.

(** The region's leader: peer [p] of store [st], whom the region names; the store
    knows the stores [stores]. *)
Section leader.
Context (r : RegionInfo) (stores : list StoreInfo) (st : StoreInfo) (p : Peer).

Record designated : Prop := {
  ds_region : (region_id r < two64)%N;
  ds_peer : peer_id p ≠ 0%N ∧ (peer_id p < two64)%N;
  ds_local : local_peer_of st r = Some p;
  ds_leads : leader_peer_id r = peer_id p;
}.

(** The stores that are [up], the leader's included, make a majority. *)
Definition quorum (up : gset Endpoint) : Prop :=
  length (peers r) < 2 * S (answers_of (up ∖ {[client_endpoint st]})
    (booted st stores r p new_engine (fresh_raft p r)) (peers r)).

(** The leading replica, on disk in [dir], over the map [m], good for [k] more
    writes. *)
Record leads (k : nat) (dir : string) (w : LocalW) (raft : RaftNode) (m : DataMap) : Prop := {
  ld_identity : same_identity (booted st stores r p new_engine (fresh_raft p r)) w.2;
  ld_kept : node_kept dir w raft;
  ld_self : self_id_ raft = peer_id p;
  ld_applied : last_applied_ raft = N.of_nat (length (log_ raft));
  ld_terms : terms_ordered raft;
  ld_term : (current_term_ raft + N.of_nat k < two64)%N;
  ld_length : (N.of_nat (length (log_ raft)) + N.of_nat k < two64)%N;
  ld_data : user_part (data_ (dn_engine w.2)) = m;
}.

Lemma leads_less k dir w raft m : leads (S k) dir w raft m → leads k dir w raft m.
Proof. intros []. split; (done || lia). Qed.

Lemma leads_region k dir w raft m : leads k dir w raft m → dn_region w.2 = r.
Proof. by intros [(-> & _) _ _ _ _ _ _ _]. Qed.

(** What the leader's log and term become. *)
Definition grows (raft raft' : RaftNode) : Prop :=
  log_ raft `prefix_of` log_ raft' ∧ (current_term_ raft <= current_term_ raft')%N.

#[export] Instance grows_preorder : PreOrder grows.
Proof.
  split; [by intros raft; split; [|lia]|]. intros a b c [? ?] [? ?]. split; [by etrans | lia].
Qed.

Lemma followers_grow id raft raft' g :
  followers id (log_ raft) (current_term_ raft) g → grows raft raft' →
  followers id (log_ raft') (current_term_ raft') g.
Proof. intros Hg [Hl Ht]. by eapply followers_mono. Qed.

Context (Hd : designated).

Lemma leads_ready k up dir g w raft m :
  leads k dir w raft m → dom g = up ∖ {[client_endpoint st]} →
  followers (region_id r) (log_ raft) (current_term_ raft) g → quorum up →
  ready dir (up ∖ {[client_endpoint st]}) g w raft.
Proof.
  intros [Hid [Hgood _] Hself _ Hord _ _ _] Hg Hf Hq. pose proof Hid as (Hr & _ & Hp & _).
  destruct Hd as [Hrlt Hplt _ Hlead]. cbn [booted dn_region dn_local_peer] in *.
  split; [split | split | | | done]; rewrite ?Hr, ?Hp; try done.
  - rewrite (answers_of_identity _ _ _ _ Hid). exact Hq.
  - by right.
Qed.

Lemma write_leads k up dir g d n raft m command ms :
  leads (S k) dir (d, n) raft m → dom g = up ∖ {[client_endpoint st]} →
  followers (region_id r) (log_ raft) (current_term_ raft) g → quorum up →
  (ApplyKvCommand command : IO EngineW unit) = Engine.WriteBatch ms →
  user_batch ms → keys_ok ms → command ≠ "" →
  ∃ g' d' n' raft', ProposeAndReplicate command (g, (d, n)) = (Ok tt, (g', (d', n'))) ∧
    leads k dir (d', n') raft' (apply_batch m ms) ∧ grows raft raft' ∧ dom g' = dom g ∧
    followers (region_id r) (log_ raft') (current_term_ raft') g'.
Proof.
  intros Hl Hg Hf Hq Hc Hu Hk Hne. pose proof (leads_ready _ _ _ _ _ _ _ Hl Hg Hf Hq) as Hready.
  destruct Hl as [Hid _ _ Ha _ Ht Hlen Hm]. cbn [snd] in *.
  destruct (write_live _ _ g d n raft command Hready)
    as (g' & d' & n' & raft' & e & Hrun & Hready' & Hst & Hlog & Hty & Hcmd & Ha' & Hid' & Hinc &
        w0 & w1 & H0 & Happ & H1); [lia | lia | by exists ms | done |].
  assert (length (log_ raft') = S (length (log_ raft))) as Hlen'
    by (rewrite Hlog, length_app; cbn; lia).
  pose proof Hready' as [Hn' [Hup' Hf'] _ _ Hord']. pose proof (rn_self _ _ _ Hn') as Hself'.
  assert (same_identity (booted st stores r p new_engine (fresh_raft p r)) n') as Hid2
    by (destruct Hid as (? & ? & ? & ?), Hid' as (? & ? & ? & ?); split_and!; congruence).
  pose proof Hid2 as (Hr2 & _ & Hp2 & _). cbn [snd booted dn_region dn_local_peer] in *.
  exists g', d', n', raft'. split; [exact Hrun|]. split; [|split; [|split]].
  - split; [exact Hid2 | by apply node_stored_kept | congruence | done | done | lia | lia |].
    rewrite drop_ge in Happ by lia. cbn [app] in Happ. rewrite <-Hcmd in Hc.
    pose proof (apply_one e ms w0 w1 Happ Hty Hc) as Hdata. cbn [snd].
    rewrite H1, Hdata, user_part_user, H0 by done. by rewrite Hm.
  - split; [by eexists | lia].
  - by rewrite Hup', Hg.
  - by rewrite <-Hr2.
Qed.

(** A read changes nothing. *)
Lemma read_leads k dir d n raft m key c :
  leads k dir (d, n) raft m → user_key key →
  Distributed.Get key c (d, n) =
    (match m !! key with Some v => Ok v | None => Err (key_not_found key) end, (d, n)).
Proof.
  intros [_ _ _ _ _ _ _ <-] Hk. cbn [snd]. rewrite lookup_user_part by done. unfold Distributed.Get.
  rewrite (node_engine_run _ d n (match data_ (dn_engine n) !! key with
    Some v => Ok v | None => Err (key_not_found key) end) d (dn_engine n)); [by destruct n|].
  by rewrite Engine.Get_spec.
Qed.
End leader.

(** * A request at the leader's process *)

Definition wrong_region : Status := mkStatus kRegionNotFound "region not found in local store".

Section process.
Context (r : RegionInfo) (g : Group) (d : Disk) (s : DistributedStoreNode) (n : DistributedRegionNode).
Context (Hs : sn_regions s = {[region_id r := n]}) (Hr : dn_region n = r).

Lemma check_key id key :
  ContainsKey r key = true →
  CheckRegionKey id key s = if (region_id r =? id)%N then Ok tt else Err wrong_region.
Proof.
  intros Hk. unfold CheckRegionKey, FindRegion. rewrite Hs.
  destruct (N.eqb_spec (region_id r) id) as [<- | Hne].
  - rewrite lookup_singleton_eq. by rewrite Hr, Hk.
  - by rewrite lookup_singleton_ne.
Qed.

(** A write to the region, and one that names another region. *)
Lemma store_write id key command q g' d' n' :
  ContainsKey r key = true → ProposeAndReplicate command (g, (d, n)) = (q, (g', (d', n'))) →
  (s0 ← store_state; _ ← lift (CheckRegionKey id key s0); on_region id (ProposeAndReplicate command))
    (g, (d, s)) =
  if (region_id r =? id)%N then (q, (g', (d', set_nodes {[region_id r := n']} s)))
  else (Err wrong_region, (g, (d, s))).
Proof.
  intros Hk Hrun. unfold store_state. run. cbn [snd]. rewrite (check_key id key Hk).
  destruct (N.eqb_spec (region_id r) id) as [<- | Hne]; [|done].
  rewrite lift_ok_bind. unfold on_region. rewrite Hs, lookup_singleton_eq, Hrun.
  by rewrite insert_singleton_eq.
Qed.

Lemma store_read id key c v :
  ContainsKey r key = true → Distributed.Get key c (d, n) = (v, (d, n)) →
  StoreNode.Get id key c (d, s) =
  if (region_id r =? id)%N then (v, (d, s)) else (Err wrong_region, (d, s)).
Proof.
  intros Hk Hrun. unfold StoreNode.Get, the_store. run. cbn [snd]. rewrite (check_key id key Hk).
  destruct (N.eqb_spec (region_id r) id) as [<- | Hne]; [|done].
  rewrite lift_ok_bind, (on_node_run _ _ d s n _ d n Hs Hrun). do 2 f_equal.
  destruct s as [ls ss dir rs]. unfold set_nodes. cbn in *. by rewrite Hs.
Qed.
End process.

(** The store's back end, reached through the service. *)
Lemma on_backend_store {A} (m : IO (Group * StoreNode.StoreW) A) node multi single g d s q g' d' s' :
  m (g, (d, s)) = (q, (g', (d', s'))) →
  StoreService.on_backend m node multi single (g, (d, over_store (Some s))) =
    (q, (g', (d', over_store (Some s')))).
Proof.
  intros Hrun. unfold StoreService.on_backend, the_service. run.
  cbn [snd over_store distributed_store_]. unfold on_store. cbn [over_store distributed_store_].
  by rewrite Hrun.
Qed.

Lemma in_process_run {Net W A} (m : IO W A) (net : Net) w q w' :
  m w = (q, w') → in_process m (net, w) = (q, (net, w')).
Proof. intros Hm. unfold in_process, zoom. cbn. by rewrite Hm. Qed.

Lemma validate_store fields key (g : Group) d s :
  validate fields key (g, (d, over_store (Some s))) = (Ok tt, (g, (d, over_store (Some s)))).
Proof. reflexivity. Qed.

(** What a client of the group may ask: keys of the region, none of them the
    store's own, a write not of the empty key. *)
Definition group_op (r : RegionInfo) (op : client_op) : Prop :=
  ContainsKey r (op_key op) = true ∧ user_key (op_key op) ∧
  match op with CGet _ _ => True | CPut key _ | CDelete key => key ≠ "" end.

(** A write needs a majority. *)
Definition is_write (op : client_op) : bool :=
  match op with CGet _ _ => false | CPut _ _ | CDelete _ => true end.

(** The answer of the leader's process to a request that names region [id]. *)
Definition process_answer (request : RpcRequest) (r : RegionInfo) (id : N) (answer : RpcResponse)
    (w w' : Group * (Disk * StoreService)) : res RpcResponse * (Group * (Disk * StoreService)) :=
  if (region_id r =? id)%N then (Ok answer, w')
  else (Ok (StatusToRpcError request wrong_region), w).

Section requests.
Context (r : RegionInfo) (g : Group) (d : Disk) (s : DistributedStoreNode) (n : DistributedRegionNode).
Context (Hs : sn_regions s = {[region_id r := n]}) (Hr : dn_region n = r).
Context (request : RpcRequest) (id : N) (Hid : (id < two64)%N).
Abbreviation asked := (g, (d, over_store (Some s))).

Lemma put_at_leader key value g' d' n' :
  rq_method request = "store.KvPut" → rq_payload request = EncodeFields (put_fields key value id) →
  ContainsKey r key = true →
  Distributed.Put key value (g, (d, n)) = (Ok tt, (g', (d', n'))) →
  Handle store_rpc_server request asked = process_answer request r id (MakeRpcOk request "") asked
    (g', (d', over_store (Some (set_nodes {[region_id r := n']} s)))).
Proof.
  intros Hm Hp Hk Hrun.
  assert (StoreNode.Put id key value (g, (d, s)) = if (region_id r =? id)%N
    then (Ok tt, (g', (d', set_nodes {[region_id r := n']} s))) else (Err wrong_region, (g, (d, s)))) as Hwrite
    by exact (store_write r g d s n Hs Hr id key _ _ g' d' n' Hk Hrun).
  rewrite (handle_run _ _ _ _ StoreService.HandlePut Hm) by reflexivity.
  unfold StoreService.HandlePut, respond, process_answer. run_call ltac:(by apply payload_run).
  rewrite (field_some _ "key" key) by done. rewrite (field_some _ "value" value) by done.
  run_call ltac:(apply validate_store). run_call ltac:(by apply request_region_run).
  destruct (region_id r =? id)%N;
    pose proof (on_backend_store (StoreNode.Put id key value) (Distributed.Put key value) (Multi.Put key value)
      (Cluster.Put key value) g d s _ _ _ _ Hwrite) as Hback;
    unfold mbind at 1, M_bind at 1; rewrite Hback; reflexivity.
Qed.

Lemma delete_at_leader key g' d' n' :
  rq_method request = "store.KvDelete" → rq_payload request = EncodeFields (delete_fields key id) →
  ContainsKey r key = true →
  Distributed.Delete key (g, (d, n)) = (Ok tt, (g', (d', n'))) →
  Handle store_rpc_server request asked = process_answer request r id (MakeRpcOk request "") asked
    (g', (d', over_store (Some (set_nodes {[region_id r := n']} s)))).
Proof.
  intros Hm Hp Hk Hrun.
  assert (StoreNode.Delete id key (g, (d, s)) = if (region_id r =? id)%N
    then (Ok tt, (g', (d', set_nodes {[region_id r := n']} s))) else (Err wrong_region, (g, (d, s)))) as Hwrite
    by exact (store_write r g d s n Hs Hr id key _ _ g' d' n' Hk Hrun).
  rewrite (handle_run _ _ _ _ StoreService.HandleDelete Hm) by reflexivity.
  unfold StoreService.HandleDelete, respond, process_answer. run_call ltac:(by apply payload_run).
  rewrite (field_some _ "key" key) by done.
  run_call ltac:(apply validate_store). run_call ltac:(by apply request_region_run).
  destruct (region_id r =? id)%N;
    pose proof (on_backend_store (StoreNode.Delete id key) (Distributed.Delete key) (Multi.Delete key)
      (Cluster.Delete key) g d s _ _ _ _ Hwrite) as Hback;
    unfold mbind at 1, M_bind at 1; rewrite Hback; reflexivity.
Qed.

Lemma get_at_leader key c v :
  rq_method request = "store.KvGet" → rq_payload request = EncodeFields (get_fields key c id) →
  ContainsKey r key = true →
  Distributed.Get key c (d, n) =
    (match v with Some v => Ok v | None => Err (key_not_found key) end, (d, n)) →
  Handle store_rpc_server request asked = process_answer request r id (read_answer key v request) asked asked.
Proof.
  intros Hm Hp Hk Hrun.
  pose proof (store_read r d s n Hs Hr id key c _ Hk Hrun) as Hread.
  rewrite (handle_run _ _ _ _ StoreService.HandleGet Hm) by reflexivity.
  unfold StoreService.HandleGet, respond, process_answer. run_call ltac:(by apply payload_run).
  rewrite (field_some _ "key" key) by done.
  run_call ltac:(apply validate_store). run_call ltac:(by apply request_region_run).
  unfold GetOr. assert (get_fields key c id !! "consistency" = Some (ConsistencyName c)) as -> by done.
  rewrite ConsistencyName_parse.
  destruct (region_id r =? id)%N; apply (in_process_run _ g) in Hread;
    apply (on_backend_store _ (in_process (Distributed.Get key c)) (Multi.Get key c) (leader_get key))
      in Hread; unfold mbind at 1, M_bind at 1; rewrite Hread; [by destruct v | reflexivity].
Qed.
End requests.

(** The process of the leading replica. *)
Definition leader_process r stores st p (k : nat) (d : Disk) (s : DistributedStoreNode)
    (raft : RaftNode) (m : DataMap) : Prop :=
  ∃ n, sn_regions s = {[region_id r := n]} ∧
    leads r stores st p k (replica_dir (sn_data_dir s) (region_id r)) (d, n) raft m.

Lemma leader_less r stores st p k d s raft m :
  leader_process r stores st p (S k) d s raft m → leader_process r stores st p k d s raft m.
Proof. intros (n & Hs & Hl). exists n. split; [done | by apply leads_less]. Qed.

Section operations.
Context (r : RegionInfo) (stores : list StoreInfo) (st : StoreInfo) (p : Peer).
Context (Hd : designated r st p).
Abbreviation others_follow raft g := (followers (region_id r) (log_ raft) (current_term_ raft) g).

(** Every operation at the process of the leader, [g] being the rest of the group. *)
Lemma op_at_leader k up (g : Group) d s raft m op :
  leader_process r stores st p (S k) d s raft m → dom g = up ∖ {[client_endpoint st]} →
  others_follow raft g → group_op r op → (is_write op = true → quorum r stores st p up) →
  ∃ g' d' s' raft', leader_process r stores st p k d' s' raft' (spec_client_step op m).2 ∧
    grows raft raft' ∧ dom g' = dom g ∧ others_follow raft' g' ∧
    ∀ request id, rq_method request = op_method op →
      rq_payload request = EncodeFields (op_fields op id) → (id < two64)%N →
      Handle store_rpc_server request (g, (d, over_store (Some s))) =
        process_answer request r id (op_answer op m request) (g, (d, over_store (Some s)))
          (g', (d', over_store (Some s'))).
Proof.
  intros Hproc Hg Hf (Hk & Hu & Hne) Hq. pose proof Hproc as (n & Hs & Hl).
  pose proof (leads_region _ _ _ _ _ _ _ _ _ Hl) as Hr.
  destruct op as [key v|key|key c]; cbn [op_key op_answer op_method op_fields spec_client_step snd] in *.
  - destruct (write_leads r stores st p Hd k up (replica_dir (sn_data_dir s) (region_id r)) g d n raft m (EncodePutCommand key v)
      [mkMutation kPut key v])
      as (g' & d' & n' & raft' & Hrun & Hl' & Hgrow & Hdom & Hf');
      [done | done | done | by apply Hq | by rewrite apply_put_command | by repeat constructor.. | done |].
    exists g', d', (set_nodes {[region_id r := n']} s), raft'. split; [by exists n'|].
    split; [done|]. split; [done|]. split; [done|]. intros request id Hm Hp Hid.
    exact (put_at_leader r g d s n Hs Hr request id Hid key v g' d' n' Hm Hp Hk Hrun).
  - destruct (write_leads r stores st p Hd k up (replica_dir (sn_data_dir s) (region_id r)) g d n raft m (EncodeDeleteCommand key)
      [mkMutation kDelete key ""])
      as (g' & d' & n' & raft' & Hrun & Hl' & Hgrow & Hdom & Hf');
      [done | done | done | by apply Hq | by rewrite apply_delete_command | by repeat constructor.. | done |].
    exists g', d', (set_nodes {[region_id r := n']} s), raft'. split; [by exists n'|].
    split; [done|]. split; [done|]. split; [done|]. intros request id Hm Hp Hid.
    exact (delete_at_leader r g d s n Hs Hr request id Hid key g' d' n' Hm Hp Hk Hrun).
  - exists g, d, s, raft. split; [by apply leader_less|]. split; [reflexivity|].
    split; [done|]. split; [done|]. intros request id Hm Hp Hid.
    pose proof (read_leads _ _ _ _ (S k) _ d n raft m key c Hl Hu) as Hrun.
    exact (get_at_leader r g d s n Hs Hr request id Hid key c (m !! key) Hm Hp Hk Hrun).
Qed.
End operations.

(** * The cluster *)

(** A call to a process of the group: while it is served, the others are its
    network. A process that dies of the call sends no response and is gone. *)
Definition group_serve (endpoint : Endpoint) (request : RpcRequest) (G : Group) : RpcResponse * Group :=
  match G !! endpoint with
  | None => refused request G
  | Some (d, s) =>
      match Handle store_rpc_server request (delete endpoint G, (d, over_store (Some s))) with
      | (Ok response, (g', (d', service))) =>
          (response, <[endpoint := (d', default s (distributed_store_ service))]> g')
      | (_, (g', _)) => (ErrorResponse request (IoError "socket read failed"), g')
      end
  end.

(** The network of the gateway: the driver at its address, the group at theirs. *)
Abbreviation ClusterWorld := (PdW * Group)%type.

Definition cluster_net (pd : Endpoint) : Transport ClusterWorld := λ endpoint request w,
  if decide (endpoint = pd) then
    let '(response, p) := answered request (Handle pd_rpc_server request w.1) in (response, (p, w.2))
  else let '(response, G) := group_serve endpoint request w.2 in (response, (w.1, G)).

Definition cluster_pd_client (pd : Endpoint) : PdClient Group.
Proof.
  refine {| pd_client := TcpRpcClient (Transport0 := cluster_net pd) pd |}.
  intros ????? Hr; unfold TcpRpcClient, tcp_call, cluster_net; cbn [fst snd].
  by rewrite decide_True, Hr.
Defined.

(** The processes of the group, running or stopped: the one at the leader's
    endpoint has the leading replica, the others follow it. *)
Definition serving (r : RegionInfo) stores (st : StoreInfo) (p : Peer) (k : nat) (all : Group)
    (raft : RaftNode) (m : DataMap) : Prop :=
  ∃ d s, all !! client_endpoint st = Some (d, s) ∧ leader_process r stores st p k d s raft m ∧
    followers (region_id r) (log_ raft) (current_term_ raft) (delete (client_endpoint st) all).

Section group.
Context (r : RegionInfo) (stores : list StoreInfo) (st : StoreInfo) (p : Peer).
Context (Hd : designated r st p).
Abbreviation leader := (client_endpoint st).

Lemma followers_union id log term (g g' : Group) :
  g ##ₘ g' →
  followers id log term (g ∪ g') ↔ followers id log term g ∧ followers id log term g'.
Proof.
  intros Hdisj. split; [|by intros []; apply map_Forall_union_2].
  by intros Hf%map_Forall_union.
Qed.

(** Every operation on the running processes [G], the processes [D] being stopped,
    whatever region the request names. *)
Lemma op_at_group k (G D : Group) raft m op :
  G ##ₘ D → leader ∈ dom G → serving r stores st p (S k) (G ∪ D) raft m →
  group_op r op → (is_write op = true → quorum r stores st p (dom G)) →
  ∃ G' raft', dom G' = dom G ∧ grows raft raft' ∧
    serving r stores st p k (G' ∪ D) raft' (spec_client_step op m).2 ∧
    ∀ request id, rq_method request = op_method op →
      rq_payload request = EncodeFields (op_fields op id) → (id < two64)%N →
      group_serve leader request G =
        if (region_id r =? id)%N then (op_answer op m request, G')
        else (StatusToRpcError request wrong_region, G).
Proof.
  intros Hdisj [w HG]%elem_of_dom (d & s & Hall & Hl & Hf) Hop Hq.
  assert (D !! leader = None) as HD by by eapply map_disjoint_Some_l.
  rewrite lookup_union_l in Hall by done. rewrite HG in Hall. injection Hall as ->.
  rewrite delete_union, (delete_id D) in Hf by done.
  apply followers_union in Hf as [Hf HfD]; [|by apply map_disjoint_delete_l].
  destruct (op_at_leader r stores st p Hd k (dom G) (delete leader G) d s raft m op Hl)
    as (g' & d' & s' & raft' & Hl' & Hgrow & Hdom & Hf' & Hhandle);
    [apply dom_delete_L | exact Hf | exact Hop | exact Hq |].
  assert (leader ∉ dom g') as Hg' by (rewrite Hdom, dom_delete_L; set_solver).
  apply not_elem_of_dom in Hg' as Hnone.
  assert (g' ##ₘ D) as Hdisj'.
  { apply map_disjoint_dom. apply map_disjoint_dom in Hdisj. rewrite Hdom, dom_delete_L. set_solver. }
  exists (<[leader := (d', s')]> g'), raft'. split_and!.
  - rewrite dom_insert_L, Hdom, dom_delete_L. apply elem_of_dom_2 in HG.
    by rewrite <-union_difference_singleton_L.
  - exact Hgrow.
  - exists d', s'. rewrite <-insert_union_l, lookup_insert_eq. split; [done|]. split; [done|].
    rewrite delete_insert_id by (by apply lookup_union_None).
    apply followers_union; [done|]. split; [done|]. by eapply followers_grow.
  - intros request id Hm Hp Hid. unfold group_serve. rewrite HG, (Hhandle request id Hm Hp Hid).
    unfold process_answer. destruct (_ =? _)%N; cbn [over_store distributed_store_ default]; [done|].
    by rewrite insert_delete_id.
Qed.
End group.

(** * Sessions *)

Section cluster.
Context (pd : Endpoint) (r : RegionInfo) (stores : list StoreInfo) (st : StoreInfo) (p : Peer).
Abbreviation leader := (client_endpoint st).
Context (Hapart : leader ≠ pd) (Hd : designated r st p).
Context (pdw : PdW) (Hpd : meta_ok (metadata_ pdw.2)) (Hfits : catalog_ok (metadata_ pdw.2))
        (Hboot : Pd.ListRegions (metadata_ pdw.2) ≠ []).
Context (store : RpcHandler ClusterWorld).
Local Existing Instance cluster_net.
Local Existing Instance cluster_pd_client.

(** A route that leads to the leader's process, under whatever region id. *)
Definition leader_route (e : RouteEntry) : Prop :=
  route_fits e ∧ client_endpoint (re_leader_store e) = leader.

(** The driver's routes for the keys of [r] name [r] and its leader. *)
Definition driver_knows : Prop :=
  ∀ key e, ContainsKey r key = true → driver_route pdw key e →
    region_id (re_region e) = region_id r ∧ client_endpoint (re_leader_store e) = leader.
Context (Hknows : driver_knows).

Lemma CallStoreAt_run at_store method fields G G' answer cache i :
  client_endpoint at_store = leader →
  (∀ request, rq_method request = method → rq_payload request = EncodeFields fields →
     group_serve leader request G = (answer request, G')) →
  ∃ rq, CallStoreAt (Transport0 := cluster_net pd) at_store method fields
      (at_gateway (PdClient0 := cluster_pd_client pd) pdw store true G cache i) =
    (Ok (answer rq), at_gateway (PdClient0 := cluster_pd_client pd) pdw store true G' cache (u64 (i + 1))).
Proof.
  intros Hst Hserve. eexists. unfold CallStoreAt, take_request_id, tcp, at_gateway, routed. run.
  unfold mbind, M_bind. cbn [fst snd]. rewrite Hst. unfold tcp_call, cluster_net at 1.
  rewrite decide_False by exact Hapart. cbn [fst snd]. rewrite Hserve by reflexivity. reflexivity.
Qed.

(** The driver's route leads to the leader. *)
Lemma driver_leads key e :
  ContainsKey r key = true → driver_route pdw key e →
  leader_route e ∧ region_id (re_region e) = region_id r.
Proof.
  intros Hk He. destruct (Hknows _ _ Hk He) as [Hid Hep].
  split; [split; [by eapply driver_route_fits | exact Hep] | exact Hid].
Qed.

(** A call for a key, to the process at the leader's endpoint. *)
Lemma call_at_leader op G G' answer :
  ContainsKey r (op_key op) = true →
  ∀ cache i id, cache_all leader_route cache →
  (∀ request, rq_method request = op_method op →
     rq_payload request = EncodeFields (op_fields op id) →
     group_serve leader request G = (answer request, G')) →
  ∃ rq cache' i',
    call_for_key (Transport0 := cluster_net pd) (op_method op) (op_key op) (op_fields op id)
      (at_gateway (PdClient0 := cluster_pd_client pd) pdw store true G cache i) =
    (Ok (answer rq), at_gateway (PdClient0 := cluster_pd_client pd) pdw store true G' cache' i') ∧
    cache_all leader_route cache'.
Proof.
  intros Hk cache i id Hc Hserve.
  destruct (ResolveRoute_run (PdClient0 := cluster_pd_client pd)
    pdw Hpd Hfits Hboot store true leader_route (op_key op) G cache i)
    as (e & cache' & i' & Hroute & Hc' & [_ Hep] & _); [by intros e [? _]%driver_leads | exact Hc |].
  destruct (CallStoreAt_run (re_leader_store e) (op_method op) (op_fields op id) G G' answer
    cache' i' Hep Hserve) as (rq & Hcall).
  exists rq, cache', (u64 (i' + 1)). split; [|exact Hc'].
  unfold call_for_key, the_client. run. cbn [snd at_gateway routed dynamic_store_routing_ negb].
  run_call ltac:(eapply status_of_ok, Hroute). exact Hcall.
Qed.

(** The processes at the endpoints [up] run, and [D] are stopped. *)
Section up.
Context (up : gset Endpoint) (D : Group) (Hup : leader ∈ up) (Hdown : up ## dom D).

Definition running (k : nat) (G : Group) (m : DataMap) : Prop :=
  dom G = up ∧ ∃ raft, serving r stores st p k (G ∪ D) raft m.
Definition op_ok (op : client_op) : Prop :=
  group_op r op ∧ (is_write op = true → quorum r stores st p up).

Lemma cluster_step k G m op :
  op_ok op → running (S k) G m →
  ∃ G' a, (∀ e, driver_route pdw (op_key op) e → leader_route e ∧ region_id (re_region e) = a) ∧
    reaches (Transport0 := cluster_net pd) (PdClient0 := cluster_pd_client pd) pdw store true
      leader_route wrong_region op a G G' (op_answer op m) ∧
    running k G' (spec_client_step op m).2.
Proof.
  intros [Hop Hq] [HG (raft & Hserving)].
  destruct (op_at_group r stores st p Hd k G D raft m op)
    as (G' & raft' & Hdom & _ & Hserving' & Hserve);
    [by apply map_disjoint_dom; rewrite HG | by rewrite HG | done | done | by rewrite HG |].
  exists G', (region_id r). split; [intros e He; exact (driver_leads _ e (proj1 Hop) He)|].
  split; [|split; [by rewrite Hdom | by exists raft']]. intros cache i id Hc Hid.
  destruct (call_at_leader op G (if (region_id r =? id)%N then G' else G)
    (λ rq, if (region_id r =? id)%N then op_answer op m rq else StatusToRpcError rq wrong_region)
    (proj1 Hop) cache i id Hc) as (rq & cache' & i' & Hcall & Hc').
  { intros request Hm Hp. rewrite (Hserve request id Hm Hp Hid). by destruct (_ =? _)%N. }
  exists rq, cache', i'. split; [exact Hcall | exact Hc'].
Qed.

Definition cluster_store :
    KvStore (Transport0 := cluster_net pd) (PdClient0 := cluster_pd_client pd) pdw store true := {|
  kv_route := leader_route;
  kv_refusal := wrong_region;
  kv_ok := op_ok;
  kv_serves := running;
  kv_route_fits e He := proj1 He;
  kv_refusal_stale rq := eq_refl;
  kv_step k s g op Hok Hs := cluster_step k s g op Hok Hs;
|}.
End up.
End cluster.
