(* ===== verification/Recovery.v ===== *)
(** A group of store processes from nothing, and a group whose processes stop
    and start again on their directories while clients of the gateway go on: what
    was acknowledged is there after every restart, the leader's included. *)

From S2P Require Import Prelude Types Text Codec Service Engine Raft RaftStorage Keyspace RaftWire.
From S2P Require Import Cluster ClusterSpec Region StoreNode Pd PdSpec PdSafety PdCatalog Multi MultiSpec MultiRegion.
From S2P Require Import Gateway GatewaySpec PdService Distributed Tcp DistributedSpec NodeRestart Replication.
From S2P Require Import StoreService Group RpcGateway GatewayService KvSession RpcSession Cli Config Processes Liveness.
From S2P Require Import GroupSession.

(** * A process that starts *)

Lemma hosts_peer st r p : local_peer_of st r = Some p → hosts (store_id st) r = true.
Proof.
  unfold local_peer_of, FindPeerByStore, hosts. intros [Hin Hp]%List.find_some.
  apply existsb_exists. by exists p.
Qed.

(** The process hosts the region's replica that its directory has. *)
Lemma process_start dir st stores r p d d' n :
  local_peer_of st r = Some p →
  Distributed.Bootstrap dir st stores r (d, new_node) = (Ok tt, (d', n)) →
  StoreNode.Bootstrap dir st stores [r] (d, new_store_node) =
    (Ok tt, (d', mkStoreNode st stores dir {[region_id r := n]})).
Proof.
  intros Hp Hrun. unfold StoreNode.Bootstrap. rewrite decide_False by done. run. cbn [fst snd].
  assert (bootstrap_nodes [r] (d, mkStoreNode st stores dir ∅) =
    (Ok tt, (d', mkStoreNode st stores dir {[region_id r := n]}))) as Hnodes.
  { unfold bootstrap_nodes, mbind, M_bind, the_store, gets. cbn [snd sn_local_store].
    rewrite (hosts_peer st r p Hp). cbn [negb]. unfold on_new_node, modify.
    cbn [sn_data_dir sn_local_store sn_stores]. rewrite Hrun. reflexivity. }
  run_call ltac:(exact Hnodes). unfold the_store. run. cbn [snd sn_regions].
  by rewrite decide_False by apply map_non_empty_singleton.
Qed.

(** * A group from nothing *)

Section start.
Context (r : RegionInfo) (stores : list StoreInfo).

(** A process that has just started, on a directory without this region. *)
Definition started (st : StoreInfo) (w : Disk * DistributedStoreNode) : Prop :=
  ∃ dir d, disk_ok d ∧ files d !! path_join (node_dir dir r) "kv.log" = None ∧
    StoreNode.Bootstrap dir st stores [r] (d, new_store_node) = (Ok tt, w).

(** The replica a store starts. *)
Definition new_replica (st : StoreInfo) (p : Peer) (e : FileKvEngine) : DistributedRegionNode :=
  booted st stores r p e (fresh_raft p r).

Lemma new_node_start dir st p d :
  disk_ok d → files d !! path_join (node_dir dir r) "kv.log" = None → local_peer_of st r = Some p →
  ∃ d' e, StoreNode.Bootstrap dir st stores [r] (d, new_store_node) =
      (Ok tt, (d', mkStoreNode st stores dir {[region_id r := new_replica st p e]})) ∧
    node_kept (node_dir dir r) (d', new_replica st p e) (fresh_raft p r) ∧ data_ e = ∅.
Proof.
  intros Hd Hf Hp. destruct (Bootstrap_fresh dir st stores r p d Hd Hf Hp) as (d' & e & Hrun & Hgood & He).
  exists d', e. split; [by apply (process_start dir st stores r p)|]. split; [|done].
  split; [exact Hgood|]. by right.
Qed.

Lemma started_replica st w p :
  started st w → local_peer_of st r = Some p →
  ∃ dir e, w.2 = mkStoreNode st stores dir {[region_id r := new_replica st p e]} ∧
    node_kept (node_dir dir r) (w.1, new_replica st p e) (fresh_raft p r) ∧ data_ e = ∅.
Proof.
  intros (dir & d & Hd & Hf & Hrun) Hp.
  destruct (new_node_start dir st p d Hd Hf Hp) as (d' & e & Hrun' & Hgood & He).
  rewrite Hrun in Hrun'. apply pair_equal_spec in Hrun' as [_ ->]. by exists dir, e.
Qed.

(** A group of processes that have just started, the leader's store [st] among
    them. *)
Lemma started_serving (G : Group) st p k :
  map_Forall (λ _ w, ∃ st p, started st w ∧ local_peer_of st r = Some p) G →
  designated r st p → (∃ w, G !! client_endpoint st = Some w ∧ started st w) → (N.of_nat k < two64)%N →
  serving r stores st p k G (fresh_raft p r) ∅.
Proof.
  intros HG [Hr Hps Hp Hlead] ((d & s) & Hw & Hst) Hk.
  destruct (started_replica st (d, s) p Hst Hp) as (dir & e & Hs & Hkept & He). cbn [fst snd] in *.
  exists d, s. split; [exact Hw|]. rewrite Hs. split.
  - exists (new_replica st p e). split; [done|].
    split; [by split_and! | exact Hkept | done | done | split; [constructor | done] | done | done |].
    cbn [snd new_replica booted dn_engine]. by rewrite He.
  - intros ep w [_ Hep]%lookup_delete_Some. destruct (HG ep w Hep) as (st' & p' & Hst' & Hp').
    destruct (started_replica st' w p' Hst' Hp') as (dir' & e' & Hs' & Hkept' & _).
    exists (fresh_raft p' r). split; [|by split]. rewrite Hs'. by exists (new_replica st' p' e').
Qed.
End start.

(** * A process that starts again *)

Section restart.
Context (r : RegionInfo) (stores : list StoreInfo).

Lemma node_restart st p d s n raft :
  sn_regions s = {[region_id r := n]} → node_kept (replica_dir (sn_data_dir s) (region_id r)) (d, n) raft →
  region_id_ raft = region_id r → local_peer_of st r = Some p →
  ∃ d', let n' := booted st stores r p (dn_engine n) (restarted r p raft) in
    let s' := mkStoreNode st stores (sn_data_dir s) {[region_id r := n']} in
    StoreNode.Bootstrap (sn_data_dir s) st stores [r] (d, new_store_node) = (Ok tt, (d', s')) ∧
    node_kept (replica_dir (sn_data_dir s') (region_id r)) (d', n') (restarted r p raft).
Proof.
  intros Hs Hkept Hid Hp.
  destruct (Bootstrap_kept (sn_data_dir s) st stores r p d n raft Hkept (eq_sym Hid) Hp) as (d' & Hrun & Hkept').
  exists d'. split; [by apply (process_start _ st stores r p)|]. exact Hkept'.
Qed.

(** A follower is back with its log and term. *)
Lemma follower_restart log term st p d s :
  follows (region_id r) log term (d, s) → local_peer_of st r = Some p →
  ∃ w, StoreNode.Bootstrap (sn_data_dir s) st stores [r] (d, new_store_node) = (Ok tt, w) ∧
    follows (region_id r) log term w.
Proof.
  intros (raft & (n & Hs & Hkept & Hid) & Hlog & Hterm) Hp.
  destruct (node_restart st p d s n raft Hs Hkept Hid Hp) as (d' & Hrun & Hkept').
  eexists. split; [exact Hrun|]. exists (restarted r p raft). split; [|by split].
  eexists. split; [reflexivity|]. split; [exact Hkept' | done].
Qed.

(** And so is the leader, as a follower the region names. *)
Lemma leader_restart st p k d s raft m :
  designated r st p → leader_process r stores st p k d s raft m →
  ∃ d' s', StoreNode.Bootstrap (sn_data_dir s) st stores [r] (d, new_store_node) = (Ok tt, (d', s')) ∧
    leader_process r stores st p k d' s' (restarted r p raft) m.
Proof.
  intros [_ _ Hp _] (n & Hs & [(Hr & _) Hkept Hself Ha Hord Ht Hl Hm]). cbn [snd booted dn_region] in *.
  pose proof (ng_region _ _ _ (proj1 Hkept)) as Hid. cbn [snd] in Hid. rewrite Hr in Hid.
  destruct (node_restart st p d s n raft Hs Hkept Hid Hp) as (d' & Hrun & Hkept').
  do 2 eexists. split; [exact Hrun|]. eexists. split; [reflexivity|].
  split; [by split_and! | exact Hkept' | done | exact Ha | exact Hord | exact Ht | exact Hl | exact Hm].
Qed.
End restart.

(** * Processes that stop and start under a client *)

(** What happens to the cluster: a client asks, a store's process stops between
    two requests, or starts again on its directory. *)
Inductive event :=
  | Asks (op : client_op)
  | Stops (s : StoreInfo)
  | Starts (s : StoreInfo).

Section events.
Context (r : RegionInfo) (stores : list StoreInfo).

(** What the client sees; [stopped] are the processes that do not run, as they
    were. *)
Fixpoint cluster_events `{!Transport ClusterWorld} (evs : list event) (stopped : Group)
    (w : ClusterWorld * RpcGatewayClient ClusterWorld) : list (res (option string)) :=
  match evs with
  | [] => []
  | Asks op :: rest => let '(q, w') := rpc_step op w in q :: cluster_events rest stopped w'
  | Stops s :: rest =>
      let '((driver, G), gateway) := w in
      match G !! client_endpoint s with
      | None => cluster_events rest stopped w
      | Some process =>
          cluster_events rest (<[client_endpoint s := process]> stopped)
            ((driver, delete (client_endpoint s) G), gateway)
      end
  | Starts s :: rest =>
      let '((driver, G), gateway) := w in
      match stopped !! client_endpoint s with
      | None => cluster_events rest stopped w
      | Some (d, node) =>
          match StoreNode.Bootstrap (sn_data_dir node) s stores [r] (d, new_store_node) with
          | (Ok _, process) =>
              cluster_events rest (delete (client_endpoint s) stopped)
                ((driver, <[client_endpoint s := process]> G), gateway)
          | (_, (d', _)) => cluster_events rest (<[client_endpoint s := (d', node)]> stopped) w
          end
      end
  end.

Context (st : StoreInfo) (p : Peer).
Abbreviation leader := (client_endpoint st).

(** What is expected: one map, which no process keeps anybody from while the
    leader's runs; without it, an error and nothing else. *)
Definition unreachable : res (option string) :=
  Err (mkStatus kRpcError "RPC_ERROR: failed to connect tcp rpc server").

Fixpoint spec_events (evs : list event) (up : gset Endpoint) (m : DataMap) : list (res (option string)) :=
  match evs with
  | [] => []
  | Asks op :: rest =>
      if decide (leader ∈ up) then
        let '(q, m') := spec_client_step op m in over_rpc q :: spec_events rest up m'
      else unreachable :: spec_events rest up m
  | Stops s :: rest => spec_events rest (up ∖ {[client_endpoint s]}) m
  | Starts s :: rest => spec_events rest ({[client_endpoint s]} ∪ up) m
  end.

(** The events: clients ask for keys of the region, for writes only while the
    leader is down or a majority runs, and the stores of [members] that start have
    a peer in the region. *)
Fixpoint events_ok (members : gset Endpoint) (evs : list event) (up : gset Endpoint) : Prop :=
  match evs with
  | [] => True
  | Asks op :: rest =>
      group_op r op ∧ (leader ∈ up → is_write op = true → quorum r stores st p up) ∧
      events_ok members rest up
  | Stops s :: rest => events_ok members rest (up ∖ {[client_endpoint s]})
  | Starts s :: rest =>
      client_endpoint s ∈ members ∧ (client_endpoint s = leader → s = st) ∧
      (∃ p', local_peer_of s r = Some p') ∧ events_ok members rest ({[client_endpoint s]} ∪ up)
  end.

(** The state: every process, running or stopped, is as [serving] says. *)
Definition kept (members : gset Endpoint) (k : nat) (G D : Group) (m : DataMap) : Prop :=
  G ##ₘ D ∧ dom G ∪ dom D = members ∧ ∃ raft, serving r stores st p k (G ∪ D) raft m.

Lemma serving_less k (all : Group) raft m :
  serving r stores st p (S k) all raft m → serving r stores st p k all raft m.
Proof.
  intros (d & s & Hall & Hl & Hf). exists d, s. split; [done|]. split; [by apply leader_less | done].
Qed.

Lemma kept_less members k G D m : kept members (S k) G D m → kept members k G D m.
Proof. intros (? & ? & raft & Hs%serving_less). split_and!; [done | done | by exists raft]. Qed.

Lemma union_moved (G D : Group) ep w : G !! ep = Some w → delete ep G ∪ <[ep := w]> D = G ∪ D.
Proof.
  intros HG. rewrite <-insert_union_r by apply lookup_delete_eq.
  by rewrite insert_union_l, insert_delete_id.
Qed.

Lemma kept_stops members k (G D : Group) m ep w :
  kept members k G D m → G !! ep = Some w → kept members k (delete ep G) (<[ep := w]> D) m.
Proof.
  intros (Hdisj & Hdom & Hserving) HG. pose proof (elem_of_dom_2 _ _ _ HG) as Hin.
  split; [|split; [|by rewrite union_moved]].
  - apply map_disjoint_insert_r. split; [apply lookup_delete_eq | by apply map_disjoint_delete_l].
  - rewrite dom_delete_L, dom_insert_L, <-Hdom, union_assoc_L. f_equal.
    by rewrite union_comm_L, <-union_difference_singleton_L.
Qed.

(** A process of another state at the endpoint. *)
Lemma union_restarted (G D : Group) ep w :
  G !! ep = None → <[ep := w]> G ∪ delete ep D = <[ep := w]> (G ∪ D).
Proof.
  intros HG. apply map_eq. intros j. destruct (decide (ep = j)) as [<- | Hne].
  - rewrite lookup_insert_eq. by apply lookup_union_Some_l, lookup_insert_eq.
  - rewrite lookup_insert_ne by done. by rewrite !lookup_union, lookup_insert_ne, lookup_delete_ne.
Qed.

Lemma serving_restart k (all : Group) raft m s d node :
  designated r st p → serving r stores st p k all raft m → all !! client_endpoint s = Some (d, node) →
  (client_endpoint s = leader → s = st) → (∃ p', local_peer_of s r = Some p') →
  ∃ w raft', StoreNode.Bootstrap (sn_data_dir node) s stores [r] (d, new_store_node) = (Ok tt, w) ∧
    serving r stores st p k (<[client_endpoint s := w]> all) raft' m.
Proof.
  intros Hd (d0 & s0 & Hall & Hl & Hf) Hs Hst (p' & Hp').
  destruct (decide (client_endpoint s = leader)) as [Heq | Hne].
  - rewrite (Hst Heq) in *. rewrite Hall in Hs. injection Hs as <- <-.
    destruct (leader_restart r stores st p k d0 s0 raft m Hd Hl) as (d' & s' & Hrun & Hl').
    exists (d', s'), (restarted r p raft). split; [exact Hrun|].
    exists d', s'. rewrite lookup_insert_eq. split; [done|]. split; [exact Hl'|].
    by rewrite delete_insert_eq.
  - destruct (follower_restart r stores (log_ raft) (current_term_ raft) s p' d node) as (w & Hrun & Hw);
      [|exact Hp'|].
    { apply (Hf (client_endpoint s)). by rewrite lookup_delete_ne. }
    exists w, raft. split; [exact Hrun|]. exists d0, s0. rewrite lookup_insert_ne by done.
    split; [done|]. split; [exact Hl|]. rewrite delete_insert_ne by done. by apply map_Forall_insert_2.
Qed.

Lemma kept_starts members k (G D : Group) m s d node :
  designated r st p → kept members k G D m → D !! client_endpoint s = Some (d, node) →
  (client_endpoint s = leader → s = st) → (∃ p', local_peer_of s r = Some p') →
  ∃ w, StoreNode.Bootstrap (sn_data_dir node) s stores [r] (d, new_store_node) = (Ok tt, w) ∧
    kept members k (<[client_endpoint s := w]> G) (delete (client_endpoint s) D) m.
Proof.
  intros Hd (Hdisj & Hdom & raft & Hserving) HD Hst Hp.
  assert (G !! client_endpoint s = None) as HG by by eapply map_disjoint_Some_r.
  destruct (serving_restart k (G ∪ D) raft m s d node Hd Hserving) as (w & raft' & Hrun & Hserving');
    [by rewrite lookup_union_r | exact Hst | exact Hp |].
  exists w. split; [exact Hrun|]. pose proof (elem_of_dom_2 _ _ _ HD) as Hin. split; [|split].
  - apply map_disjoint_insert_l. split; [apply lookup_delete_eq | by apply map_disjoint_delete_r].
  - rewrite dom_delete_L, dom_insert_L, <-Hdom, <-union_assoc_L, union_comm_L, <-union_assoc_L. f_equal.
    by rewrite union_comm_L, <-union_difference_singleton_L.
  - exists raft'. by rewrite union_restarted.
Qed.
End events.

(** * The clients *)

Section clients.
Context (pd : Endpoint) (r : RegionInfo) (stores : list StoreInfo) (st : StoreInfo) (p : Peer).
Abbreviation leader := (client_endpoint st).
Context (Hapart : leader ≠ pd) (Hd : designated r st p).
Context (pdw : PdW) (Hpd : meta_ok (metadata_ pdw.2)) (Hfits : catalog_ok (metadata_ pdw.2))
        (Hboot : Pd.ListRegions (metadata_ pdw.2) ≠ []).
Context (store : RpcHandler ClusterWorld) (Hknows : driver_knows r st pdw).
Local Existing Instance cluster_net.
Abbreviation gateway_at := (at_gateway (PdClient0 := cluster_pd_client pd) pdw store true).
Abbreviation step := (rpc_step (Transport0 := cluster_net pd)).

Definition no_connection (rq : RpcRequest) : RpcResponse :=
  MakeRpcError rq (ErrorCodeName kRpcError) "failed to connect tcp rpc server".

(** Without the leader's process a request fails to connect, and is not tried
    again. *)
Lemma request_refused {A} op (G : Group)
    (f : RpcResponse → IO (ClusterWorld * RpcGatewayClient ClusterWorld) A) cache i :
  ContainsKey r (op_key op) = true → G !! leader = None → cache_all (leader_route st) cache →
  ∃ rq cache' i', cache_all (leader_route st) cache' ∧
    (route ← RpcGateway.ResolveRoute (op_key op);
     response ← CallStoreWithRouteRetry (Transport0 := cluster_net pd) (op_method op) (op_key op)
       (op_fields op (region_id (re_region route)));
     f response) (gateway_at G cache i) = f (no_connection rq) (gateway_at G cache' i').
Proof.
  intros Hk HG Hc.
  destruct (ResolveRoute_run (PdClient0 := cluster_pd_client pd) pdw Hpd Hfits Hboot store true
    (leader_route st) (op_key op) G cache i) as (e & cache1 & i1 & Hroute & Hc1 & _ & _);
    [by intros e [? _]%(driver_leads r st pdw Hpd Hfits Hboot Hknows _ e Hk) | exact Hc |].
  destruct (call_at_leader pd r st Hapart pdw Hpd Hfits Hboot store Hknows op G G no_connection Hk
    cache1 i1 (region_id (re_region e)) Hc1) as (rq & cache2 & i2 & Hrun & Hc2).
  { intros request _ _. unfold group_serve. by rewrite HG. }
  exists rq, cache2, i2. split; [exact Hc2|]. run_call ltac:(exact Hroute).
  run_call ltac:(unfold CallStoreWithRouteRetry; run_call ltac:(exact Hrun); reflexivity). reflexivity.
Qed.

Lemma step_refused op (G : Group) cache i :
  ContainsKey r (op_key op) = true → G !! leader = None → cache_all (leader_route st) cache →
  ∃ cache' i', step op (gateway_at G cache i) = (unreachable, gateway_at G cache' i') ∧
    cache_all (leader_route st) cache'.
Proof.
  intros Hk HG Hc. destruct op as [key v|key|key c]; unfold rpc_step.
  - destruct (request_refused (CPut key v) G (λ response, lift (RpcToStatus response)) cache i Hk HG Hc)
      as (rq & cache' & i' & Hc' & Hrun). exists cache', i'. split; [|exact Hc'].
    unfold RpcGateway.Put. cbn [op_key op_method op_fields] in Hrun. unfold put_fields in Hrun.
    rewrite Hrun. reflexivity.
  - destruct (request_refused (CDelete key) G (λ response, lift (RpcToStatus response)) cache i Hk HG Hc)
      as (rq & cache' & i' & Hc' & Hrun). exists cache', i'. split; [|exact Hc'].
    unfold RpcGateway.Delete. cbn [op_key op_method op_fields] in Hrun. unfold delete_fields in Hrun.
    rewrite Hrun. reflexivity.
  - destruct (request_refused (CGet key c) G (λ response, _ ← lift (RpcToStatus response);
      response_fields ← lift (DecodeFields (rs_payload response));
      mret (field response_fields "value")) cache i Hk HG Hc)
      as (rq & cache' & i' & Hc' & Hrun). exists cache', i'. split; [|exact Hc'].
    unfold RpcGateway.Get. cbn [op_key op_method op_fields] in Hrun. unfold get_fields in Hrun.
    rewrite Hrun. reflexivity.
Qed.

(** With it, a request is answered from the map. *)
Lemma step_served members k (G D : Group) m op cache i :
  kept r stores st p members (S k) G D m → leader ∈ dom G → group_op r op →
  (is_write op = true → quorum r stores st p (dom G)) → cache_all (leader_route st) cache →
  ∃ G' cache' i',
    step op (gateway_at G cache i) = (over_rpc (spec_client_step op m).1, gateway_at G' cache' i') ∧
    dom G' = dom G ∧ kept r stores st p members k G' D (spec_client_step op m).2 ∧
    cache_all (leader_route st) cache'.
Proof.
  intros (Hdisj & Hdom & raft & Hserving) Hup Hop Hq Hc. apply map_disjoint_dom in Hdisj as Hdown.
  destruct (rpc_step_serves (Transport0 := cluster_net pd) (PdClient0 := cluster_pd_client pd)
    pdw Hpd Hfits Hboot store true
    (KvStore0 := cluster_store pd r stores st p Hapart Hd pdw Hpd Hfits Hboot store Hknows (dom G) D Hup Hdown)
    k G m op cache i) as (G' & cache' & i' & Hrun & [HG' (raft' & Hserving')] & Hc');
    [by split | split; [done | by exists raft] | exact Hc |].
  exists G', cache', i'. split; [exact Hrun|]. split; [exact HG'|]. split; [|exact Hc'].
  split; [by apply map_disjoint_dom; rewrite HG'|]. split; [by rewrite HG'|]. by exists raft'.
Qed.

Lemma events_served members evs : ∀ (G D : Group) m cache i,
  kept r stores st p members (length evs) G D m → events_ok r stores st p members evs (dom G) →
  cache_all (leader_route st) cache →
  cluster_events (Transport0 := cluster_net pd) r stores evs D (gateway_at G cache i) = spec_events st evs (dom G) m.
Proof.
  induction evs as [|[op | s | s] evs IH]; intros G D m cache i Hkept Hok Hc; [done|..];
    cbn [cluster_events spec_events events_ok length] in *.
  - destruct Hok as (Hop & Hq & Hok). case_decide as Hup.
    + destruct (step_served members (length evs) G D m op cache i Hkept Hup Hop (Hq Hup) Hc)
        as (G' & cache' & i' & -> & HG' & Hkept' & Hc').
      destruct (spec_client_step op m) as [q m']. cbn [fst snd] in *. f_equal.
      rewrite <-HG'. apply IH; [exact Hkept' | by rewrite HG' | exact Hc'].
    + destruct (step_refused op G cache i (proj1 Hop)) as (cache' & i' & -> & Hc');
        [by apply not_elem_of_dom | exact Hc |].
      f_equal. apply IH; [by apply kept_less | exact Hok | exact Hc'].
  - apply kept_less in Hkept. unfold at_gateway at 1. destruct (G !! client_endpoint s) as [w|] eqn:HG.
    + rewrite <-dom_delete_L in Hok |- *. apply IH; [by apply kept_stops | exact Hok | exact Hc].
    + assert (dom G ∖ {[client_endpoint s]} = dom G) as Hsame
        by (apply not_elem_of_dom in HG; set_solver).
      rewrite Hsame in Hok |- *. exact (IH G D m cache i Hkept Hok Hc).
  - destruct Hok as (Hin & Hst & Hp & Hok). apply kept_less in Hkept. unfold at_gateway at 1.
    destruct (D !! client_endpoint s) as [[d node]|] eqn:HD.
    + destruct (kept_starts r stores st p members (length evs) G D m s d node Hd Hkept HD Hst Hp)
        as (w & -> & Hkept').
      rewrite <-(dom_insert_L G _ w) in Hok |- *. exact (IH _ _ m cache i Hkept' Hok Hc).
    + assert ({[client_endpoint s]} ∪ dom G = dom G) as Hsame.
      { destruct Hkept as (_ & Hdom & _). apply not_elem_of_dom in HD. set_solver. }
      rewrite Hsame in Hok |- *. exact (IH G D m cache i Hkept Hok Hc).
Qed.
End clients.

(** C10: Processes of a replicated cluster may stop and start again, and clients
    read one map. A gateway with dynamic routing, the placement driver behind its
    RPC service, and the store processes that replicate a region; between the
    clients' puts, deletes and reads of keys of the region, processes stop and are
    started again on their directories, the leader's included, in any order. The
    keys lack the prefix [raft/], no write is of the empty key, and every write that
    is asked for while the leader's process runs finds a majority of the processes
    running (without one it fails and leaves an entry that may still be committed
    later). Then every operation asked for while the leader's process runs returns
    what a single map returns, that map being what the leader's engine holds for users at the start
    and going on over all restarts; while it does not run, an operation fails to
    connect and changes nothing. The cached routes may name any region: the process
    refuses a request for a region it does not host, and the retry with the
    driver's route succeeds. *)
Theorem cluster_recovers pd r stores st p pdw raft (G D : Group) store cache i evs m :
  client_endpoint st ≠ pd → designated r st p →
  pd_reachable pdw → catalog_ok (metadata_ pdw.2) → Pd.ListRegions (metadata_ pdw.2) ≠ [] →
  driver_knows r st pdw → G ##ₘ D → serving r stores st p (length evs) (G ∪ D) raft m →
  cache_all (leader_route st) cache → events_ok r stores st p (dom G ∪ dom D) evs (dom G) →
  cluster_events (Transport0 := cluster_net pd) r stores evs D
    (at_gateway (PdClient0 := cluster_pd_client pd) pdw store true G cache i) =
  spec_events st evs (dom G) m.
Proof.
  intros Hapart Hd Hpd%reachable_meta_ok Hfits Hboot Hknows Hdisj Hserving Hc Hok.
  apply (events_served pd r stores st p Hapart Hd pdw Hpd Hfits Hboot store Hknows (dom G ∪ dom D));
    [|exact Hok | exact Hc].
  split; [exact Hdisj|]. split; [done | by exists raft].
Qed.
