(* ===== verification/Stack.v ===== *)
(** A cluster from nothing: the three processes of src/main.cpp started on fresh
    directories end in the state whose sessions read as one map, and what the
    command line client prints against them is what a map would. *)

From S2P Require Import Prelude Types Text Logging Codec Service Engine Raft RaftStorage Keyspace.
From S2P Require Import Cluster ClusterSpec Region StoreNode Pd PdSpec PdSafety PdCatalog Multi MultiSpec MultiRegion.
From S2P Require Import Gateway GatewaySpec PdService Distributed Tcp StoreService RpcGateway GatewayService KvSession RpcSession.
From S2P Require Import Cli Config StatusJson Dashboard Processes.

(** * A fresh directory *)

Definition fresh (dir : string) (d : Disk) : Prop :=
  ∀ path, starts_with dir path = true → files d !! path = None.

Lemma below_starts dir path : below dir path = true → starts_with dir path = true.
Proof.
  unfold below. intros [_ [Hp | Hp]%orb_true_iff]%andb_true_iff.
  - apply bool_decide_eq_true in Hp as ->. rewrite <-(sapp_nil_r dir) at 2. apply starts_with_app.
  - apply starts_with_split in Hp as (t & ->). unfold path_join. case_decide as Hdir.
    { rewrite Hdir. apply (starts_with_app ""). }
    destruct (ends_with_slash dir); rewrite !sapp_assoc; apply starts_with_app.
Qed.

Lemma remove_fresh {S} dir d (s : S) :
  disk_ok d → fresh dir d → remove_all dir (d, s) = (Ok tt, (d, s)).
Proof.
  intros Hd Hf. rewrite remove_all_ok by done. do 2 f_equal. destruct d as [fs faults].
  unfold set_files. f_equal. apply map_filter_id. intros path text Hp. cbn [fst].
  destruct (below dir path) eqn:Hb; [|done]. apply below_starts, Hf in Hb. cbn in Hb. congruence.
Qed.

Lemma fresh_catalog dir d : fresh dir d → files d !! region_catalog_path dir = None.
Proof.
  intros Hf. apply Hf. unfold region_catalog_path, path_join.
  case_decide as Hdir; [rewrite Hdir; apply (starts_with_app "")|].
  destruct (ends_with_slash dir); apply starts_with_app.
Qed.

Lemma fresh_region dir id d : fresh dir d → fresh (region_dir dir id) d.
Proof.
  intros Hf path (t & ->)%starts_with_split. apply Hf. unfold region_dir.
  rewrite !sapp_assoc. apply starts_with_app.
Qed.

(** On a fresh directory there is nothing to keep or to reset. *)
Lemma Cluster_Bootstrap_fresh dir n r d c :
  disk_ok d → fresh dir d →
  Cluster.Bootstrap dir n r false (d, c) = Cluster.Bootstrap dir n r true (d, c).
Proof.
  intros Hd Hf. unfold Cluster.Bootstrap. case_decide; [done|]. unfold update. run. cbn [fst snd].
  by rewrite (bind_ok (remove_all dir) _ _ _ _ (remove_fresh dir d _ Hd Hf)).
Qed.

Lemma Multi_Bootstrap_fresh dir n r d m :
  dir ≠ "" → disk_ok d → fresh dir d →
  Multi.Bootstrap dir n [r] false (d, m) = Multi.Bootstrap dir n [r] true (d, m).
Proof.
  intros Hne Hd Hf. unfold Multi.Bootstrap. rewrite !decide_False by done.
  unfold update_multi. run. cbn [fst snd].
  rewrite (bind_ok (remove_all dir) _ _ _ _ (remove_fresh dir d _ Hd Hf)).
  do 2 (rewrite (bind_ok (create_directories_throwing dir) _ _ _ _ (create_directories_throwing_ok dir d _ Hne Hd));
        cbv beta iota).
  run. cbn [fst snd].
  assert (∀ m0, mc_data_dir m0 = dir →
    RegionCatalogExists (d, m0) = (Ok false, (d, m0))) as Hexists.
  { intros m0 Hm0. unfold RegionCatalogExists. run_call ltac:(by apply io_throwing_ok).
    unfold gets. cbn [fst snd]. rewrite Hm0, fresh_catalog by done. done. }
  run_call ltac:(by apply Hexists). run. cbn [fst snd]. unfold the_multi. run.
  cbn [snd mc_regions set_regions set_clusters bootstrap_regions].
  unfold mbind, M_bind, the_multi, gets, on_new_cluster. cbn [snd mc_data_dir set_regions set_clusters].
  by rewrite Cluster_Bootstrap_fresh by (done || by apply fresh_region).
Qed.

Lemma default_region_partition : partition [default_region].
Proof.
  split.
  - intros key. exists default_region. split; [apply list_elem_of_here|].
    apply ContainsKey_spec. split; [apply leb_empty | by left].
  - by intros r1 r2 key ->%list_elem_of_singleton ->%list_elem_of_singleton.
  - apply NoDup_singleton.
Qed.

(** * The driver *)

(** The tables after a store without an id has registered. *)
Definition registered (s : StoreInfo) (m : PdMetadataStore) : PdMetadataStore :=
  add_store_record (with_store_id (next_store_id_ m) s) (AllocStoreId m).2.

Lemma RegisterStore_new d m dir s :
  disk_ok d → store_id s = 0%N → next_store_id_ m ≠ 0%N →
  ∃ d', RegisterStore s (d, mkPd m dir) =
      (Ok (with_store_id (next_store_id_ m) s), (d', mkPd (registered s m) dir)) ∧ disk_ok d'.
Proof.
  intros Hd Hs Hm. destruct (Persist_any d (mkPd (registered s m) dir) Hd) as (d' & Hrun & Hd').
  exists d'. split; [|done]. unfold RegisterStore. rewrite decide_True by done.
  run_call ltac:(run_call ltac:(by apply on_meta_run); reflexivity).
  run_call ltac:(by apply on_meta_run, PutStore_run).
  by run_call ltac:(exact Hrun).
Qed.

Definition pd_address (config : Config) : Endpoint :=
  mkEndpoint (GetStringOr "pd.host" "127.0.0.1" config) (Config.GetIntOr "pd.client_port" 7000 config).

(** The network of a process that starts next to the driver. *)
Definition pd_net (pd : Endpoint) : Transport PdW := λ endpoint request w,
  if decide (endpoint = pd) then answered request (Handle pd_rpc_server request w)
  else refused request w.

Section store.
Context (pd : Endpoint) (config : Config) (store_disk : Disk).
Context (Hport : (0 <= Config.GetIntOr "store.client_port" 8101 config < 65534)%Z).
Existing Instance pd_net.

(** The [i]-th store of the process. *)
Definition new_store (i : nat) : StoreInfo :=
  mkStore 0 default_endpoint
    (mkEndpoint (GetStringOr "store.host" "127.0.0.1" config)
       (Config.GetIntOr "store.client_port" 8101 config + Z.of_nat i)) "Up" ∅ 0.

Lemma CallRpc_pd method fields id (w w' : PdW) lines (response : RpcRequest → RpcResponse) :
  (∀ request, rq_method request = method → rq_payload request = EncodeFields fields →
     Handle pd_rpc_server request w = (Ok (response request), w')) →
  ∃ request, CallRpc (Transport0 := pd_net pd) pd method fields id ((w, store_disk), lines) =
    (Ok (response request), ((w', store_disk), lines)).
Proof.
  intros Hh. eexists. unfold CallRpc, tcp_call, pd_net. rewrite decide_True by done.
  by rewrite Hh by done.
Qed.

Lemma decoded_store_run {Net} request s (w : (Net * Disk) * list Line) :
  store_ok s → labels s = ∅ →
  decoded_store (MakeRpcOk request (EncodeFields (PutStoreFields ∅ s ""))) w = (Ok s, w).
Proof.
  intros Hs Hl. destruct w as [w lines].
  unfold decoded_store, or_exit, lift, mbind, M_bind. cbn [rs_payload MakeRpcOk].
  rewrite DecodeFields_encode. cbn [mret M_ret].
  rewrite (GetStoreFields_agrees _ _ s); [|apply agrees_put_all, store_fields_nodup|done].
  by rewrite wire_store_id.
Qed.

Lemma register_step i rest d m dir lines :
  i ≤ 2 → disk_ok d → (0 < next_store_id_ m < two64)%N →
  ∃ d', disk_ok d' ∧
    register_stores (Transport0 := pd_net pd) pd config (i :: rest)
      (((d, mkPd m dir), store_disk), lines) =
    (stores ← register_stores (Transport0 := pd_net pd) pd config rest;
     mret (with_store_id (next_store_id_ m) (new_store i) :: stores))
      (((d', mkPd (registered (new_store i) m) dir), store_disk), lines).
Proof.
  intros Hi Hd Hm.
  destruct (RegisterStore_new d m dir (new_store i) Hd eq_refl) as (d' & Hrun & Hd'); [lia|].
  exists d'. split; [done|]. cbn [register_stores].
  assert (- two31 <= Config.GetIntOr "store.client_port" 8101 config + Z.of_nat i < two31)%Z as Hfits
    by (unfold two31; lia).
  assert (store_ok (new_store i)) as Hstore by (split; [done|]; split; [done|]; by split).
  unfold int_add. rewrite decide_True by done. rewrite lift_ok_bind. fold (new_store i).
  edestruct (CallRpc_pd "pd.RegisterStore" (PutStoreFields ∅ (new_store i) "")
    ("store-register-" +:+ to_string (N.of_nat i)) (d, mkPd m dir)
    (d', mkPd (registered (new_store i) m) dir) lines
    (λ rq, MakeRpcOk rq (EncodeFields (PutStoreFields ∅
       (with_store_id (next_store_id_ m) (new_store i)) "")))) as (rq & Hcall).
  { intros rq Hmethod Hp. rewrite (register_handled (new_store i)) by done.
    apply respond_run. run_call ltac:(exact Hrun). reflexivity. }
  run_call ltac:(exact Hcall). cbn [MakeRpcOk rs_ok rs_payload negb].
  run_call ltac:(apply decoded_store_run; [split; [cbn; lia | apply Hstore] | reflexivity]).
  reflexivity.
Qed.
(** The driver's tables once the three stores have registered, and once the
    default region is there. *)
Definition one_store : PdMetadataStore := registered (new_store 0) new_metadata.
Definition two_stores : PdMetadataStore := registered (new_store 1) one_store.
Definition three_stores : PdMetadataStore := registered (new_store 2) two_stores.
Definition booted : PdMetadataStore :=
  add_region_record whole_space (mkMeta 4 2 4 (stores_ three_stores) ∅ ∅).

Lemma three_peers s1 s2 s3 :
  let stores := <[3%N := s3]> (<[2%N := s2]> (<[1%N := s1]> ∅)) in
  new_peers [1; 2; 3]%N (mkMeta 4 2 1 stores ∅ ∅) =
    (Ok (peers whole_space), mkMeta 4 2 4 stores ∅ ∅).
Proof. vm_compute. reflexivity. Qed.

Lemma Bootstrap_new d dir :
  disk_ok d →
  ∃ d', BootstrapDefaultRegion [1; 2; 3]%N (d, mkPd three_stores dir) =
      (Ok tt, (d', mkPd booted dir)) ∧ disk_ok d'.
Proof.
  intros Hd. destruct (Persist_any d (mkPd booted dir) Hd) as (d' & Hrun & Hd').
  exists d'. split; [|done]. unfold BootstrapDefaultRegion, the_meta. run. cbn [snd metadata_].
  change (ListRegions three_stores) with (@nil RegionInfo).
  rewrite bool_decide_eq_true_2 by done. cbn [negb]. rewrite decide_False by done.
  run_call ltac:(by apply on_meta_run).
  pose proof (three_peers (with_store_id 1 (new_store 0)) (with_store_id 2 (new_store 1))
    (with_store_id 3 (new_store 2))) as Hpeers. cbv zeta in Hpeers.
  run_call ltac:(apply on_meta_run; exact Hpeers).
  change (mkRegion _ "" "" (mkEpoch 1 1) (peers whole_space) _) with whole_space.
  run_call ltac:(by apply on_meta_run, PutRegion_run). exact Hrun.
Qed.

Lemma booted_meta_ok : meta_ok booted.
Proof.
  destruct (RegisterStore_new (mkDisk ∅ []) new_metadata "" (new_store 0) eq_refl eq_refl)
    as (d1 & H1 & Hd1); [done|].
  fold one_store in H1.
  destruct (RegisterStore_new d1 one_store "" (new_store 1) Hd1 eq_refl) as (d2 & H2 & Hd2); [done|].
  fold two_stores in H2.
  destruct (RegisterStore_new d2 two_stores "" (new_store 2) Hd2 eq_refl) as (d3 & H3 & Hd3); [done|].
  fold three_stores in H3. destruct (Bootstrap_new d3 "" Hd3) as (d4 & H4 & _).
  assert (pd_reachable (d4, mkPd booted "")) as Hreach.
  { replace (d4, mkPd booted "") with (run_op (DoBootstrap [1; 2; 3]%N) (d3, mkPd three_stores ""))
      by (cbn [run_op]; by rewrite H4).
    apply pd_next; [|split; [apply (bool_decide_unpack _); vm_compute; exact I | done]].
    replace (d3, mkPd three_stores "") with (run_op (DoRegisterStore (new_store 2))
      (d2, mkPd two_stores ""))
      by (cbn [run_op]; by rewrite H3).
    apply pd_next; [|done].
    replace (d2, mkPd two_stores "") with (run_op (DoRegisterStore (new_store 1))
      (d1, mkPd one_store "")) by (cbn [run_op]; by rewrite H2).
    apply pd_next; [|done].
    replace (d1, mkPd one_store "") with (run_op (DoRegisterStore (new_store 0))
      (mkDisk ∅ [], mkPd new_metadata "")) by (cbn [run_op]; by rewrite H1).
    apply pd_next; [apply pd_start | done]. }
  apply (reachable_meta_ok _ Hreach).
Qed.

Lemma new_store_ok i id : i ≤ 2 → (id < two64)%N → store_ok (with_store_id id (new_store i)).
Proof.
  intros Hi Hid. unfold store_ok. cbn [with_store_id new_store store_id raft_endpoint
    client_endpoint last_heartbeat_ms port default_endpoint]. unfold two31, two63. lia.
Qed.

Lemma booted_lists : ListRegions booted ≠ [].
Proof. discriminate. Qed.

Lemma booted_catalog_ok : catalog_ok booted.
Proof.
  assert (map_Forall (λ _ s, store_ok s) (stores_ booted)) as Hs.
  { repeat apply map_Forall_insert_2; [apply new_store_ok; [lia | done]..|]. apply map_Forall_empty. }
  assert (map_Forall (λ _ r, region_ok r) (regions_ booted)) as Hr
    by (apply (bool_decide_unpack _); vm_compute; exact I).
  split; [by vm_compute | by vm_compute | exact Hs | exact Hr].
Qed.
(** ** The store process *)

Lemma register_three d dir lines :
  disk_ok d →
  ∃ d', disk_ok d' ∧
    register_stores (Transport0 := pd_net pd) pd config [0; 1; 2]
      (((d, mkPd new_metadata dir), store_disk), lines) =
    (Ok [with_store_id 1 (new_store 0); with_store_id 2 (new_store 1);
         with_store_id 3 (new_store 2)],
     (((d', mkPd three_stores dir), store_disk), lines)).
Proof.
  intros Hd.
  destruct (register_step 0 [1; 2] d new_metadata dir lines) as (d1 & Hd1 & H1); [lia | done | done |].
  destruct (register_step 1 [2] d1 one_store dir lines) as (d2 & Hd2 & H2); [lia | done | done |].
  destruct (register_step 2 [] d2 two_stores dir lines) as (d3 & Hd3 & H3); [lia | done | done |].
  fold one_store in H1. fold two_stores in H2. fold three_stores in H3.
  exists d3. split; [done|]. rewrite H1. erewrite bind_ok.
  2: { rewrite H2. erewrite bind_ok; [reflexivity|]. rewrite H3. reflexivity. }
  reflexivity.
Qed.

Lemma small_ids : Forall (λ id, id < two64)%N [1; 2; 3]%N.
Proof. by repeat constructor. Qed.

Lemma bootstrap_request s1 s2 s3 :
  bootstrap_fields [with_store_id 1 s1; with_store_id 2 s2; with_store_id 3 s3] =
  (op_request (DoBootstrap [1; 2; 3]%N)).2.
Proof. reflexivity. Qed.

Lemma RunStoreService_run kernel bound_port k d dir lines :
  GetStringOr "store.data_dir" "./data/store1" config ≠ "" → disk_ok d → disk_ok store_disk → (N.of_nat k + 1 < two64)%N →
  GetStringOr "store.mode" "" config ≠ "distributed" →
  fresh (GetStringOr "store.data_dir" "./data/store1" config) store_disk →
  ParseEndpoint (E := Z) (GetStringOr "pd.endpoints" "127.0.0.1:7000" config) 7000 = Ok pd →
  Tcp.Start kernel (Some (store_rpc_server (Net := PdW) (Transport0 := pd_net pd)))
    (GetStringOr "store.host" "127.0.0.1" config)
    (Config.GetIntOr "store.client_port" 8101 config) = Ok bound_port →
  ∃ d' store_disk' m lines',
    RunStoreService (Transport0 := pd_net pd) kernel config
      (((d, mkPd new_metadata dir), store_disk), lines) =
    (Ok (over_multi (Some m), store_rpc_server (Transport0 := pd_net pd), bound_port),
     (((d', mkPd booted dir), store_disk'), lines')) ∧
    disk_ok store_disk' ∧ serves k m ∅ ∧ mc_regions m = [default_region].
Proof.
  intros Hdir Hd Hsd Hk Hmode Hfresh Hpd Hstart. unfold RunStoreService.
  rewrite decide_False by exact Hmode.
  run_call ltac:(unfold pd_endpoint, lift; by rewrite Hpd).
  destruct (register_three d dir lines Hd) as (d3 & Hd3 & Hreg). run_call ltac:(exact Hreg).
  destruct (Bootstrap_new d3 dir Hd3) as (d4 & Hboot & _). rewrite bootstrap_request.
  destruct (CallRpc_pd "pd.BootstrapDefaultRegion" (op_request (DoBootstrap [1; 2; 3]%N)).2
    "store-bootstrap" (d3, mkPd three_stores dir) (d4, mkPd booted dir) lines
    (λ rq, MakeRpcOk rq "")) as (rq & Hcall).
  { intros rq Hm Hp. rewrite (bootstrap_handled [1; 2; 3]%N rq _ eq_refl small_ids Hm Hp).
    apply respond_run. run_call ltac:(exact Hboot). reflexivity. }
  run_call ltac:(exact Hcall). cbn [MakeRpcOk rs_ok negb].
  destruct (Bootstrap_serves k (GetStringOr "store.data_dir" "./data/store1" config) 3
    [default_region] store_disk new_multi default_region_partition Hdir Hsd)
    as (sd' & m & Hmulti & Hsd' & Hs & Hregs); [done | done|].
  rewrite <-Multi_Bootstrap_fresh in Hmulti by done.
  exists d4, sd', m. eexists. split; [|done].
  run_call ltac:(unfold or_exit, on_object; rewrite Hmulti; reflexivity).
  unfold serve_store. run_call ltac:(unfold or_exit, lift; by rewrite RegisterHandlers_store).
  run_call ltac:(unfold or_exit, lift; by rewrite Hstart). reflexivity.
Qed.
End store.

(** * The other two processes *)

Lemma RunPdService_run {Net} `{!Transport Net} kernel config bound_port (net : Net) d lines :
  GetStringOr "pd.data_dir" "./data/pd1" config ≠ "" →
  disk_ok d → files d !! catalog_path (GetStringOr "pd.data_dir" "./data/pd1" config) = None →
  Tcp.Start kernel (Some pd_rpc_server) (GetStringOr "pd.host" "127.0.0.1" config)
    (Config.GetIntOr "pd.client_port" 7000 config) = Ok bound_port →
  ∃ d' lines',
    RunPdService kernel config ((net, d), lines) =
      (Ok (mkPd new_metadata (GetStringOr "pd.data_dir" "./data/pd1" config), pd_rpc_server,
           bound_port), ((net, d'), lines')) ∧ disk_ok d'.
Proof.
  intros Hdir Hd Hf Hstart. set (dir := GetStringOr "pd.data_dir" "./data/pd1" config) in *.
  destruct (Persist_any d (mkPd new_metadata dir) Hd) as (d' & Hrun & Hd').
  exists d'. eexists. split; [|done]. unfold RunPdService. fold dir.
  assert (Pd.Open dir (d, new_pd) = (Ok tt, (d', mkPd new_metadata dir))) as Hopen.
  { unfold Pd.Open. run. cbn [fst snd]. run_call ltac:(by apply create_directories_throwing_ok). run.
    cbn [fst snd]. rewrite bool_decide_eq_true_2 by done. exact Hrun. }
  run_call ltac:(unfold or_exit, on_object; rewrite Hopen; reflexivity).
  run_call ltac:(unfold or_exit, lift; by rewrite RegisterHandlers_fresh).
  run_call ltac:(unfold or_exit, lift; by rewrite Hstart). reflexivity.
Qed.

(** The network of the gateway's process: the driver and the store, each at its
    address; and that of a client. *)
Definition stack_net (pd store : Endpoint) : Transport World := λ endpoint request w,
  if decide (endpoint = pd) then
    let '(response, p) := answered request (Handle pd_rpc_server request w.1) in
    (response, (p, w.2))
  else if decide (endpoint = store) then
    let '(response, s) := answered request (Handle store_rpc_server request w.2) in
    (response, (w.1, s))
  else refused request w.

Definition front_net {Net} (net : Transport Net) (gateway : Endpoint) :
    Transport (Net * RpcGatewayClient Net) := λ endpoint request w,
  if decide (endpoint = gateway) then
    answered request (Handle (gateway_rpc_server (Transport0 := net)) request w)
  else refused request w.

Lemma front_net_at {Net} (net : Transport Net) gateway :
  GatewayAt (Transport0 := net) (Transport1 := front_net net gateway) gateway.
Proof.
  intros request w r w' Hr. unfold tcp_call, front_net. by rewrite decide_True, Hr.
Qed.

Definition gateway_net (pd store gateway : Endpoint) : Transport SessionW :=
  front_net (stack_net pd store) gateway.

(** Clients over TCP. *)
Definition tcp_pd_client (pd store : Endpoint) : PdClient StoreProcess.
Proof.
  refine {| pd_client := TcpRpcClient (Transport0 := stack_net pd store) pd |}.
  intros ????? Hr; unfold TcpRpcClient, tcp_call, stack_net; cbn [fst snd].
  by rewrite decide_True, Hr.
Defined.
Definition tcp_clients (pd store : Endpoint) (Hne : pd ≠ store) : Clients.
Proof.
  refine {|
    clients_pd := tcp_pd_client pd store;
    store_client := TcpRpcClient (Transport0 := stack_net pd store) store;
  |}.
  intros ????? Hr; unfold TcpRpcClient, tcp_call, stack_net; cbn [fst snd].
  by rewrite decide_False, decide_True, Hr.
Defined.

(** The dashboard of a gateway, when its configuration asks for one. *)
Definition dashboard_up {Net} (kernel : Kernel) (config : Config) (g : RpcGatewayClient Net)
    (bound : option Z) : Prop :=
  if decide (GetStringOr "dashboard.enabled" "false" config = "true") then
    ∃ port, bound = Some port ∧
      Dashboard.Start kernel (Some g) (GetStringOr "dashboard.host" "127.0.0.1" config)
        (Config.GetIntOr "dashboard.port" 9090 config) = Ok port
  else bound = None.

Lemma RunGatewayService_listens {Net} `{!Transport Net} kernel dashboard_kernel config pd store bound_port
    dashboard (w : Net * Disk) lines :
  let g := new_rpc_gateway (Some (TcpRpcClient pd)) (Some (TcpRpcClient store))
    (bool_decide (GetStringOr "gateway.store_routing" "" config = "dynamic")) in
  dashboard_up dashboard_kernel config g dashboard →
  ParseEndpoint (E := Z) (GetStringOr "pd.endpoints" "127.0.0.1:7000" config) 7000 = Ok pd →
  ParseEndpoint (E := Z) (GetStringOr "store.endpoint" "127.0.0.1:8101" config) 8101 = Ok store →
  Tcp.Start kernel (Some gateway_rpc_server) (GetStringOr "gateway.host" "127.0.0.1" config)
    (Config.GetIntOr "gateway.http_port" 18080 config) = Ok bound_port →
  ∃ lines', RunGatewayService kernel dashboard_kernel config (w, lines) =
    (Ok (g, gateway_rpc_server, bound_port, dashboard), (w, lines')).
Proof.
  intros g Hdash Hpd Hstore Hstart. unfold dashboard_up in Hdash. destruct w as [net d].
  unfold RunGatewayService.
  case_decide; [destruct Hdash as (port & -> & Hport) | subst dashboard]; eexists;
    (run_call ltac:(unfold pd_endpoint, lift; by rewrite Hpd); rewrite Hstore, lift_ok_bind; fold g;
     run_call ltac:(unfold or_exit, lift; by rewrite RegisterHandlers_gateway);
     run_call ltac:(unfold or_exit, lift; by rewrite Hstart);
     unfold info, log; run).
  - run_call ltac:(run_call ltac:(unfold or_exit, lift; by rewrite Hport); run; reflexivity).
    reflexivity.
  - reflexivity.
Qed.

Lemma RunGatewayService_run kernel dashboard_kernel config pd store Hne bound_port w lines :
  GetStringOr "gateway.store_routing" "" config ≠ "dynamic" →
  GetStringOr "dashboard.enabled" "false" config ≠ "true" →
  ParseEndpoint (E := Z) (GetStringOr "pd.endpoints" "127.0.0.1:7000" config) 7000 = Ok pd →
  ParseEndpoint (E := Z) (GetStringOr "store.endpoint" "127.0.0.1:8101" config) 8101 = Ok store →
  Tcp.Start kernel (Some (gateway_rpc_server (Transport0 := stack_net pd store)))
    (GetStringOr "gateway.host" "127.0.0.1" config)
    (Config.GetIntOr "gateway.http_port" 18080 config) = Ok bound_port →
  ∃ lines',
    RunGatewayService (Transport0 := stack_net pd store) kernel dashboard_kernel config (w, lines) =
    (Ok (gateway (clients := tcp_clients pd store Hne) ∅ 1,
         gateway_rpc_server (Transport0 := stack_net pd store), bound_port, None), (w, lines')).
Proof.
  intros Hroute Hdash Hpd Hstore Hstart.
  destruct (RunGatewayService_listens (Transport0 := stack_net pd store) kernel dashboard_kernel config
    pd store bound_port None w lines) as (lines' & Hrun); [|exact Hpd | exact Hstore | exact Hstart |].
  { unfold dashboard_up. by rewrite decide_False by exact Hdash. }
  exists lines'. rewrite Hrun, bool_decide_eq_false_2 by exact Hroute. reflexivity.
Qed.

(** * The whole stack *)

(** The kernel opens the port a process asks for at an address. *)
Definition listens {S} (kernel : Kernel) (server : RpcServer S) (address : string) (port' : Z)
    (endpoint : Endpoint) : Prop :=
  Tcp.Start kernel (Some server) address port' = Ok (port endpoint) ∧ host endpoint = address.

(** Configurations that name the addresses the processes listen at; one process
    simulates the stores, the gateway has one store, there is no dashboard. *)
Record configured (kp ks kg : Kernel) (pc sc gc : Config) (pd store gw : Endpoint) : Prop := {
  cf_pd : listens kp pd_rpc_server (GetStringOr "pd.host" "127.0.0.1" pc)
            (Config.GetIntOr "pd.client_port" 7000 pc) pd;
  cf_store : listens ks (store_rpc_server (Transport0 := pd_net pd))
               (GetStringOr "store.host" "127.0.0.1" sc)
               (Config.GetIntOr "store.client_port" 8101 sc) store;
  cf_gateway : listens kg (gateway_rpc_server (Transport0 := stack_net pd store))
                 (GetStringOr "gateway.host" "127.0.0.1" gc)
                 (Config.GetIntOr "gateway.http_port" 18080 gc) gw;
  cf_store_pd : ParseEndpoint (E := Z)
    (GetStringOr "pd.endpoints" "127.0.0.1:7000" sc) 7000 = Ok pd;
  cf_gateway_pd : ParseEndpoint (E := Z)
    (GetStringOr "pd.endpoints" "127.0.0.1:7000" gc) 7000 = Ok pd;
  cf_gateway_store : ParseEndpoint (E := Z)
    (GetStringOr "store.endpoint" "127.0.0.1:8101" gc) 8101 = Ok store;
  cf_pd_dir : GetStringOr "pd.data_dir" "./data/pd1" pc ≠ "";
  cf_store_dir : GetStringOr "store.data_dir" "./data/store1" sc ≠ "";
  cf_apart : pd ≠ store;
  cf_ports : (0 <= Config.GetIntOr "store.client_port" 8101 sc < 65534)%Z;
  cf_mode : GetStringOr "store.mode" "" sc ≠ "distributed";
  cf_routing : GetStringOr "gateway.store_routing" "" gc ≠ "dynamic";
  cf_dashboard : GetStringOr "dashboard.enabled" "false" gc ≠ "true";
}.

(** The driver, the regions and the gateway agree once they have started. *)
Lemma fresh_same_regions config (m : MultiRegionCluster) :
  (0 <= Config.GetIntOr "store.client_port" 8101 config < 65534)%Z →
  mc_regions m = [default_region] → same_regions (booted config) m.
Proof.
  intros Hport Hm. apply same_ranges; [by apply booted_meta_ok | discriminate | |].
  - rewrite Hm. exact default_region_partition.
  - by rewrite Hm.
Qed.

(** C7: A cluster started from nothing is one map at the command line. On empty
    directories, with configurations that name each other's addresses, the
    driver's process, the store's and the gateway's each reach the point where
    they listen: the stores are registered, the default region bootstrapped, a
    leader elected. Every later sequence of [put], [delete] and [get] invocations
    of the client whose keys are not the program's own (no prefix [raft/],
    [region/], [pd/] or [local/]), a [put] not of the empty key, exits and prints,
    invocation by invocation, as a single map that starts empty would, a missing key
    being an error on the error stream. (No layer refuses the others; a [put] of the
    empty key stores its value as a key.) *)
Theorem fresh_stack_is_one_map kp ks kg kd pc sc gc pd store gw d_pd d_store d_gw program text ops :
  configured kp ks kg pc sc gc pd store gw →
  disk_ok d_pd → files d_pd !! catalog_path (GetStringOr "pd.data_dir" "./data/pd1" pc) = None →
  disk_ok d_store → fresh (GetStringOr "store.data_dir" "./data/store1" sc) d_store →
  Cli.ParseEndpoint text = Ok gw → Forall session_ok ops → (N.of_nat (length ops) + 1 < two64)%N →
  ∃ (pdw0 pdw : PdW) (store_w : Disk * StoreService) g lines1 lines2 lines3,
    RunPdService kp pc ((tt, d_pd), []) =
      (Ok (pdw0.2, pd_rpc_server, port pd), ((tt, pdw0.1), lines1)) ∧
    RunStoreService (Transport0 := pd_net pd) ks sc ((pdw0, d_store), []) =
      (Ok (store_w.2, store_rpc_server (Transport0 := pd_net pd), port store),
       ((pdw, store_w.1), lines2)) ∧
    RunGatewayService (Transport0 := stack_net pd store) kg kd gc (((pdw, (tt, store_w)), d_gw), []) =
      (Ok (g, gateway_rpc_server (Transport0 := stack_net pd store), port gw, None),
       (((pdw, (tt, store_w)), d_gw), lines3)) ∧
    invocations (Transport0 := gateway_net pd store gw) program (command_line text <$> ops)
      ((pdw, (tt, store_w)), g) =
      (λ r, printed (over_rpc r)) <$> spec_session ops ∅.
Proof.
  intros [[Hp _] [Hs _] [Hg _] Hsp Hgp Hgs Hpdir Hsdir Hne Hports Hmode Hroute Hdash] Hdp Hcat Hds Hfresh
    Htext Hok Hlen.
  set (dir := GetStringOr "pd.data_dir" "./data/pd1" pc) in *.
  destruct (RunPdService_run kp pc (port pd) tt d_pd [] Hpdir Hdp Hcat Hp) as (d1 & lines1 & Hpd & Hd1).
  destruct (RunStoreService_run pd sc d_store Hports ks (port store) (length ops) d1 dir []
    Hsdir Hd1 Hds Hlen Hmode Hfresh Hsp Hs) as (d2 & sd & m & lines2 & Hstore & Hsd & Hserves & Hregs).
  destruct (RunGatewayService_run kg kd gc pd store Hne (port gw)
    (((d2, mkPd (booted sc) dir), (tt, (sd, over_multi (Some m)))), d_gw) []
    Hroute Hdash Hgp Hgs Hg) as (lines3 & Hgw).
  exists (d1, mkPd new_metadata dir), (d2, mkPd (booted sc) dir), (sd, over_multi (Some m)).
  eexists. exists lines1, lines2, lines3.
  split; [exact Hpd|]. split; [exact Hstore|]. split; [exact Hgw|].
  apply (invocations_serve (W := StoreProcess) (Transport0 := stack_net pd store)
    (Transport1 := gateway_net pd store gw) (PdClient0 := tcp_pd_client pd store)
    (d2, mkPd (booted sc) dir) (booted_meta_ok sc) (booted_catalog_ok sc Hports)
    (booted_lists sc) (TcpRpcClient (Transport0 := stack_net pd store) store) false
    (KvStore0 := regions_store (H := tcp_clients pd store Hne) (d2, mkPd (booted sc) dir) (booted_meta_ok sc)
       (booted_catalog_ok sc Hports) (booted_lists sc))
    gw (GatewayAt0 := front_net_at (stack_net pd store) gw) program text ops Htext 0).
  - exact Hok.
  - rewrite Nat.add_0_r. exists sd, m. split_and!; [done | exact Hsd | exact Hserves |].
    by apply fresh_same_regions.
  - apply map_Forall_empty.
Qed.

(** Configurations that leave everything to the defaults, and kernels that grant
    every port. *)
Definition no_settings : Config := mkConfig ∅.
Definition open_kernel : Kernel :=
  mkKernel true (λ _, true) (λ _ _, true) (λ _ port, Some port) true.
Definition local (port : Z) : Endpoint := mkEndpoint "127.0.0.1" port.

Lemma default_configured :
  configured open_kernel open_kernel open_kernel no_settings no_settings no_settings
    (local 7000) (local 8101) (local 18080).
Proof. split; first [discriminate | split; reflexivity | reflexivity | split; [discriminate | reflexivity]]. Qed.

(** The gateway demo of the program succeeds. *)
Example demo_exits_zero :
  (RunGatewayDemo (Net := unit) (A := unit) ((tt, mkDisk ∅ []), [])).1 = Err 0%Z.
Proof. vm_compute. reflexivity. Qed.

(** A store of the distributed mode, alone in its cluster, comes up with the
    default region. *)
Definition single_store : Config :=
  mkConfig (<["store.mode" := "distributed"]> (<["cluster.store_count" := "1"]> ∅)).
Example distributed_store_starts :
  match (RunStoreService (Transport0 := pd_net (local 7000)) open_kernel single_store
           (((mkDisk ∅ [], mkPd new_metadata "pd"), mkDisk ∅ []), [])).1 with
  | Ok (service, _, bound) =>
      bound = 8101%Z ∧
      (StoreNode.ListRegions <$> distributed_store_ service) =
        Some [mkRegion 1 "" "" (mkEpoch 1 1) [mkPeer 1 1 kVoter] 1]
  | _ => False
  end.
Proof. vm_compute. split; reflexivity. Qed.

(** A restart of the process that simulates the stores registers them again,
    under new ids: the driver lists six stores, three of which nothing serves. *)
Definition started_twice : result Z unit * ((PdW * Disk) * list Line) :=
  let start := RunStoreService (Transport0 := pd_net (local 7000)) open_kernel no_settings in
  (_ ← start; _ ← start; mret tt) (((mkDisk ∅ [], mkPd new_metadata "pd"), mkDisk ∅ []), []).
Lemma restart_registers_again :
  started_twice.1 = Ok tt ∧
  store_id <$> ListStores (metadata_ started_twice.2.1.1.2) = [1; 2; 3; 4; 5; 6]%N ∧
  (λ r, peer_store_id <$> peers r) <$> Pd.ListRegions (metadata_ started_twice.2.1.1.2) = [[1; 2; 3]%N].
Proof. vm_compute. split_and!; reflexivity. Qed.

Definition cli_session : list client_op :=
  [CPut "city" "paris"; CGet "city" kLinearizable; CDelete "city"; CGet "city" kEventual].

Lemma fresh_stack_is_one_map_witness :
  ∃ pdw store_w g,
    invocations (Transport0 := gateway_net (local 7000) (local 8101) (local 18080)) "rstone-cli"
      [["--endpoint"; "127.0.0.1:18080"; "put"; "city"; "paris"];
       ["--endpoint"; "127.0.0.1:18080"; "get"; "city"; "linearizable"];
       ["--endpoint"; "127.0.0.1:18080"; "delete"; "city"];
       ["--endpoint"; "127.0.0.1:18080"; "get"; "city"; "eventual"]]
      ((pdw, (tt, store_w)), g) =
    [(Ok 0%Z, mkConsole ("OK" +:+ newline) "");
     (Ok 0%Z, mkConsole ("paris" +:+ newline) "");
     (Ok 0%Z, mkConsole ("OK" +:+ newline) "");
     (Ok 1%Z, mkConsole "" ("RPC_ERROR: KEY_NOT_FOUND: key not found: city" +:+ newline))].
Proof.
  destruct (fresh_stack_is_one_map open_kernel open_kernel open_kernel open_kernel
    no_settings no_settings no_settings (local 7000) (local 8101) (local 18080)
    (mkDisk ∅ []) (mkDisk ∅ []) (mkDisk ∅ []) "rstone-cli" "127.0.0.1:18080" cli_session
    default_configured) as (pdw0 & pdw & store_w & g & l1 & l2 & l3 & _ & _ & _ & H).
  - reflexivity.
  - reflexivity.
  - reflexivity.
  - intros path _. reflexivity.
  - reflexivity.
  - repeat constructor; discriminate.
  - reflexivity.
  - exists pdw, store_w, g. exact H.
Defined.
