(* ===== verification/GroupStart.v ===== *)
(** The distributed mode from nothing: the store processes of src/main.cpp, each
    of which registers with the placement driver, waits for the others, has the
    default region bootstrapped and starts its replica, while the others do the
    same between its calls; and the cluster they become. *)

From S2P Require Import Prelude Types Text Codec Service Engine Raft RaftStorage Keyspace RaftWire.
From S2P Require Import Cluster ClusterSpec Region StoreNode Pd PdSpec PdSafety PdCatalog Multi MultiSpec MultiRegion.
From S2P Require Import Gateway GatewaySpec PdService Distributed Tcp DistributedSpec NodeRestart Replication.
From S2P Require Import StoreService Group RpcGateway GatewayService KvSession RpcSession Cli Config StatusJson Dashboard Processes.
From S2P Require Import Liveness GroupSession Recovery Stack.

(** * The driver's status, decoded *)

Lemma fmap_indices {A} (f : N → A) l :
  (∀ j x, l !! j = Some x → f (N.of_nat j) = x) → f <$> indices (N.of_nat (length l)) = l.
Proof.
  intros Hf. unfold indices. rewrite Nat2N.id, <-list_fmap_compose.
  apply list_eq. intros j. rewrite list_lookup_fmap.
  destruct (l !! j) as [x|] eqn:Hj.
  - rewrite lookup_seq_lt by by apply lookup_lt_Some in Hj. cbn. f_equal. by apply Hf.
  - rewrite lookup_seq_ge by by apply lookup_ge_None in Hj. done.
Qed.

Lemma store_not_region i j n n' : Key (indexed "store" i) n ≠ Key (indexed "region" j) n'.
Proof. rewrite !Key_prefix by apply indexed_not_empty. discriminate. Qed.

Lemma DecodePdStatus_run {E} request m known :
  catalog_ok m → (∀ id s, stores_ m !! id = Some s → labels s = ∅) →
  DecodePdStatus (E := E) (MakeRpcOk request (EncodeFields (PdService.status_fields m))) known =
    Ok (true, (ListStores m, Pd.ListRegions m)).
Proof.
  intros [_ [Hns Hnr] Hs Hr] Hl. unfold DecodePdStatus. cbn [MakeRpcOk rs_ok rs_payload negb].
  rewrite DecodeFields_encode. unfold PdService.status_fields.
  set (f0 := <["region_count" := _]> _). set (fs := put_indexed PutStoreFields "store" 0 _ f0).
  set (f := put_indexed PutRegionFields "region" 0 _ fs).
  assert (∀ k, str_all (λ c, negb (Ascii.eqb c ".")) k = true → f !! k = f0 !! k) as Hplain.
  { intros k Hk. unfold f, fs.
    rewrite (put_indexed_notin PutRegionFields region_fields "region" (λ _ _ _, eq_refl))
      by (intros; by apply plain_not_indexed).
    by rewrite (put_indexed_notin PutStoreFields store_fields "store" (λ _ _ _, eq_refl))
      by (intros; by apply plain_not_indexed). }
  assert (length (ListStores m) = size (stores_ m)) as Hls
    by (unfold ListStores; by rewrite length_fmap, kvs_length).
  assert (length (Pd.ListRegions m) = size (regions_ m)) as Hlr
    by (unfold Pd.ListRegions; by rewrite length_fmap, kvs_length).
  rewrite (field_u64_some f "store_count" (N.of_nat (length (ListStores m))))
    by (by rewrite ?Hplain || by rewrite Hls). cbn [mbind result_bind].
  rewrite (field_u64_some f "region_count" (N.of_nat (length (Pd.ListRegions m))))
    by (by rewrite ?Hplain || by rewrite Hlr). cbn [mbind result_bind].
  do 4 f_equal; apply fmap_indices; intros j x Hj.
  - assert (∃ id, stores_ m !! id = Some x) as (id & Hid).
    { apply list_elem_of_lookup_2, list_elem_of_fmap in Hj as ([id y] & -> & Hy%elem_of_kvs). by exists id. }
    rewrite (GetStoreFields_agrees _ _ x); [by apply wire_store_id, (Hl id)| |by eapply Hs].
    apply (agrees_ext fs).
    + intros n _. apply (put_indexed_notin PutRegionFields region_fields "region" (λ _ _ _, eq_refl)).
      intros i n' _. apply store_not_region.
    + exact (put_indexed_agrees PutStoreFields store_fields "store" (λ _ _ _, eq_refl)
        store_fields_nodup 0 (ListStores m) f0 j x Hj).
  - assert (∃ id, regions_ m !! id = Some x) as (id & Hid).
    { apply list_elem_of_lookup_2, list_elem_of_fmap in Hj as ([id y] & -> & Hy%elem_of_kvs). by exists id. }
    apply GetRegionFields_agrees; [|by eapply Hr].
    exact (put_indexed_agrees PutRegionFields region_fields "region" (λ _ _ _, eq_refl)
      region_fields_nodup 0 (Pd.ListRegions m) fs j x Hj).
Qed.

(** * The driver while three stores join *)

Section members.
Context (member : N → StoreInfo).

Definition member_ok (i : N) : Prop :=
  store_id (member i) = i ∧ store_ok (member i) ∧ labels (member i) = ∅.
Context (Hmember : ∀ i, i ∈ [1; 2; 3]%N → member_ok i).

Definition all_stores : gmap N StoreInfo :=
  <[1%N := member 1]> (<[2%N := member 2]> (<[3%N := member 3]> ∅)).
Definition settled : PdMetadataStore :=
  add_region_record whole_space (mkMeta 4 2 4 all_stores ∅ ∅).

(** Some of the stores are there and no region is; or all are, with the region. *)
Inductive joining : PdMetadataStore → Prop :=
  | joining_gathers ns stores :
      stores ⊆ all_stores → (0 < ns <= 4)%N → map_Forall (λ id _, (id < ns)%N) stores →
      joining (mkMeta ns 1 1 stores ∅ ∅)
  | joining_settled : joining settled.

Lemma all_stores_member id s : all_stores !! id = Some s → id ∈ [1; 2; 3]%N ∧ s = member id.
Proof.
  unfold all_stores. rewrite !lookup_insert_Some, lookup_empty.
  intros [[<- <-] | [_ [[<- <-] | [_ [[<- <-] | [_ [=]]]]]]]; split; (done || set_solver).
Qed.

Lemma member_here i : i ∈ [1; 2; 3]%N → all_stores !! i = Some (member i).
Proof. rewrite !elem_of_cons, elem_of_nil. by intros [-> | [-> | [-> | []]]]. Qed.

Lemma joining_sub m : joining m → stores_ m ⊆ all_stores.
Proof. by intros []. Qed.

Lemma joining_catalog m : joining m → catalog_ok m.
Proof.
  intros Hm. pose proof (joining_sub m Hm) as Hsub.
  assert (size (stores_ m) ≤ 3) as Hsize
    by (etrans; [by apply map_subseteq_size | by vm_compute; lia]).
  split.
  - destruct Hm as [ns stores _ [_ Hns] _|]; [|by vm_compute]. cbn. by split_and!; [eapply N.le_lt_trans| |].
  - split; [eapply N.le_lt_trans with 3%N; [lia | done]|]. by destruct Hm.
  - intros id s Hs. eapply lookup_weaken in Hs; [|exact Hsub].
    apply all_stores_member in Hs as [Hid ->]. by apply Hmember.
  - destruct Hm as [ns stores _ _ _|]; [done|]. cbn. intros id r [<- <-]%lookup_singleton_Some.
    apply (bool_decide_unpack _). by vm_compute.
Qed.

Lemma joining_labels m id s : joining m → stores_ m !! id = Some s → labels s = ∅.
Proof.
  intros Hm Hs. eapply lookup_weaken in Hs; [|by apply joining_sub].
  apply all_stores_member in Hs as [Hid ->]. by apply Hmember.
Qed.

(** ** What they ask of the driver *)

Lemma member_nonzero i : i ∈ [1; 2; 3]%N → i ≠ 0%N ∧ (i <= 3)%N.
Proof. rewrite !elem_of_cons, elem_of_nil. by intros [-> | [-> | [-> | []]]]. Qed.

Lemma join_again i : i ∈ [1; 2; 3]%N → <[i := member i]> all_stores = all_stores.
Proof. intros Hi. by apply insert_id, member_here. Qed.

Lemma settled_join i :
  i ∈ [1; 2; 3]%N →
  add_store_record (member i)
    (if (next_store_id_ settled <=? i)%N
     then SetNextIds (u64 (i + 1)) (next_region_id_ settled) (next_peer_id_ settled) settled
     else settled) = settled.
Proof.
  intros Hi. destruct (member_nonzero i Hi) as [_ H3]. destruct (Hmember i Hi) as (Hid & _ & _).
  unfold settled at 1. cbn [add_region_record next_store_id_]. rewrite (proj2 (N.leb_gt 4 i)) by lia.
  unfold add_store_record, settled.
  cbn [next_store_id_ next_region_id_ next_peer_id_ stores_ regions_ regions_by_start_key_ add_region_record].
  by rewrite Hid, join_again.
Qed.

(** The driver goes on: no store leaves, and the region stays. *)
Definition later (m m' : PdMetadataStore) : Prop :=
  stores_ m ⊆ stores_ m' ∧ (m = settled → m' = settled).

Lemma RegisterStore_joins i d m dir :
  i ∈ [1; 2; 3]%N → disk_ok d → joining m →
  ∃ d' m', RegisterStore (member i) (d, mkPd m dir) = (Ok (member i), (d', mkPd m' dir)) ∧
    disk_ok d' ∧ joining m' ∧ stores_ m' = <[i := member i]> (stores_ m) ∧ (m = settled → m' = settled).
Proof.
  intros Hi Hd Hm. destruct (member_nonzero i Hi) as [H0 H3].
  destruct (Hmember i Hi) as (Hid & _ & _).
  set (m1 := if (next_store_id_ m <=? i)%N
             then SetNextIds (u64 (i + 1)) (next_region_id_ m) (next_peer_id_ m) m else m).
  set (m' := add_store_record (member i) m1).
  destruct (Persist_any d (mkPd m' dir) Hd) as (d' & Hpersist & Hd').
  exists d', m'. split_and!; [|done| | |].
  - unfold RegisterStore. rewrite Hid, decide_False by done.
    assert ((m0 ← the_meta; _ ← (if (next_store_id_ m0 <=? i)%N then
       on_meta (modify (SetNextIds (u64 (i + 1)) (next_region_id_ m0) (next_peer_id_ m0))) else mret tt);
       mret (member i)) (d, mkPd m dir) = (Ok (member i), (d, mkPd m1 dir))) as Hnext.
    { unfold the_meta. run. cbn [snd metadata_]. unfold m1. by destruct (_ <=? i)%N. }
    run_call ltac:(exact Hnext).
    run_call ltac:(apply on_meta_run, PutStore_run; by rewrite Hid).
    by run_call ltac:(exact Hpersist).
  - destruct Hm as [ns stores Hsub Hns Hlt|].
    + unfold m', m1. cbn [next_store_id_ next_region_id_ next_peer_id_].
      assert (u64 (i + 1) = (i + 1)%N) as Hu by (apply u64_small; eapply N.le_lt_trans with 4%N; [lia | done]).
      destruct (N.leb_spec ns i); unfold SetNextIds, add_store_record;
        cbn [next_store_id_ next_region_id_ next_peer_id_ stores_ regions_ regions_by_start_key_];
        rewrite Hid, ?Hu; constructor; try lia.
      * rewrite <-(join_again i Hi). by apply insert_mono.
      * apply map_Forall_insert_2; [lia|]. eapply map_Forall_impl; [exact Hlt|]. cbn. intros. lia.
      * rewrite <-(join_again i Hi). by apply insert_mono.
      * by apply map_Forall_insert_2.
    + assert (m' = settled) as ->; [|constructor]. unfold m', m1. by apply settled_join.
  - unfold m', m1. destruct (_ <=? i)%N; unfold add_store_record; cbn; by rewrite Hid.
  - intros ->. unfold m', m1. by apply settled_join.
Qed.

Lemma joining_all m :
  joining m → stores_ m = all_stores → m = mkMeta 4 1 1 all_stores ∅ ∅ ∨ m = settled.
Proof.
  intros [ns stores _ Hns Hlt|]; [|by right]. cbn. intros ->. left.
  assert (3 < ns)%N as H3 by exact (Hlt 3%N (member 3) (member_here 3 (bool_decide_unpack (3 ∈ [1; 2; 3])%N I))).
  by assert (ns = 4)%N as -> by lia.
Qed.

(** Once the three are there, asking for the default region settles it. *)
Lemma Bootstrap_joins d m dir :
  disk_ok d → joining m → stores_ m = all_stores →
  ∃ d', BootstrapDefaultRegion [1; 2; 3]%N (d, mkPd m dir) = (Ok tt, (d', mkPd settled dir)) ∧ disk_ok d'.
Proof.
  intros Hd Hm Hall. unfold BootstrapDefaultRegion, the_meta. run. cbn [snd metadata_].
  destruct (joining_all m Hm Hall) as [-> | ->].
  - destruct (Persist_any d (mkPd settled dir) Hd) as (d' & Hrun & Hd').
    exists d'. split; [|done]. change (Pd.ListRegions _) with (@nil RegionInfo).
    rewrite bool_decide_eq_true_2 by done. cbn [negb]. rewrite decide_False by done.
    run_call ltac:(by apply on_meta_run).
    assert (new_peers [1; 2; 3]%N (mkMeta 4 2 1 all_stores ∅ ∅) =
      (Ok (peers whole_space), mkMeta 4 2 4 all_stores ∅ ∅)) as Hpeers by (vm_compute; reflexivity).
    run_call ltac:(apply on_meta_run; exact Hpeers).
    change (mkRegion _ "" "" (mkEpoch 1 1) (peers whole_space) _) with whole_space.
    run_call ltac:(by apply on_meta_run, PutRegion_run). exact Hrun.
  - exists d. split; [|done]. change (Pd.ListRegions settled) with [whole_space].
    by rewrite bool_decide_eq_false_2.
Qed.

(** ** The other stores *)

(** What another store's process sends, between two calls of this one; it asks for
    the region once it has seen three stores. *)
Inductive other :=
  | Registers (i : N)
  | Bootstraps.

#[export] Instance other_eq_dec : EqDecision other.
Proof. solve_decision. Defined.

Definition other_step (w : PdW) (o : other) : PdW :=
  match o with
  | Registers i => (RegisterStore (member i) w).2
  | Bootstraps =>
      if decide (size (stores_ (metadata_ w.2)) = 3) then (BootstrapDefaultRegion [1; 2; 3]%N w).2
      else w
  end.

Definition other_ok (o : other) : Prop :=
  match o with Registers i => i ∈ [1; 2; 3]%N | Bootstraps => True end.

Lemma all_joined m : joining m → size (stores_ m) = 3 → stores_ m = all_stores.
Proof. intros Hm Hs. apply map_subseteq_size_eq; [by apply joining_sub|]. by rewrite Hs. Qed.

Lemma joins_grow i m : i ∈ [1; 2; 3]%N → joining m → stores_ m ⊆ <[i := member i]> (stores_ m).
Proof.
  intros Hi Hm. apply map_subseteq_spec. intros j s Hj.
  destruct (decide (i = j)) as [<- | Hne]; [|by rewrite lookup_insert_ne].
  rewrite lookup_insert_eq. eapply lookup_weaken in Hj; [|by apply joining_sub].
  by rewrite member_here in Hj.
Qed.

Lemma others_join os : ∀ d m dir,
  Forall other_ok os → disk_ok d → joining m →
  ∃ d' m', foldl other_step (d, mkPd m dir) os = (d', mkPd m' dir) ∧ disk_ok d' ∧ joining m' ∧
    later m m' ∧ ∀ i, Registers i ∈ os → stores_ m' !! i = Some (member i).
Proof.
  induction os as [|o os IH]; intros d m dir Hos Hd Hm.
  { exists d, m. split; [done|]. split; [done|]. split; [done|]. split; [done|]. by intros i ?%elem_of_nil. }
  apply list.Forall_cons in Hos as [Ho Hos]. cbn [foldl].
  assert (∃ d1 m1, other_step (d, mkPd m dir) o = (d1, mkPd m1 dir) ∧ disk_ok d1 ∧ joining m1 ∧
    later m m1 ∧ ∀ i, o = Registers i → stores_ m1 !! i = Some (member i))
    as (d1 & m1 & -> & Hd1 & Hm1 & Hsub1 & Hr1).
  { destruct o as [i|]; cbn [other_step other_ok snd metadata_] in *.
    - destruct (RegisterStore_joins i d m dir Ho Hd Hm) as (d1 & m1 & -> & Hd1 & Hm1 & Heq & Hset).
      exists d1, m1. unfold later. rewrite Heq. split_and!; [done..|by apply joins_grow|done|].
      intros j [= <-]. apply lookup_insert_eq.
    - case_decide as Hsize; [|by exists d, m; split_and!].
      pose proof (all_joined m Hm Hsize) as Hall.
      destruct (Bootstrap_joins d m dir Hd Hm Hall) as (d1 & -> & Hd1).
      exists d1, settled. unfold later. split_and!; [done | done | constructor | by rewrite Hall | done | done]. }
  destruct (IH d1 m1 dir Hos Hd1 Hm1) as (d2 & m2 & -> & Hd2 & Hm2 & [Hsub2 Hset2] & Hr2).
  destruct Hsub1 as [Hsub1 Hset1]. exists d2, m2. unfold later.
  split_and!; [done..| by etrans | by auto |]. intros i [<- | Hi]%elem_of_cons; [|by apply Hr2].
  eapply lookup_weaken; [by apply Hr1 | done].
Qed.

(** ** The network of a starting store *)

(** A script of what the others do before each call, and the driver. *)
Abbreviation Shared := (list (list other) * PdW)%type.

Definition shared_net (pd : Endpoint) : Transport Shared := λ endpoint request '(script, w),
  let w := foldl other_step w (hd [] script) in
  let '(response, w') :=
    if decide (endpoint = pd) then answered request (Handle pd_rpc_server request w)
    else refused request w in
  (response, (tl script, w')).

Context (pd : Endpoint) (sd : Disk) (dir : string).
Local Existing Instance shared_net.
Abbreviation at_driver script d m lines := (((script, (d, mkPd m dir)), sd), lines).
Abbreviation Call := (CallRpc (Net := Shared) (Transport0 := shared_net pd) pd).

Lemma CallRpc_shared method fields id script d m lines :
  Forall (Forall other_ok) script → disk_ok d → joining m →
  ∃ d1 m1, disk_ok d1 ∧ joining m1 ∧ later m m1 ∧
    (∀ i, Registers i ∈ hd [] script → stores_ m1 !! i = Some (member i)) ∧
    ∀ (response : RpcRequest → RpcResponse) w',
      (∀ request, rq_method request = method → rq_payload request = EncodeFields fields →
        Handle pd_rpc_server request (d1, mkPd m1 dir) = (Ok (response request), w')) →
      ∃ request, Call method fields id (at_driver script d m lines) =
        (Ok (response request), (((tl script, w'), sd), lines)).
Proof.
  intros Hscript Hd Hm.
  destruct (others_join (hd [] script) d m dir) as (d1 & m1 & Hrun & Hd1 & Hm1 & Hsub & Hreg); [|done|done|].
  { destruct Hscript; [constructor | done]. }
  exists d1, m1. split_and!; [done..|]. intros response w' Hh. eexists. unfold CallRpc, tcp_call, shared_net.
  rewrite Hrun, decide_True by done. by rewrite Hh by done.
Qed.

Lemma status_handled request w :
  rq_method request = "pd.Status" →
  Handle pd_rpc_server request w =
    (Ok (MakeRpcOk request (EncodeFields (PdService.status_fields (metadata_ w.2)))), w).
Proof. intros Hm. dispatch Hm PdService.HandleStatus. reflexivity. Qed.

(** ** The loop *)

Definition all_members : list StoreInfo := [member 1; member 2; member 3].

Lemma all_listed m : joining m → stores_ m = all_stores → ListStores m = all_members.
Proof. intros Hm Hall. by destruct (joining_all m Hm Hall) as [-> | ->]. Qed.

(** A poll of the driver. *)
Lemma poll script d m lines id :
  Forall (Forall other_ok) script → disk_ok d → joining m →
  ∃ d1 m1 request, disk_ok d1 ∧ joining m1 ∧ later m m1 ∧
    (∀ i, Registers i ∈ hd [] script → stores_ m1 !! i = Some (member i)) ∧
    Call "pd.Status" ∅ id (at_driver script d m lines) =
      (Ok (MakeRpcOk request (EncodeFields (PdService.status_fields m1))),
       at_driver (tl script) d1 m1 lines).
Proof.
  intros Hscript Hd Hm.
  destruct (CallRpc_shared "pd.Status" ∅ id script d m lines Hscript Hd Hm)
    as (d1 & m1 & Hd1 & Hm1 & Hsub & Hreg & Hcall).
  destruct (Hcall (λ rq, MakeRpcOk rq (EncodeFields (PdService.status_fields m1))) (d1, mkPd m1 dir))
    as (request & Hrun); [intros rq Hmethod _; by rewrite status_handled|].
  by exists d1, m1, request.
Qed.


Lemma script_tail script : Forall (Forall other_ok) script → Forall (Forall other_ok) (tl script).
Proof. by destruct 1. Qed.

(** The region is there: one poll. *)
Lemma await_settled n script d lines attempt known :
  Forall (Forall other_ok) script → disk_ok d →
  ∃ script' d', await_regions (Transport0 := shared_net pd) pd 3 (S n) attempt known
      (at_driver script d settled lines) =
    (Ok (all_members, [whole_space]), at_driver script' d' settled lines) ∧ disk_ok d'.
Proof.
  intros Hscript Hd.
  destruct (poll script d settled lines ("store-pd-status-" +:+ to_string attempt) Hscript Hd joining_settled)
    as (d1 & m1 & rq & Hd1 & Hm1 & [_ Hset] & _ & Hcall).
  specialize (Hset eq_refl). subst m1. exists (tl script), d1. split; [|done].
  cbn [await_regions]. run_call ltac:(exact Hcall).
  rewrite DecodePdStatus_run by (by apply joining_catalog || by intros; eapply joining_labels).
  rewrite lift_ok_bind. reflexivity.
Qed.

Lemma enough_stores m1 :
  joining m1 →
  bool_decide (3 <= int_of_size (length (ListStores m1)))%Z = bool_decide (stores_ m1 = all_stores).
Proof.
  intros Hm1. unfold ListStores. rewrite length_fmap, kvs_length. apply bool_decide_ext.
  pose proof (map_subseteq_size _ _ (joining_sub m1 Hm1)) as Hle.
  change (size all_stores) with 3 in Hle. split.
  - intros H3. apply all_joined; [done|]. destruct (size (stores_ m1)) as [|[|[|[|k]]]]; [done..|lia].
  - by intros ->.
Qed.

Lemma member_id i : i ∈ [1; 2; 3]%N → store_id (member i) = i.
Proof. intros Hi. by destruct (Hmember i Hi). Qed.

Lemma find_member i :
  i ∈ [1; 2; 3]%N → List.find (λ s, (store_id s =? i)%N) all_members = Some (member i).
Proof.
  intros Hi. unfold all_members. cbn [List.find].
  rewrite (member_id 1), (member_id 2), (member_id 3) by (apply (bool_decide_unpack _); exact I).
  rewrite !elem_of_cons, elem_of_nil in Hi. by destruct Hi as [-> | [-> | [-> | []]]].
Qed.

(** The request for the default region. *)
Lemma members_request : bootstrap_fields all_members = (op_request (DoBootstrap [1; 2; 3]%N)).2.
Proof.
  unfold bootstrap_fields, all_members. cbn [imap length].
  pose proof (member_id 1 (bool_decide_unpack (1 ∈ [1; 2; 3])%N I)) as H1.
  pose proof (member_id 2 (bool_decide_unpack (2 ∈ [1; 2; 3])%N I)) as H2.
  pose proof (member_id 3 (bool_decide_unpack (3 ∈ [1; 2; 3])%N I)) as H3.
  unfold compose. rewrite H1, H2, H3. reflexivity.
Qed.

Lemma bootstrap_call script d m lines id :
  Forall (Forall other_ok) script → disk_ok d → joining m → stores_ m = all_stores →
  ∃ d1 request, disk_ok d1 ∧
    Call "pd.BootstrapDefaultRegion" (bootstrap_fields all_members) id (at_driver script d m lines) =
      (Ok (MakeRpcOk request ""), at_driver (tl script) d1 settled lines).
Proof.
  intros Hscript Hd Hm Hall.
  destruct (CallRpc_shared "pd.BootstrapDefaultRegion" (bootstrap_fields all_members) id script d m lines
    Hscript Hd Hm) as (d1 & m1 & Hd1 & Hm1 & [Hsub _] & _ & Hcall).
  rewrite Hall in Hsub.
  assert (stores_ m1 = all_stores) as Hall1 by (apply (anti_symm (⊆)); [by apply joining_sub | done]).
  destruct (Bootstrap_joins d1 m1 dir Hd1 Hm1 Hall1) as (d2 & Hrun & Hd2).
  destruct (Hcall (λ rq, MakeRpcOk rq "") (d2, mkPd settled dir)) as (request & Hresult).
  { intros rq Hmethod Hp. rewrite members_request in Hp.
    rewrite (bootstrap_handled [1; 2; 3]%N rq _ eq_refl small_ids Hmethod Hp).
    apply respond_run. by run_call ltac:(exact Hrun). }
  by exists d2, request.
Qed.

(** The others register within [m] polls: the loop ends with the three stores and
    the default region. *)
Lemma await_joins n : ∀ m script d md lines attempt known,
  Forall (Forall other_ok) script → disk_ok d → joining md → m + 2 ≤ n →
  (∀ i, i ∈ [1; 2; 3]%N → stores_ md !! i = Some (member i) ∨ Registers i ∈ concat (take m script)) →
  ∃ script' d', await_regions (Transport0 := shared_net pd) pd 3 n attempt known
      (at_driver script d md lines) =
    (Ok (all_members, [whole_space]), at_driver script' d' settled lines) ∧ disk_ok d'.
Proof.
  induction n as [|n IH]; intros m script d md lines attempt known Hscript Hd Hmd Hn Hreg; [lia|].
  destruct (poll script d md lines ("store-pd-status-" +:+ to_string attempt) Hscript Hd Hmd)
    as (d1 & m1 & rq & Hd1 & Hm1 & [Hsub Hset] & Hnew & Hcall).
  pose proof (script_tail _ Hscript) as Htl.
  cbn [await_regions]. unfold mbind at 1, M_bind at 1. rewrite Hcall.
  rewrite DecodePdStatus_run by (by apply joining_catalog || by intros; eapply joining_labels).
  rewrite lift_ok_bind. cbv beta iota. cbn [andb fst snd]. rewrite enough_stores by done.
  case_bool_decide as Hall.
  - rewrite (all_listed m1 Hm1 Hall). destruct (joining_all m1 Hm1 Hall) as [-> | ->].
    + change (Pd.ListRegions _) with (@nil RegionInfo). rewrite decide_True by done.
      destruct (bootstrap_call (tl script) d1 _ lines "store-bootstrap-region" Htl Hd1 Hm1 Hall)
        as (d2 & rq2 & Hd2 & Hcall2).
      run_call ltac:(exact Hcall2). cbn [MakeRpcOk rs_ok negb].
      destruct n as [|n]; [lia|]. apply await_settled; [by apply script_tail | done].
    + exists (tl script), d1. split; [reflexivity | done].
  - destruct m as [|m].
    { destruct Hall. apply (anti_symm (⊆)); [by apply joining_sub|]. apply map_subseteq_spec.
      intros i s Hi. apply all_stores_member in Hi as [Hin ->].
      destruct (Hreg i Hin) as [Hi | []%elem_of_nil]. by eapply lookup_weaken. }
    apply (IH m); [done..|lia|]. intros i Hi. destruct (Hreg i Hi) as [Hin | Hin].
    + left. by eapply lookup_weaken.
    + destruct script as [|os script]; [by apply elem_of_nil in Hin|].
      cbn [take concat] in Hin. apply elem_of_app in Hin as [Hin | Hin]; [left; by apply Hnew | by right].
Qed.

(** ** The process *)

(** Registering succeeds at the first attempt. *)
Lemma register_member i name script d m lines :
  i ∈ [1; 2; 3]%N → Forall (Forall other_ok) script → disk_ok d → joining m →
  ∃ d1 m1 request, disk_ok d1 ∧ joining m1 ∧ later m m1 ∧
    (∀ j, j = i ∨ Registers j ∈ hd [] script → stores_ m1 !! j = Some (member j)) ∧
    register_attempts (Transport0 := shared_net pd) pd (PutStoreFields ∅ (member i) "") name 100 0
      no_response (at_driver script d m lines) =
    (Ok (MakeRpcOk request (EncodeFields (PutStoreFields ∅ (member i) ""))),
     at_driver (tl script) d1 m1 lines).
Proof.
  intros Hi Hscript Hd Hm. destruct (Hmember i Hi) as (Hid & Hok & Hl).
  destruct (CallRpc_shared "pd.RegisterStore" (PutStoreFields ∅ (member i) "") (name +:+ to_string 0)
    script d m lines Hscript Hd Hm) as (d1 & m1 & Hd1 & Hm1 & [Hsub Hset] & Hnew & Hcall).
  destruct (RegisterStore_joins i d1 m1 dir Hi Hd1 Hm1) as (d2 & m2 & Hrun & Hd2 & Hm2 & Heq & Hset2).
  destruct (Hcall (λ rq, MakeRpcOk rq (EncodeFields (PutStoreFields ∅ (member i) ""))) (d2, mkPd m2 dir))
    as (request & Hresult).
  { intros rq Hmethod Hp. rewrite (register_handled (member i)) by done.
    apply respond_run. by run_call ltac:(exact Hrun). }
  exists d2, m2, request. rewrite Heq. split_and!; [done | done | | |].
  - split; [rewrite Heq; etrans; [exact Hsub | by apply joins_grow] | by auto].
  - intros j [-> | Hj]; [apply lookup_insert_eq|].
    eapply lookup_weaken; [by apply Hnew | by apply joins_grow].
  - cbn [register_attempts]. by run_call ltac:(exact Hresult).
Qed.

(** A store of the distributed mode, configured as member [i], comes up as its
    directory has it, provided the others register before its 199th call; they
    have, when the driver has settled and the process starts again. *)
Lemma store_joins kernel config i bound_port script d m lines w :
  i ∈ [1; 2; 3]%N → local_store config = member i →
  GetStringOr "store.mode" "" config = "distributed" →
  Config.GetIntOr "cluster.store_count" 3 config = 3%Z →
  ParseEndpoint (E := Z) (GetStringOr "pd.endpoints" "127.0.0.1:7000" config) 7000 = Ok pd →
  StoreNode.Bootstrap (GetStringOr "store.data_dir" "./data/store1" config) (member i) all_members
    [whole_space] (sd, new_store_node) = (Ok tt, w) →
  Tcp.Start kernel (Some (store_rpc_server (Transport0 := shared_net pd)))
    (host (client_endpoint (member i))) (port (client_endpoint (member i))) = Ok bound_port →
  Forall (Forall other_ok) script → disk_ok d → joining m →
  (∀ j, j ∈ [1; 2; 3]%N → j ≠ i →
     stores_ m !! j = Some (member j) ∨ Registers j ∈ concat (take 199 script)) →
  ∃ script' d' lines',
    RunStoreService (Transport0 := shared_net pd) kernel config (at_driver script d m lines) =
      (Ok (over_store (Some w.2), store_rpc_server (Transport0 := shared_net pd), bound_port),
       (((script', (d', mkPd settled dir)), w.1), lines')) ∧ disk_ok d'.
Proof.
  intros Hi Hlocal Hmode Hcount Hpd Hrun Hstart Hscript Hd Hm Hreg.
  destruct (Hmember i Hi) as (Hid & Hok & Hl).
  destruct (register_member i ("store-register-" +:+ to_string (store_id (member i)) +:+ "-")
    script d m lines Hi Hscript Hd Hm) as (d1 & m1 & rq & Hd1 & Hm1 & [Hsub _] & Hnew & Hregister).
  destruct (await_joins 200 198 (tl script) d1 m1 lines 0 ([], [])) as (script2 & d2 & Hawait & Hd2);
    [by apply script_tail | done | done | lia | |].
  { intros j Hj. destruct (decide (j = i)) as [-> | Hne]; [left; apply Hnew; by left|].
    destruct (Hreg j Hj Hne) as [Hin | Hin]; [left; by eapply lookup_weaken|].
    destruct script as [|os script]; [by apply elem_of_nil in Hin|].
    change (take 199 (os :: script)) with (os :: take 198 script) in Hin. cbn [concat] in Hin.
    apply elem_of_app in Hin as [Hin | Hin]; [left; apply Hnew; by right | by right]. }
  destruct w as [sd' node]. exists script2, d2. eexists. split; [|exact Hd2].
  unfold RunStoreService. rewrite decide_True by exact Hmode. unfold RunDistributedStoreService.
  run_call ltac:(unfold pd_endpoint, lift; by rewrite Hpd). rewrite Hlocal, Hcount.
  run_call ltac:(exact Hregister). cbn [MakeRpcOk rs_ok negb].
  run_call ltac:(by apply decoded_store_run). run_call ltac:(exact Hawait). cbn [fst snd].
  rewrite (decide_False (P := [whole_space] = [])) by discriminate. run. cbn [fst snd].
  rewrite (decide_False (P := [whole_space] = [])) by discriminate.
  run_call ltac:(unfold or_exit, on_object; rewrite Hrun; reflexivity).
  unfold serve_store. run_call ltac:(unfold or_exit, lift; by rewrite RegisterHandlers_store).
  run_call ltac:(unfold or_exit, lift; by rewrite Hstart). reflexivity.
Qed.

(** ** The driver that has settled *)

Lemma other_reachable w o :
  other_ok o → pd_reachable w → joining (metadata_ w.2) → pd_reachable (other_step w o).
Proof.
  intros Ho Hw Hm.
  assert (next_store_id_ (metadata_ w.2) <= 4 ∧ next_region_id_ (metadata_ w.2) <= 2 ∧
    next_peer_id_ (metadata_ w.2) <= 4)%N as (Hs & Hr & Hp)
    by (destruct Hm as [ns stores _ [_ Hns] _|]; cbn; lia).
  assert (∀ a b, (a <= b)%N → (b < two64)%N → (a < two64)%N) as Hlt by (intros; lia).
  destruct o as [i|]; cbn [other_step other_ok] in *.
  - apply (pd_next (DoRegisterStore (member i))); [done|]. destruct (member_nonzero i Ho) as [_ H3].
    cbn [pd_permitted]. destruct (Hmember i Ho) as (-> & _). split; [apply (Hlt _ 5%N) | apply (Hlt _ 4%N)]; (lia || done).
  - case_decide; [|done]. apply (pd_next (DoBootstrap [1; 2; 3]%N)); [done|].
    split; [apply (bool_decide_unpack _); vm_compute; exact I|].
    split; [apply (Hlt _ 3%N) | apply (Hlt _ 7%N)]; cbn [length]; (lia || done).
Qed.

Lemma others_reachable os : ∀ d m dir,
  Forall other_ok os → disk_ok d → joining m → pd_reachable (d, mkPd m dir) →
  pd_reachable (foldl other_step (d, mkPd m dir) os).
Proof.
  induction os as [|o os IH]; intros d m dir' Hos Hd Hm Hw; [done|].
  apply list.Forall_cons in Hos as [Ho Hos].
  destruct (others_join [o] d m dir') as (d1 & m1 & Hrun & Hd1 & Hm1 & _); [by constructor | done..|].
  pose proof (other_reachable _ o Ho Hw Hm) as Hw1. cbn [foldl] in *. rewrite Hrun in *. by apply IH.
Qed.

Lemma joining_new : joining new_metadata.
Proof. constructor; [apply map_empty_subseteq | done | apply map_Forall_empty]. Qed.

Lemma settled_reachable dir0 : ∃ d, pd_reachable (d, mkPd settled dir0).
Proof.
  set (os := [Registers 1; Registers 2; Registers 3; Bootstraps]).
  assert (Forall other_ok os) as Hos
    by (repeat constructor; apply (bool_decide_unpack _); vm_compute; exact I).
  destruct (others_join [Registers 1; Registers 2; Registers 3] (mkDisk ∅ []) new_metadata dir0)
    as (d & m & Hrun & Hd & Hm & _ & Hin); [by apply (Forall_take other_ok 3) in Hos | done | apply joining_new |].
  assert (stores_ m = all_stores) as Hall.
  { apply (anti_symm (⊆)); [by apply joining_sub|]. apply map_subseteq_spec.
    intros i s [Hi ->]%all_stores_member. apply Hin.
    rewrite !elem_of_cons, elem_of_nil in Hi. destruct Hi as [-> | [-> | [-> | []]]]; set_solver. }
  pose proof (others_reachable os (mkDisk ∅ []) new_metadata dir0 Hos eq_refl joining_new (pd_start _ _)) as Hw.
  change os with ([Registers 1; Registers 2; Registers 3] ++ [Bootstraps]) in Hw. rewrite foldl_app in Hw.
  rewrite Hrun in Hw. cbn [foldl other_step snd metadata_] in Hw.
  rewrite decide_True in Hw by by rewrite Hall.
  destruct (Bootstrap_joins d m dir0 Hd Hm Hall) as (d' & Hboot & _). rewrite Hboot in Hw.
  by exists d'.
Qed.

Lemma settled_meta_ok : meta_ok settled.
Proof. destruct (settled_reachable "") as (d & Hd). exact (reachable_meta_ok _ Hd). Qed.

(** Its routes lead to member 1. *)
Lemma settled_knows d :
  driver_knows whole_space (member 1) (d, mkPd settled dir).
Proof.
  intros key e _ (st & Hr & Hst & He). cbn [snd metadata_] in *.
  destruct (key_has_region settled key settled_meta_ok) as (r' & Hr' & Hin & _); [discriminate|].
  rewrite Hr in Hr'. injection Hr' as <-.
  change (Pd.ListRegions settled) with [whole_space] in Hin. apply list_elem_of_singleton in Hin.
  rewrite Hin in Hst |- *. split; [reflexivity|].
  change (GetRegionLeaderStore settled whole_space) with (Some (member 1)) in Hst.
  injection Hst as <-. by rewrite He.
Qed.
End members.

(** * The cluster *)

Section cluster.
Context (config : N → Config) (gc : Config) (pd store gw : Endpoint).
Context (ups : list N) (kernel : N → Kernel) (kg kd : Kernel) (sd : N → Disk)
        (script : N → list (list other)) (d0 : Disk) (dir : string) (dashboard : option Z).
Abbreviation member := (λ i, local_store (config i)).
Abbreviation ep i := (client_endpoint (member i)).

(** The gateway as it starts. *)
Definition the_gateway : RpcGatewayClient ClusterWorld :=
  new_rpc_gateway (Some (TcpRpcClient (Transport0 := cluster_net pd) pd))
    (Some (TcpRpcClient (Transport0 := cluster_net pd) store)) true.

(** The processes [ups] of the three, member 1 among them and another, on
    directories without the default region; their configurations name the driver
    and the gateway's its dynamic routing. Between a store's calls the others do
    theirs, as [script] says, and have registered before its 199th call. *)
Record deployed : Prop := {
  dp_members : ∀ i, i ∈ [1; 2; 3]%N → member_ok member i;
  dp_ups : ∀ i, i ∈ ups → i ∈ [1; 2; 3]%N;
  dp_majority : 1%N ∈ ups ∧ ∃ j, j ∈ ups ∧ j ≠ 1%N;
  dp_mode : ∀ i, i ∈ ups → GetStringOr "store.mode" "" (config i) = "distributed" ∧
    Config.GetIntOr "cluster.store_count" 3 (config i) = 3%Z ∧
    ParseEndpoint (E := Z) (GetStringOr "pd.endpoints" "127.0.0.1:7000" (config i)) 7000 = Ok pd;
  dp_fresh : ∀ i, i ∈ ups → disk_ok (sd i) ∧
    files (sd i) !! path_join (node_dir (GetStringOr "store.data_dir" "./data/store1" (config i))
      whole_space) "kv.log" = None;
  dp_ports : ∀ i, i ∈ ups →
    Tcp.Start (kernel i) (Some (store_rpc_server (Transport0 := shared_net member pd)))
      (host (ep i)) (port (ep i)) = Ok (port (ep i));
  dp_apart : ∀ i j, i ∈ [1; 2; 3]%N → j ∈ [1; 2; 3]%N → ep i = ep j → i = j;
  dp_driver : ep 1%N ≠ pd;
  dp_script : ∀ i, i ∈ ups → Forall (Forall other_ok) (script i) ∧
    ∀ j, j ∈ [1; 2; 3]%N → j ≠ i → Registers j ∈ concat (take 199 (script i));
  dp_gateway : GetStringOr "gateway.store_routing" "" gc = "dynamic" ∧
    dashboard_up kd gc the_gateway dashboard ∧
    ParseEndpoint (E := Z) (GetStringOr "pd.endpoints" "127.0.0.1:7000" gc) 7000 = Ok pd ∧
    ParseEndpoint (E := Z) (GetStringOr "store.endpoint" "127.0.0.1:8101" gc) 8101 = Ok store ∧
    Tcp.Start kg (Some (gateway_rpc_server (Transport0 := cluster_net pd)))
      (GetStringOr "gateway.host" "127.0.0.1" gc)
      (Config.GetIntOr "gateway.http_port" 18080 gc) = Ok (port gw);
}.

(** The run of a store's process, and the disk and the node it ends with. *)
Definition store_run (i : N) :=
  RunStoreService (Transport0 := shared_net member pd) (kernel i) (config i)
    (((script i, (d0, mkPd new_metadata dir)), sd i), []).
Definition process (i : N) : Disk * DistributedStoreNode :=
  match store_run i with
  | (Ok (service, _, _), ((_, d), _)) => (d, default new_store_node (distributed_store_ service))
  | (_, ((_, d), _)) => (d, new_store_node)
  end.

(** The processes by endpoint. *)
Definition group : Group := list_to_map ((λ i, (ep i, process i)) <$> ups).

Section run.
Context (Hdep : deployed) (Hd0 : disk_ok d0).

Lemma member_peer i : i ∈ [1; 2; 3]%N → local_peer_of (member i) whole_space = Some (mkPeer i i kVoter).
Proof.
  intros Hi. unfold local_peer_of. rewrite (proj1 (dp_members Hdep i Hi)).
  rewrite !elem_of_cons, elem_of_nil in Hi. by destruct Hi as [-> | [-> | [-> | []]]].
Qed.

Lemma store_up i :
  i ∈ ups →
  (∃ script' d' lines', store_run i =
    (Ok (over_store (Some (process i).2), store_rpc_server (Transport0 := shared_net member pd), port (ep i)),
     (((script', (d', mkPd (settled member) dir)), (process i).1), lines'))) ∧
  started whole_space (all_members member) (member i) (process i).
Proof.
  intros Hi. destruct Hdep as [Hm Hups _ Hmode Hfresh Hports _ _ Hscript _].
  destruct (Hmode i Hi) as (Hdist & Hcount & Hpd). destruct (Hfresh i Hi) as [Hsd Hf].
  destruct (Hscript i Hi) as [Hok Hreg].
  destruct (new_node_start whole_space (all_members member) _ (member i) (mkPeer i i kVoter) (sd i) Hsd Hf)
    as (sd' & e & Hboot & _); [by apply member_peer, Hups|].
  destruct (store_joins member Hm pd (sd i) dir (kernel i) (config i) i (port (ep i)) (script i) d0
    new_metadata [] _ (Hups i Hi) eq_refl Hdist Hcount Hpd Hboot (Hports i Hi) Hok Hd0)
    as (script' & d' & lines' & Hrun & _); [apply joining_new | intros j Hj Hne; right; by apply Hreg |].
  assert (process i = (sd', mkStoreNode (member i) (all_members member)
    (GetStringOr "store.data_dir" "./data/store1" (config i))
    {[region_id whole_space := new_replica whole_space (all_members member) (member i) (mkPeer i i kVoter) e]})) as ->.
  { unfold process, store_run. by rewrite Hrun. }
  split; [by exists script', d', lines' | do 2 eexists; split_and!; [exact Hsd | exact Hf | exact Hboot]].
Qed.

Lemma group_lookup i : i ∈ ups → group !! ep i = Some (process i).
Proof.
  intros Hi. apply elem_of_list_to_map_1'.
  - intros w (j & Hj & Hin)%list_elem_of_fmap. apply pair_equal_spec in Hj as [Hep ->].
    f_equal. apply (dp_apart Hdep); [by apply (dp_ups Hdep)..|exact Hep].
  - by apply (list_elem_of_fmap_2 (λ i, (ep i, process i))).
Qed.

Lemma member_in_group i w : group !! ep i = Some w → i ∈ [1; 2; 3]%N → i ∈ ups.
Proof.
  intros (j & Hj & Hin)%elem_of_list_to_map_2%list_elem_of_fmap Hi. apply pair_equal_spec in Hj as [Hep _].
  by rewrite (dp_apart Hdep i j Hi (dp_ups Hdep j Hin) Hep).
Qed.

(** Who answers member 1's calls: the other members that are up. *)
Lemma member_answers up j :
  j ∈ [1; 2; 3]%N →
  answering (up ∖ {[ep 1%N]}) (NodeRestart.booted (member 1%N) (all_members member) whole_space (mkPeer 1 1 kVoter)
    new_engine (fresh_raft (mkPeer 1 1 kVoter) whole_space)) (mkPeer j j kVoter) =
    bool_decide (j ≠ 1%N ∧ ep j ∈ up).
Proof.
  intros Hj. destruct (decide (j = 1%N)) as [-> | Hne].
  { rewrite answering_self by done. by rewrite bool_decide_eq_false_2 by by intros [[] _]. }
  rewrite (answering_store _ _ _ (member j)).
  - apply bool_decide_ext. rewrite elem_of_difference, elem_of_singleton. split.
    + by intros [].
    + intros [_ Hup]. split; [done|]. intros Hep. apply Hne.
      apply (dp_apart Hdep); [done | apply list_elem_of_here | done].
  - exact Hne.
  - unfold FindStoreByPeer, NodeRestart.booted. cbn [dn_region dn_stores peer_id].
    rewrite <-(find_member member (dp_members Hdep) j Hj).
    rewrite !elem_of_cons, elem_of_nil in Hj. by destruct Hj as [-> | [-> | [-> | []]]].
Qed.

(** Member 1 and another one are a majority. *)
Lemma members_quorum up j :
  j ∈ [1; 2; 3]%N → j ≠ 1%N → ep j ∈ up →
  quorum whole_space (all_members member) (member 1%N) (mkPeer 1 1 kVoter) up.
Proof.
  intros Hj Hne Hup. unfold quorum.
  change (peers whole_space) with [mkPeer 1 1 kVoter; mkPeer 2 2 kVoter; mkPeer 3 3 kVoter].
  rewrite !answers_of_cons, !member_answers by (apply (bool_decide_unpack _); vm_compute; exact I).
  change (answers_of _ _ []) with 0. cbn [length].
  rewrite !elem_of_cons, elem_of_nil in Hj. destruct Hj as [-> | [-> | [-> | []]]]; [done|..].
  - rewrite (bool_decide_eq_true_2 (2%N ≠ 1%N ∧ _)) by done. repeat case_bool_decide; lia.
  - rewrite (bool_decide_eq_true_2 (3%N ≠ 1%N ∧ _)) by done. repeat case_bool_decide; lia.
Qed.

Lemma none_stopped (up : gset Endpoint) : up ## dom (∅ : Group).
Proof. rewrite dom_empty_L. apply disjoint_empty_r. Qed.

Lemma designated_1 : designated whole_space (member 1%N) (mkPeer 1 1 kVoter).
Proof. by split; [| | apply member_peer, list_elem_of_here|]. Qed.

Lemma group_serving k :
  (N.of_nat k < two64)%N →
  serving whole_space (all_members member) (member 1%N) (mkPeer 1 1 kVoter) k group
    (fresh_raft (mkPeer 1 1 kVoter) whole_space) ∅.
Proof.
  intros Hk. destruct (dp_majority Hdep) as [H1 _]. apply started_serving.
  - intros endpoint w (i & Hi & Hin)%elem_of_list_to_map_2%list_elem_of_fmap.
    apply pair_equal_spec in Hi as [-> ->]. exists (member i), (mkPeer i i kVoter).
    split; [by apply store_up | by apply member_peer, (dp_ups Hdep)].
  - exact designated_1.
  - exists (process 1%N). split; [by apply group_lookup | by apply store_up].
  - exact Hk.
Qed.

Lemma group_has i : i ∈ ups → ep i ∈ dom group.
Proof. intros Hi. eapply elem_of_dom_2, group_lookup, Hi. Qed.

Lemma group_quorum :
  quorum whole_space (all_members member) (member 1%N) (mkPeer 1 1 kVoter) (dom group).
Proof.
  destruct (dp_majority Hdep) as [_ (j & Hj & Hne)].
  apply (members_quorum _ j); [by apply (dp_ups Hdep) | done | by apply group_has].
Qed.
End run.

(** C8: A cluster of the distributed mode started from nothing is one map at the
    command line. Three stores are configured for one driver; at least two of
    their processes, the first one included, start on directories without the
    default region, while the other stores send their requests to the driver in
    between, in any order, and register before 199 calls of a process have gone
    by. Each of the processes comes up, whatever the order, hosting a replica of
    the default region; the gateway with dynamic routing comes up; and every
    sequence of [put], [delete] and [get] invocations of the client, of keys without
    the prefix [raft/] and no [put] or [delete] of the empty key, prints what a
    single map that starts empty would, the first store being elected on the way.
    (No layer refuses the other keys, on which the stores are not one map.) *)
Theorem distributed_cluster_is_one_map d_pd d_gw program text ops :
  deployed → disk_ok d0 → Cli.ParseEndpoint text = Ok gw → Forall (group_op whole_space) ops →
  (N.of_nat (length ops) < two64)%N →
  let pdw := (d_pd, mkPd (settled member) dir) in
  (∀ i, i ∈ ups → ∃ script' d' lines', store_run i =
    (Ok (over_store (Some (process i).2), store_rpc_server (Transport0 := shared_net member pd), port (ep i)),
     (((script', (d', mkPd (settled member) dir)), (process i).1), lines'))) ∧
  ∃ lines,
    RunGatewayService (Transport0 := cluster_net pd) kg kd gc (((pdw, group), d_gw), []) =
      (Ok (the_gateway, gateway_rpc_server (Transport0 := cluster_net pd), port gw, dashboard),
       (((pdw, group), d_gw), lines)) ∧
    invocations (Transport0 := front_net (cluster_net pd) gw) program (command_line text <$> ops)
      ((pdw, group), the_gateway) = (λ r, printed (over_rpc r)) <$> spec_session ops ∅.
Proof.
  intros Hdep Hd0 Htext Hops Hlen pdw. split; [by intros i Hi; apply store_up|].
  destruct (dp_gateway Hdep) as (Hroute & Hdash & Hgpd & Hgs & Hstart).
  destruct (RunGatewayService_listens (Transport0 := cluster_net pd) kg kd gc pd store (port gw) dashboard
    ((pdw, group), d_gw) []) as (lines & Hrun); [|exact Hgpd | exact Hgs | exact Hstart |].
  { by rewrite bool_decide_eq_true_2 by exact Hroute. }
  rewrite bool_decide_eq_true_2 in Hrun by exact Hroute. exists lines. split; [exact Hrun|].
  pose proof (settled_meta_ok member (dp_members Hdep)) as Hmeta.
  pose proof (joining_catalog member (dp_members Hdep) _ (joining_settled member)) as Hcat.
  assert (Pd.ListRegions (metadata_ pdw.2) ≠ []) as Hboot by discriminate.
  apply (invocations_serve (W := Group) (Transport0 := cluster_net pd)
    (Transport1 := front_net (cluster_net pd) gw) (PdClient0 := cluster_pd_client pd)
    pdw Hmeta Hcat Hboot (TcpRpcClient (Transport0 := cluster_net pd) store) true
    (KvStore0 := cluster_store pd whole_space (all_members member) (member 1%N) (mkPeer 1 1 kVoter)
       (dp_driver Hdep) (designated_1 Hdep) pdw Hmeta Hcat Hboot _
       (settled_knows member (dp_members Hdep) dir d_pd) (dom group) ∅
       (group_has Hdep _ (proj1 (dp_majority Hdep))) (none_stopped _))
    gw (GatewayAt0 := front_net_at (cluster_net pd) gw) program text ops Htext 0).
  - eapply list.Forall_impl; [exact Hops|]. intros op Hop. split; [exact Hop|].
    intros _. exact (group_quorum Hdep).
  - rewrite Nat.add_0_r. split; [reflexivity|]. exists (fresh_raft (mkPeer 1 1 kVoter) whole_space).
    rewrite map_union_empty. exact (group_serving Hdep Hd0 _ Hlen).
  - apply map_Forall_empty.
Qed.
End cluster.

(** The configurations of config/distributed_store1.yaml to distributed_store3.yaml
    and config/distributed_gateway.yaml. *)
Definition read_config (lines : list string) : Config := mkConfig (parse_lines lines ([], ∅)).2.
Definition store_yaml (i : N) : list string :=
  let n := to_string i in
  [ "role: store"; "store:"; "  id: " +:+ n; "  mode: distributed"; "  host: 127.0.0.1";
    "  raft_port: 710" +:+ n; "  client_port: 810" +:+ n; "  data_dir: ./data/store" +:+ n;
    "cluster:"; "  store_count: 3"; "pd:"; "  endpoints: 127.0.0.1:7000"; "raft:";
    "  heartbeat_interval_ms: 50"; "  election_timeout_min_ms: 150";
    "  election_timeout_max_ms: 300"; "  snapshot_threshold: 100000" ].
Definition gateway_yaml : list string :=
  [ "role: gateway"; "gateway:"; "  id: gateway1"; "  host: 127.0.0.1"; "  http_port: 18080";
    "  route_cache_ttl_ms: 30000"; "  store_routing: dynamic"; "dashboard:"; "  enabled: true";
    "  host: 127.0.0.1"; "  port: 9090"; "pd:"; "  endpoints: 127.0.0.1:7000"; "store:";
    "  endpoint: 127.0.0.1:8101" ].

(** Store 2 registers and dies; store 3 registers late. *)
Definition store_script (i : N) : list (list other) :=
  if decide (i = 1%N) then [[]; [Registers 2]; []; [Registers 3; Bootstraps]]
  else [[Registers 1]; [Registers 2; Bootstraps]].
Definition yaml_config (i : N) : Config := read_config (store_yaml i).

Lemma yaml_store i :
  i ∈ [1; 2; 3]%N →
  local_store (yaml_config i) = mkStore i (mkEndpoint "127.0.0.1" (7100 + Z.of_N i))
    (mkEndpoint "127.0.0.1" (8100 + Z.of_N i)) "Up" ∅ 0.
Proof.
  rewrite !elem_of_cons, elem_of_nil. intros [-> | [-> | [-> | []]]]; vm_compute; reflexivity.
Qed.

Lemma yaml_member i : i ∈ [1; 2; 3]%N → member_ok (λ i, local_store (yaml_config i)) i.
Proof.
  intros Hi. unfold member_ok. rewrite (yaml_store i Hi). split; [reflexivity|]. split; [|reflexivity].
  rewrite !elem_of_cons, elem_of_nil in Hi. unfold store_ok.
  cbn [store_id raft_endpoint client_endpoint last_heartbeat_ms port]. unfold two31, two63, two64. lia.
Qed.

Lemma yaml_port i :
  i ∈ [1; 2; 3]%N → port (client_endpoint (local_store (yaml_config i))) = (8100 + Z.of_N i)%Z.
Proof. intros Hi. by rewrite (yaml_store i Hi). Qed.

Lemma yaml_deployed :
  deployed yaml_config (read_config gateway_yaml) (local 7000) (local 8101) (local 18080) [1; 3]%N
    (λ _, open_kernel) open_kernel open_kernel (λ _, mkDisk ∅ []) store_script (Some 9090%Z).
Proof.
  assert (∀ i, i ∈ [1; 3]%N → i = 1%N ∨ i = 3%N) as Hups
    by (intros i; rewrite !elem_of_cons, elem_of_nil; tauto).
  split.
  - exact yaml_member.
  - intros i [-> | ->]%Hups; apply (bool_decide_unpack _); vm_compute; exact I.
  - split; [apply list_elem_of_here|]. exists 3%N.
    split; [apply (bool_decide_unpack _); vm_compute; exact I | discriminate].
  - intros i [-> | ->]%Hups; vm_compute; split_and!; reflexivity.
  - intros i _. split; [reflexivity | apply lookup_empty].
  - intros i [-> | ->]%Hups; vm_compute; reflexivity.
  - intros i j Hi Hj Hep. pose proof (yaml_port i Hi) as Hpi. pose proof (yaml_port j Hj) as Hpj.
    rewrite Hep, Hpj in Hpi. lia.
  - intros Hep. pose proof (yaml_port 1 (bool_decide_unpack (1 ∈ [1; 2; 3])%N I)) as Hp.
    rewrite Hep in Hp. discriminate Hp.
  - intros i [-> | ->]%Hups; (split; [repeat constructor; apply (bool_decide_unpack _); vm_compute; exact I|]);
      intros j; rewrite !elem_of_cons, elem_of_nil; intros [-> | [-> | [-> | []]]] Hne;
      first [by destruct Hne | apply (bool_decide_unpack _); vm_compute; exact I].
  - split_and!; [vm_compute; reflexivity | | vm_compute; reflexivity..].
    unfold dashboard_up. rewrite decide_True by (vm_compute; reflexivity). exists 9090%Z. by split.
Qed.

Lemma distributed_cluster_is_one_map_witness :
  ∃ w3 world,
    (store_run yaml_config (local 7000) (λ _, open_kernel) (λ _, mkDisk ∅ []) store_script
       (mkDisk ∅ []) "./data/pd1" 3).1 =
      Ok (over_store (Some w3), store_rpc_server (Transport0 := shared_net (λ i, local_store (yaml_config i)) (local 7000)), 8103%Z) ∧
    invocations (Transport0 := front_net (cluster_net (local 7000)) (local 18080)) "rstone-cli"
      [["--endpoint"; "127.0.0.1:18080"; "put"; "city"; "paris"];
       ["--endpoint"; "127.0.0.1:18080"; "get"; "city"; "linearizable"];
       ["--endpoint"; "127.0.0.1:18080"; "delete"; "city"];
       ["--endpoint"; "127.0.0.1:18080"; "get"; "city"; "eventual"]]
      world =
    [(Ok 0%Z, mkConsole ("OK" +:+ newline) "");
     (Ok 0%Z, mkConsole ("paris" +:+ newline) "");
     (Ok 0%Z, mkConsole ("OK" +:+ newline) "");
     (Ok 1%Z, mkConsole "" ("RPC_ERROR: KEY_NOT_FOUND: key not found: city" +:+ newline))].
Proof.
  destruct (distributed_cluster_is_one_map yaml_config (read_config gateway_yaml) (local 7000) (local 8101)
    (local 18080) [1; 3]%N (λ _, open_kernel) open_kernel open_kernel (λ _, mkDisk ∅ []) store_script
    (mkDisk ∅ []) "./data/pd1" (Some 9090%Z) (mkDisk ∅ []) (mkDisk ∅ []) "rstone-cli" "127.0.0.1:18080"
    cli_session yaml_deployed) as [Hup (lines & _ & Hsession)].
  - reflexivity.
  - reflexivity.
  - repeat constructor; discriminate.
  - reflexivity.
  - destruct (Hup 3%N) as (script' & d' & lines' & Hrun); [apply (bool_decide_unpack _); vm_compute; exact I|].
    eexists _, _. split; [exact (f_equal fst Hrun) | exact Hsession].
Defined.

(** The same cluster when the processes stop and start: store 3 and then the first
    store, which leads. One cached route names a region nobody hosts. *)
Abbreviation yaml_member_of := (λ i, local_store (yaml_config i)).
Abbreviation yaml_group :=
  (group yaml_config (local 7000) [1; 3]%N (λ _, open_kernel) (λ _, mkDisk ∅ []) store_script
     (mkDisk ∅ []) "./data/pd1").
Definition misleading_cache : RouteCache :=
  {[9%N := mkRoute (mkRegion 9 "" "" (mkEpoch 1 1) [] 0) (yaml_member_of 1%N) 0]}.
Definition restarts (s1 s3 : StoreInfo) : list event :=
  [ Asks (CPut "city" "paris"); Stops s3; Asks (CGet "city" kLinearizable);
    Stops s1; Asks (CGet "city" kEventual); Starts s3; Starts s1;
    Asks (CGet "city" kLinearizable); Asks (CPut "city" "rome"); Stops s1; Starts s1;
    Asks (CGet "city" kLinearizable) ].

Lemma restarts_ok stores p s1 s3 (up : gset Endpoint) :
  client_endpoint s1 ∈ up → client_endpoint s3 ∈ up → client_endpoint s1 ≠ client_endpoint s3 →
  (∃ p, local_peer_of s1 whole_space = Some p) → (∃ p, local_peer_of s3 whole_space = Some p) →
  (∀ up, client_endpoint s3 ∈ up → quorum whole_space stores s1 p up) →
  events_ok whole_space stores s1 p up (restarts s1 s3) up.
Proof.
  intros H1 H3 Hne Hp1 Hp3 Hq. unfold restarts. cbn [events_ok is_write].
  repeat match goal with
  | |- _ ∧ _ => split
  | |- group_op _ _ => split; [reflexivity | split; [reflexivity | first [exact I | discriminate]]]
  | |- True => exact I
  | |- _ → false = true → _ => intros _ [=]
  | |- _ → true = true → _ => intros _ _; apply Hq; set_solver
  | |- _ ∈ _ => assumption
  | |- ∃ _, _ => assumption
  | |- _ → _ = _ => congruence
  end.
Qed.

Lemma restarts_seen s1 s3 (up : gset Endpoint) :
  client_endpoint s1 ∈ up → client_endpoint s1 ≠ client_endpoint s3 →
  spec_events s1 (restarts s1 s3) up ∅ =
  [Ok None; Ok (Some "paris"); Err (mkStatus kRpcError "RPC_ERROR: failed to connect tcp rpc server");
   Ok (Some "paris"); Ok None; Ok (Some "rome")].
Proof.
  intros H1 Hne. unfold restarts. cbn [spec_events].
  repeat (first [rewrite decide_True by set_solver | rewrite decide_False by set_solver];
          cbn [spec_client_step spec_events]).
  reflexivity.
Qed.

Lemma yaml_up i : i ∈ [1; 3]%N → client_endpoint (yaml_member_of i) ∈ dom yaml_group.
Proof. intros Hi. eapply group_has; [exact yaml_deployed | exact Hi]. Qed.

Lemma yaml_hosts i :
  i ∈ [1; 3]%N → ∃ p, local_peer_of (yaml_member_of i) whole_space = Some p.
Proof.
  intros Hi. exists (mkPeer i i kVoter). eapply member_peer; [exact yaml_deployed|].
  rewrite !elem_of_cons, elem_of_nil in Hi.
  destruct Hi as [-> | [-> | []]]; apply (bool_decide_unpack _); vm_compute; exact I.
Qed.

Lemma yaml_apart : client_endpoint (yaml_member_of 1%N) ≠ client_endpoint (yaml_member_of 3%N).
Proof. cbv beta. rewrite !yaml_store by (apply (bool_decide_unpack _); vm_compute; exact I). discriminate. Qed.

Lemma yaml_quorum (up : gset Endpoint) :
  client_endpoint (yaml_member_of 3%N) ∈ up →
  quorum whole_space (all_members yaml_member_of) (yaml_member_of 1%N) (mkPeer 1 1 kVoter) up.
Proof.
  intros Hup. eapply members_quorum; [exact yaml_deployed | | | exact Hup];
    apply (bool_decide_unpack _); vm_compute; exact I.
Qed.

Lemma cluster_recovers_witness :
  ∃ d, cluster_events (Transport0 := cluster_net (local 7000)) whole_space (all_members yaml_member_of)
    (restarts (yaml_member_of 1%N) (yaml_member_of 3%N)) ∅ (at_gateway (PdClient0 := cluster_pd_client (local 7000))
       (d, mkPd (settled yaml_member_of) "./data/pd1")
       (TcpRpcClient (Transport0 := cluster_net (local 7000)) (local 8101)) true yaml_group
       misleading_cache 1) =
  [Ok None; Ok (Some "paris"); Err (mkStatus kRpcError "RPC_ERROR: failed to connect tcp rpc server");
   Ok (Some "paris"); Ok None; Ok (Some "rome")].
Proof.
  destruct (settled_reachable _ yaml_member "./data/pd1") as (d & Hd). exists d.
  pose proof (bool_decide_unpack (1 ∈ [1; 3])%N I) as I1.
  pose proof (bool_decide_unpack (3 ∈ [1; 3])%N I) as I3.
  pose proof (yaml_up 1%N I1) as H1. pose proof (yaml_up 3%N I3) as H3.
  rewrite (cluster_recovers (local 7000) whole_space (all_members yaml_member_of) (yaml_member_of 1%N)
    (mkPeer 1 1 kVoter) (d, mkPd (settled yaml_member_of) "./data/pd1")
    (fresh_raft (mkPeer 1 1 kVoter) whole_space) yaml_group ∅ _ misleading_cache 1 (restarts (yaml_member_of 1%N) (yaml_member_of 3%N)) ∅).
  - exact (restarts_seen _ _ _ H1 yaml_apart).
  - exact (dp_driver _ _ _ _ _ _ _ _ _ _ _ _ yaml_deployed).
  - eapply designated_1, yaml_deployed.
  - exact Hd.
  - exact (joining_catalog _ yaml_member _ (joining_settled _)).
  - discriminate.
  - exact (settled_knows _ yaml_member "./data/pd1" d).
  - apply map_disjoint_empty_r.
  - rewrite map_union_empty. eapply group_serving; [exact yaml_deployed | reflexivity | reflexivity].
  - apply map_Forall_singleton. split; reflexivity.
  - rewrite dom_empty_L, union_empty_r_L. exact (restarts_ok _ _ _ _ _ H1 H3 yaml_apart (yaml_hosts 1%N I1) (yaml_hosts 3%N I3) yaml_quorum).
Defined.
